(* ===== verification/_CoqProject ===== *)
-Q . S2P
Prelude.v
GoStrings.v
Float64.v
Database.v
WorkerStore.v
Algorithm.v
JobStore.v
Lifecycle.v
Invariant.v
StoreSound.v
Redis.v
Streams.v
Effects.v
Stores.v
CacheProps.v
Loop.v
Reaper.v
RetryPoller.v
GrpcServer.v
Autoscaler.v
Api.v
Metrics.v
System.v
Scenario.v
SystemProps.v
StoreProps.v
SchedulerProps.v
GrpcProps.v
AutoscalerProps.v
ApiProps.v
Divergences.v
Capacity.v
Executor.v
Agent.v
AgentSim.v
AgentProps.v
Handshake.v
Leader.v
LeaderProps.v
Crypto.v
Auth.v
AuthProps.v
GoText.v
Router.v
Config.v
ConfigProps.v
MetricsProps.v
Registry.v
Ctl.v
CtlMain.v
Startup.v
Races.v
Outage.v
Ordering.v
Starvation.v
EndToEnd.v
Delivery.v
Orphans.v
Partitions.v
Replica.v
ReplicaProps.v
