(* ===== verification/Prelude.v ===== *)
(** * FleetForge: a verification development

    FleetForge schedules builds.  Clients submit jobs over REST; workers
    register over gRPC, send heartbeats, receive assignments in the replies and
    report results; a leader-elected scheduler moves jobs from Redis streams to
    workers, reaps silent workers, wakes up retries and drains idle workers.
    PostgreSQL holds the authoritative state; Redis holds a cache of worker
    states and the job streams.

    ** Parts and files

    - Prelude: errors, machine integers, tactics, hints, list lemmas.
    - GoStrings: strconv (decimal, booleans) and strings.Join / Split.
    - Float64: the float64 operations of the scheduler on exact integers in
      units of 2^-83, with correct rounding to 53 bits.
    - Database: the tables of internal/store/postgres/migrations as records and
      finite maps, statements and transactions as a state-and-error monad.
    - WorkerStore, JobStore: the methods of internal/store/postgres/workers.go
      and jobs.go, one statement or transaction each.
    - Algorithm: internal/scheduler/algorithm.go.
    - Lifecycle: the abstract job state machine the store implements.
    - Invariant, StoreSound: the database invariant [wf_db], how a database may
      change ([evolves]), what every store method does on every branch, and
      that it respects both.
    - Redis: the Redis server as a class of commands with the documented hash
      laws, and an in-memory instance.  Streams: the documented laws of streams
      with a consumer group, which the instance satisfies.
    - Effects: programs as trees of external calls; running, tracing and
      interleaving them; every call is sound.
    - Stores: the store methods made of several calls, internal/store/redis
      (cache.go, queue.go) and the Backend interface of internal/queue.
    - Loop, Reaper, RetryPoller, Autoscaler: internal/scheduler.
    - GrpcServer: internal/grpcserver (RegisterWorker, Heartbeat,
      ReportJobResult).
    - Api: the handlers of internal/api.
    - System: all of the above as one interleaved system; Scenario: a concrete
      execution used to instantiate the theorems.
    - Executor, Agent: worker-agent-runtime and cmd/worker-agent, the process
      on a worker as interleaved goroutines over its mutex-guarded state, and
      the abstract agent it implements; AgentSim: the simulation.
    - Handshake: the agent and the gRPC server together; EndToEnd: a job from
      its submission to its result, through all components; Delivery, Orphans:
      properties of executions in which Redis keeps its data.
    - Partitions: the month partitions of the jobs table (migration 000003) and
      programs over a table that has exactly those.
    - Leader: internal/scheduler/leader.go, replicas over the advisory lock.
    - Crypto, Auth: SHA-256, HMAC and base64url as executable functions, and
      internal/auth/jwt.go on top of them.
    - GoText: strings.TrimSpace, Cut, CutPrefix and strconv.Atoi.
    - Router: internal/api/router.go and middleware_auth.go.
    - Config: internal/config.  Metrics: internal/metrics (the collectors,
      their registration, the gauge collector).
    - Ctl, CtlMain: cmd/fleetforgectl, its actions and its command tree.
    - Startup: cmd/scheduler's and cmd/worker-agent's main up to serving,
      postgres.NewPool, redis.NewClient, auth/mtls.go.
    - Replica: cmd/scheduler's process while it runs: its loops and servers,
      the leader gate, and shutdown, any number of processes interleaved.

    ** How code becomes definitions

    A SQL statement or transaction is a function of an environment and the
    database ([stmt]); pgx.BeginFunc rolls back on error.  The environment
    fixes both clocks, the next generated id, the order of unordered scans
    (any permutation) and whether the call, its reply, or neither is lost.
    Handlers and ticks are [prog]s over one-call steps; log output is omitted.
    A loop that runs for ever (Run) is represented by one turn; Replica repeats
    the turns, and takes from the sequential loop of the source that a turn
    starts when the one before has ended.  Fuel is used
    in two places: SHA-256's block loop has the number of words of the padded
    message ([blocks_fuel]: more changes nothing), and TrimSpace the length of
    its text ([trim_done]: nothing is left to trim).  The agent's goroutines are
    trees of commands, so each ends; a bound for the whole process is proved.
    Integers are [Z], wrapped to their width where the code computes with them;
    times are nanoseconds.

    ** What is proved

    - SystemProps: over all interleavings, faults and Redis contents, the
      invariant (retry budget and attempt numbers included), the refinement of
      the lifecycle, finality of finished jobs, the fencing of superseded
      epochs, stable identities.
    - Capacity: no worker is over-committed when requests run one at a time.
      Races: interleaved requests can over-commit one, and can submit a job
      twice under one idempotency key.
    - StoreProps: complete descriptions of AssignJob, FreeWorker,
      MarkDeadAndRequeue, RetryOrFail, Register, draining and the backoff.
    - SchedulerProps: acknowledgement discipline and progress of the loop,
      completeness of the reaper's sweep and of the retry poller.  Delivery:
      over all interleavings a job that is still QUEUED keeps its queue entry
      (while Redis keeps its data and the stream is below MAXLEN).  Orphans:
      over all interleavings a reaped job whose entry is gone stays QUEUED for
      ever.  Ordering: no priority inversion within a pass, but one between the
      two passes of a turn.  Starvation: pending entries beyond
      the ten oldest of a stream are not tried again while those wait.
    - Outage: Redis never changes what an operation answers or leaves in
      Postgres; heartbeats while Redis, or Postgres, is down, and the status
      change that waits for the coalescing window after an outage.
    - GrpcProps: the epoch check and fencing of heartbeats, acceptance and
      idempotence of results.  ApiProps: validation and idempotent submission.
    - CacheProps: round trips through the cache and the queue encoding.
    - AutoscalerProps: exact thresholds, the trend window, cooldowns, and that
      only idle workers are drained.  Algorithm: the float comparison of
      SelectLeastLoaded picks the exactly least loaded candidate.
    - AgentProps: over every interleaving of its goroutines and all answers of
      the scheduler, the agent refines a sequential automaton step by step,
      builds are serial with one report attempt each, heartbeats are well
      formed, and without new input it comes to rest in a bounded number of
      steps.
    - Handshake, EndToEnd: an assigned job is delivered, run and settled; a job
      submitted to an idle queue is assigned by the next turn of the loop, and
      so settled.
    - LeaderProps: at most one live leader, takeover of a free lock, no lost
      lock.  ReplicaProps: every execution of the processes is one of the system
      and of the cluster; a turn with calls starts only where the elector keeps
      the connection it locked on; a replica whose flag is down, for good after
      its elector returned, only finishes turns it had in flight.
    - AuthProps, Router: tokens round trip, acceptance implies the signature,
      writes need their scope.  Ctl, CtlMain: a minted token is authorized; the
      tool's exit status.
    - ConfigProps, MetricsProps, Startup: parsing, gauges, startup checks.
      Registry: registration succeeds and every counter series is documented.
    - Partitions: nothing differs for at least 89 days after the migration, and
      from 123 days on submissions fail without a trace; at any time a missing
      partition is a failed Postgres call, so the theorems for all faults hold.
    - Divergences, and theorems at the ends of Handshake, LeaderProps, Outage
      and Ordering: executions the repository's docs and comments rule out.

    ** Assumptions and limits

    Transactions are atomic steps (READ COMMITTED anomalies inside one
    transaction are not represented).  Ids are canonical UUIDs; a malformed id,
    which Postgres rejects, is not distinguished from an unknown one.  The jobs
    table is keyed by id, which gen_random_uuid makes unique; an insert that no
    partition takes is a Postgres call that fails (Partitions, with the
    server's time zone UTC).  max_retries is below the
    largest int32, where retries + 1 would wrap.  INTEGER columns do not
    overflow inside statements: FreeWorker's available_capacity + 1 (a worker
    would need 2^31 - 1 free slots) and attempt_number are unbounded.  Timestamps
    keep nanoseconds, where Postgres stores microseconds.  Every process reads
    the streams under the one consumer name main fixes.  SelectLeastLoaded and the
    thresholds are exact for fewer than 2^26 slots or workers.  JSON and
    RFC 3339 formatting are parameters or outside the model.

    ** Not modelled

    encoding/json (a class with its round trip law for token claims; request
    bodies are given decoded), strconv.ParseFloat (a parameter), chi's answers
    to unknown routes, cobra's search and flag parsing (a class with its
    documented laws), the table writer's padding, Prometheus's registry (a
    class) and text format, what net/http and grpc-go do inside their listeners
    (when Shutdown and GracefulStop return is a condition of Replica's steps),
    and the migration tool; generated protobuf code is represented by the
    records of GrpcServer.  Indexes that only speed up reads and the job_events
    table, which no code uses, are left out of the schema. *)

From Stdlib Require Export ZArith Lia.
From stdpp Require Export base tactics numbers list gmap strings sorting option.


Local Open Scope Z_scope.

(** ** Errors

    A fallible Go function returns a value and an [error]; it is modelled by
    [result].  The constructors of [goerr] are the errors the code tells
    apart. *)
Inductive goerr :=
  | ErrNoRows                     (** [pgx.ErrNoRows] *)
  | ErrJobNotFound                (** [postgres.ErrJobNotFound] *)
  | ErrJobAssignRaceLost          (** [errJobAssignRaceLost] *)
  | ErrConstraint                 (** a CHECK, UNIQUE or FOREIGN KEY violation *)
  | ErrOutOfRange                 (** a value that does not fit its column *)
  | ErrInvalidText                (** a text value that is no enum label *)
  | ErrDriver.                    (** any other error: connection loss, timeout, no partition *)

#[global] Instance goerr_eq_dec : EqDecision goerr.
Proof. solve_decision. Defined.

Inductive result (A : Type) :=
  | Ok (a : A)
  | Err (e : goerr).
Arguments Ok {A} a.
Arguments Err {A} e.

Definition result_bind {A B} (m : result A) (f : A -> result B) : result B :=
  match m with Ok a => f a | Err e => Err e end.

Definition is_ok {A} (r : result A) : bool :=
  match r with Ok _ => true | Err _ => false end.

(** ** Machine integers

    Go integers of width [w] are [Z] values kept in range by wrapping. *)
Definition wrap (w z : Z) : Z := (z + 2 ^ (w - 1)) mod 2 ^ w - 2 ^ (w - 1).
Definition int32 (z : Z) : Z := wrap 32 z.
Definition int64 (z : Z) : Z := wrap 64 z.
Definition max_int32 : Z := 2147483647.
Definition max_int64 : Z := 9223372036854775807.

Lemma wrap_range w z : 0 < w -> - 2 ^ (w - 1) <= wrap w z < 2 ^ (w - 1).
Proof.
  intros Hw. unfold wrap.
  assert (E : 2 ^ w = 2 * 2 ^ (w - 1)).
  { rewrite <- (Z.pow_succ_r 2 (w - 1)) by lia. f_equal; lia. }
  pose proof (Z.pow_pos_nonneg 2 (w - 1)).
  pose proof (Z.mod_pos_bound (z + 2 ^ (w - 1)) (2 ^ w)). lia.
Qed.

Lemma wrap_id w z : 0 < w -> - 2 ^ (w - 1) <= z < 2 ^ (w - 1) -> wrap w z = z.
Proof.
  intros Hw Hz. unfold wrap.
  assert (E : 2 ^ w = 2 * 2 ^ (w - 1)).
  { rewrite <- (Z.pow_succ_r 2 (w - 1)) by lia. f_equal; lia. }
  rewrite Z.mod_small by lia. lia.
Qed.

Lemma int32_id z : - 2147483648 <= z <= max_int32 -> int32 z = z.
Proof. unfold max_int32. intros. apply wrap_id; [lia|]. change (2 ^ (32 - 1)) with 2147483648. lia. Qed.

Lemma int64_id z : - 9223372036854775808 <= z <= max_int64 -> int64 z = z.
Proof. unfold max_int64. intros. apply wrap_id; [lia|]. change (2 ^ (64 - 1)) with 9223372036854775808. lia. Qed.

(** ** Durations, in nanoseconds ([time.Duration]) *)
Definition Second : Z := 1000000000.
Definition Minute : Z := 60 * Second.

(** ** Optional strings: the empty string stands for "absent" in Go structs,
    [nil] in pointers and NULL in columns *)
Definition ptr_of_string (s : string) : option string :=
  if decide (s = "") then None else Some s.
Definition string_of_ptr (p : option string) : string := default "" p.

Lemma string_of_ptr_of_string s : string_of_ptr (ptr_of_string s) = s.
Proof. unfold ptr_of_string. case_decide; by subst. Qed.

(** ** Tactics and hints *)
Create HintDb fleet.

(** Split on every conditional, match and decision of the goal. *)
Ltac case_all := repeat (case_match || case_decide); simplify_eq/=; try done.

(** Case analysis on the first conditional of a hypothesis. *)
Ltac case_in H :=
  match type of H with
  | context [match ?x with _ => _ end] => destruct x eqn:?
  end.

Ltac case_all_in H := repeat (case_in H; simplify_eq/=).

(** ** Lists and finite maps *)

(** A fold over a list that keeps an invariant. *)
Lemma foldl_invariant {A B} (I : B -> Prop) (f : B -> A -> B) (l : list A) (b : B) :
  I b -> (forall b a, a ∈ l -> I b -> I (f b a)) -> I (foldl f b l).
Proof.
  revert b. induction l as [|a l IH]; intros b Hb Hf; simpl; [done|].
  apply IH; [apply Hf; [left|done]|]. intros b' a' Ha'. apply Hf. by right.
Qed.

(** The values of a map, in the order of a list of keys. *)
Lemma elem_of_omap_lookup {A} (m : gmap string A) (ks : list string) (x : A) :
  x ∈ omap (fun k => m !! k) ks <-> exists k, k ∈ ks /\ m !! k = Some x.
Proof. apply list_elem_of_omap. Qed.

Lemma filter_none {A} (P : A -> Prop) `{!forall x, Decision (P x)} (l : list A) :
  (forall x, x ∈ l -> ~ P x) -> filter P l = [].
Proof.
  intros Hn. destruct (filter P l) as [|x l'] eqn:E; [done|].
  assert (Hx : x ∈ filter P l) by (rewrite E; left).
  apply list_elem_of_filter in Hx as [Hp Hin]. by destruct (Hn x Hin).
Qed.

(** A decidable statement about every integer of a range, by evaluation. *)
Lemma forallb_range (P : Z -> bool) lo n x :
  forallb P (seqZ lo n) = true -> lo <= x < lo + n -> P x = true.
Proof.
  intros H Hx. rewrite forallb_forall in H. apply H, list_elem_of_In, elem_of_seqZ. lia.
Qed.
