(* ===== verification/GoStrings.v ===== *)
(** * The parts of Go's [strings] and [strconv] packages the program uses

    Go strings are byte sequences, as [string] is.  [Itoa]/[FormatInt] print
    in base 10, [ParseInt] reads an optional sign and decimal digits and
    reports syntax and range errors with the value Go returns next to the
    error (the callers in store/redis/cache.go drop the error and use that
    value).  [Split] and [Join] take the one-byte separators the program
    passes. *)
From Stdlib Require Import Ascii DecimalString DecimalPos DecimalZ DecimalFacts.
From S2P Require Import Prelude.
Local Open Scope Z_scope.

(** ** strconv *)
Module strconv.

Inductive numerr := ErrSyntax | ErrRange.

Definition digit (c : Ascii.ascii) : option Z :=
  let n := Z.of_N (Ascii.N_of_ascii c) in
  if (48 <=? n) && (n <=? 57) then Some (n - 48) else None.

(** Digits of [s] read after the value [acc]. *)
Fixpoint parse_digits (acc : Z) (s : string) : option Z :=
  match s with
  | "" => Some acc
  | String c s' =>
      match digit c with
      | Some d => parse_digits (10 * acc + d) s'
      | None => None
      end
  end.

Definition parse_uint (s : string) : option Z :=
  match s with "" => None | _ => parse_digits 0 s end.

(** [strconv.ParseInt(s, 10, bits)]: the value and the error it returns. *)
Definition ParseInt (s : string) (bits : Z) : Z * option numerr :=
  let cutoff := 2 ^ (bits - 1) in
  match s with
  | "" => (0, Some ErrSyntax)
  | String c rest =>
      let neg := Ascii.eqb c "-"%char in
      let body := if neg || Ascii.eqb c "+"%char then rest else s in
      match parse_uint body with
      | None => (0, Some ErrSyntax)
      | Some un =>
          if negb neg && (cutoff <=? un) then (cutoff - 1, Some ErrRange)
          else if neg && (cutoff <? un) then (- cutoff, Some ErrRange)
          else (if neg then - un else un, None)
      end
  end.

(** [strconv.Itoa] and [strconv.FormatInt(z, 10)]. *)
Definition Itoa (z : Z) : string := NilZero.string_of_int (Z.to_int z).

(** [strconv.ParseBool]: the value, [false] when it reports an error. *)
Definition ParseBool (s : string) : bool :=
  bool_decide (s ∈ ["1"; "t"; "T"; "true"; "TRUE"; "True"]).

Lemma parse_digits_uint (d : Decimal.uint) (p : positive) :
  parse_digits (Zpos p) (NilEmpty.string_of_uint d) = Some (Zpos (Pos.of_uint_acc d p)).
Proof.
  revert p. induction d; intros p; cbn [NilEmpty.string_of_uint parse_digits digit];
    [done|..];
    (match goal with |- context [digit ?c] => let v := eval vm_compute in (digit c) in
       replace (digit c) with v by reflexivity end);
    cbn beta iota; cbn [Pos.of_uint_acc]; rewrite <- IHd; f_equal; lia.
Qed.

Lemma parse_digits_of_uint (d : Decimal.uint) :
  parse_digits 0 (NilEmpty.string_of_uint d) = Some (Z.of_uint d).
Proof.
  unfold Z.of_uint.
  induction d; cbn [NilEmpty.string_of_uint parse_digits Pos.of_uint]; [done|..];
    (match goal with |- context [digit ?c] => let v := eval vm_compute in (digit c) in
       replace (digit c) with v by reflexivity end);
    cbn beta iota; [exact IHd|..];
    (match goal with |- parse_digits ?x _ = _ => let v := eval vm_compute in x in
       change x with v end);
    by rewrite parse_digits_uint.
Qed.

Lemma uint_string_nonempty (d : Decimal.uint) :
  d <> Decimal.Nil -> NilEmpty.string_of_uint d <> "".
Proof. by destruct d. Qed.

Lemma parse_uint_of_uint (d : Decimal.uint) :
  d <> Decimal.Nil -> parse_uint (NilEmpty.string_of_uint d) = Some (Z.of_uint d).
Proof.
  intros Hd. unfold parse_uint.
  destruct (NilEmpty.string_of_uint d) as [|c s] eqn:E; [by apply uint_string_nonempty in Hd|].
  rewrite <- E. apply parse_digits_of_uint.
Qed.

Lemma uint_string_head (d : Decimal.uint) c s :
  NilEmpty.string_of_uint d = String c s ->
  Ascii.eqb c "-"%char = false /\ Ascii.eqb c "+"%char = false.
Proof. destruct d; simpl; intros; simplify_eq; done. Qed.

Lemma to_int_shape (z : Z) :
  (exists d, Z.to_int z = Decimal.Pos d /\ d <> Decimal.Nil /\ Z.of_uint d = z /\ 0 <= z) \/
  (exists d, Z.to_int z = Decimal.Neg d /\ d <> Decimal.Nil /\ - Z.of_uint d = z /\ z < 0).
Proof.
  pose proof (DecimalZ.of_to z) as E.
  destruct z as [|p|p]; cbn in *.
  - left. eexists. done.
  - left. eexists. split; [done|]. split; [apply Unsigned.to_uint_nonnil|]. split; [exact E|lia].
  - right. eexists. split; [done|]. split; [apply Unsigned.to_uint_nonnil|]. split; [exact E|lia].
Qed.

(** Printing an integer and reading it back at a width it fits in gives the
    integer and no error. *)
Lemma ParseInt_Itoa (z bits : Z) :
  - 2 ^ (bits - 1) <= z < 2 ^ (bits - 1) -> ParseInt (Itoa z) bits = (z, None).
Proof.
  intros Hz. unfold Itoa.
  destruct (to_int_shape z) as [(d & -> & Hd & Hv & Hs)|(d & -> & Hd & Hv & Hs)];
    unfold NilZero.string_of_int, NilZero.string_of_uint;
    destruct d eqn:Ed; try done; rewrite <- Ed in *;
    destruct (NilEmpty.string_of_uint d) as [|c s] eqn:Es;
    try (by apply uint_string_nonempty in Hd).
  all: pose proof (parse_uint_of_uint d Hd) as Hp; rewrite Es in Hp.
  all: try (pose proof (uint_string_head _ _ _ Es) as [Hm Hpl]).
  all: unfold ParseInt; rewrite ?Hm, ?Hpl; cbn -[Z.pow parse_uint Z.sub];
       rewrite Hp; cbn -[Z.pow Z.sub];
       (destruct (Z.leb_spec (2 ^ (bits - 1)) (Z.of_uint d)); try lia);
       (destruct (Z.ltb_spec (2 ^ (bits - 1)) (Z.of_uint d)); try lia);
       cbn -[Z.pow]; f_equal; lia.
Qed.

End strconv.

(** ** strings *)
Module gostrings.

Definition comma : Ascii.ascii := ","%char.

(** Membership of a byte in a string. *)
Fixpoint contains_byte (c : Ascii.ascii) (s : string) : bool :=
  match s with
  | "" => false
  | String c' s' => Ascii.eqb c c' || contains_byte c s'
  end.

(** [strings.Split(s, sep)] for a one-byte [sep]: always at least one piece. *)
Fixpoint Split (s : string) (sep : Ascii.ascii) : list string :=
  match s with
  | "" => [""]
  | String c s' =>
      if Ascii.eqb c sep then "" :: Split s' sep
      else match Split s' sep with
           | p :: ps => String c p :: ps
           | [] => [String c ""]
           end
  end.

(** [strings.Join(l, sep)] for a one-byte [sep]. *)
Fixpoint Join (l : list string) (sep : Ascii.ascii) : string :=
  match l with
  | [] => ""
  | [s] => s
  | s :: l' => s +:+ String sep (Join l' sep)
  end.

Lemma Split_cons s sep : exists p ps, Split s sep = p :: ps.
Proof. induction s as [|c s (p & ps & IH)]; simpl; [eauto|]. case_match; [eauto|]. rewrite IH. eauto. Qed.

Lemma Split_no_sep s sep : contains_byte sep s = false -> Split s sep = [s].
Proof.
  induction s as [|c s IH]; simpl; [done|]. intros [Hc Hs]%orb_false_iff.
  assert (Ascii.eqb c sep = false) as ->.
  { rewrite Ascii.eqb_neq in *. congruence. }
  by rewrite IH.
Qed.

Lemma Split_app_sep s t sep :
  contains_byte sep s = false -> Split (s +:+ String sep t) sep = s :: Split t sep.
Proof.
  induction s as [|c s IH]; simpl.
  - by rewrite Ascii.eqb_refl.
  - intros [Hc Hs]%orb_false_iff.
    assert (Ascii.eqb c sep = false) as ->.
    { rewrite Ascii.eqb_neq in *. congruence. }
    by rewrite IH.
Qed.

(** Splitting a joined non-empty list gives the list back when no piece
    contains the separator. *)
Lemma Split_Join l sep :
  l <> [] -> (forall s, s ∈ l -> contains_byte sep s = false) -> Split (Join l sep) sep = l.
Proof.
  induction l as [|s l IH]; [done|]. intros _ H.
  destruct l as [|s' l].
  - simpl. apply Split_no_sep, H. left.
  - change (Join (s :: s' :: l) sep) with (s +:+ String sep (Join (s' :: l) sep)).
    rewrite Split_app_sep by (apply H; left). f_equal.
    apply IH; [done|]. intros t Ht. apply H. by right.
Qed.

Lemma Join_nonempty l sep :
  Join l sep = "" <-> l = [] \/ l = [""].
Proof.
  split.
  - destruct l as [|s [|s' l]]; simpl; [by left|by intros ->; right|].
    by destruct s.
  - by intros [-> | ->].
Qed.

End gostrings.

(** ** Injectivity of printing and of appending *)
#[export] Instance Itoa_inj : Inj (=) (=) strconv.Itoa.
Proof.
  intros x y E. set (bits := Z.abs x + Z.abs y + 2).
  assert (Hb : Z.abs x + Z.abs y < 2 ^ (bits - 1)).
  { pose proof (Z.pow_gt_lin_r 2 (bits - 1)). unfold bits in *. lia. }
  pose proof (strconv.ParseInt_Itoa x bits ltac:(lia)) as Hx.
  pose proof (strconv.ParseInt_Itoa y bits ltac:(lia)) as Hy. congruence.
Qed.

Lemma string_length_app (s t : string) :
  String.length (s +:+ t) = (String.length s + String.length t)%nat.
Proof.
  induction s as [|c s IH]; [done|].
  change (S (String.length (s +:+ t)) = S (String.length s + String.length t)). by rewrite IH.
Qed.

Lemma append_inj_suffix (s1 s2 t1 t2 : string) :
  String.length t1 = String.length t2 -> s1 +:+ t1 = s2 +:+ t2 -> s1 = s2 /\ t1 = t2.
Proof.
  intros Hlen. revert s2. induction s1 as [|c s1 IH]; intros [|c2 s2] E.
  - done.
  - exfalso. change (t1 = String c2 s2 +:+ t2) in E. subst t1. rewrite string_length_app in Hlen.
    simpl in Hlen. lia.
  - exfalso. change (String c s1 +:+ t1 = t2) in E. subst t2. rewrite string_length_app in Hlen.
    simpl in Hlen. lia.
  - change (String c (s1 +:+ t1) = String c2 (s2 +:+ t2)) in E. injection E as -> E. by destruct (IH s2 E) as [-> ->].
Qed.
