(* ===== verification/Float64.v ===== *)
(** * float64 quotients

    scheduler/algorithm.go and scheduler/autoscaler.go divide two int32 values
    as float64.  Such a quotient is zero or has magnitude between 2^-31 and
    2^31, so the IEEE 754 double nearest to it is a normal number and an
    integer multiple of 2^-83.  A float64 of that range is held exactly, as the
    integer number of 2^-83 units; [round53] is round-to-nearest-even to 53
    significant bits.  [f64_div] agrees with the Standard Library's executable
    IEEE division (examples at the end). *)
From Stdlib Require Import SpecFloat.
From S2P Require Import Prelude.
Local Open Scope Z_scope.

Abbreviation f64 := Z (only parsing).

(** One, in units of 2^-83. *)
Definition f64_unit : Z := 2 ^ 83.

(** The integer nearest to n/e, ties to even. *)
Definition rne (n e : Z) : Z :=
  let t := n / e in
  let r := n mod e in
  if 2 * r <? e then t
  else if e <? 2 * r then t + 1
  else if Z.even t then t else t + 1.

(** n/d units rounded to 53 significant bits. *)
Definition ulp (n d : Z) : Z := 2 ^ Z.max 0 (Z.log2 (n / d) - 52).
Definition round53 (n d : Z) : Z := ulp n d * rne n (d * ulp n d).

(** float64(a) / float64(b) for int32 values, b > 0. *)
Definition f64_div (a b : Z) : f64 := Z.sgn a * round53 (Z.abs a * f64_unit) b.

(** The float64 value of an int32. *)
Definition f64_of_int (a : Z) : f64 := a * f64_unit.

(** Sum and product of float64 values in this range. *)
Definition f64_add (x y : f64) : f64 := Z.sgn (x + y) * round53 (Z.abs (x + y)) 1.
Definition f64_mul (x y : f64) : f64 := Z.sgn (x * y) * round53 (Z.abs (x * y)) f64_unit.

(** int(x): truncation toward zero. *)
Definition f64_to_int (x : f64) : Z := Z.quot x f64_unit.

(** ** Rounding is monotone and close *)
Lemma rne_bounds n e : 0 < e -> n / e <= rne n e <= n / e + 1.
Proof. intros He. unfold rne. repeat case_match; lia. Qed.

Lemma rne_error n e : 0 < e -> 2 * n - e <= 2 * (e * rne n e) <= 2 * n + e.
Proof.
  intros He. unfold rne. pose proof (Z.div_mod n e). pose proof (Z.mod_pos_bound n e).
  destruct (Z.ltb_spec (2 * (n mod e)) e); [nia|].
  destruct (Z.ltb_spec e (2 * (n mod e))); [nia|]. case_match; nia.
Qed.

Lemma div_le_compat n1 e1 n2 e2 :
  0 < e1 -> 0 < e2 -> n1 * e2 <= n2 * e1 -> n1 / e1 <= n2 / e2.
Proof.
  intros H1 H2 H. apply Z.div_le_lower_bound; [done|].
  pose proof (Z.mul_div_le n1 e1 H1). nia.
Qed.

Lemma rne_mono n1 e1 n2 e2 :
  0 < e1 -> 0 < e2 -> n1 * e2 <= n2 * e1 -> rne n1 e1 <= rne n2 e2.
Proof.
  intros H1 H2 H. pose proof (div_le_compat _ _ _ _ H1 H2 H) as Hq.
  pose proof (rne_bounds n1 e1 H1). pose proof (rne_bounds n2 e2 H2).
  destruct (Z.eq_dec (n1 / e1) (n2 / e2)) as [E|]; [|lia].
  unfold rne. rewrite E.
  pose proof (Z.div_mod n1 e1). pose proof (Z.div_mod n2 e2).
  assert (Hr : (n1 mod e1) * e2 <= (n2 mod e2) * e1) by nia.
  destruct (Z.ltb_spec (2 * (n1 mod e1)) e1), (Z.ltb_spec (2 * (n2 mod e2)) e2);
    repeat case_match; try lia; try nia.
Qed.

Lemma rne_exact_upper n e m : 0 < e -> n < m * e -> rne n e <= m.
Proof.
  intros He H. pose proof (rne_bounds n e He).
  assert (n / e < m) by (apply Z.div_lt_upper_bound; lia). lia.
Qed.

Lemma rne_exact_lower n e m : 0 < e -> m * e <= n -> m <= rne n e.
Proof.
  intros He H. pose proof (rne_bounds n e He).
  assert (m <= n / e) by (apply Z.div_le_lower_bound; lia). lia.
Qed.

Lemma ulp_pos n d : 0 < ulp n d.
Proof. unfold ulp. apply Z.pow_pos_nonneg; lia. Qed.

Lemma round53_error n d :
  0 < d -> 2 * n - d * ulp n d <= 2 * (d * round53 n d) <= 2 * n + d * ulp n d.
Proof.
  intros Hd. unfold round53. pose proof (ulp_pos n d).
  pose proof (rne_error n (d * ulp n d)). nia.
Qed.

(** Rounding a quotient is monotone in the quotient. *)
Lemma round53_mono n1 d1 n2 d2 :
  0 <= n1 -> 0 < d1 -> 0 < d2 -> n1 * d2 <= n2 * d1 -> round53 n1 d1 <= round53 n2 d2.
Proof.
  intros Hn H1 H2 H. pose proof (div_le_compat _ _ _ _ H1 H2 H) as Hq.
  pose proof (Z.log2_le_mono _ _ Hq) as Hlog.
  unfold round53.
  destruct (Z.eq_dec (ulp n1 d1) (ulp n2 d2)) as [E|E].
  { rewrite E. pose proof (ulp_pos n2 d2).
    pose proof (rne_mono n1 (d1 * ulp n2 d2) n2 (d2 * ulp n2 d2)). nia. }
  set (L := Z.log2 (n2 / d2)) in *.
  assert (HL : 52 < L /\ Z.log2 (n1 / d1) < L).
  { unfold ulp in E. fold L in E. destruct (Z.le_gt_cases L 52).
    - exfalso. apply E. f_equal. lia.
    - split; [done|]. destruct (Z.eq_dec (Z.log2 (n1 / d1)) L) as [E'|]; [|lia].
      exfalso. apply E. by rewrite E'. }
  destruct HL as [HL1 HL2].
  assert (Hpow : forall n d, 0 < d -> 0 <= Z.max 0 (Z.log2 (n / d) - 52) <= L ->
            exists m, 2 ^ L = m * ulp n d).
  { intros n d Hd Hm. exists (2 ^ (L - Z.max 0 (Z.log2 (n / d) - 52))). unfold ulp.
    rewrite <- Z.pow_add_r by lia. f_equal. lia. }
  pose proof (Z.log2_spec (n2 / d2)) as Hs2.
  assert (Hq2 : 0 < n2 / d2).
  { destruct (Z.le_gt_cases (n2 / d2) 0) as [Hle|]; [|done].
    apply Z.log2_nonpos in Hle. fold L in Hle. lia. }
  specialize (Hs2 Hq2). fold L in Hs2.
  transitivity (2 ^ L).
  - destruct (Hpow n1 d1) as [m Hm]; [done|lia|]. rewrite Hm.
    pose proof (ulp_pos n1 d1). rewrite Z.mul_comm. apply Z.mul_le_mono_nonneg_r; [lia|].
    apply rne_exact_upper; [nia|].
    assert (Hn1 : n1 / d1 < 2 ^ L).
    { destruct (Z.le_gt_cases (n1 / d1) 0).
      - pose proof (Z.pow_pos_nonneg 2 L). lia.
      - apply Z.log2_lt_pow2; lia. }
    pose proof (Z.mul_succ_div_gt n1 d1 H1). nia.
  - destruct (Hpow n2 d2) as [m Hm]; [done|fold L; lia|]. rewrite Hm.
    pose proof (ulp_pos n2 d2). rewrite (Z.mul_comm (ulp n2 d2)).
    apply Z.mul_le_mono_nonneg_r; [lia|]. apply rne_exact_lower; [nia|].
    pose proof (Z.mul_div_le n2 d2 H2). nia.
Qed.

(** ** Quotients *)
Lemma f64_div_mono a b c d :
  0 <= a -> 0 < b -> 0 <= c -> 0 < d -> a * d <= c * b -> f64_div a b <= f64_div c d.
Proof.
  intros Ha Hb Hc Hd H. unfold f64_div.
  destruct (Z.eq_dec a 0) as [->|Hne].
  { simpl. assert (0 <= round53 (Z.abs c * f64_unit) d).
    { replace 0 with (round53 0 d) at 1.
      - apply round53_mono; try lia. unfold f64_unit. lia.
      - unfold round53, rne, ulp. rewrite Z.div_0_l, Zmod_0_l, Z.div_0_l by lia.
        change (2 ^ Z.max 0 (Z.log2 0 - 52)) with 1. case_match; lia. }
    destruct c; simpl in *; lia. }
  assert (0 < c) by nia.
  rewrite !Z.sgn_pos, !Z.mul_1_l, !Z.abs_eq by lia.
  apply round53_mono; unfold f64_unit; nia.
Qed.

(** A fraction of at most one, in units: its rounding error is at most 2^30
    units. *)
Lemma f64_div_close a b :
  0 <= a <= b -> 0 < b ->
  2 * (a * f64_unit) - b * 2 ^ 31 <= 2 * (b * f64_div a b) <= 2 * (a * f64_unit) + b * 2 ^ 31.
Proof.
  intros Ha Hb. unfold f64_div.
  destruct (Z.eq_dec a 0) as [->|Hne]; [simpl; lia|].
  rewrite Z.sgn_pos, Z.mul_1_l, Z.abs_eq by lia.
  pose proof (round53_error (a * f64_unit) b Hb) as He.
  assert (Hu : ulp (a * f64_unit) b <= 2 ^ 31).
  { unfold ulp. apply Z.pow_le_mono_r; [lia|].
    assert (a * f64_unit / b <= f64_unit).
    { apply Z.div_le_upper_bound; [done|]. unfold f64_unit. nia. }
    assert (Z.log2 (a * f64_unit / b) <= 83); [|lia].
    change 83 with (Z.log2 f64_unit). by apply Z.log2_le_mono. }
  nia.
Qed.

(** Below 2^26 slots, comparing the rounded fractions compares the fractions. *)
Lemma f64_div_strict a b c d :
  0 <= a <= b -> 0 < b < 2 ^ 26 -> 0 <= c <= d -> 0 < d < 2 ^ 26 ->
  a * d < c * b -> f64_div a b < f64_div c d.
Proof.
  intros Ha Hb Hc Hd H.
  pose proof (f64_div_close a b ltac:(lia) ltac:(lia)) as [_ H1].
  pose proof (f64_div_close c d ltac:(lia) ltac:(lia)) as [H2 _].
  set (x := f64_div a b) in *. set (y := f64_div c d) in *.
  destruct (Z.lt_ge_cases x y) as [|Hge]; [done|exfalso].
  assert (Hbd : b * d < 2 ^ 52) by (change (2 ^ 52) with (2 ^ 26 * 2 ^ 26); nia).
  assert (E1 : 2 * (b * d * y) >= 2 * (c * b * f64_unit) - b * d * 2 ^ 31) by nia.
  assert (E2 : 2 * (b * d * x) <= 2 * (a * d * f64_unit) + b * d * 2 ^ 31) by nia.
  assert (E3 : b * d * y <= b * d * x) by nia.
  assert (E4 : 2 * f64_unit <= 2 * (c * b - a * d) * f64_unit) by (unfold f64_unit; nia).
  assert (E5 : 2 * (c * b - a * d) * f64_unit <= b * d * 2 ^ 32) by lia.
  assert (E6 : b * d * 2 ^ 32 < 2 ^ 52 * 2 ^ 32) by nia.
  change (2 ^ 52 * 2 ^ 32) with (2 * f64_unit) in E6. lia.
Qed.

(** ** Agreement with the Standard Library's IEEE division *)
Definition spec_of_int (z : Z) : spec_float := binary_normalize 53 1024 z 0 false.
Definition units_of_spec (f : spec_float) : option Z :=
  match f with
  | S754_zero _ => Some 0
  | S754_finite s m e => Some (Z.shiftl (if s then Zneg m else Zpos m) (e + 83))
  | _ => None
  end.
Definition spec_div (a b : Z) : option Z :=
  units_of_spec (SFdiv 53 1024 (spec_of_int a) (spec_of_int b)).

Example f64_div_agrees :
  forallb (fun ab => bool_decide (spec_div ab.1 ab.2 = Some (f64_div ab.1 ab.2)))
    [(1, 3); (2, 3); (1, 10); (7, 11); (0, 5); (5, 5); (1, 2147483647); (2147483647, 1);
     (2147483646, 2147483647); (1234567891, 987654321); (22, 7); (-3, 7)] = true.
Proof. vm_compute. reflexivity. Qed.
