(* ===== verification/Database.v ===== *)
(** * The PostgreSQL schema and the meaning of the SQL statements used

    Tables and columns follow internal/store/postgres/migrations.  A table is
    a finite map from the primary key to the row; the unordered result of a
    SELECT is scanned in an order the environment chooses; [now()],
    [gen_random_uuid()] and Go's clock are environment values too.  A
    statement or transaction body is a function of the database that returns
    a [result]; [BeginFunc] commits the body's changes when it returns without
    error and drops them otherwise.

    Timestamps are nanoseconds since the epoch. *)
From S2P Require Import Prelude.
Local Open Scope Z_scope.

(** ** Enumerations (migration 000001) *)
Inductive worker_status := REGISTERING | READY | BUSY | DRAINING | OFFLINE | DEAD.
Inductive job_status :=
  | QUEUED | ASSIGNED | RUNNING | SUCCESS | FAILED | RETRYING | CANCELLED.

#[global] Instance worker_status_eq_dec : EqDecision worker_status.
Proof. solve_decision. Defined.
#[global] Instance job_status_eq_dec : EqDecision job_status.
Proof. solve_decision. Defined.

(** The enum labels, as Go sees them. *)
Definition worker_status_text (s : worker_status) : string :=
  match s with
  | REGISTERING => "REGISTERING" | READY => "READY" | BUSY => "BUSY"
  | DRAINING => "DRAINING" | OFFLINE => "OFFLINE" | DEAD => "DEAD"
  end.
Definition job_status_text (s : job_status) : string :=
  match s with
  | QUEUED => "QUEUED" | ASSIGNED => "ASSIGNED" | RUNNING => "RUNNING"
  | SUCCESS => "SUCCESS" | FAILED => "FAILED" | RETRYING => "RETRYING"
  | CANCELLED => "CANCELLED"
  end.

Definition all_worker_status : list worker_status :=
  [REGISTERING; READY; BUSY; DRAINING; OFFLINE; DEAD].
Definition all_job_status : list job_status :=
  [QUEUED; ASSIGNED; RUNNING; SUCCESS; FAILED; RETRYING; CANCELLED].

(** The cast of a text parameter to the enum column it is compared with or
    stored in: an error when it is no label. *)
Definition worker_status_of_text (t : string) : result worker_status :=
  match list_find (fun s => worker_status_text s = t) all_worker_status with
  | Some (_, s) => Ok s
  | None => Err ErrInvalidText
  end.
Definition job_status_of_text (t : string) : result job_status :=
  match list_find (fun s => job_status_text s = t) all_job_status with
  | Some (_, s) => Ok s
  | None => Err ErrInvalidText
  end.

Lemma worker_status_of_text_text s : worker_status_of_text (worker_status_text s) = Ok s.
Proof. by destruct s. Qed.
Lemma job_status_of_text_text s : job_status_of_text (job_status_text s) = Ok s.
Proof. by destruct s. Qed.

#[global] Instance worker_status_text_inj : Inj (=) (=) worker_status_text.
Proof. intros [] []; done. Qed.
#[global] Instance job_status_text_inj : Inj (=) (=) job_status_text.
Proof. intros [] []; done. Qed.

(** The job statuses the code groups together. *)
Definition job_active (s : job_status) : bool :=
  bool_decide (s = ASSIGNED \/ s = RUNNING).
Definition job_terminal (s : job_status) : bool :=
  bool_decide (s = SUCCESS \/ s = FAILED \/ s = CANCELLED).
Definition worker_gone (s : worker_status) : bool :=
  bool_decide (s = OFFLINE \/ s = DEAD).

(** ** Rows *)

(** Table [workers] (migrations 000002 and 000006). *)
Record worker_row := mkWorker {
  w_id : string;
  w_hostname : string;
  w_instance_id : string;
  w_os : string;
  w_cpu_cores : Z;
  w_memory_mb : Z;
  w_labels : gmap string string;
  w_capabilities : list string;
  w_status : worker_status;
  w_current_job : option (string * Z);  (** current_job_id, current_job_created_at *)
  w_last_heartbeat : option Z;
  w_version : string;
  w_capacity_slots : Z;
  w_available_capacity : Z;
  w_epoch : Z;
  w_registered_at : Z;
  w_updated_at : Z;
  w_drain_requested : bool }.

(** Table [jobs] (migration 000003). *)
Record job_row := mkJob {
  j_id : string;
  j_priority : Z;
  j_repository : string;
  j_branch : string;
  j_commit_sha : string;
  j_labels : gmap string string;
  j_required_capabilities : list string;
  j_retries : Z;
  j_max_retries : Z;
  j_status : job_status;
  j_worker_id : option string;
  j_assignment_epoch : option Z;
  j_idempotency_key : option string;
  j_retry_at : option Z;
  j_log_ref : option string;
  j_created_at : Z;
  j_started_at : option Z;
  j_finished_at : option Z }.

(** Table [job_retry_history] (migration 000004). *)
Record retry_row := mkRetry {
  rh_job_id : string;
  rh_job_created_at : Z;
  rh_attempt_number : Z;
  rh_status : job_status;
  rh_worker_id : option string;
  rh_error_message : option string;
  rh_started_at : Z;
  rh_finished_at : option Z }.

(** Table [worker_events] (migration 000005), one constructor per
    [event_type] with its JSON payload's fields. *)
Inductive worker_event :=
  | EvRegistered (worker_id : string) (epoch : Z) (instance_id : string)
  | EvMarkedDead (worker_id : string) (epoch : Z) (requeued_jobs : Z)
  | EvDrainRequested (worker_id : string) (epoch : Z)
  | EvDrainResumed (worker_id : string) (epoch : Z).

Record database := mkDb {
  workers : gmap string worker_row;
  jobs : gmap string job_row;
  job_retry_history : list retry_row;
  worker_events : list worker_event }.

Definition empty_db : database := mkDb ∅ ∅ [] [].

(** ** Column updates *)
Section updates.
Implicit Type w : worker_row.
Implicit Type j : job_row.

Definition w_set_status (s : worker_status) w : worker_row :=
  mkWorker (w_id w) (w_hostname w) (w_instance_id w) (w_os w) (w_cpu_cores w)
    (w_memory_mb w) (w_labels w) (w_capabilities w) s (w_current_job w)
    (w_last_heartbeat w) (w_version w) (w_capacity_slots w) (w_available_capacity w)
    (w_epoch w) (w_registered_at w) (w_updated_at w) (w_drain_requested w).

Definition w_set_current_job (cj : option (string * Z)) w : worker_row :=
  mkWorker (w_id w) (w_hostname w) (w_instance_id w) (w_os w) (w_cpu_cores w)
    (w_memory_mb w) (w_labels w) (w_capabilities w) (w_status w) cj
    (w_last_heartbeat w) (w_version w) (w_capacity_slots w) (w_available_capacity w)
    (w_epoch w) (w_registered_at w) (w_updated_at w) (w_drain_requested w).

Definition w_set_last_heartbeat (t : option Z) w : worker_row :=
  mkWorker (w_id w) (w_hostname w) (w_instance_id w) (w_os w) (w_cpu_cores w)
    (w_memory_mb w) (w_labels w) (w_capabilities w) (w_status w) (w_current_job w)
    t (w_version w) (w_capacity_slots w) (w_available_capacity w)
    (w_epoch w) (w_registered_at w) (w_updated_at w) (w_drain_requested w).

Definition w_set_available_capacity (c : Z) w : worker_row :=
  mkWorker (w_id w) (w_hostname w) (w_instance_id w) (w_os w) (w_cpu_cores w)
    (w_memory_mb w) (w_labels w) (w_capabilities w) (w_status w) (w_current_job w)
    (w_last_heartbeat w) (w_version w) (w_capacity_slots w) c
    (w_epoch w) (w_registered_at w) (w_updated_at w) (w_drain_requested w).

Definition w_set_updated_at (t : Z) w : worker_row :=
  mkWorker (w_id w) (w_hostname w) (w_instance_id w) (w_os w) (w_cpu_cores w)
    (w_memory_mb w) (w_labels w) (w_capabilities w) (w_status w) (w_current_job w)
    (w_last_heartbeat w) (w_version w) (w_capacity_slots w) (w_available_capacity w)
    (w_epoch w) (w_registered_at w) t (w_drain_requested w).

Definition w_set_drain_requested (b : bool) w : worker_row :=
  mkWorker (w_id w) (w_hostname w) (w_instance_id w) (w_os w) (w_cpu_cores w)
    (w_memory_mb w) (w_labels w) (w_capabilities w) (w_status w) (w_current_job w)
    (w_last_heartbeat w) (w_version w) (w_capacity_slots w) (w_available_capacity w)
    (w_epoch w) (w_registered_at w) (w_updated_at w) b.

Definition j_set_status (s : job_status) j : job_row :=
  mkJob (j_id j) (j_priority j) (j_repository j) (j_branch j) (j_commit_sha j)
    (j_labels j) (j_required_capabilities j) (j_retries j) (j_max_retries j) s
    (j_worker_id j) (j_assignment_epoch j) (j_idempotency_key j) (j_retry_at j)
    (j_log_ref j) (j_created_at j) (j_started_at j) (j_finished_at j).

(** [worker_id] and [assignment_epoch], which every statement sets together. *)
Definition j_set_assignment (w : option string) (ep : option Z) j : job_row :=
  mkJob (j_id j) (j_priority j) (j_repository j) (j_branch j) (j_commit_sha j)
    (j_labels j) (j_required_capabilities j) (j_retries j) (j_max_retries j) (j_status j)
    w ep (j_idempotency_key j) (j_retry_at j)
    (j_log_ref j) (j_created_at j) (j_started_at j) (j_finished_at j).

Definition j_set_retries (n : Z) j : job_row :=
  mkJob (j_id j) (j_priority j) (j_repository j) (j_branch j) (j_commit_sha j)
    (j_labels j) (j_required_capabilities j) n (j_max_retries j) (j_status j)
    (j_worker_id j) (j_assignment_epoch j) (j_idempotency_key j) (j_retry_at j)
    (j_log_ref j) (j_created_at j) (j_started_at j) (j_finished_at j).

Definition j_set_retry_at (t : option Z) j : job_row :=
  mkJob (j_id j) (j_priority j) (j_repository j) (j_branch j) (j_commit_sha j)
    (j_labels j) (j_required_capabilities j) (j_retries j) (j_max_retries j) (j_status j)
    (j_worker_id j) (j_assignment_epoch j) (j_idempotency_key j) t
    (j_log_ref j) (j_created_at j) (j_started_at j) (j_finished_at j).

Definition j_set_started_at (t : option Z) j : job_row :=
  mkJob (j_id j) (j_priority j) (j_repository j) (j_branch j) (j_commit_sha j)
    (j_labels j) (j_required_capabilities j) (j_retries j) (j_max_retries j) (j_status j)
    (j_worker_id j) (j_assignment_epoch j) (j_idempotency_key j) (j_retry_at j)
    (j_log_ref j) (j_created_at j) t (j_finished_at j).

(** [finished_at] and [log_ref], which every statement sets together. *)
Definition j_set_finished (t : option Z) (lr : option string) j : job_row :=
  mkJob (j_id j) (j_priority j) (j_repository j) (j_branch j) (j_commit_sha j)
    (j_labels j) (j_required_capabilities j) (j_retries j) (j_max_retries j) (j_status j)
    (j_worker_id j) (j_assignment_epoch j) (j_idempotency_key j) (j_retry_at j)
    lr (j_created_at j) (j_started_at j) t.
End updates.

Definition set_workers (ws : gmap string worker_row) (d : database) : database :=
  mkDb ws (jobs d) (job_retry_history d) (worker_events d).
Definition set_jobs (js : gmap string job_row) (d : database) : database :=
  mkDb (workers d) js (job_retry_history d) (worker_events d).

(** ** The environment of one statement or transaction *)

(** What can happen to a call that leaves the process: it runs; it is lost
    before it runs; it runs and its reply is lost. *)
Inductive fault := NoFault | LostRequest | LostReply.

Record env := mkEnv {
  pg_now : Z;                        (** SQL [now()] *)
  go_now : Z;                        (** Go's [time.Now()] *)
  new_uuid : string;                 (** the next [gen_random_uuid()] *)
  env_fault : fault;                 (** of a Postgres call *)
  redis_fault : fault;               (** of a Redis call *)
  scan : list string -> list string; (** the order of an unordered scan *)
  scan_perm : forall l, scan l ≡ₚ l }.

(** The environment with both clocks at [t], no fault and keys in map order. *)
Definition env_at (t : Z) (uuid : string) : env :=
  mkEnv t t uuid NoFault NoFault (fun l => l) (fun l => reflexivity l).

(** ** Statements *)

(** Transaction bodies and statements. *)
Definition stmt (A : Type) : Type := env -> database -> result A * database.

Definition sret {A} (a : A) : stmt A := fun _ d => (Ok a, d).
Definition serr {A} (x : goerr) : stmt A := fun _ d => (Err x, d).
Definition sbind {A B} (m : stmt A) (f : A -> stmt B) : stmt B :=
  fun e d => match m e d with
             | (Ok a, d') => f a e d'
             | (Err x, d') => (Err x, d')
             end.

Declare Scope sql_scope.
Delimit Scope sql_scope with sql.
Notation "'let*' x ':=' m 'in' k" := (sbind m (fun x => k))
  (at level 10, x pattern, m at level 200, k at level 200) : sql_scope.
Notation "m ;; k" := (sbind m (fun _ => k))
  (at level 100, k at level 200, right associativity) : sql_scope.
Open Scope sql_scope.

(** [now()] inside a statement. *)
Definition snow : stmt Z := fun e d => (Ok (pg_now e), d).

(** [for _, x := range l { if err := f(x); err != nil { return err } }] *)
Fixpoint siter {A} (f : A -> stmt unit) (l : list A) : stmt unit :=
  match l with
  | [] => sret tt
  | a :: l' => f a ;; siter f l'
  end.

(** [pgx.BeginFunc]: roll back when the body fails, commit otherwise. *)
Definition BeginFunc {A} (body : stmt A) : stmt A :=
  fun e d => match body e d with
             | (Ok a, d') => (Ok a, d')
             | (Err x, _) => (Err x, d)
             end.

Section select.
Context {R : Type}.

(** The rows of a table in scan order. *)
Definition table_scan (e : env) (t : gmap string R) : list R :=
  omap (fun k => t !! k) (scan e (map fst (map_to_list t))).

(** [SELECT ... WHERE P] *)
Definition select_where (P : R -> bool) (e : env) (t : gmap string R) : list R :=
  filter (fun r => P r = true) (table_scan e t).

(** [UPDATE ... WHERE id = k AND P]: the updated row if one matched. *)
Definition update_where (k : string) (P : R -> bool) (f : R -> R) (t : gmap string R)
    : option R * gmap string R :=
  match t !! k with
  | Some r => if P r then (Some (f r), <[k := f r]> t) else (None, t)
  | None => (None, t)
  end.

Lemma elem_of_table_scan e (t : gmap string R) r :
  r ∈ table_scan e t <-> exists k, t !! k = Some r.
Proof.
  unfold table_scan. rewrite elem_of_omap_lookup. split.
  - intros (k & _ & H). eauto.
  - intros (k & H). exists k. split; [|done].
    rewrite (scan_perm e). apply list_elem_of_fmap. exists (k, r). split; [done|].
    by apply elem_of_map_to_list.
Qed.

Lemma elem_of_select_where P e (t : gmap string R) r :
  r ∈ select_where P e t <-> P r = true /\ exists k, t !! k = Some r.
Proof. unfold select_where. by rewrite list_elem_of_filter, elem_of_table_scan. Qed.

Lemma table_scan_values e (t : gmap string R) :
  table_scan e t ≡ₚ map snd (map_to_list t).
Proof.
  unfold table_scan. rewrite (scan_perm e).
  assert (H : forall l : list (string * R),
    (forall k r, (k, r) ∈ l -> t !! k = Some r) ->
    omap (fun k => t !! k) (map fst l) ≡ₚ map snd l).
  { induction l as [|[k r] l IH]; intros H; simpl; [done|].
    rewrite (H k r) by left. simpl. f_equiv. apply IH. intros k' r' H'. apply H. by right. }
  apply H. intros k r Hk. by apply elem_of_map_to_list.
Qed.

Lemma update_where_Some k P f (t : gmap string R) r t' :
  update_where k P f t = (Some r, t') ->
  exists r0, t !! k = Some r0 /\ P r0 = true /\ r = f r0 /\ t' = <[k := r]> t.
Proof. unfold update_where. intros H. case_all_in H. eauto 10. Qed.

Lemma update_where_None k P f (t t' : gmap string R) :
  update_where k P f t = (None, t') -> t' = t.
Proof. unfold update_where. intros H. by case_all_in H. Qed.
End select.

(** [UPDATE workers]: the trigger trg_workers_updated_at stamps [updated_at]. *)
Definition update_worker (k : string) (P : worker_row -> bool) (f : worker_row -> worker_row)
    : stmt (option worker_row) :=
  fun e d =>
    let '(r, ws) := update_where k P (fun w => w_set_updated_at (pg_now e) (f w)) (workers d) in
    (Ok r, set_workers ws d).

(** [UPDATE jobs] *)
Definition update_job (k : string) (P : job_row -> bool) (f : job_row -> job_row)
    : stmt (option job_row) :=
  fun e d => let '(r, js) := update_where k P f (jobs d) in (Ok r, set_jobs js d).

Definition insert_event (ev : worker_event) : stmt unit :=
  fun _ d => (Ok tt, mkDb (workers d) (jobs d) (job_retry_history d) (worker_events d ++ [ev])).

(** [INSERT INTO job_retry_history], with its foreign keys and
    [uq_retry_attempt UNIQUE (job_id, attempt_number)]. *)
Definition insert_retry (r : retry_row) : stmt unit :=
  fun _ d =>
    let job_ok := match jobs d !! rh_job_id r with
                  | Some j => bool_decide (j_created_at j = rh_job_created_at r)
                  | None => false
                  end in
    let worker_ok := match rh_worker_id r with
                     | Some w => bool_decide (is_Some (workers d !! w))
                     | None => true
                     end in
    let unique := forallb (fun r' =>
        negb (bool_decide (rh_job_id r' = rh_job_id r) &&
              bool_decide (rh_attempt_number r' = rh_attempt_number r)))
      (job_retry_history d) in
    if job_ok && worker_ok && unique
    then (Ok tt, mkDb (workers d) (jobs d) (job_retry_history d ++ [r]) (worker_events d))
    else (Err ErrConstraint, d).

(** [SELECT COUNT( * ) FROM job_retry_history WHERE job_id = $1] *)
Definition count_retries (job : string) (d : database) : Z :=
  Z.of_nat (length (filter (fun r => rh_job_id r = job) (job_retry_history d))).

(** The foreign key (current_job_id, current_job_created_at) of [workers];
    a NULL pair satisfies it. *)
Definition check_current_job_fk (cj : option (string * Z)) : stmt unit :=
  fun _ d =>
    match cj with
    | None => (Ok tt, d)
    | Some (id, at_) =>
        match jobs d !! id with
        | Some j => if bool_decide (j_created_at j = at_) then (Ok tt, d) else (Err ErrConstraint, d)
        | None => (Err ErrConstraint, d)
        end
    end.

(** A [COUNT( * )] or [RETURNING] value scanned into an [int32]. *)
Definition scan_int32 (z : Z) : result Z :=
  if (- 2147483648 <=? z) && (z <=? max_int32) then Ok z else Err ErrOutOfRange.
