(* ===== verification/WorkerStore.v ===== *)
(** * internal/store/postgres/workers.go: WorkerStore

    Every method that is one statement or one transaction is a [stmt]; the
    methods made of two separate statements (UpdateHeartbeat) are split here
    into their statements and composed in Stores.v, since other clients can
    run between them. *)
From S2P Require Import Prelude Database.
Local Open Scope Z_scope.

Record RegisterWorkerParams := mkRegisterWorkerParams {
  rp_Hostname : string;
  rp_InstanceID : string;
  rp_OS : string;
  rp_CPUCores : Z;
  rp_MemoryMB : Z;
  rp_Labels : option (gmap string string);   (** [None] is a nil map *)
  rp_Capabilities : option (list string);    (** [None] is a nil slice *)
  rp_Version : string;
  rp_CapacitySlots : Z }.

Record RegisteredWorker := mkRegisteredWorker { rw_ID : string; rw_Epoch : Z }.

Definition capacity_slots_default (n : Z) : Z := if n <=? 0 then 1 else n.

(** The row holding [instance_id], if any (uq_workers_instance_id). *)
Definition worker_by_instance (inst : string) (t : gmap string worker_row) : option worker_row :=
  head (filter (fun w => w_instance_id w = inst) (map snd (map_to_list t))).

(** The row the INSERT proposes. *)
Definition inserted_worker (p : RegisterWorkerParams) (e : env) : worker_row :=
  let slots := capacity_slots_default (rp_CapacitySlots p) in
  mkWorker (new_uuid e) (rp_Hostname p) (rp_InstanceID p) (rp_OS p) (rp_CPUCores p)
    (rp_MemoryMB p) (default ∅ (rp_Labels p)) (default [] (rp_Capabilities p))
    REGISTERING None None (rp_Version p) slots slots 1 (pg_now e) (pg_now e) false.

(** The existing row after ON CONFLICT (instance_id) DO UPDATE: identity,
    [registered_at] and [drain_requested] are kept. *)
Definition conflict_worker (p : RegisterWorkerParams) (e : env) (w : worker_row) : worker_row :=
  let slots := capacity_slots_default (rp_CapacitySlots p) in
  mkWorker (w_id w) (rp_Hostname p) (w_instance_id w) (rp_OS p) (rp_CPUCores p)
    (rp_MemoryMB p) (default ∅ (rp_Labels p)) (default [] (rp_Capabilities p))
    REGISTERING None None (rp_Version p) slots slots (w_epoch w + 1) (w_registered_at w)
    (pg_now e) (w_drain_requested w).

(** INSERT ... ON CONFLICT (instance_id) DO UPDATE ... RETURNING id, epoch *)
Definition upsert_worker (p : RegisterWorkerParams) : stmt RegisteredWorker :=
  fun e d =>
    if (rp_CPUCores p <=? 0) || (rp_MemoryMB p <=? 0) then (Err ErrConstraint, d)
    else match worker_by_instance (rp_InstanceID p) (workers d) with
    | Some w =>
        if max_int64 <=? w_epoch w then (Err ErrOutOfRange, d)
        else let w' := conflict_worker p e w in
             (Ok (mkRegisteredWorker (w_id w') (w_epoch w')),
              set_workers (<[w_id w := w']> (workers d)) d)
    | None =>
        match workers d !! new_uuid e with
        | Some _ => (Err ErrConstraint, d)
        | None =>
            let w' := inserted_worker p e in
            (Ok (mkRegisteredWorker (w_id w') (w_epoch w')),
             set_workers (<[new_uuid e := w']> (workers d)) d)
        end
    end.

Definition Register (p : RegisterWorkerParams) : stmt RegisteredWorker :=
  BeginFunc (
    let* result := upsert_worker p in
    insert_event (EvRegistered (rw_ID result) (rw_Epoch result) (rp_InstanceID p)) ;;
    let* t := snow in
    update_worker (rw_ID result) (fun _ => true)
      (fun w => w_set_last_heartbeat (Some t) (w_set_status READY w)) ;;
    sret result).

(** The read-side projection of List. *)
Record WorkerRow := mkWorkerRow {
  wr_ID : string; wr_Hostname : string; wr_OS : string; wr_CPUCores : Z; wr_MemoryMB : Z;
  wr_Labels : gmap string string; wr_Capabilities : list string; wr_Status : string;
  wr_CurrentJobID : option string; wr_LastHeartbeat : option Z; wr_Version : string;
  wr_CapacitySlots : Z; wr_AvailableCapacity : Z; wr_Epoch : Z; wr_RegisteredAt : Z;
  wr_DrainRequested : bool }.

Definition scan_worker_row (w : worker_row) : WorkerRow :=
  mkWorkerRow (w_id w) (w_hostname w) (w_os w) (w_cpu_cores w) (w_memory_mb w) (w_labels w)
    (w_capabilities w) (worker_status_text (w_status w)) (fst <$> w_current_job w)
    (w_last_heartbeat w) (w_version w) (w_capacity_slots w) (w_available_capacity w)
    (w_epoch w) (w_registered_at w) (w_drain_requested w).

Definition count_workers (s : worker_status) (t : gmap string worker_row) : Z :=
  Z.of_nat (length (filter (fun w => w_status w = s) (map snd (map_to_list t)))).

(** One entry per status that has rows; a count outside int32 fails the scan. *)
Definition CountByStatus : stmt (gmap string Z) :=
  fun e d =>
    let groups := filter (fun sc => 0 < snd sc)
                    (map (fun s => (s, count_workers s (workers d))) all_worker_status) in
    if forallb (fun sc => is_ok (scan_int32 (snd sc))) groups
    then (Ok (list_to_map (map (fun sc => (worker_status_text (fst sc), snd sc)) groups)), d)
    else (Err ErrOutOfRange, d).

(** ORDER BY registered_at ASC / DESC *)
Definition registered_before (a b : worker_row) : Prop := w_registered_at a <= w_registered_at b.
Definition registered_after (a b : worker_row) : Prop := w_registered_at b <= w_registered_at a.
#[global] Instance registered_before_dec a b : Decision (registered_before a b).
Proof. unfold registered_before. apply _. Defined.
#[global] Instance registered_after_dec a b : Decision (registered_after a b).
Proof. unfold registered_after. apply _. Defined.

Definition drainable (w : worker_row) : bool :=
  bool_decide (w_status w = READY) &&
  (w_available_capacity w =? w_capacity_slots w) && negb (w_drain_requested w).

(** "" when no worker qualifies. *)
Definition PickDrainCandidate : stmt string :=
  fun e d =>
    match merge_sort registered_before (select_where drainable e (workers d)) with
    | w :: _ => (Ok (w_id w), d)
    | [] => (Ok "", d)
    end.

Definition list_limit (limit : Z) : Z :=
  if (limit <=? 0) || (1000 <? limit) then 100 else limit.

(** WorkerStore.List *)
Definition ListWorkerRows (statusFilter : string) (limit : Z) : stmt (list WorkerRow) :=
  fun e d =>
    let n := Z.to_nat (list_limit limit) in
    let finish rows := (Ok (map scan_worker_row (take n (merge_sort registered_after rows))), d) in
    if decide (statusFilter = "") then finish (table_scan e (workers d))
    else match worker_status_of_text statusFilter with
         | Ok s => finish (select_where (fun w => bool_decide (w_status w = s)) e (workers d))
         | Err x => (Err x, d)
         end.

Definition GetEpochAndStatus (workerID : string) : stmt (Z * string * bool) :=
  fun e d =>
    match workers d !! workerID with
    | Some w => (Ok (w_epoch w, worker_status_text (w_status w), w_drain_requested w), d)
    | None => (Err ErrNoRows, d)
    end.

(** UpdateHeartbeat, first statement: SELECT created_at FROM jobs WHERE id *)
Definition SelectJobCreatedAt (jobID : string) : stmt Z :=
  fun e d => match jobs d !! jobID with
             | Some j => (Ok (j_created_at j), d)
             | None => (Err ErrNoRows, d)
             end.

(** UpdateHeartbeat, second statement; the reply is RowsAffected() == 1. *)
Definition UpdateHeartbeatRow (workerID : string) (epoch : Z) (dbStatus : string)
    (currentJob : option (string * Z)) : stmt bool :=
  fun e d =>
    match worker_status_of_text dbStatus with
    | Err x => (Err x, d)
    | Ok s =>
        BeginFunc (
          let* t := snow in
          let* r := update_worker workerID (fun w => w_epoch w =? epoch)
            (fun w => w_set_last_heartbeat (Some t)
                        (w_set_current_job currentJob (w_set_status s w))) in
          match r with
          | Some _ => check_current_job_fk currentJob ;; sret true
          | None => sret false
          end) e d
    end.

Record StaleWorker := mkStaleWorker { sw_ID : string; sw_Epoch : Z }.

Definition is_stale (now timeoutSeconds : Z) (w : worker_row) : bool :=
  negb (worker_gone (w_status w)) &&
  match w_last_heartbeat w with
  | Some hb => hb <? now - timeoutSeconds * Second
  | None => false
  end.

Definition ListStale (timeoutSeconds : Z) : stmt (list StaleWorker) :=
  fun e d =>
    (Ok (map (fun w => mkStaleWorker (w_id w) (w_epoch w))
           (select_where (is_stale (pg_now e) timeoutSeconds) e (workers d))), d).

(** SELECT ... FROM jobs WHERE worker_id = $1 AND status IN ('ASSIGNED', 'RUNNING') *)
Definition held_by (workerID : string) (j : job_row) : bool :=
  bool_decide (j_worker_id j = Some workerID) && job_active (j_status j).

(** The body of the requeue loop for one job. *)
Definition requeue_job (workerID : string) (j : job_row) : stmt unit :=
  update_job (j_id j) (fun j' => j_created_at j' =? j_created_at j)
    (fun j' => j_set_started_at None (j_set_assignment None None (j_set_status QUEUED j'))) ;;
  let* nextAttempt := (fun e d => (Ok (count_retries (j_id j) d + 1), d)) in
  let* t := snow in
  insert_retry (mkRetry (j_id j) (j_created_at j) nextAttempt FAILED (Some workerID)
                  (Some "worker_dead") t (Some t)).

Definition MarkDeadAndRequeue (workerID : string) (epoch : Z) : stmt unit :=
  BeginFunc (
    let* tag := update_worker workerID
      (fun w => (w_epoch w =? epoch) && negb (worker_gone (w_status w)))
      (fun w => w_set_available_capacity (w_capacity_slots w) (w_set_status DEAD w)) in
    match tag with
    | None => sret tt
    | Some _ =>
        let* held := (fun e d => (Ok (select_where (held_by workerID) e (jobs d)), d)) in
        siter (requeue_job workerID) held ;;
        insert_event (EvMarkedDead workerID epoch (Z.of_nat (length held)))
    end).

Record Candidate := mkCandidate {
  c_ID : string; c_Epoch : Z; c_Capabilities : list string; c_Labels : gmap string string;
  c_AvailableCapacity : Z; c_CapacitySlots : Z }.

(** capabilities @> required: array containment, as sets. *)
Definition array_contains (caps required : list string) : bool :=
  forallb (fun r => bool_decide (r ∈ caps)) required.

Definition ready_candidate (required : list string) (w : worker_row) : bool :=
  bool_decide (w_status w = READY) && (0 <? w_available_capacity w) &&
  array_contains (w_capabilities w) required.

Definition candidate_of (w : worker_row) : Candidate :=
  mkCandidate (w_id w) (w_epoch w) (w_capabilities w) (w_labels w)
    (w_available_capacity w) (w_capacity_slots w).

Definition ListReadyCandidates (required : option (list string)) : stmt (list Candidate) :=
  fun e d =>
    (Ok (map candidate_of (select_where (ready_candidate (default [] required)) e (workers d))), d).

(** AssignJob's transaction body. *)
Definition assign_body (jobID : string) (jobCreatedAt : Z) (workerID : string) (workerEpoch : Z)
    : stmt bool :=
  let* wTag := update_worker workerID
    (fun w => (w_epoch w =? workerEpoch) && bool_decide (w_status w = READY) &&
              (0 <? w_available_capacity w))
    (fun w => w_set_available_capacity (w_available_capacity w - 1)
                (w_set_current_job (Some (jobID, jobCreatedAt)) (w_set_status BUSY w))) in
  match wTag with
  | None => sret false
  | Some _ =>
      check_current_job_fk (Some (jobID, jobCreatedAt)) ;;
      let* jTag := update_job jobID
        (fun j => (j_created_at j =? jobCreatedAt) && bool_decide (j_status j = QUEUED))
        (fun j => j_set_assignment (Some workerID) (Some workerEpoch) (j_set_status ASSIGNED j)) in
      match jTag with
      | None => serr ErrJobAssignRaceLost
      | Some _ => sret true
      end
  end.

Definition AssignJob (jobID : string) (jobCreatedAt : Z) (workerID : string) (workerEpoch : Z)
    : stmt bool :=
  fun e d =>
    match BeginFunc (assign_body jobID jobCreatedAt workerID workerEpoch) e d with
    | (Err ErrJobAssignRaceLost, d') => (Ok false, d')
    | r => r
    end.

(** The reply is (ok, availableCapacity, newStatus). *)
Definition FreeWorker (workerID : string) (epoch : Z) : stmt (bool * Z * string) :=
  let* r := update_worker workerID (fun w => w_epoch w =? epoch)
    (fun w => w_set_available_capacity
                (Z.min (w_available_capacity w + 1) (w_capacity_slots w))
                (w_set_current_job None
                   (w_set_status (if w_drain_requested w then DRAINING else READY) w))) in
  match r with
  | None => sret (false, 0, "")
  | Some w => sret (true, w_available_capacity w, worker_status_text (w_status w))
  end.

Record DrainResult := mkDrainResult {
  dr_Epoch : Z; dr_Status : string; dr_CurrentJobID : option string; dr_AvailableCapacity : Z }.

Definition drain_result (w : worker_row) : DrainResult :=
  mkDrainResult (w_epoch w) (worker_status_text (w_status w)) (fst <$> w_current_job w)
    (w_available_capacity w).

(** The shared shape of RequestDrain and ResumeDrain: [None] is (_, false, nil). *)
Definition drain_update (workerID : string) (f : worker_row -> worker_row)
    (ev : Z -> worker_event) : stmt (option DrainResult) :=
  BeginFunc (
    let* r := update_worker workerID (fun w => negb (worker_gone (w_status w))) f in
    match r with
    | None => sret None
    | Some w => insert_event (ev (w_epoch w)) ;; sret (Some (drain_result w))
    end).

Definition RequestDrain (workerID : string) : stmt (option DrainResult) :=
  drain_update workerID
    (fun w => w_set_drain_requested true
       (w_set_status (if decide (w_status w = READY) then DRAINING else w_status w) w))
    (EvDrainRequested workerID).

Definition ResumeDrain (workerID : string) : stmt (option DrainResult) :=
  drain_update workerID
    (fun w => w_set_drain_requested false
       (w_set_status (if decide (w_status w = DRAINING) then READY else w_status w) w))
    (EvDrainResumed workerID).
