(* ===== verification/Algorithm.v ===== *)
(** * internal/scheduler/algorithm.go: SelectLeastLoaded

    The loop keeps the first candidate whose free fraction, as a float64, is
    strictly larger than every earlier one.  The theorem relates it to the
    exact rational comparison. *)
From S2P Require Import Prelude Float64 Database WorkerStore.
Local Open Scope Z_scope.

Definition fraction (c : Candidate) : f64 := f64_div (c_AvailableCapacity c) (c_CapacitySlots c).

(** One turn of the loop on (best, bestFraction). *)
Definition select_step (acc : option Candidate * f64) (c : Candidate)
    : option Candidate * f64 :=
  let '(best, bestFraction) := acc in
  if c_CapacitySlots c <=? 0 then acc
  else match best with
       | None => (Some c, fraction c)
       | Some _ => if bestFraction <? fraction c then (Some c, fraction c) else acc
       end.

Definition SelectLeastLoaded (candidates : list Candidate) : option Candidate :=
  (foldl select_step (None, 0) candidates).1.

(** What the loop has established after a prefix [l]. *)
Definition selected (l : list Candidate) (acc : option Candidate * f64) : Prop :=
  match acc.1 with
  | None => forall c, c ∈ l -> c_CapacitySlots c <= 0
  | Some b =>
      acc.2 = fraction b /\ 0 < c_CapacitySlots b /\
      exists l1 l2, l = l1 ++ b :: l2 /\
        (forall c, c ∈ l1 -> 0 < c_CapacitySlots c -> fraction c < fraction b) /\
        (forall c, c ∈ l2 -> 0 < c_CapacitySlots c -> fraction c <= fraction b)
  end.

Lemma select_step_selected l acc c :
  selected l acc -> selected (l ++ [c]) (select_step acc c).
Proof.
  destruct acc as [best bf]. unfold selected, select_step.
  destruct (Z.leb_spec (c_CapacitySlots c) 0) as [Hc|Hc].
  - destruct best as [b|]; simpl.
    + intros (-> & Hb & l1 & l2 & -> & H1 & H2). repeat split; [done|].
      exists l1, (l2 ++ [c]). rewrite <- app_assoc. repeat split; [done|].
      intros c' [H|H]%elem_of_app; [auto|]. apply list_elem_of_singleton in H as ->. lia.
    + intros H c' [H'|H']%elem_of_app; [auto|]. by apply list_elem_of_singleton in H' as ->.
  - destruct best as [b|]; simpl.
    + intros (-> & Hb & l1 & l2 & -> & H1 & H2).
      destruct (Z.ltb_spec (fraction b) (fraction c)); simpl.
      * repeat split; [done|]. exists (l1 ++ b :: l2), []. repeat split; [|by intros ? ?%not_elem_of_nil].
        intros c' [H'|[->|H']%elem_of_cons]%elem_of_app Hs; [|done|].
        -- specialize (H1 c' H' Hs). lia.
        -- specialize (H2 c' H' Hs). lia.
      * repeat split; [done|]. exists l1, (l2 ++ [c]). rewrite <- app_assoc. repeat split; [done|].
        intros c' [H'|H']%elem_of_app Hs; [auto|]. by apply list_elem_of_singleton in H' as ->.
    + intros H. repeat split; [done|]. exists l, [].
      repeat split; [|by intros ? ?%not_elem_of_nil].
      intros c' H' Hs. specialize (H c' H'). lia.
Qed.

Lemma select_fold_selected l : selected l (foldl select_step (None, 0) l).
Proof.
  induction l as [|c l IH] using rev_ind; [by intros ? ?%not_elem_of_nil|].
  rewrite foldl_app. by apply select_step_selected.
Qed.

(** Some candidate is chosen as soon as one has slots. *)
Lemma SelectLeastLoaded_Some l :
  l <> [] -> (forall c, c ∈ l -> 0 < c_CapacitySlots c) ->
  exists b, b ∈ l /\ SelectLeastLoaded l = Some b.
Proof.
  intros Hne Hs. pose proof (select_fold_selected l) as H. unfold SelectLeastLoaded, selected in *.
  destruct (foldl select_step (None, 0) l) as [[b|] bf]; simpl in *.
  - destruct H as (_ & _ & l1 & l2 & -> & _). exists b. split; [set_solver|done].
  - destruct l as [|c l]; [done|]. specialize (H c ltac:(left)). specialize (Hs c ltac:(left)). lia.
Qed.

(** A candidate as ListReadyCandidates returns it, of realistic size: between
    2^26 and the int32 limit two different fractions can round to the same
    float64. *)
Definition candidate_wf (c : Candidate) : Prop :=
  0 <= c_AvailableCapacity c <= c_CapacitySlots c /\ 0 < c_CapacitySlots c < 2 ^ 26.

(** [a] has a larger (or equal) share of its slots free than [b]. *)
Definition less_loaded (a b : Candidate) : Prop :=
  c_AvailableCapacity b * c_CapacitySlots a < c_AvailableCapacity a * c_CapacitySlots b.

Lemma fraction_lt_iff a b :
  candidate_wf a -> candidate_wf b -> fraction b < fraction a <-> less_loaded a b.
Proof.
  intros [Ha1 Ha2] [Hb1 Hb2]. unfold fraction, less_loaded. split.
  - intros H. destruct (Z.lt_ge_cases (c_AvailableCapacity b * c_CapacitySlots a)
      (c_AvailableCapacity a * c_CapacitySlots b)) as [|Hge]; [done|].
    pose proof (f64_div_mono (c_AvailableCapacity a) (c_CapacitySlots a)
      (c_AvailableCapacity b) (c_CapacitySlots b)). lia.
  - intros H. apply f64_div_strict; lia.
Qed.

(** C23: SelectLeastLoaded returns nil exactly for an empty list; otherwise it
    returns the first candidate whose free share avail/slots, compared as an
    exact fraction although the code compares float64 quotients, is largest:
    nothing in the list is less loaded, and everything before it is more
    loaded. *)
Theorem SelectLeastLoaded_exact (l : list Candidate) :
  (forall c, c ∈ l -> candidate_wf c) ->
  match SelectLeastLoaded l with
  | None => l = []
  | Some b => exists l1 l2, l = l1 ++ b :: l2 /\
      (forall c, c ∈ l1 -> less_loaded b c) /\ (forall c, c ∈ l -> ~ less_loaded c b)
  end.
Proof.
  intros Hwf. pose proof (select_fold_selected l) as H. unfold SelectLeastLoaded, selected in *.
  destruct (foldl select_step (None, 0) l) as [[b|] bf]; simpl in *.
  - destruct H as (_ & _ & l1 & l2 & -> & H1 & H2).
    assert (Hb : candidate_wf b) by (apply Hwf; set_solver).
    exists l1, l2. split; [done|].
    assert (Hl1 : forall c, c ∈ l1 -> less_loaded b c).
    { intros c Hc. assert (candidate_wf c) as Hcw by (apply Hwf; set_solver).
      apply fraction_lt_iff; auto. apply H1; [done|apply Hcw]. }
    split; [done|]. intros c Hc Hlt. assert (candidate_wf c) as Hcw by by apply Hwf.
    apply elem_of_app in Hc as [Hc|[->|Hc]%elem_of_cons].
    + specialize (Hl1 c Hc). unfold less_loaded in *. lia.
    + unfold less_loaded in *. lia.
    + apply fraction_lt_iff in Hlt; auto. specialize (H2 c Hc (proj1 (proj2 Hcw))). lia.
  - destruct l as [|c l]; [done|]. exfalso.
    destruct (Hwf c) as [_ ?]; [left|]. specialize (H c ltac:(left)). lia.
Qed.

Definition example_candidates : list Candidate :=
  [mkCandidate "w-small" 1 [] ∅ 1 2; mkCandidate "w-big" 3 [] ∅ 6 8; mkCandidate "w-tie" 1 [] ∅ 3 4].

Lemma SelectLeastLoaded_exact_witness :
  c_ID <$> SelectLeastLoaded example_candidates = Some "w-big" /\
  match SelectLeastLoaded example_candidates with
  | None => example_candidates = []
  | Some b => exists l1 l2, example_candidates = l1 ++ b :: l2 /\
      (forall c, c ∈ l1 -> less_loaded b c) /\ (forall c, c ∈ example_candidates -> ~ less_loaded c b)
  end.
Proof.
  split; [reflexivity|]. apply (SelectLeastLoaded_exact example_candidates).
  intros c Hc. unfold example_candidates in Hc.
  repeat (apply elem_of_cons in Hc as [->|Hc]; [vm_compute; repeat split; congruence|]).
  by apply not_elem_of_nil in Hc.
Defined.
