(* ===== verification/JobStore.v ===== *)
(** * internal/store/postgres/jobs.go: JobStore

    As in WorkerStore.v, a method that is one statement or transaction is a
    [stmt]; [Create] is a lookup and an insert that other clients can
    separate, so its two statements are defined here and composed in
    Stores.v. *)
From S2P Require Import Prelude Database WorkerStore.
Local Open Scope Z_scope.

Record CreateJobParams := mkCreateJobParams {
  cp_Priority : Z;
  cp_Repository : string;
  cp_Branch : string;
  cp_CommitSHA : string;
  cp_Labels : option (gmap string string);
  cp_RequiredCapabilities : option (list string);
  cp_MaxRetries : Z;
  cp_IdempotencyKey : string }.

Record Job := mkGoJob {
  J_ID : string; J_Priority : Z; J_Repository : string; J_Branch : string; J_CommitSHA : string;
  J_Labels : gmap string string; J_RequiredCapabilities : list string; J_Retries : Z;
  J_MaxRetries : Z; J_Status : string; J_WorkerID : option string; J_LogRef : option string;
  J_CreatedAt : Z; J_StartedAt : option Z; J_FinishedAt : option Z }.

Definition scanJobRow (j : job_row) : Job :=
  mkGoJob (j_id j) (j_priority j) (j_repository j) (j_branch j) (j_commit_sha j) (j_labels j)
    (j_required_capabilities j) (j_retries j) (j_max_retries j) (job_status_text (j_status j))
    (j_worker_id j) (j_log_ref j) (j_created_at j) (j_started_at j) (j_finished_at j).

(** ORDER BY created_at DESC *)
Definition created_after (a b : job_row) : Prop := j_created_at b <= j_created_at a.
#[global] Instance created_after_dec a b : Decision (created_after a b).
Proof. unfold created_after. apply _. Defined.

Definition getByIdempotencyKey (key : string) : stmt Job :=
  fun e d =>
    match merge_sort created_after
            (select_where (fun j => bool_decide (j_idempotency_key j = Some key)) e (jobs d)) with
    | j :: _ => (Ok (scanJobRow j), d)
    | [] => (Err ErrJobNotFound, d)
    end.

(** The parameters after Create's defaults. *)
Definition max_retries_default (n : Z) : Z := if n <=? 0 then 3 else n.

Definition inserted_job (p : CreateJobParams) (e : env) : job_row :=
  mkJob (new_uuid e) (cp_Priority p) (cp_Repository p) (cp_Branch p) (cp_CommitSHA p)
    (default ∅ (cp_Labels p)) (default [] (cp_RequiredCapabilities p)) 0
    (max_retries_default (cp_MaxRetries p)) QUEUED None None
    (ptr_of_string (cp_IdempotencyKey p)) None None (pg_now e) None None.

(** Create's INSERT, with the CHECK on priority, the primary key and the
    unique index (idempotency_key, created_at). *)
Definition InsertJob (p : CreateJobParams) : stmt Job :=
  fun e d =>
    let j := inserted_job p e in
    let key_taken := match j_idempotency_key j with
      | Some k => existsb (fun j' => bool_decide (j_idempotency_key j' = Some k) &&
                                     (j_created_at j' =? pg_now e))
                    (map snd (map_to_list (jobs d)))
      | None => false
      end in
    if negb ((0 <=? cp_Priority p) && (cp_Priority p <=? 9)) then (Err ErrConstraint, d)
    else if key_taken then (Err ErrConstraint, d)
    else match jobs d !! new_uuid e with
         | Some _ => (Err ErrConstraint, d)
         | None => (Ok (scanJobRow j), set_jobs (<[new_uuid e := j]> (jobs d)) d)
         end.

(** JobStore.Get *)
Definition GetJobRow (jobID : string) : stmt Job :=
  fun e d => match jobs d !! jobID with
             | Some j => (Ok (scanJobRow j), d)
             | None => (Err ErrJobNotFound, d)
             end.

Definition count_queued (p : Z) (t : gmap string job_row) : Z :=
  Z.of_nat (length (filter (fun j => j_status j = QUEUED /\ j_priority j = p)
                      (map snd (map_to_list t)))).

(** Priorities are 0..9 by the CHECK of migration 000003. *)
Definition CountQueuedByPriority : stmt (gmap Z Z) :=
  fun e d =>
    let groups := filter (fun pc => 0 < snd pc)
                    (map (fun p => (p, count_queued p (jobs d))) (seqZ 0 10)) in
    if forallb (fun pc => is_ok (scan_int32 (snd pc))) groups
    then (Ok (list_to_map groups), d)
    else (Err ErrOutOfRange, d).

Record ListJobsFilter := mkListJobsFilter {
  lf_Status : string; lf_Repository : string; lf_WorkerID : string; lf_Limit : Z }.

(** The dynamically built WHERE: only the filters that are set apply. *)
Definition job_filter (st : option job_status) (f : ListJobsFilter) (j : job_row) : bool :=
  match st with Some s => bool_decide (j_status j = s) | None => true end &&
  (bool_decide (lf_Repository f = "") || bool_decide (j_repository j = lf_Repository f)) &&
  (bool_decide (lf_WorkerID f = "") || bool_decide (j_worker_id j = Some (lf_WorkerID f))).

(** JobStore.List *)
Definition ListJobRows (f : ListJobsFilter) : stmt (list Job) :=
  fun e d =>
    let n := Z.to_nat (list_limit (lf_Limit f)) in
    let finish st := (Ok (map scanJobRow (take n (merge_sort created_after
                            (select_where (job_filter st f) e (jobs d))))), d) in
    if decide (lf_Status f = "") then finish None
    else match job_status_of_text (lf_Status f) with
         | Ok s => finish (Some s)
         | Err x => (Err x, d)
         end.

Definition MarkRunning (jobID : string) (assignmentEpoch : Z) : stmt bool :=
  let* t := snow in
  let* tag := update_job jobID
    (fun j => bool_decide (j_assignment_epoch j = Some assignmentEpoch) &&
              bool_decide (j_status j = ASSIGNED))
    (fun j => j_set_started_at (Some t) (j_set_status RUNNING j)) in
  sret (bool_decide (is_Some tag)).

(** The predicate Complete and RetryOrFail share. *)
Definition report_guard (jobCreatedAt assignmentEpoch : Z) (j : job_row) : bool :=
  (j_created_at j =? jobCreatedAt) &&
  bool_decide (j_assignment_epoch j = Some assignmentEpoch) && job_active (j_status j).

Definition Complete (jobID : string) (jobCreatedAt assignmentEpoch : Z) (finalStatus logRef : string)
    : stmt bool :=
  fun e d =>
    match job_status_of_text finalStatus with
    | Err x => (Err x, d)
    | Ok s =>
        (let* t := snow in
         let* tag := update_job jobID (report_guard jobCreatedAt assignmentEpoch)
           (fun j => j_set_finished (Some t) (ptr_of_string logRef) (j_set_status s j)) in
         sret (bool_decide (is_Some tag))) e d
    end.

(** [time.Duration(1<<uint(attempt)) * time.Second]: the shift and the product
    are int64 operations; shifting by 64 or more gives 0. *)
Definition shl64 (x n : Z) : Z := if 64 <=? n then 0 else int64 (Z.shiftl x n).

Definition retryBackoff (attempt : Z) : Z :=
  let attempt := if attempt <? 1 then 1 else attempt in
  let d := int64 (shl64 1 attempt * Second) in
  if 60 * Second <? d then 60 * Second else d.

(** The UPDATE of each branch of RetryOrFail. *)
Definition set_retrying (nextRetries retryAt : Z) (j : job_row) : job_row :=
  j_set_started_at None (j_set_assignment None None
    (j_set_retry_at (Some retryAt) (j_set_retries nextRetries (j_set_status RETRYING j)))).
Definition set_failed (t : Z) (logRef : option string) (j : job_row) : job_row :=
  j_set_finished (Some t) logRef (j_set_status FAILED j).

(** The reply is (newStatus, ok). *)
Definition RetryOrFail (jobID : string) (jobCreatedAt assignmentEpoch : Z)
    (workerID : option string) (errorMessage logRef : string) : stmt (string * bool) :=
  BeginFunc (
    let* row := (fun e d => (Ok (match jobs d !! jobID with
                                 | Some j => if report_guard jobCreatedAt assignmentEpoch j
                                             then Some (j_retries j, j_max_retries j) else None
                                 | None => None
                                 end), d)) in
    match row with
    | None => sret ("", false)
    | Some (retries, maxRetries) =>
        let* nextAttempt := (fun e d => (Ok (count_retries jobID d + 1), d)) in
        let nextRetries := int32 (retries + 1) in
        let* newStatus :=
          (if nextRetries <=? maxRetries then
             let* now := (fun e d => (Ok (go_now e), d)) in
             update_job jobID (fun j => j_created_at j =? jobCreatedAt)
               (set_retrying nextRetries (now + retryBackoff nextRetries)) ;;
             sret "RETRYING"
           else
             let* t := snow in
             update_job jobID (fun j => j_created_at j =? jobCreatedAt)
               (set_failed t (ptr_of_string logRef)) ;;
             sret "FAILED") in
        let* t := snow in
        insert_retry (mkRetry jobID jobCreatedAt nextAttempt FAILED workerID
                        (ptr_of_string errorMessage) t (Some t)) ;;
        sret (newStatus, true)
    end).

Record DueRetry := mkDueRetry {
  du_ID : string; du_CreatedAt : Z; du_Priority : Z; du_Repository : string; du_Branch : string;
  du_CommitSHA : string; du_RequiredCapabilities : list string }.

Definition due_retry (j : job_row) : DueRetry :=
  mkDueRetry (j_id j) (j_created_at j) (j_priority j) (j_repository j) (j_branch j)
    (j_commit_sha j) (j_required_capabilities j).

(** ORDER BY retry_at; the rows selected all have one. *)
Definition retry_before (a b : job_row) : Prop :=
  default 0 (j_retry_at a) <= default 0 (j_retry_at b).
#[global] Instance retry_before_dec a b : Decision (retry_before a b).
Proof. unfold retry_before. apply _. Defined.

Definition retry_due (now : Z) (j : job_row) : bool :=
  bool_decide (j_status j = RETRYING) &&
  match j_retry_at j with Some t => t <=? now | None => false end.

Definition ListDueRetries (limit : Z) : stmt (list DueRetry) :=
  fun e d =>
    (Ok (map due_retry (take (Z.to_nat (list_limit limit))
           (merge_sort retry_before (select_where (retry_due (pg_now e)) e (jobs d))))), d).

Definition MarkQueuedFromRetry (jobID : string) (jobCreatedAt : Z) : stmt bool :=
  let* tag := update_job jobID
    (fun j => (j_created_at j =? jobCreatedAt) && bool_decide (j_status j = RETRYING))
    (fun j => j_set_retry_at None (j_set_status QUEUED j)) in
  sret (bool_decide (is_Some tag)).
