(* ===== verification/Lifecycle.v ===== *)
(** * The job lifecycle as an abstract state machine

    The specification the store implements (docs/05-sequence-diagrams.md 5.4,
    docs/09-design-rationale.md 9.3): a job is queued, handed to one worker at
    one epoch, started, and then finishes, is retried after a backoff, or goes
    back to the queue because its worker died.  [abs_job] reads the abstract
    state off a row; Invariant.v proves that every store operation moves every
    job by at most one transition of [lifecycle]. *)
From S2P Require Import Prelude Database.
Local Open Scope Z_scope.

Inductive jstate :=
  | JQueued
  | JAssigned (worker : string) (epoch : Z)
  | JRunning (worker : string) (epoch : Z)
  | JRetrying (retry_at : Z)
  | JDone (final : job_status).

Record ajob := mkAJob { a_state : jstate; a_retries : Z; a_max_retries : Z }.

Definition abs_state (j : job_row) : jstate :=
  let w := default "" (j_worker_id j) in
  let ep := default 0 (j_assignment_epoch j) in
  match j_status j with
  | QUEUED => JQueued
  | ASSIGNED => JAssigned w ep
  | RUNNING => JRunning w ep
  | RETRYING => JRetrying (default 0 (j_retry_at j))
  | s => JDone s
  end.

Definition abs_job (j : job_row) : ajob :=
  mkAJob (abs_state j) (j_retries j) (j_max_retries j).

(** The job is held by worker [w] under epoch [ep]. *)
Definition held (s : jstate) (w : string) (ep : Z) : Prop :=
  s = JAssigned w ep \/ s = JRunning w ep.

Inductive lifecycle : ajob -> ajob -> Prop :=
  | L_assign w ep n m :
      lifecycle (mkAJob JQueued n m) (mkAJob (JAssigned w ep) n m)
  | L_start w ep n m :
      lifecycle (mkAJob (JAssigned w ep) n m) (mkAJob (JRunning w ep) n m)
  | L_finish s w ep n m f :
      held s w ep -> f = SUCCESS \/ f = CANCELLED ->
      lifecycle (mkAJob s n m) (mkAJob (JDone f) n m)
  | L_retry s w ep n m t :
      held s w ep -> n < m ->
      lifecycle (mkAJob s n m) (mkAJob (JRetrying t) (n + 1) m)
  | L_exhausted s w ep n m :
      held s w ep -> m <= n ->
      lifecycle (mkAJob s n m) (mkAJob (JDone FAILED) n m)
  | L_worker_died s w ep n m :
      held s w ep -> lifecycle (mkAJob s n m) (mkAJob JQueued n m)
  | L_backoff_over t n m :
      lifecycle (mkAJob (JRetrying t) n m) (mkAJob JQueued n m).

(** What can be said of the abstract machine alone. *)

Lemma done_is_final a b : lifecycle a b -> forall f, a_state a = JDone f -> False.
Proof.
  destruct 1; simpl; intros f' E; simplify_eq;
    match goal with H : held _ _ _ |- _ => destruct H; congruence end.
Qed.

Lemma lifecycle_retries a b :
  lifecycle a b ->
  a_max_retries b = a_max_retries a /\ a_retries a <= a_retries b <= a_retries a + 1 /\
  (a_retries a <= a_max_retries a -> a_retries b <= a_max_retries b).
Proof. destruct 1; simpl; lia. Qed.

(** Over any number of transitions a finished job stays as it is. *)
Lemma done_is_final_rtc a b f : rtc lifecycle a b -> a_state a = JDone f -> b = a.
Proof.
  intros H E. destruct H as [|a b c Hab]; [done|]. exfalso. by eapply done_is_final.
Qed.

Lemma lifecycle_retries_rtc a b :
  rtc lifecycle a b ->
  a_max_retries b = a_max_retries a /\ a_retries a <= a_retries b /\
  (a_retries a <= a_max_retries a -> a_retries b <= a_max_retries b).
Proof.
  induction 1 as [|a b c H _ IH]; [lia|].
  apply lifecycle_retries in H. destruct IH as (-> & ? & ?). lia.
Qed.
