(* ===== verification/Invariant.v ===== *)
(** * The database invariant and its preservation by every store operation

    [wf_db] says what every reachable database satisfies: column ranges, the
    shape of a job row in each status, foreign keys, one row per instance_id,
    and retry attempts numbered 1, 2, 3, ... per job.  [evolves] says how an
    operation may change it: jobs move along [lifecycle], worker epochs never
    go back, history only grows.  A store operation is [sound] when it keeps
    the first and respects the second, under every environment. *)
From S2P Require Import Prelude Database Lifecycle WorkerStore JobStore.
Local Open Scope Z_scope.

(** ** Well-formed rows *)
Record worker_wf (js : gmap string job_row) (k : string) (w : worker_row) : Prop := {
  wwf_id : w_id w = k;
  wwf_cpu : 0 < w_cpu_cores w;
  wwf_memory : 0 < w_memory_mb w;
  wwf_capacity : 0 <= w_available_capacity w <= w_capacity_slots w;
  wwf_slots : 0 < w_capacity_slots w;
  wwf_epoch : 1 <= w_epoch w <= max_int64;
  wwf_heartbeat : is_Some (w_last_heartbeat w);
  wwf_current_job : forall id t, w_current_job w = Some (id, t) ->
    exists j, js !! id = Some j /\ j_created_at j = t }.

(** The job has been given to a worker that exists, at an epoch it has had. *)
Definition assigned_to (ws : gmap string worker_row) (j : job_row) : Prop :=
  exists wid w ep, j_worker_id j = Some wid /\ j_assignment_epoch j = Some ep /\
    ws !! wid = Some w /\ 1 <= ep <= w_epoch w.

Definition unassigned (j : job_row) : Prop :=
  j_worker_id j = None /\ j_assignment_epoch j = None /\ j_started_at j = None.

Definition status_wf (ws : gmap string worker_row) (j : job_row) : Prop :=
  match j_status j with
  | QUEUED => unassigned j /\ j_retry_at j = None /\ j_finished_at j = None
  | RETRYING => unassigned j /\ is_Some (j_retry_at j) /\ j_finished_at j = None
  | ASSIGNED => assigned_to ws j /\ j_started_at j = None /\ j_retry_at j = None /\
      j_finished_at j = None
  | RUNNING => assigned_to ws j /\ is_Some (j_started_at j) /\ j_retry_at j = None /\
      j_finished_at j = None
  | SUCCESS | CANCELLED => assigned_to ws j /\ j_retry_at j = None /\ is_Some (j_finished_at j)
  | FAILED => assigned_to ws j /\ j_retry_at j = None /\ is_Some (j_finished_at j) /\
      j_retries j = j_max_retries j
  end.

Record job_wf (ws : gmap string worker_row) (attempts : Z) (k : string) (j : job_row) : Prop := {
  jwf_id : j_id j = k;
  jwf_priority : 0 <= j_priority j <= 9;
  jwf_retries : 0 <= j_retries j <= j_max_retries j;
  jwf_max_retries : 1 <= j_max_retries j < max_int32;
  jwf_attempts : j_retries j + (if decide (j_status j = FAILED) then 1 else 0) <= attempts;
  jwf_status : status_wf ws j }.

(** The attempts recorded for one job, oldest first. *)
Definition attempts_of (job : string) (h : list retry_row) : list Z :=
  map rh_attempt_number (filter (fun r => rh_job_id r = job) h).

Record retry_wf (d : database) (r : retry_row) : Prop := {
  rwf_job : exists j, jobs d !! rh_job_id r = Some j /\ j_created_at j = rh_job_created_at r;
  rwf_worker : forall w, rh_worker_id r = Some w -> is_Some (workers d !! w) }.

Record wf_db (d : database) : Prop := {
  wf_workers : forall k w, workers d !! k = Some w -> worker_wf (jobs d) k w;
  wf_jobs : forall k j, jobs d !! k = Some j -> job_wf (workers d) (count_retries k d) k j;
  wf_instances : forall k1 k2 w1 w2, workers d !! k1 = Some w1 -> workers d !! k2 = Some w2 ->
    w_instance_id w1 = w_instance_id w2 -> k1 = k2;
  wf_history : Forall (retry_wf d) (job_retry_history d);
  wf_attempts : forall k, attempts_of k (job_retry_history d) = seqZ 1 (count_retries k d) }.

(** ** How a database may change *)
Definition job_evolves (j j' : job_row) : Prop :=
  j_id j' = j_id j /\ j_priority j' = j_priority j /\ j_repository j' = j_repository j /\
  j_branch j' = j_branch j /\ j_commit_sha j' = j_commit_sha j /\ j_labels j' = j_labels j /\
  j_required_capabilities j' = j_required_capabilities j /\
  j_max_retries j' = j_max_retries j /\ j_idempotency_key j' = j_idempotency_key j /\
  j_created_at j' = j_created_at j /\
  (j' = j \/ lifecycle (abs_job j) (abs_job j')).

Definition worker_evolves (w w' : worker_row) : Prop :=
  w_id w' = w_id w /\ w_instance_id w' = w_instance_id w /\
  w_registered_at w' = w_registered_at w /\ w_epoch w <= w_epoch w'.

Record evolves (d d' : database) : Prop := {
  ev_jobs : forall k j, jobs d !! k = Some j ->
    exists j', jobs d' !! k = Some j' /\ job_evolves j j';
  ev_new_jobs : forall k j', jobs d !! k = None -> jobs d' !! k = Some j' -> j_status j' = QUEUED;
  ev_workers : forall k w, workers d !! k = Some w ->
    exists w', workers d' !! k = Some w' /\ worker_evolves w w';
  ev_history : exists h, job_retry_history d' = job_retry_history d ++ h }.

Lemma job_evolves_refl j : job_evolves j j.
Proof. repeat split; auto. Qed.
Lemma worker_evolves_refl w : worker_evolves w w.
Proof. repeat split; lia. Qed.
#[export] Hint Resolve job_evolves_refl worker_evolves_refl : fleet.

Lemma evolves_refl d : evolves d d.
Proof.
  split; [eauto with fleet | congruence | eauto with fleet | exists []; by rewrite app_nil_r].
Qed.
#[export] Hint Resolve evolves_refl : fleet.

Definition sound {A} (m : stmt A) : Prop :=
  forall e d, wf_db d -> wf_db (m e d).2 /\ evolves d (m e d).2.

(** A statement that leaves the database alone. *)
Definition reads_only {A} (m : stmt A) : Prop := forall e d, (m e d).2 = d.

Lemma reads_only_sound {A} (m : stmt A) : reads_only m -> sound m.
Proof. intros H e d Hd. rewrite H. auto with fleet. Qed.

Lemma empty_db_wf : wf_db empty_db.
Proof.
  split; simpl; try (intros *; rewrite lookup_empty; done).
  - constructor.
  - done.
Qed.

(** ** Single-row updates keep the invariant *)
Section single_row.
Context (d : database) (Hwf : wf_db d).

Lemma assigned_to_mono (ws : gmap string worker_row) k w w' j :
  ws !! k = Some w -> w_epoch w <= w_epoch w' ->
  assigned_to ws j -> assigned_to (<[k := w']> ws) j.
Proof.
  intros Hk Hle (wid & w0 & ep & Hj & He & Hw & Hep).
  destruct (decide (wid = k)) as [->|Hne].
  - simplify_eq. exists k, w', ep. rewrite lookup_insert_eq. repeat split; auto; lia.
  - exists wid, w0, ep. rewrite lookup_insert_ne by done. auto.
Qed.

Lemma status_wf_mono (ws ws' : gmap string worker_row) j :
  (assigned_to ws j -> assigned_to ws' j) -> status_wf ws j -> status_wf ws' j.
Proof. unfold status_wf. destruct (j_status j); tauto. Qed.

Lemma evolves_worker k w w' :
  workers d !! k = Some w -> worker_evolves w w' ->
  evolves d (set_workers (<[k := w']> (workers d)) d).
Proof.
  intros Hk Hw. split; simpl.
  - eauto with fleet.
  - congruence.
  - intros k0 w0 H0. destruct (decide (k = k0)) as [->|Hne].
    + simplify_eq. rewrite lookup_insert_eq. eauto.
    + rewrite lookup_insert_ne by done. eauto with fleet.
  - exists []. by rewrite app_nil_r.
Qed.

(** An UPDATE of one worker row. *)
Lemma wf_set_worker k w w' :
  workers d !! k = Some w -> worker_wf (jobs d) k w' -> worker_evolves w w' ->
  wf_db (set_workers (<[k := w']> (workers d)) d).
Proof.
  intros Hk Hw' (_ & Hi & _ & He). split; simpl.
  - intros k0 w0 [[<- <-]|[Hne H0]]%lookup_insert_Some; [done|]. by apply wf_workers.
  - intros k0 j H0. destruct (wf_jobs d Hwf _ _ H0). split; auto.
    eapply status_wf_mono; [|done]. by eapply assigned_to_mono.
  - intros k1 k2 w1 w2 H1 H2 E.
    apply lookup_insert_Some in H1, H2.
    destruct H1 as [[-> <-]|[Hne1 H1]], H2 as [[-> <-]|[Hne2 H2]]; [done|..];
      rewrite ?Hi in E; by eapply (wf_instances d Hwf).
  - eapply Forall_impl; [|exact (wf_history d Hwf)]. intros r [Hj Hw]. split; [done|].
    simpl. intros w0 H0. destruct (decide (k = w0)) as [->|Hne].
    + rewrite lookup_insert_eq. eauto.
    + rewrite lookup_insert_ne by done. eauto.
  - apply (wf_attempts d Hwf).
Qed.

Lemma evolves_job k j j' h :
  jobs d !! k = Some j -> job_evolves j j' ->
  evolves d (mkDb (workers d) (<[k := j']> (jobs d)) (job_retry_history d ++ h) (worker_events d)).
Proof.
  intros Hk Hj. split; simpl.
  - intros k0 j0 H0. destruct (decide (k = k0)) as [->|Hne].
    + simplify_eq. rewrite lookup_insert_eq. eauto.
    + rewrite lookup_insert_ne by done. eauto with fleet.
  - intros k0 j0 H0 [[<- <-]|[Hne H1]]%lookup_insert_Some; congruence.
  - eauto with fleet.
  - eauto.
Qed.

(** An UPDATE of one job row, with or without a retry attempt recorded. *)
Lemma created_at_insert k j j' id t :
  jobs d !! k = Some j -> j_created_at j' = j_created_at j ->
  (exists j0, jobs d !! id = Some j0 /\ j_created_at j0 = t) ->
  exists j0, <[k := j']> (jobs d) !! id = Some j0 /\ j_created_at j0 = t.
Proof.
  intros Hk Hc (j0 & H0 & <-). destruct (decide (k = id)) as [->|Hne].
  - simplify_eq. exists j'. by rewrite lookup_insert_eq.
  - exists j0. by rewrite lookup_insert_ne.
Qed.

Lemma wf_set_job k j j' :
  jobs d !! k = Some j -> job_wf (workers d) (count_retries k d) k j' ->
  j_created_at j' = j_created_at j ->
  wf_db (set_jobs (<[k := j']> (jobs d)) d).
Proof.
  intros Hk Hj' Hc. split; simpl.
  - intros k0 w0 H0. destruct (wf_workers d Hwf _ _ H0). split; auto.
    intros id t E. by eapply created_at_insert; eauto.
  - intros k0 j0 [[<- <-]|[Hne H0]]%lookup_insert_Some; [done|]. by apply (wf_jobs d Hwf).
  - apply (wf_instances d Hwf).
  - eapply Forall_impl; [|exact (wf_history d Hwf)]. intros r [Hj Hw]. split; [|done].
    by eapply created_at_insert.
  - apply (wf_attempts d Hwf).
Qed.
End single_row.

Lemma attempts_of_app k h r :
  attempts_of k (h ++ [r]) =
  attempts_of k h ++ (if decide (rh_job_id r = k) then [rh_attempt_number r] else []).
Proof.
  unfold attempts_of. rewrite list.filter_app, map_app. f_equal.
  rewrite filter_cons, filter_nil. by case_decide.
Qed.

Definition add_attempt (r : retry_row) (d : database) : database :=
  mkDb (workers d) (jobs d) (job_retry_history d ++ [r]) (worker_events d).

Lemma count_retries_add k r d :
  count_retries k (add_attempt r d) =
  count_retries k d + (if decide (rh_job_id r = k) then 1 else 0).
Proof.
  unfold count_retries. simpl. rewrite list.filter_app, length_app, filter_cons, filter_nil.
  case_decide; simpl; lia.
Qed.

Lemma count_retries_nonneg k d : 0 <= count_retries k d.
Proof. unfold count_retries. lia. Qed.

(** Recording the next attempt of a job. *)
Lemma wf_add_attempt d r :
  wf_db d -> retry_wf d r -> rh_attempt_number r = count_retries (rh_job_id r) d + 1 ->
  wf_db (add_attempt r d).
Proof.
  intros Hwf Hr Hn. split; simpl.
  - apply (wf_workers d Hwf).
  - intros k j Hj. destruct (wf_jobs d Hwf _ _ Hj). split; auto.
    rewrite count_retries_add. repeat case_decide; lia.
  - apply (wf_instances d Hwf).
  - apply Forall_app. split; [|constructor; [|constructor]].
    + eapply Forall_impl; [|exact (wf_history d Hwf)]. intros r' [??]. by split.
    + destruct Hr. by split.
  - intros k. rewrite attempts_of_app, (wf_attempts d Hwf), count_retries_add.
    pose proof (count_retries_nonneg k d). case_decide as E.
    + rewrite seqZ_app by lia. f_equal. rewrite <- E, Hn, E.
      rewrite (Z.add_comm 1). done.
    + by rewrite app_nil_r, Z.add_0_r.
Qed.

(** The unique index on attempts never rejects the next attempt. *)
Lemma insert_retry_next d r e :
  wf_db d -> retry_wf d r -> rh_attempt_number r = count_retries (rh_job_id r) d + 1 ->
  insert_retry r e d = (Ok tt, add_attempt r d).
Proof.
  intros Hwf [(j & Hj & Hc) Hw] Hn. unfold insert_retry. rewrite Hj, Hc.
  rewrite bool_decide_true by done.
  assert ((match rh_worker_id r with
           | Some w => bool_decide (is_Some (workers d !! w)) | None => true end) = true) as ->.
  { destruct (rh_worker_id r) as [w|]; [|done]. by apply bool_decide_eq_true, Hw. }
  assert (forallb (fun r' => negb (bool_decide (rh_job_id r' = rh_job_id r) &&
     bool_decide (rh_attempt_number r' = rh_attempt_number r))) (job_retry_history d) = true) as ->.
  { apply forallb_forall. intros r' Hr'. apply negb_true_iff, andb_false_iff.
    destruct (decide (rh_job_id r' = rh_job_id r)) as [E|E]; [|left; by apply bool_decide_eq_false].
    right. apply bool_decide_eq_false. intros E'.
    assert (Hin : rh_attempt_number r' ∈ attempts_of (rh_job_id r) (job_retry_history d)).
    { apply list_elem_of_fmap. exists r'. split; [done|]. apply list_elem_of_filter.
      split; [done|]. by apply list_elem_of_In. }
    rewrite (wf_attempts d Hwf) in Hin. apply elem_of_seqZ in Hin. lia. }
  done.
Qed.
