(* ===== verification/StoreSound.v ===== *)
(** * Every store operation is sound

    First what each operation does, branch by branch, then that it keeps
    [wf_db] and respects [evolves]. *)
From S2P Require Import Prelude Database Lifecycle WorkerStore JobStore Invariant.
Local Open Scope Z_scope.

(** ** Statement-level case analysis *)
Lemma set_workers_id d : set_workers (workers d) d = d.
Proof. by destruct d. Qed.
Lemma set_jobs_id d : set_jobs (jobs d) d = d.
Proof. by destruct d. Qed.

Lemma update_worker_cases k P f e d :
  (update_worker k P f e d = (Ok None, d) /\ forall w, workers d !! k = Some w -> P w = false) \/
  (exists w, workers d !! k = Some w /\ P w = true /\
     let w' := w_set_updated_at (pg_now e) (f w) in
     update_worker k P f e d = (Ok (Some w'), set_workers (<[k := w']> (workers d)) d)).
Proof.
  unfold update_worker, update_where. destruct (workers d !! k) as [w|] eqn:Hk.
  - destruct (P w) eqn:HP; [by right; eauto|]. left. rewrite set_workers_id.
    split; [done|]. congruence.
  - left. rewrite set_workers_id. done.
Qed.

Lemma update_job_cases k P f e d :
  (update_job k P f e d = (Ok None, d) /\ forall j, jobs d !! k = Some j -> P j = false) \/
  (exists j, jobs d !! k = Some j /\ P j = true /\
     update_job k P f e d = (Ok (Some (f j)), set_jobs (<[k := f j]> (jobs d)) d)).
Proof.
  unfold update_job, update_where. destruct (jobs d !! k) as [j|] eqn:Hk.
  - destruct (P j) eqn:HP; [by right; eauto|]. left. rewrite set_jobs_id.
    split; [done|]. congruence.
  - left. rewrite set_jobs_id. done.
Qed.

Ltac run_stmt := unfold sbind, snow, sret, serr, BeginFunc; cbn beta iota.

(** ** Changes outside the workers and jobs tables *)
Lemma wf_db_events ws js h ev ev' : wf_db (mkDb ws js h ev) -> wf_db (mkDb ws js h ev').
Proof.
  intros [Hw Hj Hi Hh Ha]. split; try done. eapply list.Forall_impl; [exact Hh|].
  intros r [??]. by split.
Qed.

Lemma evolves_events d ws js h ev ev' :
  evolves d (mkDb ws js h ev) -> evolves d (mkDb ws js h ev').
Proof. intros [????]. by split. Qed.

(** ** Register *)

(** The row Register leaves: READY, freshly stamped, holding no job. *)
Definition registered_row (e : env) (w : worker_row) : worker_row :=
  w_set_updated_at (pg_now e) (w_set_last_heartbeat (Some (pg_now e)) (w_set_status READY w)).

Definition register_db (p : RegisterWorkerParams) (e : env) (w : worker_row) (d : database)
    : database :=
  mkDb (<[w_id w := registered_row e w]> (workers d)) (jobs d) (job_retry_history d)
    (worker_events d ++ [EvRegistered (w_id w) (w_epoch w) (rp_InstanceID p)]).

Lemma worker_by_instance_Some inst (t : gmap string worker_row) w :
  worker_by_instance inst t = Some w -> w_instance_id w = inst /\ exists k, t !! k = Some w.
Proof.
  unfold worker_by_instance. intros H.
  assert (Hin : w ∈ filter (fun w => w_instance_id w = inst) (map snd (map_to_list t))).
  { destruct (filter _ _); simplify_eq/=. left. }
  apply list_elem_of_filter in Hin as [E [[k w'] [-> Hk]]%list_elem_of_fmap].
  split; [done|]. exists k. by apply elem_of_map_to_list in Hk.
Qed.

Lemma worker_by_instance_None inst (t : gmap string worker_row) k w :
  worker_by_instance inst t = None -> t !! k = Some w -> w_instance_id w <> inst.
Proof.
  unfold worker_by_instance. intros H Hk E.
  assert (Hin : w ∈ filter (fun w => w_instance_id w = inst) (map snd (map_to_list t))).
  { apply list_elem_of_filter. split; [done|]. apply list_elem_of_fmap. exists (k, w).
    split; [done|]. by apply elem_of_map_to_list. }
  destruct (filter _ _); [by apply not_elem_of_nil in Hin|done].
Qed.

(** What Register does after its upsert succeeded with row [w]. *)
Lemma Register_after_upsert p e d w :
  upsert_worker p e d =
    (Ok (mkRegisteredWorker (w_id w) (w_epoch w)), set_workers (<[w_id w := w]> (workers d)) d) ->
  Register p e d = (Ok (mkRegisteredWorker (w_id w) (w_epoch w)), register_db p e w d).
Proof.
  intros H. unfold Register. run_stmt. rewrite H. cbn.
  unfold update_worker, update_where. simpl. rewrite lookup_insert_eq. cbn.
  unfold register_db, set_workers. simpl. by rewrite insert_insert_eq.
Qed.

(** Register, every branch. *)
Lemma Register_cases p e d :
  (exists x, Register p e d = (Err x, d)) \/
  (exists w0 w, worker_by_instance (rp_InstanceID p) (workers d) = Some w0 /\
     w = conflict_worker p e w0 /\ w_epoch w0 < max_int64 /\
     0 < rp_CPUCores p /\ 0 < rp_MemoryMB p /\
     Register p e d = (Ok (mkRegisteredWorker (w_id w) (w_epoch w)), register_db p e w d)) \/
  (exists w, worker_by_instance (rp_InstanceID p) (workers d) = None /\
     w = inserted_worker p e /\ workers d !! new_uuid e = None /\
     0 < rp_CPUCores p /\ 0 < rp_MemoryMB p /\
     Register p e d = (Ok (mkRegisteredWorker (w_id w) (w_epoch w)), register_db p e w d)).
Proof.
  destruct (upsert_worker p e d) as [r d'] eqn:H. pose proof H as H'.
  unfold upsert_worker in H'.
  destruct ((rp_CPUCores p <=? 0) || (rp_MemoryMB p <=? 0)) eqn:Hc.
  { left. simplify_eq. unfold Register. run_stmt. rewrite H. eauto. }
  apply orb_false_iff in Hc as [H1%Z.leb_gt H2%Z.leb_gt].
  destruct (worker_by_instance _ _) as [w0|] eqn:Hi.
  - destruct (max_int64 <=? w_epoch w0) eqn:He.
    { left. simplify_eq. unfold Register. run_stmt. rewrite H. eauto. }
    apply Z.leb_gt in He. right; left. exists w0, (conflict_worker p e w0).
    repeat split; try done. apply Register_after_upsert. rewrite H. by simplify_eq.
  - destruct (workers d !! new_uuid e) as [w0|] eqn:Hn.
    { left. simplify_eq. unfold Register. run_stmt. rewrite H. eauto. }
    right; right. exists (inserted_worker p e). repeat split; try done.
    apply Register_after_upsert. rewrite H. by simplify_eq.
Qed.

(** An INSERT of a worker row under a fresh key. *)
Lemma wf_insert_worker d k w :
  wf_db d -> workers d !! k = None -> worker_wf (jobs d) k w ->
  (forall k0 w0, workers d !! k0 = Some w0 -> w_instance_id w0 <> w_instance_id w) ->
  wf_db (set_workers (<[k := w]> (workers d)) d) /\
  evolves d (set_workers (<[k := w]> (workers d)) d).
Proof.
  intros Hwf Hk Hw Hi. split.
  - split; simpl.
    + intros k0 w0 [[<- <-]|[Hne H0]]%lookup_insert_Some; [done|]. by apply (wf_workers d Hwf).
    + intros k0 j H0. destruct (wf_jobs d Hwf _ _ H0). split; auto.
      eapply status_wf_mono; [|done]. intros (wid & w0 & ep & Hj & He & Hw0 & Hep).
      exists wid, w0, ep. rewrite lookup_insert_ne by congruence. auto.
    + intros k1 k2 w1 w2 [[<- <-]|[Hne1 H1]]%lookup_insert_Some
        [[<- <-]|[Hne2 H2]]%lookup_insert_Some E; [done|..].
      * by eapply Hi in H2.
      * by eapply Hi in H1.
      * by eapply (wf_instances d Hwf).
    + eapply list.Forall_impl; [exact (wf_history d Hwf)|]. intros r [Hj Hrw]. split; [done|].
      simpl. intros w0 H0. destruct (decide (k = w0)) as [->|Hne].
      * rewrite lookup_insert_eq. eauto.
      * rewrite lookup_insert_ne by done. eauto.
    + apply (wf_attempts d Hwf).
  - split; simpl.
    + eauto with fleet.
    + congruence.
    + intros k0 w0 H0. rewrite lookup_insert_ne by congruence. eauto with fleet.
    + exists []. by rewrite app_nil_r.
Qed.

Lemma capacity_slots_default_pos n : 0 < capacity_slots_default n.
Proof. unfold capacity_slots_default. case_match; lia. Qed.

Lemma Register_sound p : sound (Register p).
Proof.
  intros e d Hwf.
  destruct (Register_cases p e d) as [[x ->]|[(w0 & w & Hi & -> & He & Hc & Hm & ->)|
    (w & Hi & -> & Hn & Hc & Hm & ->)]]; simpl; [auto with fleet|..].
  - apply worker_by_instance_Some in Hi as [Hinst [k Hk]].
    pose proof (wf_workers d Hwf _ _ Hk) as W. destruct W as [<- _ _ _ _ ? _ _].
    pose proof (capacity_slots_default_pos (rp_CapacitySlots p)).
    assert (Hev : worker_evolves w0 (registered_row e (conflict_worker p e w0))).
    { unfold worker_evolves. simpl. repeat split; lia. }
    split; [eapply wf_db_events; eapply wf_set_worker|eapply evolves_events; eapply evolves_worker];
      try done.
    split; simpl; try lia; try done; eauto.
  - pose proof (capacity_slots_default_pos (rp_CapacitySlots p)).
    destruct (wf_insert_worker d (new_uuid e) (registered_row e (inserted_worker p e)))
      as [A B]; try done.
    + split; simpl; try lia; try done; eauto.
    + intros k0 w0 H0. simpl. by eapply worker_by_instance_None.
    + split; [by eapply wf_db_events|by eapply evolves_events].
Qed.

(** ** Updates of one worker row *)
Ltac worker_ok Hwf Hk :=
  destruct (wf_workers _ Hwf _ _ Hk); split; simpl; eauto; try lia;
  try (intros; simplify_eq; eauto).

Lemma worker_evolves_same_identity w w' :
  w_id w' = w_id w -> w_instance_id w' = w_instance_id w ->
  w_registered_at w' = w_registered_at w -> w_epoch w' = w_epoch w -> worker_evolves w w'.
Proof. unfold worker_evolves. intuition lia. Qed.
#[export] Hint Resolve worker_evolves_same_identity : fleet.

Lemma sound_worker_update d k w w' :
  wf_db d -> workers d !! k = Some w -> worker_wf (jobs d) k w' -> worker_evolves w w' ->
  wf_db (set_workers (<[k := w']> (workers d)) d) /\
  evolves d (set_workers (<[k := w']> (workers d)) d).
Proof. intros. split; [by eapply wf_set_worker|by eapply evolves_worker]. Qed.

(** The heartbeat flush, every branch. *)
Lemma UpdateHeartbeatRow_cases workerID epoch dbStatus cj e d :
  (exists r, UpdateHeartbeatRow workerID epoch dbStatus cj e d = (r, d) /\ r <> Ok true) \/
  (exists s w, worker_status_of_text dbStatus = Ok s /\ workers d !! workerID = Some w /\
     w_epoch w = epoch /\
     (forall id t, cj = Some (id, t) -> exists j, jobs d !! id = Some j /\ j_created_at j = t) /\
     let w' := w_set_updated_at (pg_now e) (w_set_last_heartbeat (Some (pg_now e))
                 (w_set_current_job cj (w_set_status s w))) in
     UpdateHeartbeatRow workerID epoch dbStatus cj e d =
       (Ok true, set_workers (<[workerID := w']> (workers d)) d)).
Proof.
  unfold UpdateHeartbeatRow.
  destruct (worker_status_of_text dbStatus) as [s|x] eqn:Hs; [|left; eauto].
  run_stmt.
  destruct (update_worker_cases workerID (fun w => w_epoch w =? epoch)
    (fun w => w_set_last_heartbeat (Some (pg_now e))
                (w_set_current_job cj (w_set_status s w))) e d)
    as [[-> _]|(w & Hk & HP & ->)]; [left; eexists; eauto|].
  unfold check_current_job_fk. destruct cj as [[id t]|]; simpl.
  - destruct (jobs d !! id) as [j|] eqn:Hj; [|left; eauto].
    case_bool_decide as Hc; [|left; eauto].
    right. exists s, w. repeat split; try done; [lia|]. intros. simplify_eq. eauto.
  - right. exists s, w. repeat split; try done; lia.
Qed.

Lemma UpdateHeartbeatRow_sound workerID epoch dbStatus cj :
  sound (UpdateHeartbeatRow workerID epoch dbStatus cj).
Proof.
  intros e d Hwf.
  destruct (UpdateHeartbeatRow_cases workerID epoch dbStatus cj e d)
    as [(r & -> & _)|(s & w & Hs & Hk & He & Hfk & ->)]; simpl; [auto with fleet|].
  eapply sound_worker_update; eauto with fleet. worker_ok Hwf Hk.
Qed.

Lemma FreeWorker_cases workerID epoch e d :
  (FreeWorker workerID epoch e d = (Ok (false, 0, ""), d) /\
     forall w, workers d !! workerID = Some w -> w_epoch w <> epoch) \/
  (exists w, workers d !! workerID = Some w /\ w_epoch w = epoch /\
     let w' := w_set_updated_at (pg_now e) (w_set_available_capacity
                 (Z.min (w_available_capacity w + 1) (w_capacity_slots w))
                 (w_set_current_job None
                    (w_set_status (if w_drain_requested w then DRAINING else READY) w))) in
     FreeWorker workerID epoch e d =
       (Ok (true, w_available_capacity w', worker_status_text (w_status w')),
        set_workers (<[workerID := w']> (workers d)) d)).
Proof.
  unfold FreeWorker. run_stmt. match goal with |- context [update_worker ?k ?P ?f e d] =>
    destruct (update_worker_cases k P f e d) as [[-> H]|(w & Hk & HP & ->)] end.
  - left. split; [done|]. intros w Hw. apply H in Hw. lia.
  - right. exists w. repeat split; [done|lia].
Qed.

Lemma FreeWorker_sound workerID epoch : sound (FreeWorker workerID epoch).
Proof.
  intros e d Hwf.
  destruct (FreeWorker_cases workerID epoch e d) as [[-> _]|(w & Hk & He & ->)]; simpl;
    [auto with fleet|].
  eapply sound_worker_update; eauto with fleet. worker_ok Hwf Hk.
Qed.

Lemma drain_update_cases workerID f ev e d :
  (drain_update workerID f ev e d = (Ok None, d) /\
     forall w, workers d !! workerID = Some w -> worker_gone (w_status w) = true) \/
  (exists w, workers d !! workerID = Some w /\ worker_gone (w_status w) = false /\
     let w' := w_set_updated_at (pg_now e) (f w) in
     drain_update workerID f ev e d =
       (Ok (Some (drain_result w')),
        mkDb (<[workerID := w']> (workers d)) (jobs d) (job_retry_history d)
          (worker_events d ++ [ev (w_epoch w')]))).
Proof.
  unfold drain_update. run_stmt. match goal with |- context [update_worker ?k ?P ?f e d] =>
    destruct (update_worker_cases k P f e d) as [[-> H]|(w & Hk & HP & ->)] end.
  - left. split; [done|]. intros w Hw. apply H in Hw. by apply negb_false_iff.
  - right. exists w. repeat split; [done|by apply negb_true_iff].
Qed.

Lemma drain_update_sound workerID f ev :
  (forall js k w, worker_wf js k w -> worker_wf js k (f w)) ->
  (forall w, worker_evolves w (f w)) ->
  sound (drain_update workerID f ev).
Proof.
  intros Hf He e d Hwf.
  destruct (drain_update_cases workerID f ev e d) as [[-> _]|(w & Hk & _ & ->)]; simpl;
    [auto with fleet|].
  destruct (sound_worker_update d workerID w (w_set_updated_at (pg_now e) (f w)) Hwf Hk) as [A B].
  - destruct (Hf _ _ _ (wf_workers d Hwf _ _ Hk)). by split.
  - apply He.
  - split; [by eapply wf_db_events|by eapply evolves_events].
Qed.

Lemma RequestDrain_sound workerID : sound (RequestDrain workerID).
Proof.
  apply drain_update_sound; [|intros w; by apply worker_evolves_same_identity].
  intros js k w []. by split.
Qed.

Lemma ResumeDrain_sound workerID : sound (ResumeDrain workerID).
Proof.
  apply drain_update_sound; [|intros w; by apply worker_evolves_same_identity].
  intros js k w []. by split.
Qed.

(** The columns of a job row other than those its status constrains. *)
Lemma attempts_keep (s s' : job_status) n a :
  n + (if decide (s = FAILED) then 1 else 0) <= a -> s' <> FAILED ->
  n + (if decide (s' = FAILED) then 1 else 0) <= a.
Proof. intros. repeat case_decide; try done; lia. Qed.

Ltac job_ok := split; try (eapply attempts_keep; [eassumption|done]); auto.

(** ** AssignJob *)
Definition assigned_worker (e : env) (jobID : string) (jobCreatedAt : Z) (w : worker_row)
    : worker_row :=
  w_set_updated_at (pg_now e) (w_set_available_capacity (w_available_capacity w - 1)
    (w_set_current_job (Some (jobID, jobCreatedAt)) (w_set_status BUSY w))).
Definition assigned_job (workerID : string) (epoch : Z) (j : job_row) : job_row :=
  j_set_assignment (Some workerID) (Some epoch) (j_set_status ASSIGNED j).

(** The assignment is all or nothing, and succeeds only from a READY worker at
    the given epoch with spare capacity and a QUEUED job. *)
Lemma AssignJob_cases jobID jobCreatedAt workerID workerEpoch e d :
  (exists r, AssignJob jobID jobCreatedAt workerID workerEpoch e d = (r, d) /\ r <> Ok true) \/
  (exists w j, workers d !! workerID = Some w /\ jobs d !! jobID = Some j /\
     w_epoch w = workerEpoch /\ w_status w = READY /\ 0 < w_available_capacity w /\
     j_created_at j = jobCreatedAt /\ j_status j = QUEUED /\
     AssignJob jobID jobCreatedAt workerID workerEpoch e d =
       (Ok true, mkDb (<[workerID := assigned_worker e jobID jobCreatedAt w]> (workers d))
                   (<[jobID := assigned_job workerID workerEpoch j]> (jobs d))
                   (job_retry_history d) (worker_events d))).
Proof.
  unfold AssignJob, assign_body. run_stmt.
  match goal with |- context [update_worker ?k ?P ?f e d] =>
    destruct (update_worker_cases k P f e d) as [[-> _]|(w & Hk & HP & ->)] end;
    [left; eexists; split; [done|congruence]|].
  apply andb_true_iff in HP as [[H1 H2%bool_decide_eq_true]%andb_true_iff H3].
  simpl. destruct (jobs d !! jobID) as [j|] eqn:Hj; [|left; eauto].
  case_bool_decide as Hc; [|left; eauto].
  match goal with |- context [update_job ?k ?P ?f e ?d1] =>
    destruct (update_job_cases k P f e d1) as [[-> _]|(j' & Hj' & HP' & ->)] end;
    [left; eexists; split; [done|congruence]|].
  simpl in Hj'. simplify_eq. apply andb_true_iff in HP' as [_ HP'%bool_decide_eq_true].
  right. exists w, j. repeat split; try done; lia.
Qed.

Lemma AssignJob_sound jobID jobCreatedAt workerID workerEpoch :
  sound (AssignJob jobID jobCreatedAt workerID workerEpoch).
Proof.
  intros e d Hwf.
  destruct (AssignJob_cases jobID jobCreatedAt workerID workerEpoch e d)
    as [(r & -> & _)|(w & j & Hk & Hj & He & Hs & Ha & Hc & Hq & ->)]; simpl; [auto with fleet|].
  set (w' := assigned_worker e jobID jobCreatedAt w).
  set (j' := assigned_job workerID workerEpoch j).
  destruct (sound_worker_update d workerID w w' Hwf Hk) as [A B].
  { worker_ok Hwf Hk. }
  { by apply worker_evolves_same_identity. }
  set (d1 := set_workers (<[workerID := w']> (workers d)) d) in *.
  change (wf_db (set_jobs (<[jobID := j']> (jobs d1)) d1) /\
          evolves d (set_jobs (<[jobID := j']> (jobs d1)) d1)).
  split.
  - eapply wf_set_job; [done|exact Hj| |done].
    destruct (wf_jobs d Hwf _ _ Hj) as [???? ? Hst]. job_ok.
    unfold status_wf in *. rewrite Hq in Hst. simpl. destruct Hst as ((_ & _ & Hs0) & ? & ?).
    repeat split; auto. exists workerID, w', workerEpoch. simpl. rewrite lookup_insert_eq.
    destruct (wf_workers d Hwf _ _ Hk). repeat split; auto; simpl; lia.
  - split; simpl.
    + intros k0 j0 H0. destruct (decide (jobID = k0)) as [->|Hne].
      * simplify_eq. rewrite lookup_insert_eq. eexists. split; [done|]. repeat split; auto.
        right. unfold abs_job, abs_state. rewrite Hq. simpl. constructor.
      * rewrite lookup_insert_ne by done. eauto with fleet.
    + intros k0 j0 H0 [[<- <-]|[Hne H1]]%lookup_insert_Some; congruence.
    + apply B.
    + apply B.
Qed.

(** ** Updates of one job row *)
Lemma sound_job_update d k j j' :
  wf_db d -> jobs d !! k = Some j -> job_wf (workers d) (count_retries k d) k j' ->
  job_evolves j j' ->
  wf_db (set_jobs (<[k := j']> (jobs d)) d) /\ evolves d (set_jobs (<[k := j']> (jobs d)) d).
Proof.
  intros Hwf Hk Hj He. split.
  - eapply wf_set_job; eauto. apply He.
  - pose proof (evolves_job d k j j' [] Hk He) as H. rewrite app_nil_r in H. exact H.
Qed.

(** A job update together with the attempt it records. *)
Lemma sound_job_attempt d k j j' r :
  wf_db d -> jobs d !! k = Some j -> retry_wf d r -> rh_job_id r = k ->
  rh_attempt_number r = count_retries k d + 1 ->
  job_wf (workers d) (count_retries k d + 1) k j' -> job_evolves j j' ->
  wf_db (add_attempt r (set_jobs (<[k := j']> (jobs d)) d)) /\
  evolves d (add_attempt r (set_jobs (<[k := j']> (jobs d)) d)).
Proof.
  intros Hwf Hk Hr Hid Hn Hj He. split.
  - change (wf_db (set_jobs (<[k := j']> (jobs (add_attempt r d))) (add_attempt r d))).
    eapply wf_set_job; [by apply wf_add_attempt; rewrite ?Hid|exact Hk| |apply He].
    rewrite count_retries_add, decide_True by done. done.
  - by apply (evolves_job d k j j' [r]).
Qed.

Lemma insert_retry_cases r e d :
  insert_retry r e d = (Err ErrConstraint, d) \/
  (insert_retry r e d = (Ok tt, add_attempt r d) /\ retry_wf d r).
Proof.
  unfold insert_retry.
  destruct (jobs d !! rh_job_id r) as [j|] eqn:Hj; [|by left].
  destruct (_ && _ && _) eqn:H; [|by left]. right. split; [done|].
  apply andb_true_iff in H as [[H1%bool_decide_eq_true H2]%andb_true_iff _].
  split; [eauto|]. intros w Hw. rewrite Hw in H2. by apply bool_decide_eq_true in H2.
Qed.

Lemma job_active_spec s : job_active s = true <-> s = ASSIGNED \/ s = RUNNING.
Proof. apply bool_decide_eq_true. Qed.

Lemma report_guard_spec t ep j :
  report_guard t ep j = true <->
  j_created_at j = t /\ j_assignment_epoch j = Some ep /\ job_active (j_status j) = true.
Proof.
  unfold report_guard. rewrite !andb_true_iff, bool_decide_eq_true, Z.eqb_eq. tauto.
Qed.

(** An active job is held, in the abstract machine, by its worker and epoch. *)
Lemma active_held j w ep :
  job_active (j_status j) = true -> j_worker_id j = Some w -> j_assignment_epoch j = Some ep ->
  held (abs_state j) w ep.
Proof.
  intros Ha Hw He. apply job_active_spec in Ha. unfold held, abs_state. rewrite Hw, He.
  destruct Ha as [-> | ->]; auto.
Qed.

Lemma active_assigned d k j :
  wf_db d -> jobs d !! k = Some j -> job_active (j_status j) = true ->
  assigned_to (workers d) j /\ j_retry_at j = None /\ j_finished_at j = None.
Proof.
  intros Hwf Hk Ha. destruct (wf_jobs d Hwf _ _ Hk) as [_ _ _ _ _ Hst].
  unfold status_wf in Hst. apply job_active_spec in Ha as [E|E]; rewrite E in Hst; tauto.
Qed.

(** ** Create's INSERT *)
Lemma InsertJob_cases p e d :
  (exists x, InsertJob p e d = (Err x, d)) \/
  (jobs d !! new_uuid e = None /\ 0 <= cp_Priority p <= 9 /\
   InsertJob p e d = (Ok (scanJobRow (inserted_job p e)),
                      set_jobs (<[new_uuid e := inserted_job p e]> (jobs d)) d)).
Proof.
  unfold InsertJob. destruct (negb _) eqn:Hp; [left; eauto|].
  destruct (match j_idempotency_key (inserted_job p e) with Some _ => _ | None => _ end);
    [left; eauto|].
  destruct (jobs d !! new_uuid e) eqn:Hn; [left; eauto|]. right.
  apply negb_false_iff, andb_true_iff in Hp as [??]. repeat split; try done; lia.
Qed.

Lemma count_retries_fresh d k : wf_db d -> jobs d !! k = None -> count_retries k d = 0.
Proof.
  intros Hwf Hk. unfold count_retries.
  replace (filter (fun r => rh_job_id r = k) (job_retry_history d)) with (@nil retry_row); [done|].
  symmetry. apply filter_none. intros r Hr E.
  pose proof (proj1 (Forall_forall _ _) (wf_history d Hwf) r) as [(j & Hj & _) _]; [|congruence].
  by apply list_elem_of_In.
Qed.

Lemma InsertJob_sound p : cp_MaxRetries p < max_int32 -> sound (InsertJob p).
Proof.
  intros Hmax e d Hwf.
  destruct (InsertJob_cases p e d) as [[x ->]|(Hn & Hp & ->)]; simpl; [auto with fleet|].
  assert (Hnew : forall id t,
    (exists j, jobs d !! id = Some j /\ j_created_at j = t) ->
    exists j, <[new_uuid e := inserted_job p e]> (jobs d) !! id = Some j /\ j_created_at j = t).
  { intros id t (j & Hj & Ht). exists j. rewrite lookup_insert_ne by congruence. done. }
  split; split; simpl.
  - intros k w Hw. destruct (wf_workers d Hwf _ _ Hw). split; eauto.
  - intros k j [[<- <-]|[Hne Hj]]%lookup_insert_Some; [|by apply (wf_jobs d Hwf)].
    assert (1 <= max_retries_default (cp_MaxRetries p) < max_int32).
    { unfold max_retries_default, max_int32 in *. case_match; lia. }
    pose proof (count_retries_fresh _ _ Hwf Hn) as E. unfold count_retries in *. simpl.
    split; simpl; try done; try lia.
  - apply (wf_instances d Hwf).
  - eapply list.Forall_impl; [exact (wf_history d Hwf)|]. intros r [Hj Hw]. split; [|done].
    by apply Hnew.
  - apply (wf_attempts d Hwf).
  - intros k j Hj. rewrite lookup_insert_ne by congruence. eauto with fleet.
  - intros k j' Hk [[<- <-]|[Hne Hj]]%lookup_insert_Some; [done|congruence].
  - eauto with fleet.
  - exists []. by rewrite app_nil_r.
Qed.

(** ** MarkRunning, Complete, MarkQueuedFromRetry *)
Lemma MarkRunning_cases jobID ep e d :
  MarkRunning jobID ep e d = (Ok false, d) \/
  (exists j, jobs d !! jobID = Some j /\ j_assignment_epoch j = Some ep /\ j_status j = ASSIGNED /\
     MarkRunning jobID ep e d =
       (Ok true, set_jobs (<[jobID := j_set_started_at (Some (pg_now e))
                                       (j_set_status RUNNING j)]> (jobs d)) d)).
Proof.
  unfold MarkRunning. run_stmt. match goal with |- context [update_job ?k ?P ?f e ?d1] =>
    destruct (update_job_cases k P f e d1) as [[-> _]|(j & Hj & HP & ->)] end; [by left|].
  right. exists j. apply andb_true_iff in HP as [?%bool_decide_eq_true ?%bool_decide_eq_true].
  by split_and!.
Qed.

Lemma MarkRunning_sound jobID ep : sound (MarkRunning jobID ep).
Proof.
  intros e d Hwf. destruct (MarkRunning_cases jobID ep e d) as [->|(j & Hj & He & Hs & ->)];
    simpl; [auto with fleet|].
  apply sound_job_update with j; try done.
  - destruct (wf_jobs d Hwf _ _ Hj) as [????? Hst]. job_ok.
    unfold status_wf in *. rewrite Hs in Hst. simpl. destruct Hst as (Ha & ? & ? & ?).
    repeat split; auto.
  - repeat split; auto. right. unfold abs_job, abs_state. rewrite Hs. simpl. constructor.
Qed.

Lemma Complete_cases jobID t ep finalStatus logRef e d :
  (exists r, Complete jobID t ep finalStatus logRef e d = (r, d) /\ r <> Ok true) \/
  (exists s j, job_status_of_text finalStatus = Ok s /\ jobs d !! jobID = Some j /\
     report_guard t ep j = true /\
     Complete jobID t ep finalStatus logRef e d =
       (Ok true, set_jobs (<[jobID := j_set_finished (Some (pg_now e)) (ptr_of_string logRef)
                                       (j_set_status s j)]> (jobs d)) d)).
Proof.
  unfold Complete. destruct (job_status_of_text finalStatus) as [s|x]; [|left; eauto].
  run_stmt. match goal with |- context [update_job ?k ?P ?f e ?d1] =>
    destruct (update_job_cases k P f e d1) as [[-> _]|(j & Hj & HP & ->)] end;
    [left; eexists; split; [done|]; rewrite bool_decide_false; [congruence|by intros [??]]|].
  right. exists s, j. done.
Qed.

(** Complete is called with SUCCESS or CANCELLED only. *)
Lemma Complete_sound jobID t ep finalStatus logRef :
  finalStatus = "SUCCESS" \/ finalStatus = "CANCELLED" ->
  sound (Complete jobID t ep finalStatus logRef).
Proof.
  intros Hfin e d Hwf.
  destruct (Complete_cases jobID t ep finalStatus logRef e d)
    as [(r & -> & _)|(s & j & Hs & Hj & Hg & ->)]; simpl; [auto with fleet|].
  assert (Hs' : s = SUCCESS \/ s = CANCELLED).
  { destruct Hfin as [-> | ->]; vm_compute in Hs; simplify_eq; auto. }
  apply report_guard_spec in Hg as (_ & He & Ha).
  destruct (active_assigned _ _ _ Hwf Hj Ha) as (Hasg & Hr & Hf).
  apply sound_job_update with j; try done.
  - destruct (wf_jobs d Hwf _ _ Hj) as [????? _].
    split; try (eapply attempts_keep; [eassumption|by destruct Hs' as [-> | ->]]); auto.
    unfold status_wf. destruct Hs' as [-> | ->]; simpl; eauto.
  - repeat split; auto. right. destruct Hasg as (wid & w & ep' & Hw & He' & _).
    assert (abs_job (j_set_finished (Some (pg_now e)) (ptr_of_string logRef) (j_set_status s j))
            = mkAJob (JDone s) (j_retries j) (j_max_retries j)) as ->
      by (by destruct Hs' as [-> | ->]).
    eapply L_finish; [by apply active_held|done].
Qed.

Lemma MarkQueuedFromRetry_cases jobID t e d :
  MarkQueuedFromRetry jobID t e d = (Ok false, d) \/
  (exists j, jobs d !! jobID = Some j /\ j_created_at j = t /\ j_status j = RETRYING /\
     MarkQueuedFromRetry jobID t e d =
       (Ok true, set_jobs (<[jobID := j_set_retry_at None (j_set_status QUEUED j)]> (jobs d)) d)).
Proof.
  unfold MarkQueuedFromRetry. run_stmt. match goal with |- context [update_job ?k ?P ?f e ?d1] =>
    destruct (update_job_cases k P f e d1) as [[-> _]|(j & Hj & HP & ->)] end; [by left|].
  right. exists j. apply andb_true_iff in HP as [? ?%bool_decide_eq_true].
  split_and!; try done. lia.
Qed.

Lemma MarkQueuedFromRetry_sound jobID t : sound (MarkQueuedFromRetry jobID t).
Proof.
  intros e d Hwf. destruct (MarkQueuedFromRetry_cases jobID t e d) as [->|(j & Hj & _ & Hs & ->)];
    simpl; [auto with fleet|].
  apply sound_job_update with j; try done.
  - destruct (wf_jobs d Hwf _ _ Hj) as [????? Hst]. job_ok.
    unfold status_wf in *. rewrite Hs in Hst. simpl. tauto.
  - repeat split; auto. right. unfold abs_job, abs_state. rewrite Hs. simpl. constructor.
Qed.

(** ** RetryOrFail *)
Definition attempt_row (jobID : string) (t n : Z) (w : option string) (msg : option string)
    (now : Z) : retry_row :=
  mkRetry jobID t n FAILED w msg now (Some now).

(** The row RetryOrFail leaves: parked for a retry while the budget lasts,
    FAILED otherwise. *)
Definition after_failure (e : env) (logRef : string) (j : job_row) : job_row :=
  let n := int32 (j_retries j + 1) in
  if n <=? j_max_retries j then set_retrying n (go_now e + retryBackoff n) j
  else set_failed (pg_now e) (ptr_of_string logRef) j.

Lemma RetryOrFail_cases jobID t ep workerID msg logRef e d :
  (exists r, RetryOrFail jobID t ep workerID msg logRef e d = (r, d) /\
     forall s, r <> Ok (s, true)) \/
  (exists j, jobs d !! jobID = Some j /\ report_guard t ep j = true /\
     let j' := after_failure e logRef j in
     let r := attempt_row jobID t (count_retries jobID d + 1) workerID (ptr_of_string msg)
                (pg_now e) in
     retry_wf d r /\
     RetryOrFail jobID t ep workerID msg logRef e d =
       (Ok (job_status_text (j_status j'), true),
        add_attempt r (set_jobs (<[jobID := j']> (jobs d)) d))).
Proof.
  unfold RetryOrFail. run_stmt.
  destruct (jobs d !! jobID) as [j|] eqn:Hj; [|left; eexists; split; [done|congruence]].
  destruct (report_guard t ep j) eqn:Hg; [|left; eexists; split; [done|congruence]].
  pose proof (proj1 (report_guard_spec _ _ _) Hg) as (Hc & _ & _). simpl.
  set (n := int32 (j_retries j + 1)).
  assert (Hupd : forall f,
    update_job jobID (fun j => j_created_at j =? t) f e d =
      (Ok (Some (f j)), set_jobs (<[jobID := f j]> (jobs d)) d)).
  { intros f. unfold update_job, update_where. rewrite Hj, (proj2 (Z.eqb_eq _ _) Hc). done. }
  set (r := attempt_row jobID t (count_retries jobID d + 1) workerID (ptr_of_string msg)
              (pg_now e)).
  assert (Hrw : forall j' d', d' = set_jobs (<[jobID := j']> (jobs d)) d ->
                retry_wf d' r -> retry_wf d r).
  { intros j' d' -> [_ Hw]. split; [exists j; by split|exact Hw]. }
  change (mkRetry _ _ _ _ _ _ _ _) with r.
  destruct (n <=? j_max_retries j) eqn:Hn; rewrite Hupd;
    match goal with |- context [insert_retry r e ?d1] =>
      destruct (insert_retry_cases r e d1) as [->|[-> Hr]] end;
    try (left; eexists; split; [done|congruence]).
  all: right; exists j; split; [done|]; split; [done|];
    unfold after_failure; fold n; rewrite Hn; split; [by eapply Hrw|done].
Qed.

Lemma int32_succ_retries d k j :
  wf_db d -> jobs d !! k = Some j -> int32 (j_retries j + 1) = j_retries j + 1.
Proof.
  intros Hwf Hj. destruct (wf_jobs d Hwf _ _ Hj). apply int32_id. lia.
Qed.

Lemma after_failure_wf d k j e logRef :
  wf_db d -> jobs d !! k = Some j -> job_active (j_status j) = true ->
  job_wf (workers d) (count_retries k d + 1) k (after_failure e logRef j) /\
  job_evolves j (after_failure e logRef j).
Proof.
  intros Hwf Hj Ha. destruct (active_assigned _ _ _ Hwf Hj Ha) as (Hasg & Hr & Hf).
  pose proof Hasg as (wid & w & ep & Hw & He & _).
  pose proof (active_held _ _ _ Ha Hw He) as Hh.
  unfold after_failure. rewrite (int32_succ_retries _ _ _ Hwf Hj).
  destruct (wf_jobs d Hwf _ _ Hj) as [? ? ? ? ? _].
  destruct (Z.leb_spec (j_retries j + 1) (j_max_retries j)).
  - split.
    + split; simpl; try done; repeat case_decide; simplify_eq; lia.
    + repeat split; auto. right. eapply L_retry; [exact Hh|simpl; lia].
  - split.
    + split; simpl; try done; try (repeat case_decide; simplify_eq; lia).
      unfold status_wf. simpl. repeat split; eauto; repeat case_decide; lia.
    + repeat split; auto. right. eapply L_exhausted; [exact Hh|simpl; lia].
Qed.

Lemma RetryOrFail_sound jobID t ep workerID msg logRef :
  sound (RetryOrFail jobID t ep workerID msg logRef).
Proof.
  intros e d Hwf.
  destruct (RetryOrFail_cases jobID t ep workerID msg logRef e d)
    as [(r & -> & _)|(j & Hj & Hg & Hr & ->)]; simpl; [auto with fleet|].
  apply report_guard_spec in Hg as (_ & _ & Ha).
  destruct (after_failure_wf d jobID j e logRef Hwf Hj Ha).
  eapply sound_job_attempt; eauto.
Qed.

(** ** MarkDeadAndRequeue *)
Definition requeued (j : job_row) : job_row :=
  j_set_started_at None (j_set_assignment None None (j_set_status QUEUED j)).

Lemma held_by_spec w j :
  held_by w j = true <-> j_worker_id j = Some w /\ job_active (j_status j) = true.
Proof. unfold held_by. by rewrite andb_true_iff, bool_decide_eq_true. Qed.

Lemma requeued_wf d k j w :
  wf_db d -> jobs d !! k = Some j -> held_by w j = true ->
  job_wf (workers d) (count_retries k d + 1) k (requeued j) /\ job_evolves j (requeued j).
Proof.
  intros Hwf Hj [Hw Ha]%held_by_spec.
  destruct (active_assigned _ _ _ Hwf Hj Ha) as ((wid & w0 & ep & Hw' & He & _) & Hr & Hf).
  pose proof (active_held _ _ _ Ha Hw' He) as Hh.
  destruct (wf_jobs d Hwf _ _ Hj) as [????? _]. split.
  - split; simpl; auto; try (repeat case_decide; simplify_eq; lia). by repeat split.
  - repeat split; auto. right. eapply L_worker_died, Hh.
Qed.

(** One turn of the requeue loop. *)
Lemma requeue_job_step d w j e :
  wf_db d -> jobs d !! j_id j = Some j -> held_by w j = true -> is_Some (workers d !! w) ->
  let r := attempt_row (j_id j) (j_created_at j) (count_retries (j_id j) d + 1) (Some w)
             (Some "worker_dead") (pg_now e) in
  let d' := add_attempt r (set_jobs (<[j_id j := requeued j]> (jobs d)) d) in
  requeue_job w j e d = (Ok tt, d') /\ wf_db d'.
Proof.
  intros Hwf Hj Hh Hw r d'.
  destruct (requeued_wf _ _ _ _ Hwf Hj Hh) as [Hjw Hev].
  assert (Hr : retry_wf d r).
  { split; [by eauto|]. intros w0 ?. by simplify_eq/=. }
  split; [|by eapply (sound_job_attempt d (j_id j) j (requeued j) r)].
  unfold requeue_job. run_stmt. unfold update_job, update_where.
  rewrite Hj, Z.eqb_refl. simpl. fold (requeued j).
  change (count_retries (j_id j) (set_jobs (<[j_id j:=requeued j]> (jobs d)) d))
    with (count_retries (j_id j) d).
  fold r.
  unfold insert_retry. simpl. rewrite lookup_insert_eq. simpl.
  rewrite (bool_decide_true (_ = _)) by done. rewrite (bool_decide_true (is_Some _)) by done.
  pose proof (insert_retry_next d r e Hwf Hr eq_refl) as Hins.
  unfold insert_retry in Hins. simpl in Hins. rewrite Hj in Hins.
  rewrite (bool_decide_true (_ = _)) in Hins by done.
  rewrite (bool_decide_true (is_Some _)) in Hins by done. simpl in *.
  by destruct (forallb _ _).
Qed.

(** Rows of a table keyed by an id column are listed once each. *)
Lemma NoDup_select_ids {R} (idof : R -> string) P e (t : gmap string R) :
  (forall k r, t !! k = Some r -> idof r = k) -> NoDup (map idof (select_where P e t)).
Proof.
  intros Hid. apply NoDup_fmap_2_strong.
  - intros x y Hx Hy E. apply elem_of_select_where in Hx as [_ [kx Hx]], Hy as [_ [ky Hy]].
    rewrite (Hid _ _ Hx), (Hid _ _ Hy) in E. congruence.
  - apply list.NoDup_filter. rewrite (table_scan_values e t).
    apply NoDup_fmap_2_strong; [|apply NoDup_map_to_list].
    intros [kx x] [ky y] Hx%elem_of_map_to_list Hy%elem_of_map_to_list E. simpl in E. subst y.
    by rewrite <- (Hid _ _ Hx), <- (Hid _ _ Hy).
Qed.

Lemma requeue_loop w e l d :
  wf_db d -> is_Some (workers d !! w) -> NoDup (map j_id l) ->
  (forall j, j ∈ l -> jobs d !! j_id j = Some j /\ held_by w j = true) ->
  exists d', siter (requeue_job w) l e d = (Ok tt, d') /\ wf_db d' /\
    workers d' = workers d /\ worker_events d' = worker_events d /\
    (forall j, j ∈ l -> jobs d' !! j_id j = Some (requeued j)) /\
    (forall k, k ∉ map j_id l -> jobs d' !! k = jobs d !! k) /\
    (exists h, job_retry_history d' = job_retry_history d ++ h) /\
    (forall k, count_retries k d' = count_retries k d + (if decide (k ∈ map j_id l) then 1 else 0)).
Proof.
  revert d. induction l as [|j l IH]; intros d Hwf Hw Hnd Hl; cbn [siter map].
  { exists d. split_and!; auto; [by intros ? ?%not_elem_of_nil|exists []; by rewrite app_nil_r|].
    intros k. case_decide as Hk; [by apply not_elem_of_nil in Hk|lia]. }
  apply list.NoDup_cons in Hnd as [Hnotin Hnd].
  destruct (Hl j) as [Hj Hh]; [left|].
  destruct (requeue_job_step d w j e Hwf Hj Hh Hw) as [Hstep Hwf1].
  unfold sbind. rewrite Hstep.
  match type of Hwf1 with wf_db ?x => set (d1 := x) in * end.
  destruct (IH d1 Hwf1) as (d' & Hrun & Hwf' & Hws & Hevs & Hin & Hout & [h Hh'] & Hcnt); auto.
  { intros j' Hj'. destruct (Hl j') as [Hjj' ?]; [by right|]. split; [|done]. simpl.
    rewrite lookup_insert_ne; [done|]. intros E. apply Hnotin. rewrite E.
    by apply list_elem_of_fmap_2. }
  exists d'. rewrite Hrun. split_and!; auto; try congruence.
  - intros j' [->|Hj']%elem_of_cons; [|by apply Hin].
    rewrite Hout by done. simpl. by rewrite lookup_insert_eq.
  - intros k Hk. apply not_elem_of_cons in Hk as [Hne Hk]. rewrite Hout by done. simpl.
    by rewrite lookup_insert_ne.
  - eexists. rewrite Hh'. simpl. rewrite <- app_assoc. done.
  - intros k. rewrite Hcnt. unfold d1. rewrite count_retries_add.
    change (count_retries k (set_jobs _ d)) with (count_retries k d). cbn [rh_job_id attempt_row].
    destruct (decide (j_id j = k)) as [<-|Hne].
    + repeat case_decide; try lia; set_solver.
    + repeat case_decide; try lia; set_solver.
Qed.

Definition dead_row (e : env) (w : worker_row) : worker_row :=
  w_set_updated_at (pg_now e) (w_set_available_capacity (w_capacity_slots w) (w_set_status DEAD w)).

(** MarkDeadAndRequeue, every branch: nothing when the guard does not match;
    otherwise the worker is DEAD at full capacity, exactly the jobs it held are
    back in the queue, and one attempt is recorded per job.  It does not fail. *)
Lemma MarkDeadAndRequeue_cases workerID epoch e d :
  wf_db d ->
  (MarkDeadAndRequeue workerID epoch e d = (Ok tt, d) /\
   forall w, workers d !! workerID = Some w -> w_epoch w = epoch -> worker_gone (w_status w) = true) \/
  (exists w d', workers d !! workerID = Some w /\ w_epoch w = epoch /\
     worker_gone (w_status w) = false /\
     MarkDeadAndRequeue workerID epoch e d = (Ok tt, d') /\ wf_db d' /\
     workers d' = <[workerID := dead_row e w]> (workers d) /\
     (forall k j, jobs d !! k = Some j ->
        jobs d' !! k = Some (if held_by workerID j then requeued j else j)) /\
     (forall k, jobs d !! k = None -> jobs d' !! k = None) /\
     (exists h, job_retry_history d' = job_retry_history d ++ h) /\
     (forall k j, jobs d !! k = Some j -> count_retries k d' =
        count_retries k d + (if held_by workerID j then 1 else 0))).
Proof.
  intros Hwf. unfold MarkDeadAndRequeue. run_stmt.
  match goal with |- context [update_worker ?k ?P ?f e d] =>
    destruct (update_worker_cases k P f e d) as [[-> H]|(w & Hk & HP & ->)] end.
  { left. split; [done|]. intros w Hw He. specialize (H w Hw). simpl in H.
    rewrite He, Z.eqb_refl in H. by apply negb_false_iff. }
  apply andb_true_iff in HP as [He Hg%negb_true_iff]. cbn beta iota.
  fold (dead_row e w). set (d1 := set_workers (<[workerID := dead_row e w]> (workers d)) d).
  assert (Hwf1 : wf_db d1).
  { eapply wf_set_worker; [done|exact Hk| |by apply worker_evolves_same_identity]. worker_ok Hwf Hk. }
  set (l := select_where (held_by workerID) e (jobs d1)).
  assert (Hid : forall k j, jobs d1 !! k = Some j -> j_id j = k).
  { intros k j Hj. by destruct (wf_jobs d1 Hwf1 _ _ Hj). }
  destruct (requeue_loop workerID e l d1) as (d' & Hrun & Hwf' & Hws & _ & Hin & Hout & Hh & Hcnt).
  - done.
  - simpl. rewrite lookup_insert_eq. eauto.
  - by apply NoDup_select_ids.
  - intros j [Hb [k Hj]]%elem_of_select_where. by rewrite (Hid _ _ Hj).
  - right. rewrite Hrun. simpl. eexists w, _. do 3 (split; [first [done|lia]|]).
    assert (Hsel : forall k j, jobs d !! k = Some j -> k ∈ map j_id l <-> held_by workerID j = true).
    { intros k j Hj. split.
      - intros (j' & -> & Hj')%list_elem_of_fmap. apply elem_of_select_where in Hj' as [Hb' [k' Hj']].
        rewrite (Hid _ _ Hj') in Hj. change (jobs d !! k' = Some j') in Hj'. congruence.
      - intros Hb. rewrite <- (Hid k j Hj). apply list_elem_of_fmap_2, elem_of_select_where. eauto. }
    split; [done|]. split; [|split; [exact Hws|split; [|split; [|split; [exact Hh|]]]]].
    + destruct d'. by eapply wf_db_events.
    + intros k j Hj. simpl. destruct (held_by workerID j) eqn:Hb.
      * rewrite <- (Hid k j Hj) at 1. apply Hin, elem_of_select_where. eauto.
      * rewrite Hout; [done|]. rewrite (Hsel _ _ Hj). congruence.
    + intros k Hn. simpl. rewrite Hout; [done|]. intros (j' & -> & Hj')%list_elem_of_fmap.
      apply elem_of_select_where in Hj' as [_ [k' Hj']].
      rewrite (Hid _ _ Hj') in Hn. change (jobs d !! k' = Some j') in Hj'. congruence.
    + intros k j Hj. change (count_retries k d' = count_retries k d + if held_by workerID j then 1 else 0).
      rewrite Hcnt. change (count_retries k d1) with (count_retries k d). pose proof (Hsel _ _ Hj).
      case_decide; destruct (held_by workerID j); naive_solver.
Qed.

Lemma MarkDeadAndRequeue_sound workerID epoch : sound (MarkDeadAndRequeue workerID epoch).
Proof.
  intros e d Hwf.
  destruct (MarkDeadAndRequeue_cases workerID epoch e d Hwf)
    as [[-> _]|(w & d' & Hk & _ & _ & -> & Hwf' & Hws & Hjs & Hno & Hh & _)]; simpl; [auto with fleet|].
  split; [done|]. split; [| |rewrite Hws|done].
  - intros k j Hj. eexists. split; [by apply Hjs|].
    destruct (held_by workerID j) eqn:Hb; [|auto with fleet].
    by destruct (requeued_wf d k j workerID Hwf Hj Hb).
  - intros k j' Hn Hj'. rewrite Hno in Hj' by done. done.
  - intros k w0 H0. destruct (decide (workerID = k)) as [->|Hne].
    + simplify_eq. rewrite lookup_insert_eq. eexists. split; [done|].
      by apply worker_evolves_same_identity.
    + rewrite lookup_insert_ne by done. eauto with fleet.
Qed.
