(* ===== verification/Redis.v ===== *)
(** * The Redis server as an interface

    Redis is a service outside the repository, so its state is abstract: a
    class of the commands the code issues, a class of the documented laws the
    code relies on, and one in-memory instance used to evaluate programs and
    to show the laws can hold.  go-redis sends every value as a string:
    integers in decimal, booleans as "1" and "0". *)
From S2P Require Import Prelude GoStrings.
Local Open Scope Z_scope.

Record XMessage := mkXMessage { xm_ID : string; xm_Values : gmap string string }.

Class Redis := {
  rstate : Type;
  hset : string -> list (string * string) -> rstate -> rstate;
  hgetall : string -> rstate -> gmap string string;
  set_px : string -> string -> Z -> rstate -> rstate;         (* SET key value PX ttl *)
  del : list string -> rstate -> rstate;
  xgroup_create : string -> string -> rstate -> option rstate;(* None: BUSYGROUP *)
  xadd : string -> Z -> gmap string string -> rstate -> rstate;(* MAXLEN ~ n *)
  xreadgroup : string -> string -> list (string * string) -> Z -> rstate ->
    list (string * list XMessage) * rstate;
  xack : string -> string -> string -> rstate -> rstate }.

(** A Go bool and a Go integer as a Redis string. *)
Definition redis_bool (b : bool) : string := if b then "1" else "0".

(** Fields written later override; absent fields keep their value. *)
Definition hash_write (fs : list (string * string)) (h : gmap string string) : gmap string string :=
  list_to_map fs ∪ h.

(** The documented behaviour of hashes (HSET, HGETALL, DEL; acknowledging a
    stream entry is not a write to a hash) that store/redis/cache.go relies
    on. *)
Class RedisHashLaws `{Redis} : Prop := {
  hgetall_hset k fs r : hgetall k (hset k fs r) = hash_write fs (hgetall k r);
  hgetall_hset_ne k k' fs r : k <> k' -> hgetall k' (hset k fs r) = hgetall k' r;
  hgetall_set_px k k' v ttl r : k <> k' -> hgetall k' (set_px k v ttl r) = hgetall k' r;
  hgetall_del k ks r : k ∈ ks -> hgetall k (del ks r) = ∅;
  hgetall_del_ne k ks r : k ∉ ks -> hgetall k (del ks r) = hgetall k r;
  hgetall_xack k s g id r : hgetall k (xack s g id r) = hgetall k r }.

(** ** The in-memory instance *)
Record mem_redis := mkMem {
  m_hashes : gmap string (gmap string string);
  m_strings : gmap string (string * Z);
  m_new : gmap string (list XMessage);       (** entries not yet delivered *)
  m_pending : gmap string (list XMessage);   (** delivered, not acknowledged *)
  m_len : gmap string Z;                     (** entries ever added *)
  m_next : Z }.

Definition mem_empty : mem_redis := mkMem ∅ ∅ ∅ ∅ ∅ 1.

Definition mem_hset (k : string) (fs : list (string * string)) (r : mem_redis) : mem_redis :=
  mkMem (<[k := hash_write fs (default ∅ (m_hashes r !! k))]> (m_hashes r))
    (m_strings r) (m_new r) (m_pending r) (m_len r) (m_next r).

Definition mem_del (ks : list string) (r : mem_redis) : mem_redis :=
  mkMem (foldr delete (m_hashes r) ks) (foldr delete (m_strings r) ks)
    (m_new r) (m_pending r) (m_len r) (m_next r).

Definition mem_xadd (s : string) (vals : gmap string string) (r : mem_redis) : mem_redis :=
  let msg := mkXMessage (strconv.Itoa (m_next r) +:+ "-0") vals in
  mkMem (m_hashes r) (m_strings r) (<[s := default [] (m_new r !! s) ++ [msg]]> (m_new r))
    (m_pending r) (<[s := default 0 (m_len r !! s) + 1]> (m_len r)) (m_next r + 1).

(** One stream of XREADGROUP: ">" delivers new entries and makes them pending,
    any other id lists the consumer's pending entries. *)
Definition mem_read_stream (count : nat) (acc : list (string * list XMessage) * mem_redis)
    (si : string * string) : list (string * list XMessage) * mem_redis :=
  let '(out, r) := acc in
  let '(s, id) := si in
  if decide (id = ">") then
    let q := default [] (m_new r !! s) in
    let taken := take count q in
    match taken with
    | [] => (out, r)
    | _ => (out ++ [(s, taken)],
            mkMem (m_hashes r) (m_strings r) (<[s := drop count q]> (m_new r))
              (<[s := default [] (m_pending r !! s) ++ taken]> (m_pending r)) (m_len r) (m_next r))
    end
  else (out ++ [(s, take count (default [] (m_pending r !! s)))], r).

Definition mem_xack (s id : string) (r : mem_redis) : mem_redis :=
  mkMem (m_hashes r) (m_strings r) (m_new r)
    (<[s := filter (fun m => xm_ID m <> id) (default [] (m_pending r !! s))]> (m_pending r))
    (m_len r) (m_next r).

#[export] Instance MemRedis : Redis := {
  rstate := mem_redis;
  hset := mem_hset;
  hgetall k r := default ∅ (m_hashes r !! k);
  set_px k v ttl r :=
    mkMem (m_hashes r) (<[k := (v, ttl)]> (m_strings r)) (m_new r) (m_pending r) (m_len r) (m_next r);
  del := mem_del;
  xgroup_create s g r := Some r;
  xadd s maxlen := mem_xadd s;
  xreadgroup g c streams count r := foldl (mem_read_stream (Z.to_nat count)) ([], r) streams;
  xack s g := mem_xack s }.

Lemma lookup_foldr_delete {A} (ks : list string) (m : gmap string A) k :
  foldr delete m ks !! k = if decide (k ∈ ks) then None else m !! k.
Proof.
  induction ks as [|k' ks IH]; cbn [foldr].
  - by rewrite decide_False by apply not_elem_of_nil.
  - destruct (decide (k' = k)) as [->|Hne].
    + rewrite lookup_delete_eq, decide_True by left. done.
    + rewrite lookup_delete_ne, IH by done.
      apply decide_ext. rewrite elem_of_cons. naive_solver.
Qed.

#[export] Instance MemRedis_hash_laws : RedisHashLaws.
Proof.
  split; simpl; intros.
  - by rewrite lookup_insert_eq.
  - by rewrite lookup_insert_ne.
  - done.
  - rewrite lookup_foldr_delete. by case_decide.
  - rewrite lookup_foldr_delete. by case_decide.
  - done.
Qed.
