(* ===== verification/Streams.v ===== *)
(** * Redis streams with a consumer group

    What the documentation of XADD, XREADGROUP and XACK promises of a stream:
    entries wait in order until they are delivered to the group, are pending
    for the consumer they were delivered to until acknowledged, and have ids of
    their own.  The in-memory instance satisfies it. *)
From S2P Require Import Prelude GoStrings Redis.
Local Open Scope Z_scope.

(** A stream as the group [g] and its consumer [c] see it: entries not yet
    delivered, entries delivered but not acknowledged, and XLEN, which also
    counts acknowledged entries.  [stream_ok] is Redis's own invariant. *)
Class RedisStreams `{Redis} := {
  waiting : string -> string -> rstate -> list XMessage;            (* g stream *)
  pending : string -> string -> string -> rstate -> list XMessage;  (* g c stream *)
  xlen : string -> rstate -> Z;
  stream_ok : rstate -> Prop }.

Definition held `{RedisStreams} (g c s : string) (r : rstate) : list XMessage :=
  waiting g s r ++ pending g c s r.

(** A stream with nothing to deliver is absent from the reply. *)
Definition nonempty_streams (l : list (string * list XMessage)) : list (string * list XMessage) :=
  filter (fun sm => sm.2 <> []) l.

Class RedisStreamLaws `{RedisStreams} : Prop := {
  held_unique g c s r : stream_ok r -> NoDup (map xm_ID (held g c s r));
  (* below MAXLEN nothing is trimmed *)
  waiting_xadd g s n vals r : stream_ok r -> xlen s r < n ->
    exists id, waiting g s (xadd s n vals r) = waiting g s r ++ [mkXMessage id vals];
  waiting_xadd_ne g s s' n vals r : s <> s' -> waiting g s' (xadd s n vals r) = waiting g s' r;
  pending_xadd g c s s' n vals r : stream_ok r -> (s = s' -> xlen s r < n) ->
    pending g c s' (xadd s n vals r) = pending g c s' r;
  stream_ok_xadd s n vals r : stream_ok r -> stream_ok (xadd s n vals r);
  (* trimming only removes; a pending entry that was trimmed has no fields *)
  held_xadd g c s s' n vals r m : stream_ok r -> m ∈ held g c s' (xadd s n vals r) ->
    m ∈ held g c s' r \/ xm_Values m = vals \/ xm_Values m = ∅;
  xreadgroup_new g c ss n r : NoDup ss -> stream_ok r ->
    let '(reply, r') := xreadgroup g c (map (fun s => (s, ">")) ss) n r in
    reply = nonempty_streams (map (fun s => (s, take (Z.to_nat n) (waiting g s r))) ss) /\
    (forall s, waiting g s r' = if decide (s ∈ ss) then drop (Z.to_nat n) (waiting g s r)
                                else waiting g s r) /\
    (forall s, pending g c s r' = pending g c s r ++
                 (if decide (s ∈ ss) then take (Z.to_nat n) (waiting g s r) else [])) /\
    stream_ok r';
  xreadgroup_pending g c ss n r :
    xreadgroup g c (map (fun s => (s, "0")) ss) n r =
    (map (fun s => (s, take (Z.to_nat n) (pending g c s r))) ss, r);
  waiting_xack g s s' id r : waiting g s' (xack s g id r) = waiting g s' r;
  pending_xack g c s id r :
    pending g c s (xack s g id r) = filter (fun m => xm_ID m <> id) (pending g c s r);
  pending_xack_ne g c s s' id r : s <> s' -> pending g c s' (xack s g id r) = pending g c s' r;
  stream_ok_xack g s id r : stream_ok r -> stream_ok (xack s g id r);
  (* commands on other keys *)
  waiting_hset g s k fs r : waiting g s (hset k fs r) = waiting g s r;
  pending_hset g c s k fs r : pending g c s (hset k fs r) = pending g c s r;
  stream_ok_hset k fs r : stream_ok r -> stream_ok (hset k fs r);
  waiting_set_px g s k v t r : k <> s -> waiting g s (set_px k v t r) = waiting g s r;
  pending_set_px g c s k v t r : k <> s -> pending g c s (set_px k v t r) = pending g c s r;
  stream_ok_set_px k v t r : stream_ok r -> stream_ok (set_px k v t r);
  waiting_del g s ks r : s ∉ ks -> waiting g s (del ks r) = waiting g s r;
  pending_del g c s ks r : s ∉ ks -> pending g c s (del ks r) = pending g c s r;
  stream_ok_del ks r : stream_ok r -> stream_ok (del ks r) }.

(** ** The in-memory instance *)
Definition mem_id (n : Z) : string := strconv.Itoa n +:+ "-0".
Definition mem_held (s : string) (r : mem_redis) : list XMessage :=
  default [] (m_new r !! s) ++ default [] (m_pending r !! s).

#[export] Instance MemStreams : RedisStreams (H := MemRedis) := {
  waiting g s r := default [] (m_new r !! s);
  pending g c s r := default [] (m_pending r !! s);
  xlen s r := default 0 (m_len r !! s);
  stream_ok r := forall s, NoDup (map xm_ID (mem_held s r)) /\
    forall m, m ∈ mem_held s r -> exists n, n < m_next r /\ xm_ID m = mem_id n }.

#[export] Instance mem_id_inj : Inj (=) (=) mem_id.
Proof. intros n n' E. by apply append_inj_suffix in E as [E%(inj strconv.Itoa) _]. Qed.

Lemma filter_ids (P : XMessage -> Prop) `{!forall m, Decision (P m)} (l : list XMessage) :
  sublist (map xm_ID (filter P l)) (map xm_ID l).
Proof.
  induction l as [|m l IH]; [done|]. rewrite filter_cons. case_decide; cbn [map]; by constructor.
Qed.

Lemma nonempty_streams_one s l :
  nonempty_streams [(s, l)] = match l with [] => [] | _ => [(s, l)] end.
Proof. destruct l; unfold nonempty_streams; rewrite filter_cons; by case_decide. Qed.

(** One stream of a read of new entries. *)
Lemma mem_read_stream_new n out r s :
  let '(out', r') := mem_read_stream n (out, r) (s, ">") in
  out' = out ++ nonempty_streams [(s, take n (default [] (m_new r !! s)))] /\
  (forall s', default [] (m_new r' !! s') =
     if decide (s' = s) then drop n (default [] (m_new r !! s)) else default [] (m_new r !! s')) /\
  (forall s', default [] (m_pending r' !! s') =
     default [] (m_pending r !! s') ++ (if decide (s' = s) then take n (default [] (m_new r !! s)) else [])) /\
  m_next r' = m_next r.
Proof.
  unfold mem_read_stream. rewrite decide_True by done. rewrite nonempty_streams_one.
  destruct (take n (default [] (m_new r !! s))) as [|m taken] eqn:E.
  - rewrite app_nil_r. split; [done|].
    assert (Hd : drop n (default [] (m_new r !! s)) = default [] (m_new r !! s)).
    { rewrite <- (take_drop n (default [] (m_new r !! s))) at 2. by rewrite E. }
    split; [intros s'; case_decide; by subst; rewrite ?Hd|]. split; [|done].
    intros s'. case_decide; by rewrite app_nil_r.
  - split; [done|]. cbn [m_new m_pending m_next]. split; [|split; [|done]].
    + intros s'. destruct (decide (s' = s)) as [->|Hne]; [by rewrite lookup_insert_eq|by rewrite lookup_insert_ne].
    + intros s'. destruct (decide (s' = s)) as [->|Hne]; [by rewrite lookup_insert_eq|].
      rewrite lookup_insert_ne by done. by rewrite app_nil_r.
Qed.

Lemma mem_read_new n ss out r : NoDup ss ->
  let '(out', r') := foldl (mem_read_stream n) (out, r) (map (fun s => (s, ">")) ss) in
  out' = out ++ nonempty_streams (map (fun s => (s, take n (default [] (m_new r !! s)))) ss) /\
  (forall s, default [] (m_new r' !! s) =
     if decide (s ∈ ss) then drop n (default [] (m_new r !! s)) else default [] (m_new r !! s)) /\
  (forall s, default [] (m_pending r' !! s) =
     default [] (m_pending r !! s) ++ (if decide (s ∈ ss) then take n (default [] (m_new r !! s)) else [])) /\
  m_next r' = m_next r.
Proof.
  revert out r. induction ss as [|s ss IH]; intros out r Hnd.
  - cbn [map foldl]. unfold nonempty_streams. rewrite filter_nil, app_nil_r. split; [done|].
    split; [intros s; by rewrite decide_False by apply not_elem_of_nil|]. split; [|done].
    intros s. rewrite decide_False by apply not_elem_of_nil. by rewrite app_nil_r.
  - apply list.NoDup_cons in Hnd as [Hs Hnd]. cbn [map foldl].
    pose proof (mem_read_stream_new n out r s) as H1.
    destruct (mem_read_stream n (out, r) (s, ">")) as [out1 r1]. destruct H1 as (-> & Hn1 & Hp1 & Hx1).
    specialize (IH (out ++ nonempty_streams [(s, take n (default [] (m_new r !! s)))]) r1 Hnd).
    destruct (foldl _ _ _) as [out2 r2]. destruct IH as (-> & Hn2 & Hp2 & Hx2).
    assert (Hsame : forall s', s' ∈ ss -> default [] (m_new r1 !! s') = default [] (m_new r !! s')).
    { intros s' Hs'. rewrite Hn1, decide_False; [done|]. by intros ->. }
    split; [|split; [|split; [|congruence]]].
    + rewrite <- app_assoc. unfold nonempty_streams. rewrite <- list.filter_app. cbn [app]. do 3 f_equal.
      apply list_fmap_ext. intros i s' Hi. rewrite Hsame; [done|]. by eapply list_elem_of_lookup_2.
    + intros s'. rewrite Hn2. destruct (decide (s' ∈ ss)) as [Hin|Hin].
      * rewrite decide_True by (by right). by rewrite Hsame.
      * rewrite Hn1. destruct (decide (s' = s)) as [->|Hne]; [by rewrite decide_True by left|].
        rewrite decide_False; [done|]. by intros [?|?]%elem_of_cons.
    + intros s'. rewrite Hp2, Hp1, <- app_assoc. f_equal. destruct (decide (s' ∈ ss)) as [Hin|Hin].
      * rewrite decide_False by (by intros ->). rewrite decide_True by (by right). by rewrite Hsame.
      * rewrite app_nil_r. destruct (decide (s' = s)) as [->|Hne]; [by rewrite decide_True by left|].
        rewrite decide_False; [done|]. by intros [?|?]%elem_of_cons.
Qed.

Lemma mem_read_pending n ss out r :
  foldl (mem_read_stream n) (out, r) (map (fun s => (s, "0")) ss) =
  (out ++ map (fun s => (s, take n (default [] (m_pending r !! s)))) ss, r).
Proof.
  revert out. induction ss as [|s ss IH]; intros out; cbn [map foldl]; [by rewrite app_nil_r|].
  change (mem_read_stream n (out, r) (s, "0")) with
    (out ++ [(s, take n (default [] (m_pending r !! s)))], r).
  rewrite IH. by rewrite <- app_assoc.
Qed.

(** Entries that keep their ids keep the invariant. *)
Lemma mem_ok_keeps (r r' : mem_redis) :
  stream_ok (RedisStreams := MemStreams) r -> m_next r <= m_next r' ->
  (forall s, sublist (map xm_ID (mem_held s r')) (map xm_ID (mem_held s r)) \/
     Permutation (mem_held s r') (mem_held s r)) ->
  stream_ok (RedisStreams := MemStreams) r'.
Proof.
  intros Hok Hn Hs s. destruct (Hok s) as [Hnd Hid].
  assert (Hin : forall m, m ∈ mem_held s r' -> exists n, n < m_next r' /\ xm_ID m = mem_id n).
  { intros m Hm. assert (Hx : xm_ID m ∈ map xm_ID (mem_held s r)).
    { destruct (Hs s) as [Hsub|Hp].
      - eapply elem_of_submseteq; [|by apply sublist_submseteq]. by apply list_elem_of_fmap_2.
      - rewrite <- Hp. by apply list_elem_of_fmap_2. }
    apply list_elem_of_fmap in Hx as (m0 & E & Hm0). destruct (Hid m0 Hm0) as (n & Hn0 & En).
    exists n. split; [lia|congruence]. }
  split; [|done]. destruct (Hs s) as [Hsub|Hp]; [by eapply sublist_NoDup|]. by rewrite Hp.
Qed.

Lemma mem_ok_same (r r' : mem_redis) :
  m_new r' = m_new r -> m_pending r' = m_pending r -> m_next r' = m_next r ->
  stream_ok (RedisStreams := MemStreams) r -> stream_ok (RedisStreams := MemStreams) r'.
Proof.
  intros E1 E2 E3 Hok. apply (mem_ok_keeps r); [done|lia|]. intros s. left. unfold mem_held. by rewrite E1, E2.
Qed.

Lemma mem_ok_xadd s vals (r : mem_redis) :
  stream_ok (RedisStreams := MemStreams) r -> stream_ok (RedisStreams := MemStreams) (mem_xadd s vals r).
Proof.
  intros Hok s'. destruct (Hok s') as [Hnd Hid]. unfold mem_held, mem_xadd in *. cbn [m_new m_pending m_next].
  destruct (decide (s = s')) as [->|Hne].
  2: { rewrite lookup_insert_ne by done. split; [done|]. intros m Hm.
       destruct (Hid m Hm) as (n & ? & ?). exists n. split; [lia|done]. }
  rewrite lookup_insert_eq. cbn [default].
  set (new := default [] (m_new r !! s')) in *. set (pend := default [] (m_pending r !! s')) in *.
  assert (Hp : (new ++ [mkXMessage (mem_id (m_next r)) vals]) ++ pend ≡ₚ
    mkXMessage (mem_id (m_next r)) vals :: new ++ pend) by (rewrite <- app_assoc; symmetry; apply Permutation_middle).
  split.
  - rewrite Hp. cbn [map xm_ID]. constructor; [|done]. intros Hin.
    apply list_elem_of_fmap in Hin as (m & E & Hm). destruct (Hid m Hm) as (n & Hn & En).
    rewrite En in E. apply (inj mem_id) in E. lia.
  - intros m Hm. rewrite Hp in Hm. apply elem_of_cons in Hm as [->|Hm].
    + exists (m_next r). split; [lia|done].
    + destruct (Hid m Hm) as (n & ? & ?). exists n. split; [lia|done].
Qed.

#[export] Instance MemStreams_laws : RedisStreamLaws (H0 := MemStreams).
Proof.
  split; cbn [waiting pending xlen stream_ok MemStreams MemRedis rstate hset set_px del xadd xreadgroup xack].
  - intros g c s r Hok. apply (Hok s).
  - intros g s n vals r _ _. unfold mem_xadd. cbn [m_new]. rewrite lookup_insert_eq. eauto.
  - intros g s s' n vals r Hne. unfold mem_xadd. cbn [m_new]. by rewrite lookup_insert_ne.
  - done.
  - intros s n vals r. apply mem_ok_xadd.
  - intros g c s s' n vals r m _. unfold held, mem_xadd. cbn. destruct (decide (s = s')) as [->|Hne].
    + rewrite lookup_insert_eq. cbn. rewrite !elem_of_app, list_elem_of_singleton. intros [[?| ->]|?]; auto.
    + rewrite lookup_insert_ne by done. auto.
  - intros g c ss n r Hnd Hok. pose proof (mem_read_new (Z.to_nat n) ss [] r Hnd) as Hr.
    destruct (foldl _ _ _) as [out r']. destruct Hr as (-> & Hn & Hp & Hx). split_and!; try done.
    apply (mem_ok_keeps r); [done|lia|]. intros s. right. unfold mem_held. rewrite Hn, Hp.
    case_decide; [|by rewrite app_nil_r].
    rewrite (Permutation_app_comm (default [] (m_pending r !! s))), app_assoc.
    by rewrite (Permutation_app_comm (drop _ _)), take_drop.
  - intros g c ss n r. apply (mem_read_pending (Z.to_nat n) ss [] r).
  - done.
  - intros g c s id r. unfold mem_xack. cbn [m_pending]. by rewrite lookup_insert_eq.
  - intros g c s s' id r Hne. unfold mem_xack. cbn [m_pending]. by rewrite lookup_insert_ne.
  - intros g s id r Hok. apply (mem_ok_keeps r); [done|simpl; lia|]. intros s'. left. unfold mem_held, mem_xack.
    cbn [m_new m_pending]. rewrite !map_app. apply sublist_app; [done|].
    destruct (decide (s = s')) as [->|Hne]; [|by rewrite lookup_insert_ne].
    rewrite lookup_insert_eq. apply filter_ids.
  - done.
  - done.
  - intros k fs r. by apply mem_ok_same.
  - done.
  - done.
  - intros k v t r. by apply mem_ok_same.
  - done.
  - done.
  - intros ks r. by apply mem_ok_same.
Qed.
