(* ===== verification/Effects.v ===== *)
(** * Programs over the external calls

    A Go function that talks to Postgres, Redis, the clock or the metrics
    registry is a [prog]: a tree of [call]s, each continued with every reply
    it may get.  One call is one atomic interaction (a SQL statement, a
    transaction, a Redis command); everything else can run between two calls.

    - [run] executes a program alone against a world, with an oracle of
      environments that decides faults, clocks, fresh ids and scan orders;
    - [trace] relates a program to the calls it makes for arbitrary replies;
    - [pool_step] interleaves any number of programs call by call.

    [prog_ok] states that a program only issues calls whose arguments are in
    the range its Go types and callers give them ([call_ok]). *)
From S2P Require Import Prelude GoStrings Database WorkerStore JobStore Lifecycle Invariant.
From S2P Require Import StoreSound Redis.
Local Open Scope Z_scope.

(** ** Calls *)

(** One constructor per statement or transaction of the postgres package,
    indexed by the type of its answer. *)
Inductive pg : Type -> Type :=
  | PgRegister (p : RegisterWorkerParams) : pg RegisteredWorker
  | PgCountByStatus : pg (gmap string Z)
  | PgPickDrainCandidate : pg string
  | PgListWorkers (statusFilter : string) (limit : Z) : pg (list WorkerRow)
  | PgGetEpochAndStatus (workerID : string) : pg (Z * string * bool)
  | PgSelectJobCreatedAt (jobID : string) : pg Z
  | PgUpdateHeartbeatRow (workerID : string) (epoch : Z) (dbStatus : string)
      (currentJob : option (string * Z)) : pg bool
  | PgListStale (timeoutSeconds : Z) : pg (list StaleWorker)
  | PgMarkDeadAndRequeue (workerID : string) (epoch : Z) : pg unit
  | PgListReadyCandidates (required : option (list string)) : pg (list Candidate)
  | PgAssignJob (jobID : string) (jobCreatedAt : Z) (workerID : string) (epoch : Z) : pg bool
  | PgFreeWorker (workerID : string) (epoch : Z) : pg (bool * Z * string)
  | PgRequestDrain (workerID : string) : pg (option DrainResult)
  | PgResumeDrain (workerID : string) : pg (option DrainResult)
  | PgGetByIdempotencyKey (key : string) : pg Job
  | PgInsertJob (p : CreateJobParams) : pg Job
  | PgGetJob (jobID : string) : pg Job
  | PgCountQueuedByPriority : pg (gmap Z Z)
  | PgListJobs (f : ListJobsFilter) : pg (list Job)
  | PgMarkRunning (jobID : string) (epoch : Z) : pg bool
  | PgComplete (jobID : string) (jobCreatedAt epoch : Z) (finalStatus logRef : string) : pg bool
  | PgRetryOrFail (jobID : string) (jobCreatedAt epoch : Z) (workerID : option string)
      (errorMessage logRef : string) : pg (string * bool)
  | PgListDueRetries (limit : Z) : pg (list DueRetry)
  | PgMarkQueuedFromRetry (jobID : string) (jobCreatedAt : Z) : pg bool.

Definition exec_pg {A} (c : pg A) : stmt A :=
  match c with
  | PgRegister p => Register p
  | PgCountByStatus => CountByStatus
  | PgPickDrainCandidate => PickDrainCandidate
  | PgListWorkers s l => ListWorkerRows s l
  | PgGetEpochAndStatus w => GetEpochAndStatus w
  | PgSelectJobCreatedAt j => SelectJobCreatedAt j
  | PgUpdateHeartbeatRow w ep s cj => UpdateHeartbeatRow w ep s cj
  | PgListStale t => ListStale t
  | PgMarkDeadAndRequeue w ep => MarkDeadAndRequeue w ep
  | PgListReadyCandidates r => ListReadyCandidates r
  | PgAssignJob j t w ep => AssignJob j t w ep
  | PgFreeWorker w ep => FreeWorker w ep
  | PgRequestDrain w => RequestDrain w
  | PgResumeDrain w => ResumeDrain w
  | PgGetByIdempotencyKey k => getByIdempotencyKey k
  | PgInsertJob p => InsertJob p
  | PgGetJob j => GetJobRow j
  | PgCountQueuedByPriority => CountQueuedByPriority
  | PgListJobs f => ListJobRows f
  | PgMarkRunning j ep => MarkRunning j ep
  | PgComplete j t ep s l => Complete j t ep s l
  | PgRetryOrFail j t ep w m l => RetryOrFail j t ep w m l
  | PgListDueRetries l => ListDueRetries l
  | PgMarkQueuedFromRetry j t => MarkQueuedFromRetry j t
  end.

Inductive rd : Type -> Type :=
  | RHSet (k : string) (fs : list (string * string)) : rd unit
  | RHGetAll (k : string) : rd (gmap string string)
  | RSet (k v : string) (ttl : Z) : rd unit
  | RDel (ks : list string) : rd unit
  | RXGroupCreate (s g : string) : rd bool       (** false: BUSYGROUP *)
  | RXAdd (s : string) (maxlen : Z) (vals : gmap string string) : rd unit
  | RXReadGroup (g c : string) (streams : list (string * string)) (count : Z)
      : rd (list (string * list XMessage))
  | RXAck (s g id : string) : rd unit.

Definition exec_rd `{Redis} {A} (c : rd A) (r : rstate) : A * rstate :=
  match c in rd A return A * rstate with
  | RHSet k fs => (tt, hset k fs r)
  | RHGetAll k => (hgetall k r, r)
  | RSet k v ttl => (tt, set_px k v ttl r)
  | RDel ks => (tt, del ks r)
  | RXGroupCreate s g => match xgroup_create s g r with
                         | Some r' => (true, r')
                         | None => (false, r)
                         end
  | RXAdd s m vals => (tt, xadd s m vals r)
  | RXReadGroup g c streams count => xreadgroup g c streams count r
  | RXAck s g id => (tt, xack s g id r)
  end.

(** A failed Postgres or Redis call answers an error; the clock and the
    metrics registry cannot fail. *)
Inductive call : Type -> Type :=
  | Pg {A} (c : pg A) : call (result A)
  | Rd {A} (c : rd A) : call (result A)
  | TimeNow : call Z
  | MetricInc (name label : string) : call unit
  | MetricObserve (name : string) (nanos : Z) : call unit.

Record world `{Redis} := mkWorld {
  w_db : database;
  w_redis : rstate;
  w_counters : gmap (string * string) Z;
  w_observations : list (string * Z) }.

(** A result-valued interaction under a fault. *)
Definition with_fault {A S} (f : fault) (run : S -> result A * S) (s : S) : result A * S :=
  match f with
  | NoFault => run s
  | LostRequest => (Err ErrDriver, s)
  | LostReply => (Err ErrDriver, (run s).2)
  end.

Definition handle `{Redis} {X} (c : call X) (e : env) (w : world) : X * world :=
  match c in call X return X * world with
  | Pg c =>
      let '(x, d) := with_fault (env_fault e) (exec_pg c e) (w_db w) in
      (x, mkWorld _ d (w_redis w) (w_counters w) (w_observations w))
  | Rd c =>
      let '(x, r) := with_fault (redis_fault e)
                       (fun r => let '(a, r') := exec_rd c r in (Ok a, r')) (w_redis w) in
      (x, mkWorld _ (w_db w) r (w_counters w) (w_observations w))
  | TimeNow => (go_now e, w)
  | MetricInc n l =>
      (tt, mkWorld _ (w_db w) (w_redis w)
             (<[(n, l) := default 0 (w_counters w !! (n, l)) + 1]> (w_counters w))
             (w_observations w))
  | MetricObserve n v =>
      (tt, mkWorld _ (w_db w) (w_redis w) (w_counters w) (w_observations w ++ [(n, v)]))
  end.

(** ** Programs *)
Inductive prog (A : Type) : Type :=
  | Ret (a : A)
  | Call {X : Type} (c : call X) (k : X -> prog A).
Arguments Ret {A} a.
Arguments Call {A X} c k.

Fixpoint bind {A B} (p : prog A) (f : A -> prog B) : prog B :=
  match p with
  | Ret a => f a
  | Call c k => Call c (fun x => bind (k x) f)
  end.

Definition trigger {X} (c : call X) : prog X := Call c Ret.
Definition pgc {A} (c : pg A) : prog (result A) := trigger (Pg c).
Definition rdc {A} (c : rd A) : prog (result A) := trigger (Rd c).

Declare Scope prog_scope.
Delimit Scope prog_scope with prog.
Notation "'let!' x ':=' m 'in' k" := (bind m (fun x => k))
  (at level 10, x pattern, m at level 200, k at level 200) : prog_scope.
Notation "m '>>' k" := (bind m (fun _ => k))
  (at level 100, k at level 200, right associativity) : prog_scope.
Open Scope prog_scope.

(** [for _, x := range l { body(x) }], a body that never leaves the loop. *)
Fixpoint for_each {A} (l : list A) (body : A -> prog unit) : prog unit :=
  match l with
  | [] => Ret tt
  | a :: l' => body a >> for_each l' body
  end.

(** ** Running alone *)
Definition oracle : Type := nat -> env.

Fixpoint run `{Redis} {A} (p : prog A) (o : oracle) (w : world) : A * world :=
  match p with
  | Ret a => (a, w)
  | Call c k => let '(x, w') := handle c (o 0%nat) w in run (k x) (fun n => o (S n)) w'
  end.

(** The oracle after [n] calls. *)
Definition later (o : oracle) (n : nat) : oracle := fun m => o (n + m)%nat.

(** Postgres answers every call; Redis may do anything. *)
Definition pg_reliable (o : oracle) : Prop := forall n, env_fault (o n) = NoFault.
Lemma pg_reliable_later o n : pg_reliable o -> pg_reliable (later o n).
Proof. intros H m. apply H. Qed.
Lemma pg_reliable_tail o : pg_reliable o -> pg_reliable (fun n => o (S n)).
Proof. intros H m. apply H. Qed.
#[export] Hint Resolve pg_reliable_later pg_reliable_tail : fleet.

(** ** Traces: the calls a program makes, with their replies *)
Record event := mkEvent { ev_type : Type; ev_call : call ev_type; ev_reply : ev_type }.
Arguments mkEvent {_} _ _.

(** [trace p tr a]: with some replies, [p] makes exactly the calls [tr] and
    returns [a]. *)
Fixpoint trace {A} (p : prog A) (tr : list event) (a : A) : Prop :=
  match p with
  | Ret b => tr = [] /\ a = b
  | Call c k => exists x tr', tr = mkEvent c x :: tr' /\ trace (k x) tr' a
  end.

Lemma trace_bind {A B} (p : prog A) (f : A -> prog B) tr b :
  trace (bind p f) tr b <->
  exists tr1 tr2 a, tr = tr1 ++ tr2 /\ trace p tr1 a /\ trace (f a) tr2 b.
Proof.
  revert tr. induction p as [a|X c k IH]; intros tr; simpl.
  - split; [intros H; by exists [], tr, a|]. by intros (tr1 & tr2 & a' & -> & [-> ->] & H).
  - split.
    + intros (x & tr' & -> & (tr1 & tr2 & a & -> & H1 & H2)%IH).
      exists (mkEvent c x :: tr1), tr2, a. split; [done|]. split; [by eauto|done].
    + intros (? & tr2 & a & -> & (x & tr1 & -> & H1) & H2). exists x, (tr1 ++ tr2).
      split; [done|]. apply IH. eauto 10.
Qed.

(** The calls one run makes. *)
Fixpoint events `{Redis} {A} (p : prog A) (o : oracle) (w : world) : list event :=
  match p with
  | Ret _ => []
  | Call c k =>
      let '(x, w') := handle c (o 0%nat) w in mkEvent c x :: events (k x) (fun n => o (S n)) w'
  end.

Lemma events_trace `{Redis} {A} (p : prog A) o w : trace p (events p o w) (run p o w).1.
Proof.
  revert o w. induction p as [a|X c k IH]; intros o w; simpl; [done|].
  destruct (handle c (o 0%nat) w) as [x w']. eauto.
Qed.

Lemma events_bind `{Redis} {A B} (p : prog A) (f : A -> prog B) o w :
  exists n, run (bind p f) o w = run (f (run p o w).1) (later o n) (run p o w).2 /\
    events (bind p f) o w =
      events p o w ++ events (f (run p o w).1) (later o n) (run p o w).2.
Proof.
  revert o w. induction p as [a|X c k IH]; intros o w; simpl; [by exists 0%nat|].
  destruct (handle c (o 0%nat) w) as [x w'].
  destruct (IH x (fun n => o (S n)) w') as (n & E & E').
  exists (S n). split; [exact E|]. rewrite E'. done.
Qed.

(** ** Interleaving *)
Inductive pool_step `{Redis} : list (prog unit) * world -> list (prog unit) * world -> Prop :=
  | pool_call ps1 ps2 {X} (c : call X) (k : X -> prog unit) (e : env) (w : world) :
      pool_step (ps1 ++ Call c k :: ps2, w)
                (ps1 ++ k (handle c e w).1 :: ps2, (handle c e w).2).

(** ** Calls with arguments in range *)
Definition pg_ok {A} (c : pg A) : Prop :=
  match c with
  | PgInsertJob p => cp_MaxRetries p < max_int32
  | PgComplete _ _ _ s _ => s = "SUCCESS" \/ s = "CANCELLED"
  | _ => True
  end.

Definition call_ok {X} (c : call X) : Prop :=
  match c with Pg c => pg_ok c | _ => True end.

(** A property of every call a program can reach, whatever the replies. *)
Fixpoint all_calls (P : forall X, call X -> Prop) {A} (p : prog A) : Prop :=
  match p with
  | Ret _ => True
  | Call c k => P _ c /\ forall x, all_calls P (k x)
  end.

Abbreviation prog_ok := (all_calls (@call_ok)).

Lemma all_calls_bind (P : forall X, call X -> Prop) {A B} (p : prog A) (f : A -> prog B) :
  all_calls P p -> (forall a, all_calls P (f a)) -> all_calls P (bind p f).
Proof. induction p as [a|X c k IH]; simpl; [auto|]. intros [Hc Hk] Hf. auto. Qed.

Lemma all_calls_for_each (P : forall X, call X -> Prop) {A} (l : list A) body :
  (forall a, all_calls P (body a)) -> all_calls P (for_each l body).
Proof. induction l; simpl; intros; [done|]. apply all_calls_bind; auto. Qed.

(** ** Every Postgres call in range is sound *)
Lemma reads_only_pg {A} (c : pg A) :
  match c with
  | PgCountByStatus | PgPickDrainCandidate | PgListWorkers _ _ | PgGetEpochAndStatus _
  | PgSelectJobCreatedAt _ | PgListStale _ | PgListReadyCandidates _ | PgGetByIdempotencyKey _
  | PgGetJob _ | PgCountQueuedByPriority | PgListJobs _ | PgListDueRetries _ =>
      reads_only (exec_pg c)
  | _ => True
  end.
Proof.
  destruct c; simpl; try done; intros e d;
    unfold CountByStatus, PickDrainCandidate, ListWorkerRows, GetEpochAndStatus,
      SelectJobCreatedAt, ListStale, ListReadyCandidates, getByIdempotencyKey, GetJobRow,
      CountQueuedByPriority, ListJobRows, ListDueRetries; repeat case_match; done.
Qed.

Theorem exec_pg_sound {A} (c : pg A) : pg_ok c -> sound (exec_pg c).
Proof.
  intros Hok. pose proof (reads_only_pg c) as Hr.
  destruct c; try (by apply reads_only_sound); simpl in *.
  - apply Register_sound.
  - apply UpdateHeartbeatRow_sound.
  - apply MarkDeadAndRequeue_sound.
  - apply AssignJob_sound.
  - apply FreeWorker_sound.
  - apply RequestDrain_sound.
  - apply ResumeDrain_sound.
  - by apply InsertJob_sound.
  - apply MarkRunning_sound.
  - by apply Complete_sound.
  - apply RetryOrFail_sound.
  - apply MarkQueuedFromRetry_sound.
Qed.

Section handle.
Context `{Redis}.

(** A call changes the database only as a sound store operation does,
    whatever faults, clocks, ids and scan orders the environment picks. *)
Lemma handle_sound {X} (c : call X) e w :
  call_ok c -> wf_db (w_db w) ->
  wf_db (w_db (handle c e w).2) /\ evolves (w_db w) (w_db (handle c e w).2).
Proof.
  intros Hok Hwf. destruct c as [A c|A c| | |]; simpl; [|..]; auto with fleet.
  - pose proof (exec_pg_sound c Hok e _ Hwf) as Hs.
    unfold with_fault. destruct (env_fault e); simpl in *; auto with fleet.
    + by destruct (exec_pg c e (w_db w)).
  - unfold with_fault. destruct (redis_fault e); repeat case_match; simpl; auto with fleet.
Qed.

(** What every call keeps, a run keeps. *)
Lemma run_preserves (P : forall X, call X -> Prop) (I : world -> Prop) {A} (p : prog A) o w :
  all_calls P p ->
  (forall X (c : call X) e w, P X c -> I w -> I (handle c e w).2) ->
  I w -> I (run p o w).2.
Proof.
  intros Hp HI. revert o w. induction p as [a|X c k IH]; intros o w Hw; simpl; [done|].
  destruct Hp as [Hc Hk]. pose proof (HI X c (o 0%nat) w Hc Hw) as Hw'.
  destruct (handle c (o 0%nat) w) as [x w']. by apply IH.
Qed.

(** A Postgres call under any fault: either nothing happened or it ran. *)
Lemma handle_pg_db {B} (c : pg B) e w :
  w_db (handle (Pg c) e w).2 = w_db w \/
  w_db (handle (Pg c) e w).2 = (exec_pg c e (w_db w)).2.
Proof.
  simpl. unfold with_fault. destruct (env_fault e); simpl; auto.
  destruct (exec_pg c e (w_db w)); auto.
Qed.
End handle.
