(* ===== verification/Stores.v ===== *)
(** * Store methods as programs

    The two postgres methods made of two statements (UpdateHeartbeat in
    workers.go, Create in jobs.go), the worker-state cache of
    store/redis/cache.go, and the stream queue of store/redis/queue.go behind
    the [queue.Backend] interface of internal/queue/backend.go. *)
From S2P Require Import Prelude GoStrings Database WorkerStore JobStore Redis Effects.
Local Open Scope Z_scope.

(** ** postgres methods of two statements *)

Definition UpdateHeartbeat (workerID : string) (epoch : Z) (dbStatus : string)
    (currentJobID : option string) : prog (result bool) :=
  let! currentJob := (match currentJobID with
                      | None => Ret (Ok None)
                      | Some id =>
                          let! r := pgc (PgSelectJobCreatedAt id) in
                          Ret (match r with Ok t => Ok (Some (id, t)) | Err x => Err x end)
                      end) in
  match currentJob with
  | Err x => Ret (Err x)
  | Ok cj => pgc (PgUpdateHeartbeatRow workerID epoch dbStatus cj)
  end.

(** The reply is (job, wasExisting). *)
Definition Create (p : CreateJobParams) : prog (result (Job * bool)) :=
  let insert :=
    let! r := pgc (PgInsertJob p) in
    Ret (match r with Ok j => Ok (j, false) | Err x => Err x end) in
  if decide (cp_IdempotencyKey p = "") then insert
  else
    let! existing := pgc (PgGetByIdempotencyKey (cp_IdempotencyKey p)) in
    match existing with
    | Ok j => Ret (Ok (j, true))
    | Err ErrJobNotFound => insert
    | Err x => Ret (Err x)
    end.

(** ** WorkerCache *)
Record WorkerState := mkWorkerState {
  ws_Epoch : Z;
  ws_Status : string;
  ws_CurrentJobID : string;
  ws_AvailableCapacity : Z;
  ws_LastPGFlushUnix : Z;
  ws_DrainRequested : bool }.

Definition zero_state : WorkerState := mkWorkerState 0 "" "" 0 0 false.

Definition stateKey (workerID : string) : string := "worker:" +:+ workerID +:+ ":state".
Definition aliveKey (workerID : string) : string := "worker:" +:+ workerID +:+ ":alive".

(** The fields SetState writes: every field but drain_requested. *)
Definition state_fields (s : WorkerState) : list (string * string) :=
  [("epoch", strconv.Itoa (ws_Epoch s)); ("status", ws_Status s);
   ("current_job_id", ws_CurrentJobID s);
   ("available_capacity", strconv.Itoa (ws_AvailableCapacity s));
   ("last_pg_flush_unix", strconv.Itoa (ws_LastPGFlushUnix s))].

Definition SetState (workerID : string) (s : WorkerState) : prog (result unit) :=
  rdc (RHSet (stateKey workerID) (state_fields s)).

Definition SetDrainRequested (workerID : string) (b : bool) : prog (result unit) :=
  rdc (RHSet (stateKey workerID) [("drain_requested", redis_bool b)]).

(** res["f"]: the zero value for an absent field. *)
Definition field (h : gmap string string) (f : string) : string := default "" (h !! f).

Definition decode_state (h : gmap string string) : WorkerState :=
  mkWorkerState (strconv.ParseInt (field h "epoch") 64).1 (field h "status")
    (field h "current_job_id")
    (int32 (strconv.ParseInt (field h "available_capacity") 32).1)
    (strconv.ParseInt (field h "last_pg_flush_unix") 64).1
    (strconv.ParseBool (field h "drain_requested")).

(** (state, found, err): an error is [Err], a miss is [Ok None]. *)
Definition GetState (workerID : string) : prog (result (option WorkerState)) :=
  let! res := rdc (RHGetAll (stateKey workerID)) in
  Ret (match res with
       | Err x => Err x
       | Ok h => if decide (h = ∅) then Ok None else Ok (Some (decode_state h))
       end).

Definition SetAlive (workerID : string) (ttl : Z) : prog (result unit) :=
  rdc (RSet (aliveKey workerID) "1" ttl).

(** WorkerCache.Delete *)
Definition DeleteState (workerID : string) : prog (result unit) :=
  rdc (RDel [stateKey workerID; aliveKey workerID]).

(** ** The job queue *)
Record JobMessage := mkJobMessage {
  jm_JobID : string;
  jm_Priority : Z;
  jm_Repository : string;
  jm_Branch : string;
  jm_CommitSHA : string;
  jm_RequiredCapabilities : list string }.

(** [queue.Backend]: an implementation of Enqueue. *)
Class Backend := Enqueue : JobMessage -> prog (result unit).

(** What its clients rely on: enqueuing does not touch Postgres. *)
Definition not_pg {X} (c : call X) : Prop := match c with Pg _ => False | _ => True end.
Class BackendLaws `{Backend} : Prop :=
  enqueue_not_pg : forall m, all_calls (@not_pg) (Enqueue m).

Definition ConsumerGroup : string := "schedulers".
Definition StreamKey (priority : Z) : string := "queue:jobs:p" +:+ strconv.Itoa priority.

(** The values of a stream entry. *)
Definition message_values (m : JobMessage) : gmap string string :=
  list_to_map
    [("job_id", jm_JobID m); ("repository", jm_Repository m); ("branch", jm_Branch m);
     ("commit_sha", jm_CommitSHA m);
     ("required_capabilities", gostrings.Join (jm_RequiredCapabilities m) gostrings.comma)].

Definition StreamQueue_Enqueue (m : JobMessage) : prog (result unit) :=
  rdc (RXAdd (StreamKey (jm_Priority m)) 100000 (message_values m)).
#[export] Instance StreamQueue : Backend := StreamQueue_Enqueue.

#[export] Instance StreamQueue_laws : BackendLaws.
Proof. intros m. simpl. split; [done|]. done. Qed.

(** One consumer group per priority; BUSYGROUP is not an error. *)
Fixpoint create_groups (ps : list Z) : prog (result unit) :=
  match ps with
  | [] => Ret (Ok tt)
  | p :: ps' =>
      let! r := rdc (RXGroupCreate (StreamKey p) ConsumerGroup) in
      match r with
      | Err x => Ret (Err x)
      | Ok _ => create_groups ps'
      end
  end.
Definition EnsureConsumerGroups : prog (result unit) := create_groups (seqZ 0 10).

(** The reader's side of required_capabilities (scheduler/loop.go). *)
Definition read_capabilities (values : gmap string string) : option (list string) :=
  let raw := field values "required_capabilities" in
  if decide (raw = "") then None else Some (gostrings.Split raw gostrings.comma).

(** ** The cache round trip *)
Lemma hash_write_lookup fs h f :
  hash_write fs h !! f = match (list_to_map fs : gmap string string) !! f with
                         | Some v => Some v | None => h !! f end.
Proof. unfold hash_write. rewrite lookup_union. by destruct (_ !! f), (h !! f). Qed.

Lemma decode_state_write s h :
  - 2 ^ 63 <= ws_Epoch s < 2 ^ 63 -> - 2 ^ 31 <= ws_AvailableCapacity s < 2 ^ 31 ->
  - 2 ^ 63 <= ws_LastPGFlushUnix s < 2 ^ 63 ->
  decode_state (hash_write (state_fields s) h) =
  mkWorkerState (ws_Epoch s) (ws_Status s) (ws_CurrentJobID s) (ws_AvailableCapacity s)
    (ws_LastPGFlushUnix s) (strconv.ParseBool (field h "drain_requested")).
Proof.
  intros He Ha Hl. unfold decode_state, field. rewrite !hash_write_lookup. simpl.
  simplify_map_eq. rewrite !strconv.ParseInt_Itoa by (simpl; lia). simpl. f_equal.
  apply int32_id. unfold max_int32. lia.
Qed.

Lemma hash_write_nonempty fs (h : gmap string string) : fs <> [] -> hash_write fs h <> ∅.
Proof.
  destruct fs as [|[k v] fs]; [done|]. intros _ E.
  assert (Hk : hash_write ((k, v) :: fs) h !! k = None) by by rewrite E, lookup_empty.
  rewrite hash_write_lookup in Hk. simpl in Hk. by rewrite lookup_insert_eq in Hk.
Qed.

(** ** Calls in range *)
Lemma not_pg_ok {A} (p : prog A) : all_calls (@not_pg) p -> prog_ok p.
Proof. induction p as [|X c k IH]; simpl; [done|]. intros [Hc Hk]. split; [by destruct c|auto]. Qed.

Lemma UpdateHeartbeat_ok w ep s cj : prog_ok (UpdateHeartbeat w ep s cj).
Proof. destruct cj; simpl; intuition; case_match; simpl; auto. Qed.

Lemma Create_ok p : cp_MaxRetries p < max_int32 -> prog_ok (Create p).
Proof.
  intros Hp. unfold Create. case_decide; simpl; [auto|]. split; [done|]. intros r.
  repeat case_match; simpl; auto.
Qed.
#[export] Hint Resolve UpdateHeartbeat_ok Create_ok : fleet.

Lemma handle_not_pg_db `{Redis} {X} (c : call X) e w :
  not_pg c -> w_db (handle c e w).2 = w_db w.
Proof.
  destruct c as [B c|B c| | |]; simpl; try done. intros _.
  by destruct (with_fault _ _ _) as [y r].
Qed.

(** A program that makes no Postgres call leaves the database alone. *)
Lemma run_not_pg_db `{Redis} {A} (p : prog A) o w :
  all_calls (@not_pg) p -> w_db (run p o w).2 = w_db w.
Proof.
  intros Hp. apply (run_preserves (@not_pg) (fun w' => w_db w' = w_db w) p o w Hp); [|done].
  intros X c e w' Hc <-. by apply handle_not_pg_db.
Qed.
