(* ===== verification/CacheProps.v ===== *)
(** * What the Redis cache and the queue guarantee

    Under the documented laws of Redis hashes: what SetState writes GetState
    reads back, without losing the separately written drain flag; entries of
    different workers do not interfere.  The queue's encoding of a job's
    required capabilities survives the trip to the scheduler. *)
From S2P Require Import Prelude GoStrings Database WorkerStore JobStore Redis Effects Stores.
Local Open Scope Z_scope.

(** Redis answers every call. *)
Definition redis_reliable (o : oracle) : Prop := forall n, redis_fault (o n) = NoFault.

Lemma stateKey_inj k k' : stateKey k = stateKey k' -> k = k'.
Proof.
  unfold stateKey. intros E%(inj _).
  by apply append_inj_suffix in E as [-> _].
Qed.

Lemma stateKey_aliveKey k k' : stateKey k <> aliveKey k'.
Proof.
  unfold stateKey, aliveKey. intros E%(inj _).
  apply append_inj_suffix in E as [_ ?]; done.
Qed.

(** The integers of a state fit their fields. *)
Definition state_in_range (s : WorkerState) : Prop :=
  - 2 ^ 63 <= ws_Epoch s < 2 ^ 63 /\ - 2 ^ 31 <= ws_AvailableCapacity s < 2 ^ 31 /\
  - 2 ^ 63 <= ws_LastPGFlushUnix s < 2 ^ 63.

Definition with_drain (s : WorkerState) (b : bool) : WorkerState :=
  mkWorkerState (ws_Epoch s) (ws_Status s) (ws_CurrentJobID s) (ws_AvailableCapacity s)
    (ws_LastPGFlushUnix s) b.

(** What GetState answers for the hash stored under the worker's key. *)
Definition read_state (h : gmap string string) : result (option WorkerState) :=
  if decide (h = ∅) then Ok None else Ok (Some (decode_state h)).

Section cache.
Context `{RedisHashLaws}.

Lemma run_rd {A B} (c : rd A) (k : result A -> prog B) o w :
  redis_fault (o 0%nat) = NoFault ->
  run (Call (Rd c) k) o w =
  run (k (Ok (exec_rd c (w_redis w)).1)) (later o 1)
    (mkWorld _ (w_db w) (exec_rd c (w_redis w)).2 (w_counters w) (w_observations w)).
Proof. intros E. simpl. rewrite E. simpl. by destruct (exec_rd c (w_redis w)). Qed.

Lemma GetState_run k o w :
  redis_fault (o 0%nat) = NoFault ->
  run (GetState k) o w = (read_state (hgetall (stateKey k) (w_redis w)), w).
Proof.
  intros E. unfold GetState, rdc, trigger. cbn [bind]. rewrite run_rd by done. simpl.
  unfold read_state. by destruct w.
Qed.

Lemma read_state_write s h :
  state_in_range s ->
  read_state (hash_write (state_fields s) h) =
  Ok (Some (with_drain s (strconv.ParseBool (field h "drain_requested")))).
Proof.
  intros (H1 & H2 & H3). unfold read_state. rewrite decide_False by by apply hash_write_nonempty.
  by rewrite decode_state_write.
Qed.

(** C35: the cache round trip.  When Redis answers, GetState after SetState
    returns exactly the state written, field by field through the decimal
    encoding, except that the drain flag is the one last written by
    SetDrainRequested: refreshing the state on every heartbeat never loses a
    pending drain.  Other workers' entries are unaffected by the writes, and
    after Delete the worker is a miss. *)
Theorem cache_roundtrip k s b o w :
  state_in_range s -> redis_reliable o ->
  (run (SetDrainRequested k b >> SetState k s >> GetState k) o w).1 =
    Ok (Some (with_drain s b)) /\
  (forall ttl, (run (SetState k s >> SetAlive k ttl >> SetDrainRequested k b >> GetState k) o w).1 =
    Ok (Some (with_drain s b))) /\
  (forall k' ttl, k' <> k ->
    (run (SetDrainRequested k b >> SetState k s >> SetAlive k ttl >> GetState k') o w).1 =
    (run (GetState k') o w).1) /\
  (run (SetState k s >> DeleteState k >> GetState k) o w).1 = Ok None.
Proof.
  intros Hs Ho. unfold SetDrainRequested, SetState, SetAlive, DeleteState, rdc, trigger.
  cbn [bind].
  assert (Hflag : forall h, strconv.ParseBool (field (hash_write
    [("drain_requested", redis_bool b)] h) "drain_requested") = b).
  { intros h. unfold field. rewrite hash_write_lookup. simpl. rewrite lookup_insert_eq. by destruct b. }
  assert (Hcomm : forall h, hash_write [("drain_requested", redis_bool b)] (hash_write (state_fields s) h) =
    hash_write (state_fields s) (hash_write [("drain_requested", redis_bool b)] h)).
  { intros h. unfold hash_write. rewrite !(assoc_L (∪)). f_equal. }
  split_and!.
  - rewrite !run_rd by apply Ho. rewrite GetState_run by apply Ho. simpl.
    rewrite !hgetall_hset, read_state_write, Hflag by done. done.
  - intros ttl. rewrite !run_rd by apply Ho. rewrite GetState_run by apply Ho. simpl.
    rewrite hgetall_hset, hgetall_set_px by (intros E; by apply (stateKey_aliveKey k k)).
    rewrite hgetall_hset, Hcomm, read_state_write, Hflag by done. done.
  - intros k' ttl Hne. rewrite !run_rd by apply Ho. rewrite !GetState_run by apply Ho. simpl.
    rewrite hgetall_set_px by (intros E; by apply (stateKey_aliveKey k' k)).
    rewrite !hgetall_hset_ne by (intros E; apply Hne; by apply stateKey_inj). done.
  - rewrite !run_rd by apply Ho. rewrite GetState_run by apply Ho. simpl.
    rewrite hgetall_del by left. done.
Qed.
End cache.

Definition sample_state : WorkerState := mkWorkerState 3 "BUSY" "j-1" 1 (-5) false.

Definition sample_oracle : oracle := fun _ => env_at 0 "".
Definition sample_world : world := mkWorld MemRedis empty_db mem_empty ∅ [].

Lemma cache_roundtrip_witness :
  (run (SetDrainRequested "w-a" true >> SetState "w-a" sample_state >> GetState "w-a")
     sample_oracle sample_world).1 = Ok (Some (with_drain sample_state true)).
Proof.
  destruct (cache_roundtrip "w-a" sample_state true sample_oracle sample_world) as [E _].
  - unfold state_in_range. simpl. lia.
  - intros n. reflexivity.
  - exact E.
Defined.

(** ** The queue's encoding *)

(** required capabilities survive the queue.  The scheduler reads back
    from a stream entry exactly the capability list the producer put in (an
    absent list as empty), provided no capability contains a comma and the
    list is not the single empty string. *)
Theorem capabilities_roundtrip m :
  (forall c, c ∈ jm_RequiredCapabilities m -> gostrings.contains_byte gostrings.comma c = false) ->
  jm_RequiredCapabilities m <> [""] ->
  default [] (read_capabilities (message_values m)) = jm_RequiredCapabilities m.
Proof.
  intros Hc Hne. unfold read_capabilities.
  replace (field (message_values m) "required_capabilities")
    with (gostrings.Join (jm_RequiredCapabilities m) gostrings.comma).
  2: { unfold field, message_values. by simplify_map_eq. }
  case_decide as E; [apply gostrings.Join_nonempty in E as [E|E]; [by rewrite E|done]|]. simpl.
  apply gostrings.Split_Join; [|done]. intros E'. by rewrite E' in E.
Qed.

Definition docker_message : JobMessage := mkJobMessage "j-1" 3 "repo" "main" "abc" ["docker"; "go"].

Lemma capabilities_roundtrip_witness :
  default [] (read_capabilities (message_values docker_message)) = ["docker"; "go"].
Proof.
  apply (capabilities_roundtrip docker_message).
  - intros c Hc. simpl in Hc.
    repeat (apply elem_of_cons in Hc as [->|Hc]; [vm_compute; reflexivity|]).
    by apply not_elem_of_nil in Hc.
  - discriminate.
Defined.

(** Without that proviso the encoding is ambiguous: a capability with a
    comma in its name is read back as two, so the scheduler looks for workers
    with capabilities the job never asked for. *)
Theorem comma_in_capability_splits :
  let m := mkJobMessage "j-1" 3 "repo" "main" "abc" ["gpu,large"] in
  read_capabilities (message_values m) = Some ["gpu"; "large"].
Proof. vm_compute. reflexivity. Qed.
