(* ===== verification/Loop.v ===== *)
(** * internal/scheduler/loop.go: the scheduling loop

    [processMessage] handles one queue entry; [tick] reads new entries, then
    the consumer's pending ones.  [Run] repeats [tick] while the replica is
    the leader; one turn of it is [run_turn]. *)
From S2P Require Import Prelude GoStrings Database WorkerStore JobStore Algorithm Redis.
From S2P Require Import Effects Stores.
Local Open Scope Z_scope.

Definition numPriorities : Z := 10.
Definition consumerName : string := "scheduler-leader".

Definition ack (streamKey msgID : string) : prog unit :=
  rdc (RXAck streamKey ConsumerGroup msgID) >> Ret tt.

(** The cache entry written after an assignment. *)
Definition assigned_state (job : Job) (chosen : Candidate) : WorkerState :=
  mkWorkerState (c_Epoch chosen) "BUSY" (J_ID job) (int32 (c_AvailableCapacity chosen - 1)) 0 false.

Definition processMessage (streamKey : string) (msg : XMessage) : prog unit :=
  let jobID := field (xm_Values msg) "job_id" in
  if decide (jobID = "") then ack streamKey (xm_ID msg)
  else
    let requiredCaps := read_capabilities (xm_Values msg) in
    let! job := pgc (PgGetJob jobID) in
    match job with
    | Err ErrJobNotFound => ack streamKey (xm_ID msg)
    | Err _ => Ret tt
    | Ok job =>
        if decide (J_Status job <> "QUEUED") then ack streamKey (xm_ID msg)
        else
          let! candidates := pgc (PgListReadyCandidates requiredCaps) in
          match candidates with
          | Err _ => Ret tt
          | Ok candidates =>
              match SelectLeastLoaded candidates with
              | None => Ret tt
              | Some chosen =>
                  let! assigned := pgc (PgAssignJob (J_ID job) (J_CreatedAt job)
                                          (c_ID chosen) (c_Epoch chosen)) in
                  match assigned with
                  | Err _ => Ret tt
                  | Ok false => Ret tt
                  | Ok true =>
                      SetState (c_ID chosen) (assigned_state job chosen) >>
                      trigger (MetricInc "fleetforge_jobs_assigned_total" "") >>
                      ack streamKey (xm_ID msg)
                  end
              end
          end
    end.

Definition streamKeys : list string := map StreamKey (seqZ 0 numPriorities).

(** XREADGROUP with the same id for every stream, 10 entries per stream; a nil
    reply is the empty list. *)
Definition readAndProcess (keys : list string) (id : string) : prog unit :=
  let! streams := rdc (RXReadGroup ConsumerGroup consumerName (map (fun k => (k, id)) keys) 10) in
  match streams with
  | Err _ => Ret tt
  | Ok streams =>
      for_each streams (fun sm => for_each sm.2 (fun msg => processMessage sm.1 msg))
  end.

Definition tick : prog unit :=
  readAndProcess streamKeys ">" >> readAndProcess streamKeys "0".

Definition run_turn (isLeader : bool) : prog unit := if isLeader then tick else Ret tt.

Lemma processMessage_ok s m : prog_ok (processMessage s m).
Proof. unfold processMessage, ack. repeat (case_match; simpl; auto; try split; auto; intros). Qed.

Lemma readAndProcess_ok ks id : prog_ok (readAndProcess ks id).
Proof.
  simpl. split; [done|]. intros [l|]; [|done].
  apply all_calls_for_each. intros [s ms]. apply all_calls_for_each. intros m.
  apply processMessage_ok.
Qed.

Lemma tick_ok : prog_ok tick.
Proof. apply all_calls_bind; [|intros _]; apply readAndProcess_ok. Qed.

(** ** The acknowledgement discipline *)

Definition is_ack (ev : event) : bool :=
  match ev_call ev with
  | Rd c => match c with RXAck _ _ _ => true | _ => false end
  | _ => false
  end.

(** A reply after which the queue entry has done its work: the job does not
    exist, is no longer queued, or was just assigned. *)
Definition settles (ev : event) : bool :=
  match ev_call ev in call X return X -> bool with
  | Pg c =>
      match c in pg A return result A -> bool with
      | PgGetJob _ => fun r => match r with
                               | Ok j => negb (bool_decide (J_Status j = "QUEUED"))
                               | Err ErrJobNotFound => true
                               | Err _ => false
                               end
      | PgAssignJob _ _ _ _ => fun r => match r with Ok b => b | Err _ => false end
      | _ => fun _ => false
      end
  | _ => fun _ => false
  end (ev_reply ev).
