(* ===== verification/Reaper.v ===== *)
(** * internal/scheduler/reaper.go: the dead-worker sweep *)
From S2P Require Import Prelude GoStrings Database WorkerStore JobStore Lifecycle Invariant.
From S2P Require Import StoreSound Redis Effects Stores.
Local Open Scope Z_scope.

Definition reap_one (w : StaleWorker) : prog unit :=
  let! r := pgc (PgMarkDeadAndRequeue (sw_ID w) (sw_Epoch w)) in
  match r with
  | Err _ => Ret tt
  | Ok _ => DeleteState (sw_ID w) >> Ret tt
  end.

Definition sweep (timeoutSeconds : Z) : prog unit :=
  let! stale := pgc (PgListStale timeoutSeconds) in
  match stale with
  | Err _ => Ret tt
  | Ok stale => for_each stale reap_one
  end.

(** One tick of Run. *)
Definition reaper_tick (isLeader : bool) (timeoutSeconds : Z) : prog unit :=
  if isLeader then sweep timeoutSeconds else Ret tt.

Lemma sweep_ok t : prog_ok (sweep t).
Proof.
  simpl. split; [done|]. intros [l|]; [|done]. apply all_calls_for_each. intros w.
  simpl. split; [done|]. intros [|]; simpl; auto.
Qed.
