(* ===== verification/RetryPoller.v ===== *)
(** * internal/scheduler/retrypoller.go: requeueing jobs whose backoff is over *)
From S2P Require Import Prelude GoStrings Database WorkerStore JobStore Lifecycle Invariant.
From S2P Require Import StoreSound Redis Effects Stores.
Local Open Scope Z_scope.

Section poller.
Context `{Backend}.

Definition retry_message (j : DueRetry) : JobMessage :=
  mkJobMessage (du_ID j) (du_Priority j) (du_Repository j) (du_Branch j) (du_CommitSHA j)
    (du_RequiredCapabilities j).

Definition requeue_due (j : DueRetry) : prog unit :=
  let! ok := pgc (PgMarkQueuedFromRetry (du_ID j) (du_CreatedAt j)) in
  match ok with
  | Ok true => Enqueue (retry_message j) >> Ret tt
  | _ => Ret tt
  end.

Definition poll : prog unit :=
  let! due := pgc (PgListDueRetries 100) in
  match due with
  | Err _ => Ret tt
  | Ok due => for_each due requeue_due
  end.

Definition poller_tick (isLeader : bool) : prog unit := if isLeader then poll else Ret tt.
End poller.

Lemma poll_ok `{BackendLaws} : prog_ok poll.
Proof.
  simpl. split; [done|]. intros [l|]; [|done]. apply all_calls_for_each. intros j.
  simpl. split; [done|]. intros [[]|]; simpl; auto.
  apply all_calls_bind; [apply not_pg_ok, enqueue_not_pg|done].
Qed.
