(* ===== verification/GrpcServer.v ===== *)
(** * internal/grpcserver: the worker-facing control plane

    RegisterWorker (register.go), one message of the Heartbeat stream
    (heartbeat.go) and ReportJobResult (report_result.go). *)
From S2P Require Import Prelude GoStrings Database WorkerStore JobStore Redis Effects Stores.
Local Open Scope Z_scope.

(** ** gRPC replies and the enums of proto/fleetforge/v1/worker.proto *)
Inductive code := InvalidArgument | NotFound | Aborted | Internal.

Inductive rpc (A : Type) :=
  | Reply (a : A)
  | Status (c : code) (message : string).
Arguments Reply {A} a.
Arguments Status {A} c message.

(** proto3 enums are open: any int32 can arrive. *)
Definition WORKER_STATUS_REGISTERING : Z := 1.
Definition WORKER_STATUS_READY : Z := 2.
Definition WORKER_STATUS_BUSY : Z := 3.
Definition WORKER_STATUS_DRAINING : Z := 4.
Definition WORKER_STATUS_OFFLINE : Z := 5.
Definition WORKER_STATUS_DEAD : Z := 6.
Definition JOB_STATUS_SUCCESS : Z := 4.
Definition JOB_STATUS_FAILED : Z := 5.
Definition JOB_STATUS_CANCELLED : Z := 7.

Definition workerStatusToDB (ws : Z) : string :=
  if ws =? WORKER_STATUS_REGISTERING then "REGISTERING"
  else if ws =? WORKER_STATUS_READY then "READY"
  else if ws =? WORKER_STATUS_BUSY then "BUSY"
  else if ws =? WORKER_STATUS_DRAINING then "DRAINING"
  else if ws =? WORKER_STATUS_OFFLINE then "OFFLINE"
  else if ws =? WORKER_STATUS_DEAD then "DEAD"
  else "REGISTERING".

Definition jobStatusToDB (js : Z) : string :=
  if js =? JOB_STATUS_SUCCESS then "SUCCESS"
  else if js =? JOB_STATUS_FAILED then "FAILED"
  else if js =? JOB_STATUS_CANCELLED then "CANCELLED"
  else "FAILED".

Record Server := mkServer {
  s_heartbeatIntervalSeconds : Z;
  s_heartbeatTimeoutSeconds : Z }.

(** ** register.go *)
Record RegisterWorkerRequest := mkRegisterWorkerRequest {
  rq_hostname : string; rq_instance_id : string; rq_os : string; rq_cpu_cores : Z;
  rq_memory_mb : Z; rq_labels : option (gmap string string);
  rq_capabilities : option (list string); rq_version : string; rq_capacity_slots : Z }.

Record RegisterWorkerResponse := mkRegisterWorkerResponse {
  rs_worker_id : string; rs_epoch : Z; rs_heartbeat_interval_seconds : Z;
  rs_heartbeat_timeout_seconds : Z }.

Definition validateRegisterRequest (req : RegisterWorkerRequest) : option string :=
  if decide (rq_hostname req = "") then Some "hostname is required"
  else if decide (rq_instance_id req = "") then Some "instance_id is required"
  else if decide (rq_os req = "") then Some "os is required"
  else if rq_cpu_cores req <=? 0 then Some "cpu_cores must be a positive integer"
  else if rq_memory_mb req <=? 0 then Some "memory_mb must be a positive integer"
  else if decide (rq_version req = "") then Some "version is required"
  else None.

Definition register_params (req : RegisterWorkerRequest) : RegisterWorkerParams :=
  mkRegisterWorkerParams (rq_hostname req) (rq_instance_id req) (rq_os req) (rq_cpu_cores req)
    (rq_memory_mb req) (rq_labels req) (rq_capabilities req) (rq_version req)
    (rq_capacity_slots req).

Definition RegisterWorker (s : Server) (req : RegisterWorkerRequest)
    : prog (rpc RegisterWorkerResponse) :=
  match validateRegisterRequest req with
  | Some m => Ret (Status InvalidArgument ("invalid registration request: " +:+ m))
  | None =>
      let! registered := pgc (PgRegister (register_params req)) in
      match registered with
      | Err _ => Ret (Status Internal "registration failed")
      | Ok registered =>
          let seedCapacity := if rq_capacity_slots req <=? 0 then 1 else rq_capacity_slots req in
          SetState (rw_ID registered)
            (mkWorkerState (rw_Epoch registered) "READY" "" seedCapacity 0 false) >>
          Ret (Reply (mkRegisterWorkerResponse (rw_ID registered) (rw_Epoch registered)
                        (s_heartbeatIntervalSeconds s) (s_heartbeatTimeoutSeconds s)))
      end
  end.

(** ** heartbeat.go *)
Record HeartbeatRequest := mkHeartbeatRequest {
  hb_worker_id : string; hb_epoch : Z; hb_status : Z; hb_current_job_id : option string;
  hb_available_capacity : Z }.

Record JobAssignment := mkJobAssignment {
  ja_job_id : string; ja_assignment_epoch : Z; ja_repository : string; ja_branch : string;
  ja_commit_sha : string }.

Record HeartbeatResponse := mkHeartbeatResponse {
  hr_acknowledged : bool; hr_assignment : option JobAssignment; hr_drain_requested : bool }.

Definition pgFlushCoalesceSeconds : Z := 15.

(** time.Now().Unix() *)
Definition unix (nanos : Z) : Z := nanos / Second.

(** (found, cached): a read error counts as a miss with the zero state. *)
Definition cached_state (r : result (option WorkerState)) : bool * WorkerState :=
  match r with Ok (Some s) => (true, s) | _ => (false, zero_state) end.

(** The epoch check's reference: the cache, or Postgres on a miss. *)
Definition known_epoch (workerID : string) (found : bool) (cached : WorkerState)
    : prog (rpc (Z * bool)) :=
  if found then Ret (Reply (ws_Epoch cached, ws_DrainRequested cached))
  else
    let! r := pgc (PgGetEpochAndStatus workerID) in
    Ret (match r with
         | Err _ => Status NotFound ("unknown worker_id " +:+ workerID +:+ ", must re-register")
         | Ok (epoch, dbStatus, drain) =>
             if decide (dbStatus = "DEAD" \/ dbStatus = "OFFLINE")
             then Status NotFound ("worker_id " +:+ workerID +:+ " is " +:+ dbStatus
                                   +:+ ", must re-register")
             else Reply (epoch, drain)
         end).

(** The assignment handed over with the reply, if any. *)
Definition pending_assignment (found : bool) (cached : WorkerState) (knownEpoch : Z)
    (currentJobID : string) : prog (option JobAssignment) :=
  if found && bool_decide (ws_Status cached = "BUSY") &&
     negb (bool_decide (ws_CurrentJobID cached = "")) && bool_decide (currentJobID = "")
  then
    let! job := pgc (PgGetJob (ws_CurrentJobID cached)) in
    Ret (match job with
         | Ok job => if decide (J_Status job = "ASSIGNED")
                     then Some (mkJobAssignment (J_ID job) knownEpoch (J_Repository job)
                                  (J_Branch job) (J_CommitSHA job))
                     else None
         | Err _ => None
         end)
  else Ret None.

(** The coalesced Postgres write; the result is the new LastPGFlushUnix. *)
Definition flush_heartbeat (workerID : string) (found : bool) (cached : WorkerState)
    (knownEpoch : Z) (newStatus currentJobID : string) : prog Z :=
  let statusChanged := found && negb (bool_decide (newStatus = ws_Status cached)) in
  let! dueForFlush := (if found then
                         let! now := trigger TimeNow in
                         Ret (pgFlushCoalesceSeconds <=?
                              int64 (unix now - ws_LastPGFlushUnix cached))
                       else Ret true) in
  if statusChanged || dueForFlush then
    let! r := UpdateHeartbeat workerID knownEpoch newStatus (ptr_of_string currentJobID) in
    match r with
    | Err _ => Ret (ws_LastPGFlushUnix cached)
    | Ok _ => let! now := trigger TimeNow in Ret (unix now)
    end
  else Ret (ws_LastPGFlushUnix cached).

Definition handleHeartbeat (s : Server) (req : HeartbeatRequest) : prog (rpc HeartbeatResponse) :=
  let workerID := hb_worker_id req in
  if decide (workerID = "") then Ret (Status InvalidArgument "worker_id is required")
  else
    let! r := GetState workerID in
    let '(found, cached) := cached_state r in
    let! known := known_epoch workerID found cached in
    match known with
    | Status c m => Ret (Status c m)
    | Reply (knownEpoch, drainRequested) =>
        if decide (hb_epoch req <> knownEpoch) then
          Ret (Status Aborted ("stale epoch " +:+ strconv.Itoa (hb_epoch req)
                 +:+ " (current epoch is " +:+ strconv.Itoa knownEpoch
                 +:+ "), re-register required"))
        else
          let newStatus := workerStatusToDB (hb_status req) in
          let currentJobID := string_of_ptr (hb_current_job_id req) in
          let! assignment := pending_assignment found cached knownEpoch currentJobID in
          (if bool_decide (newStatus = "BUSY") && negb (bool_decide (currentJobID = ""))
           then pgc (PgMarkRunning currentJobID knownEpoch) >> Ret tt
           else Ret tt) >>
          let! lastFlush := flush_heartbeat workerID found cached knownEpoch newStatus
                              currentJobID in
          SetState workerID (mkWorkerState knownEpoch newStatus currentJobID
                               (hb_available_capacity req) lastFlush false) >>
          SetAlive workerID (s_heartbeatTimeoutSeconds s * Second) >>
          Ret (Reply (mkHeartbeatResponse true assignment drainRequested))
    end.

(** The stream: requests are answered in order until one is rejected, which
    ends it with that error, or the client stops sending. *)
Fixpoint Heartbeat (s : Server) (reqs : list HeartbeatRequest)
    : prog (list HeartbeatResponse * option (code * string)) :=
  match reqs with
  | [] => Ret ([], None)
  | req :: reqs' =>
      let! r := handleHeartbeat s req in
      match r with
      | Status c m => Ret ([], Some (c, m))
      | Reply resp =>
          let! rest := Heartbeat s reqs' in
          Ret (resp :: rest.1, rest.2)
      end
  end.

(** ** report_result.go *)
Record ReportJobResultRequest := mkReportJobResultRequest {
  rr_job_id : string; rr_assignment_epoch : Z; rr_status : Z; rr_exit_code : Z;
  rr_log_ref : string; rr_error_message : string }.

Record ReportJobResultResponse := mkReportJobResultResponse {
  rp_acknowledged : bool; rp_discarded_stale_epoch : bool }.

(** The retry-or-fail or completion call: (completed, finalStatus). *)
Definition record_result (job : Job) (req : ReportJobResultRequest)
    : prog (result (bool * string)) :=
  let reportedStatus := jobStatusToDB (rr_status req) in
  if decide (reportedStatus = "FAILED") then
    let! r := pgc (PgRetryOrFail (J_ID job) (J_CreatedAt job) (rr_assignment_epoch req)
                     (J_WorkerID job) (rr_error_message req) (rr_log_ref req)) in
    Ret (match r with Ok (newStatus, ok) => Ok (ok, newStatus) | Err x => Err x end)
  else
    let! r := pgc (PgComplete (J_ID job) (J_CreatedAt job) (rr_assignment_epoch req)
                     reportedStatus (rr_log_ref req)) in
    Ret (match r with Ok ok => Ok (ok, reportedStatus) | Err x => Err x end).

(** Freeing the worker and mirroring its row into the cache. *)
Definition free_worker (workerID : string) (epoch : Z) : prog unit :=
  let! r := pgc (PgFreeWorker workerID epoch) in
  match r with
  | Ok (true, availableCapacity, newWorkerStatus) =>
      let! now := trigger TimeNow in
      SetState workerID (mkWorkerState epoch newWorkerStatus "" availableCapacity (unix now) false) >>
      Ret tt
  | _ => Ret tt
  end.

(** After an accepted result: free the worker, count, time, acknowledge. *)
Definition finish_report (job : Job) (epoch : Z) (finalStatus : string)
    : prog (rpc ReportJobResultResponse) :=
  (match J_WorkerID job with
   | Some w => free_worker w epoch
   | None => Ret tt
   end) >>
  trigger (MetricInc "fleetforge_jobs_completed_total" finalStatus) >>
  (match J_StartedAt job with
   | Some t =>
       if decide (finalStatus <> "RETRYING") then
         let! now := trigger TimeNow in
         trigger (MetricObserve "fleetforge_job_duration_seconds" (now - t))
       else Ret tt
   | None => Ret tt
   end) >>
  Ret (Reply (mkReportJobResultResponse true false)).

Definition ReportJobResult (req : ReportJobResultRequest) : prog (rpc ReportJobResultResponse) :=
  let jobID := rr_job_id req in
  if decide (jobID = "") then Ret (Status InvalidArgument "job_id is required")
  else
    let! job := pgc (PgGetJob jobID) in
    match job with
    | Err _ => Ret (Status NotFound ("job " +:+ jobID +:+ " not found"))
    | Ok job =>
        let! r := record_result job req in
        match r with
        | Err _ => Ret (Status Internal "failed to record job result")
        | Ok (false, _) => Ret (Reply (mkReportJobResultResponse true true))
        | Ok (true, finalStatus) =>
            finish_report job (rr_assignment_epoch req) finalStatus
        end
    end.

(** ** Calls in range *)
Ltac solve_prog_ok :=
  repeat first [ progress simpl | apply all_calls_bind | split | done | progress intros
               | progress eauto with fleet | case_match ].

Lemma RegisterWorker_ok s req : prog_ok (RegisterWorker s req).
Proof. unfold RegisterWorker. solve_prog_ok. Qed.

Lemma flush_heartbeat_ok w f c k n j : prog_ok (flush_heartbeat w f c k n j).
Proof. unfold flush_heartbeat. solve_prog_ok. Qed.
#[export] Hint Resolve flush_heartbeat_ok : fleet.

Lemma handleHeartbeat_ok s req : prog_ok (handleHeartbeat s req).
Proof. unfold handleHeartbeat, known_epoch, pending_assignment. solve_prog_ok. Qed.

Lemma all_calls_Heartbeat (P : forall X, call X -> Prop) s reqs :
  (forall req, all_calls P (handleHeartbeat s req)) -> all_calls P (Heartbeat s reqs).
Proof.
  intros H. induction reqs as [|req reqs IH]; [done|]. cbn [Heartbeat].
  apply all_calls_bind; [done|]. intros [resp|]; [|done]. by apply all_calls_bind.
Qed.

Lemma jobStatusToDB_final js :
  jobStatusToDB js <> "FAILED" -> jobStatusToDB js = "SUCCESS" \/ jobStatusToDB js = "CANCELLED".
Proof. unfold jobStatusToDB. repeat case_match; auto; done. Qed.

Lemma record_result_ok job req : prog_ok (record_result job req).
Proof.
  unfold record_result. case_decide; simpl; [by auto|].
  split; [by apply jobStatusToDB_final|done].
Qed.
#[export] Hint Resolve record_result_ok : fleet.

Lemma ReportJobResult_ok req : prog_ok (ReportJobResult req).
Proof. unfold ReportJobResult, finish_report, free_worker. solve_prog_ok. Qed.
