(* ===== verification/Autoscaler.v ===== *)
(** * internal/scheduler/autoscaler.go: the fleet-sizing decision loop

    The autoscaler's own fields are passed as a state; [autoscale_tick] is one
    tick.  [time.Time]'s zero value is [None]; subtracting it from a current
    time saturates at the largest duration. *)
From S2P Require Import Prelude Float64 Database WorkerStore JobStore Redis Effects Stores.
Local Open Scope Z_scope.

Inductive ScaleAction := ActionHold | ActionScaleUp | ActionScaleDown.
#[global] Instance ScaleAction_eq_dec : EqDecision ScaleAction.
Proof. solve_decision. Defined.

Definition action_string (a : ScaleAction) : string :=
  match a with
  | ActionScaleUp => "scale_up"
  | ActionScaleDown => "scale_down"
  | ActionHold => "hold"
  end.

Record AutoscalerConfig := mkAutoscalerConfig {
  ScaleUpThresholdPerWorker : f64;
  ScaleDownThresholdPerWorker : f64;
  ScaleUpCooldown : Z;
  ScaleDownCooldown : Z;
  MaxScaleUpFraction : f64;
  TrendWindowSamples : Z }.

Definition DefaultAutoscalerConfig : AutoscalerConfig :=
  mkAutoscalerConfig (f64_of_int 5) (f64_of_int 1) (5 * Minute) (10 * Minute) (f64_div 1 4) 3.

Record Autoscaler := mkAutoscaler {
  queueDepthSamples : list Z;
  lastScaleUp : option Z;
  lastScaleDown : option Z }.

Definition NewAutoscaler : Autoscaler := mkAutoscaler [] None None.

(** now.Sub(t), clamped to the int64 range as Go does. *)
Definition time_sub (now : Z) (t : option Z) : Z :=
  match t with
  | None => max_int64
  | Some t => Z.max (- max_int64 - 1) (Z.min max_int64 (now - t))
  end.

Section autoscaler.
Context (cfg : AutoscalerConfig).

Definition recordSample (depth : Z) (samples : list Z) : list Z :=
  let samples := samples ++ [depth] in
  let n := Z.of_nat (length samples) in
  if TrendWindowSamples cfg <? n then drop (Z.to_nat (n - TrendWindowSamples cfg)) samples
  else samples.

(** No sample below its predecessor. *)
Fixpoint non_decreasing (l : list Z) : bool :=
  match l with
  | a :: (b :: _) as l' => if b <? a then false else non_decreasing l'
  | _ => true
  end.

Definition trendIsFlatOrRising (samples : list Z) : bool :=
  if Z.of_nat (length samples) <? TrendWindowSamples cfg then false
  else non_decreasing samples.

Definition queuedPerWorker (totalQueued fleetSize : Z) : f64 :=
  if 0 <? fleetSize then f64_div totalQueued fleetSize
  else if 0 <? totalQueued then f64_add (ScaleUpThresholdPerWorker cfg) f64_unit
  else 0.

(** The decision of one tick, after the sample was recorded. *)
Definition decide_action (a : Autoscaler) (totalQueued readyCount fleetSize now : Z)
    : ScaleAction :=
  let q := queuedPerWorker totalQueued fleetSize in
  if (ScaleUpThresholdPerWorker cfg <? q) && trendIsFlatOrRising (queueDepthSamples a) &&
     (ScaleUpCooldown cfg <=? time_sub now (lastScaleUp a))
  then ActionScaleUp
  else if (q <? ScaleDownThresholdPerWorker cfg) && (0 <? readyCount) &&
          (ScaleDownCooldown cfg <=? time_sub now (lastScaleDown a))
  then ActionScaleDown
  else ActionHold.

(** doScaleUp only logs a recommendation of this many workers. *)
Definition scale_up_delta (fleetSize : Z) : Z :=
  let delta := f64_to_int (f64_mul (f64_of_int fleetSize) (MaxScaleUpFraction cfg)) in
  if delta <? 1 then 1 else delta.

Definition doScaleUp (now : Z) (a : Autoscaler) : Autoscaler :=
  mkAutoscaler (queueDepthSamples a) (Some now) (lastScaleDown a).

Definition doScaleDown (now : Z) (a : Autoscaler) : prog Autoscaler :=
  let! candidate := pgc PgPickDrainCandidate in
  match candidate with
  | Err _ => Ret a
  | Ok candidate =>
      if decide (candidate = "") then Ret a
      else
        let! r := pgc (PgRequestDrain candidate) in
        match r with
        | Err _ | Ok None => Ret a
        | Ok (Some res) =>
            SetState candidate (mkWorkerState (dr_Epoch res) (dr_Status res)
              (string_of_ptr (dr_CurrentJobID res)) (dr_AvailableCapacity res) 0 false) >>
            SetDrainRequested candidate true >>
            Ret (mkAutoscaler (queueDepthSamples a) (lastScaleUp a) (Some now))
        end
  end.

(** The sum of the per-priority counts, an int32. *)
Definition total_queued (m : gmap Z Z) : Z := map_fold (fun _ n acc => int32 (acc + n)) 0 m.

Definition autoscale_tick (a : Autoscaler) : prog Autoscaler :=
  let! queued := pgc PgCountQueuedByPriority in
  match queued with
  | Err _ => Ret a
  | Ok queued =>
      let totalQueued := total_queued queued in
      let! byStatus := pgc PgCountByStatus in
      match byStatus with
      | Err _ => Ret a
      | Ok byStatus =>
          let readyCount := default 0 (byStatus !! "READY") in
          let busyCount := default 0 (byStatus !! "BUSY") in
          let fleetSize := int32 (readyCount + busyCount) in
          let a := mkAutoscaler (recordSample totalQueued (queueDepthSamples a))
                     (lastScaleUp a) (lastScaleDown a) in
          let! now := trigger TimeNow in
          let action := decide_action a totalQueued readyCount fleetSize now in
          trigger (MetricInc "fleetforge_autoscaler_decisions_total" (action_string action)) >>
          match action with
          | ActionScaleUp => Ret (doScaleUp now a)
          | ActionScaleDown => doScaleDown now a
          | ActionHold => Ret a
          end
      end
  end.

Lemma autoscale_tick_ok a : prog_ok (autoscale_tick a).
Proof.
  unfold autoscale_tick, doScaleDown. simpl. split; [done|]. intros [q|]; [|done].
  simpl. split; [done|]. intros [m|]; [|done]. simpl. split; [done|]. intros now.
  split; [done|]. intros _. case_match; simpl; [done|done|]. split; [done|].
  intros [c|]; [|done]. case_decide; simpl; [done|]. split; [done|].
  intros [[r|]|]; simpl; auto.
Qed.
End autoscaler.
