(* ===== verification/Api.v ===== *)
(** * internal/api: the REST handlers

    A handler is a program from the decoded request to a response.  The JSON
    codec is encoding/json's; [None] stands for a body it rejects.
    [format_time] is time.Format(RFC 3339) in the process's time zone. *)
From S2P Require Import Prelude GoStrings Database WorkerStore JobStore Redis Effects Stores.
Local Open Scope Z_scope.

Section api.
Context (format_time : Z -> string).
Context `{Backend}.

(** ** handlers_jobs.go *)
Record submitJobRequest := mkSubmitJobRequest {
  sj_Priority : option Z; sj_Repository : string; sj_Branch : string; sj_CommitSHA : string;
  sj_Labels : option (gmap string string); sj_RequiredCapabilities : option (list string);
  sj_MaxRetries : Z; sj_IdempotencyKey : string }.

Record jobResponse := mkJobResponse {
  jr_ID : string; jr_Priority : Z; jr_Repository : string; jr_Branch : string;
  jr_CommitSHA : string; jr_Labels : gmap string string;
  jr_RequiredCapabilities : list string; jr_Retries : Z; jr_MaxRetries : Z;
  jr_Status : string; jr_WorkerID : option string; jr_LogRef : option string;
  jr_CreatedAt : string; jr_StartedAt : option string; jr_FinishedAt : option string }.

Record workerResponse := mkWorkerResponse {
  wp_ID : string; wp_Hostname : string; wp_OS : string; wp_CPUCores : Z; wp_MemoryMB : Z;
  wp_Labels : gmap string string; wp_Capabilities : list string; wp_Status : string;
  wp_CurrentJobID : option string; wp_LastHeartbeat : option string; wp_Version : string;
  wp_AvailableCapacity : Z; wp_Epoch : Z; wp_RegisteredAt : string; wp_DrainRequested : bool }.

Inductive body :=
  | BError (error message : string)
  | BJob (j : jobResponse)
  | BJobList (items : list jobResponse) (total_count : Z)
  | BWorkerList (items : list workerResponse) (total_count : Z)
  | BDrain (worker_id status : string).

Record response := mkResponse { rsp_status : Z; rsp_body : body }.

Definition StatusOK : Z := 200.
Definition StatusAccepted : Z := 202.
Definition StatusBadRequest : Z := 400.
Definition StatusNotFound : Z := 404.
Definition StatusConflict : Z := 409.
Definition StatusInternalServerError : Z := 500.

Definition writeError (status : Z) (code message : string) : response :=
  mkResponse status (BError code message).

Definition toJobResponse (j : Job) : jobResponse :=
  mkJobResponse (J_ID j) (J_Priority j) (J_Repository j) (J_Branch j) (J_CommitSHA j)
    (J_Labels j) (J_RequiredCapabilities j) (J_Retries j) (J_MaxRetries j) (J_Status j)
    (J_WorkerID j) (J_LogRef j) (format_time (J_CreatedAt j))
    (format_time <$> J_StartedAt j) (format_time <$> J_FinishedAt j).

(** The priority used, or [None] when it is out of range. *)
Definition submit_priority (p : option Z) : option Z :=
  match p with
  | None => Some 5
  | Some n => if (n <? 0) || (9 <? n) then None else Some n
  end.

Definition job_message (j : Job) : JobMessage :=
  mkJobMessage (J_ID j) (J_Priority j) (J_Repository j) (J_Branch j) (J_CommitSHA j)
    (J_RequiredCapabilities j).

Definition SubmitJob (decoded : option submitJobRequest) : prog response :=
  match decoded with
  | None => Ret (writeError StatusBadRequest "invalid_request" "malformed JSON body")
  | Some req =>
      if decide (sj_Repository req = "" \/ sj_Branch req = "" \/ sj_CommitSHA req = "") then
        Ret (writeError StatusBadRequest "invalid_request"
               "repository, branch, and commit_sha are required")
      else match submit_priority (sj_Priority req) with
      | None => Ret (writeError StatusBadRequest "invalid_request"
                       "priority must be between 0 and 9")
      | Some priority =>
          let! r := Create (mkCreateJobParams priority (sj_Repository req) (sj_Branch req)
                      (sj_CommitSHA req) (sj_Labels req) (sj_RequiredCapabilities req)
                      (sj_MaxRetries req) (sj_IdempotencyKey req)) in
          match r with
          | Err _ => Ret (writeError StatusInternalServerError "internal_error"
                            "failed to create job")
          | Ok (job, true) => Ret (mkResponse StatusConflict (BJob (toJobResponse job)))
          | Ok (job, false) =>
              Enqueue (job_message job) >>
              Ret (mkResponse StatusAccepted (BJob (toJobResponse job)))
          end
      end
  end.

Definition GetJob (jobID : string) : prog response :=
  let! r := pgc (PgGetJob jobID) in
  Ret (match r with
       | Err _ => writeError StatusNotFound "not_found" "job not found"
       | Ok j => mkResponse StatusOK (BJob (toJobResponse j))
       end).

Definition ListJobs (status repository worker_id : string) : prog response :=
  let! r := pgc (PgListJobs (mkListJobsFilter status repository worker_id 100)) in
  Ret (match r with
       | Err _ => writeError StatusInternalServerError "internal_error" "failed to list jobs"
       | Ok js => mkResponse StatusOK (BJobList (map toJobResponse js) (Z.of_nat (length js)))
       end).

(** ** handlers_workers.go *)
Definition toWorkerResponse (w : WorkerRow) : workerResponse :=
  mkWorkerResponse (wr_ID w) (wr_Hostname w) (wr_OS w) (wr_CPUCores w) (wr_MemoryMB w)
    (wr_Labels w) (wr_Capabilities w) (wr_Status w) (wr_CurrentJobID w)
    (format_time <$> wr_LastHeartbeat w) (wr_Version w) (wr_AvailableCapacity w) (wr_Epoch w)
    (format_time (wr_RegisteredAt w)) (wr_DrainRequested w).

Definition ListWorkers (status : string) : prog response :=
  let! r := pgc (PgListWorkers status 100) in
  Ret (match r with
       | Err _ => writeError StatusInternalServerError "internal_error" "failed to list workers"
       | Ok ws => mkResponse StatusOK (BWorkerList (map toWorkerResponse ws) (Z.of_nat (length ws)))
       end).

Definition syncDrainToCache (workerID : string) (res : DrainResult) (drainRequested : bool)
    : prog unit :=
  SetState workerID (mkWorkerState (dr_Epoch res) (dr_Status res)
    (string_of_ptr (dr_CurrentJobID res)) (dr_AvailableCapacity res) 0 false) >>
  SetDrainRequested workerID drainRequested >> Ret tt.

Definition drain_reply (workerID : string) (failure : string) (drainRequested : bool)
    (r : result (option DrainResult)) : prog response :=
  match r with
  | Err _ => Ret (writeError StatusInternalServerError "internal_error" failure)
  | Ok None => Ret (writeError StatusNotFound "not_found"
                      "worker not found, or already OFFLINE/DEAD")
  | Ok (Some res) =>
      syncDrainToCache workerID res drainRequested >>
      Ret (mkResponse StatusOK (BDrain workerID (dr_Status res)))
  end.

Definition DrainWorker (workerID : string) : prog response :=
  let! r := pgc (PgRequestDrain workerID) in
  drain_reply workerID "failed to request drain" true r.

Definition ResumeWorker (workerID : string) : prog response :=
  let! r := pgc (PgResumeDrain workerID) in
  drain_reply workerID "failed to resume from drain" false r.
End api.

(** A decoded request carries an int32 max_retries; the largest value is
    excluded (see JobStore.RetryOrFail's int32 increment). *)
Definition submit_in_range (decoded : option submitJobRequest) : Prop :=
  match decoded with Some r => sj_MaxRetries r < max_int32 | None => True end.

(** ** Calls in range *)
Section api_ok.
Context (format_time : Z -> string) `{BackendLaws}.

Lemma enqueue_ok m : prog_ok (Enqueue m).
Proof. apply not_pg_ok, enqueue_not_pg. Qed.

Lemma SubmitJob_ok decoded : submit_in_range decoded -> prog_ok (SubmitJob format_time decoded).
Proof.
  destruct decoded as [req|]; [|done]. intros Hr. simpl. case_decide; [done|].
  case_match; [|done]. apply all_calls_bind; [by apply Create_ok|].
  intros [[j []]|]; [done| |done]. apply all_calls_bind; [apply enqueue_ok|done].
Qed.

Lemma drain_reply_ok w f b r : prog_ok (drain_reply w f b r).
Proof. destruct r as [[r|]|]; simpl; auto. Qed.

Lemma DrainWorker_ok w : prog_ok (DrainWorker w).
Proof. split; [done|]. intros r. apply drain_reply_ok. Qed.

Lemma ResumeWorker_ok w : prog_ok (ResumeWorker w).
Proof. split; [done|]. intros r. apply drain_reply_ok. Qed.
End api_ok.
