(* ===== verification/Metrics.v ===== *)
(** * internal/metrics: the collectors, their registration, the gauge collector

    The six collectors of metrics.go as the options they are created with, and
    MustRegister over an abstract registry (client_golang's).  The two gauge
    vectors' values are a map from (metric, label) to value; [collect] is one
    refresh from Postgres.  Counters and the histogram are incremented at their
    call sites ([MetricInc], [MetricObserve]). *)
From S2P Require Import Prelude Float64 GoStrings Database WorkerStore JobStore Redis Effects Stores.
Local Open Scope Z_scope.

Abbreviation gauges := (gmap (string * string) Z).

Definition JobsQueued : string := "fleetforge_jobs_queued".
Definition WorkersByStatus : string := "fleetforge_workers".

(** ** metrics.go *)

(** prometheus.ExponentialBuckets(start, factor, count) *)
Record ExponentialBuckets := mkExponentialBuckets { eb_start : f64; eb_factor : f64; eb_count : Z }.

Inductive metric_kind :=
  | KGauge
  | KCounter
  | KHistogram (buckets : ExponentialBuckets).

(** A collector: its name and its label names (none for a plain one). *)
Record metric := mkMetric { me_Name : string; me_kind : metric_kind; me_labels : list string }.

Definition JobsQueuedVec : metric := mkMetric JobsQueued KGauge ["priority"].
Definition WorkersByStatusVec : metric := mkMetric WorkersByStatus KGauge ["status"].
Definition JobsAssignedTotal : metric := mkMetric "fleetforge_jobs_assigned_total" KCounter [].
Definition JobsCompletedTotal : metric := mkMetric "fleetforge_jobs_completed_total" KCounter ["status"].
Definition JobDurationSeconds : metric :=
  mkMetric "fleetforge_job_duration_seconds"
    (KHistogram (mkExponentialBuckets (f64_div 1 2) (f64_of_int 2) 12)) [].
Definition AutoscalerDecisionsTotal : metric :=
  mkMetric "fleetforge_autoscaler_decisions_total" KCounter ["decision"].

(** A Prometheus registry: registering panics ([None]) exactly when the name is
    taken, else the collector is added. *)
Class Registerer := {
  registry : Type;
  registered : registry -> list metric;
  Register_metric : metric -> registry -> option registry }.
Class RegistererLaws `{Registerer} : Prop := {
  register_taken m r : me_Name m ∈ map me_Name (registered r) -> Register_metric m r = None;
  register_new m r : me_Name m ∉ map me_Name (registered r) ->
    exists r', Register_metric m r = Some r' /\ registered r' = registered r ++ [m] }.

(** reg.MustRegister(cs...) *)
Fixpoint register_all `{Registerer} (ms : list metric) (r : registry) : option registry :=
  match ms with
  | [] => Some r
  | m :: ms' => match Register_metric m r with
                | None => None
                | Some r' => register_all ms' r'
                end
  end.

Definition MustRegister `{Registerer} (reg : registry) : option registry :=
  register_all [JobsQueuedVec; WorkersByStatusVec; JobsAssignedTotal; JobsCompletedTotal;
                JobDurationSeconds; AutoscalerDecisionsTotal] reg.

(** ** collector.go *)

(** vec.WithLabelValues(label).Set(v) *)
Definition set_gauge (name label : string) (v : Z) (g : gauges) : gauges := <[(name, label) := v]> g.

(** m[k]: the zero value for an absent key. *)
Definition set_queued (queuedByPriority : gmap Z Z) (g : gauges) : gauges :=
  foldl (fun g p => set_gauge JobsQueued (strconv.Itoa p) (default 0 (queuedByPriority !! p)) g) g
    (seqZ 0 10).

Definition set_workers_gauge (byStatus : gmap string Z) (g : gauges) : gauges :=
  foldl (fun g s => set_gauge WorkersByStatus s (default 0 (byStatus !! s)) g) g
    ["REGISTERING"; "READY"; "BUSY"; "DRAINING"; "OFFLINE"; "DEAD"].

Definition collect (g : gauges) : prog gauges :=
  let! queued := pgc PgCountQueuedByPriority in
  let g1 := match queued with Ok m => set_queued m g | Err _ => g end in
  let! byStatus := pgc PgCountByStatus in
  Ret (match byStatus with Ok m => set_workers_gauge m g1 | Err _ => g1 end).
