(* ===== verification/System.v ===== *)
(** * The whole control plane

    Every RPC, REST request and background tick is a program ([request]).  A
    configuration of the system is the programs in flight and the shared
    world; [sys_step] starts a program, lets any one of them make its next
    call under any environment (faults, clocks, fresh ids, scan orders), drops
    a program (it returned, its client went away, or its process crashed), or
    replaces Redis's contents (expiry, eviction, restart).  The theorems hold
    for every interleaving, any number of replicas and workers, and whatever
    the workers send. *)
From S2P Require Import Prelude GoStrings Database WorkerStore JobStore Lifecycle Invariant.
From S2P Require Import StoreSound Redis Effects Stores Loop Reaper RetryPoller GrpcServer.
From S2P Require Import Autoscaler Api Metrics.
Local Open Scope Z_scope.

Definition ignore {A} (p : prog A) : prog unit := p >> Ret tt.

Section system.
Context `{Redis} `{BackendLaws}.

Inductive request : prog unit -> Prop :=
  | ReqRegisterWorker s r : request (ignore (RegisterWorker s r))
  | ReqHeartbeat s r : request (ignore (handleHeartbeat s r))
  | ReqHeartbeatStream s rs : request (ignore (Heartbeat s rs))
  | ReqReportJobResult r : request (ignore (ReportJobResult r))
  | ReqSubmitJob fmt r : submit_in_range r -> request (ignore (SubmitJob fmt r))
  | ReqGetJob fmt k : request (ignore (GetJob fmt k))
  | ReqListJobs fmt s r w : request (ignore (ListJobs fmt s r w))
  | ReqListWorkers fmt s : request (ignore (ListWorkers fmt s))
  | ReqDrainWorker w : request (ignore (DrainWorker w))
  | ReqResumeWorker w : request (ignore (ResumeWorker w))
  | ReqLoop leader : request (run_turn leader)
  | ReqReaper leader timeout : request (reaper_tick leader timeout)
  | ReqRetryPoller leader : request (poller_tick leader)
  | ReqAutoscaler cfg a : request (ignore (autoscale_tick cfg a))
  | ReqCollector g : request (ignore (collect g)).

Definition config : Type := list (prog unit) * world.

Inductive sys_step : config -> config -> Prop :=
  | sys_start ps w p : request p -> sys_step (ps, w) (ps ++ [p], w)
  | sys_call c c' : pool_step c c' -> sys_step c c'
  | sys_stop ps1 p ps2 w : sys_step (ps1 ++ p :: ps2, w) (ps1 ++ ps2, w)
  | sys_redis ps w r :
      sys_step (ps, w) (ps, mkWorld _ (w_db w) r (w_counters w) (w_observations w)).

(** The system starts on a freshly migrated database. *)
Definition initial (c : config) : Prop := c.1 = [] /\ w_db c.2 = empty_db.
Definition reachable (c : config) : Prop := exists c0, initial c0 /\ rtc sys_step c0 c.

(** ** Every program in flight only makes calls in range *)
Lemma ignore_ok {A} (p : prog A) : prog_ok p -> prog_ok (ignore p).
Proof. intros. by apply all_calls_bind. Qed.

Lemma request_ok p : request p -> prog_ok p.
Proof.
  destruct 1; try apply ignore_ok.
  - apply RegisterWorker_ok.
  - apply handleHeartbeat_ok.
  - apply all_calls_Heartbeat, handleHeartbeat_ok.
  - apply ReportJobResult_ok.
  - by apply SubmitJob_ok.
  - simpl. auto.
  - simpl. auto.
  - simpl. auto.
  - apply DrainWorker_ok.
  - apply ResumeWorker_ok.
  - destruct leader; [apply tick_ok|done].
  - destruct leader; [apply sweep_ok|done].
  - destruct leader; [apply poll_ok|done].
  - apply autoscale_tick_ok.
  - simpl. auto.
Qed.

Definition good (c : config) : Prop := Forall (fun p => prog_ok p) c.1 /\ wf_db (w_db c.2).

Lemma sys_step_good c c' :
  sys_step c c' -> good c -> good c' /\ evolves (w_db c.2) (w_db c'.2).
Proof.
  intros Hs [Hp Hwf]. destruct Hs as [ps w p Hr|c c' Hs|ps1 p ps2 w|ps w r]; simpl in *.
  - split; [split|]; auto with fleet. apply Forall_app. split; [done|].
    constructor; [by apply request_ok|constructor].
  - destruct Hs as [ps1 ps2 X c k e w]. simpl in *.
    apply Forall_app in Hp as [Hp1 Hp2]. apply list.Forall_cons in Hp2 as [[Hc Hk] Hp2'].
    destruct (handle_sound c e w Hc Hwf) as [Hwf' Hev]. split; [|done]. split; [|done].
    apply Forall_app. split; [done|]. constructor; auto.
  - split; [split|]; auto with fleet. apply Forall_app in Hp as [Hp1 Hp2].
    apply Forall_app. split; [done|]. by apply list.Forall_cons in Hp2 as [_ ?].
  - split; [split|]; auto with fleet.
Qed.

Lemma reachable_good c : reachable c -> good c.
Proof.
  intros ([ps w] & [Hps Hd] & Hr). simpl in *. subst ps.
  assert (Hg : good ([], w)) by (split; [constructor|simpl; rewrite Hd; apply empty_db_wf]).
  clear Hd. induction Hr as [|c1 c2 c3 Hs _ IH]; [done|]. by apply IH, (sys_step_good c1).
Qed.

(** The changes of any execution, as a sequence of evolutions. *)
Lemma steps_evolve c c' :
  good c -> rtc sys_step c c' -> rtc evolves (w_db c.2) (w_db c'.2).
Proof.
  intros Hg Hr. induction Hr as [|c1 c2 c3 Hs _ IH]; [done|].
  destruct (sys_step_good _ _ Hs Hg) as [Hg' He]. eapply rtc_l; eauto.
Qed.
End system.

(** ** Consequences of a sequence of evolutions *)
Definition immutable_columns (j j' : job_row) : Prop :=
  j_id j' = j_id j /\ j_priority j' = j_priority j /\ j_repository j' = j_repository j /\
  j_branch j' = j_branch j /\ j_commit_sha j' = j_commit_sha j /\ j_labels j' = j_labels j /\
  j_required_capabilities j' = j_required_capabilities j /\
  j_max_retries j' = j_max_retries j /\ j_idempotency_key j' = j_idempotency_key j /\
  j_created_at j' = j_created_at j.

Lemma evolves_job_row d d' k j :
  rtc evolves d d' -> jobs d !! k = Some j ->
  exists j', jobs d' !! k = Some j' /\ immutable_columns j j' /\
    rtc lifecycle (abs_job j) (abs_job j') /\ (job_terminal (j_status j) = true -> j' = j).
Proof.
  intros Hr. revert j. induction Hr as [d|d1 d2 d3 He _ IH]; intros j Hj.
  - exists j. split; [done|]. split; [by repeat split|]. done.
  - destruct (ev_jobs _ _ He _ _ Hj) as (j2 & Hj2 & Hev).
    destruct (IH _ Hj2) as (j3 & Hj3 & Him & Hl & Ht). exists j3. split; [done|].
    destruct Hev as (? & ? & ? & ? & ? & ? & ? & ? & ? & ? & Hstep).
    split; [unfold immutable_columns in *; intuition congruence|].
    destruct Hstep as [->|Hstep]; [done|]. split; [by eapply rtc_l|].
    intros Hterm. exfalso. apply bool_decide_eq_true in Hterm.
    eapply (done_is_final _ _ Hstep (j_status j)). simpl. unfold abs_state.
    by destruct Hterm as [-> |[-> | ->]].
Qed.

Lemma evolves_worker_row d d' k w :
  rtc evolves d d' -> workers d !! k = Some w ->
  exists w', workers d' !! k = Some w' /\ worker_evolves w w'.
Proof.
  intros Hr. revert w. induction Hr as [d|d1 d2 d3 He _ IH]; intros w Hw; [eauto with fleet|].
  destruct (ev_workers _ _ He _ _ Hw) as (w2 & Hw2 & H12).
  destruct (IH _ Hw2) as (w3 & Hw3 & H23). exists w3. split; [done|].
  unfold worker_evolves in *. intuition (congruence || lia).
Qed.

Lemma evolves_history d d' :
  rtc evolves d d' -> exists h, job_retry_history d' = job_retry_history d ++ h.
Proof.
  induction 1 as [d|d1 d2 d3 He _ [h IH]]; [exists []; by rewrite app_nil_r|].
  destruct (ev_history _ _ He) as [h0 E]. exists (h0 ++ h). by rewrite IH, E, app_assoc.
Qed.

(** ** Running one program is an execution of the system *)
Section player.
Context `{Redis} `{BackendLaws}.

Lemma run_steps ps (p : prog unit) o w :
  rtc pool_step (ps ++ [p], w) (ps ++ [Ret tt], (run p o w).2).
Proof.
  revert o w. induction p as [[]|X c k IH]; intros o w; [done|].
  simpl. pose proof (pool_call ps [] c k (o 0%nat) w) as Hs.
  destruct (handle c (o 0%nat) w) as [x w'] eqn:E. simpl in Hs.
  eapply rtc_l; [exact Hs|]. apply IH.
Qed.

(** Start a request, run it to its end, drop it. *)
Lemma request_steps p o w : request p -> rtc sys_step ([], w) ([], (run p o w).2).
Proof.
  intros Hr. eapply rtc_l; [by apply (sys_start [] w p)|]. simpl.
  etransitivity; [eapply rtc_subrel, (run_steps [] p o w); intros; by apply sys_call|].
  apply rtc_once. apply (sys_stop [] (Ret tt) [] _).
Qed.

(** A sequence of requests, each run to its end. *)
Fixpoint play (script : list (prog unit * oracle)) (w : world) : world :=
  match script with
  | [] => w
  | (p, o) :: rest => play rest (run p o w).2
  end.

Lemma play_steps script w :
  Forall (fun po => request po.1) script -> rtc sys_step ([], w) ([], play script w).
Proof.
  revert w. induction script as [|[p o] rest IH]; intros w Hs; [done|].
  inversion Hs; subst. etransitivity; [by apply request_steps|]. by apply IH.
Qed.

Lemma play_reachable script w :
  Forall (fun po => request po.1) script -> reachable ([], w) -> reachable ([], play script w).
Proof.
  intros Hs (c0 & Hi & Hr). exists c0. split; [done|]. etransitivity; [exact Hr|].
  by apply play_steps.
Qed.
End player.
