(* ===== verification/Scenario.v ===== *)
(** * A concrete execution

    A worker registers, a job is submitted, scheduled, delivered, fails, is
    parked for a retry, requeued, scheduled again; then the worker falls
    silent and is reaped.  The states it goes through are used as the concrete
    inputs at which the general theorems are applied. *)
From S2P Require Import Prelude GoStrings Database WorkerStore JobStore Lifecycle Invariant.
From S2P Require Import Redis Effects Stores Loop Reaper RetryPoller GrpcServer Autoscaler Api.
From S2P Require Import System.
Local Open Scope Z_scope.

Definition no_time_format (t : Z) : string := strconv.Itoa t.

(** Fresh ids from [uuid], both clocks at [t] seconds, no faults. *)
Definition calm (t : Z) (uuid : string) : oracle := fun _ => env_at (t * Second) uuid.

Definition start_world : world := mkWorld MemRedis empty_db mem_empty ∅ [].

Definition server : Server := mkServer 10 30.

Definition register_a : RegisterWorkerRequest :=
  mkRegisterWorkerRequest "host-a" "instance-a" "linux" 4 8192 None
    (Some ["docker"; "go"]) "1.0" 2.
Definition submit_build : submitJobRequest :=
  mkSubmitJobRequest (Some 3) "repo" "main" "abc123" None (Some ["docker"]) 2 "key-1".

Definition heartbeat_a (epoch status : Z) (job : option string) : HeartbeatRequest :=
  mkHeartbeatRequest "w-a" epoch status job 1.
Definition report_failure (epoch : Z) : ReportJobResultRequest :=
  mkReportJobResultRequest "j-1" epoch JOB_STATUS_FAILED 1 "log-1" "exit status 1".

Definition do_register : prog unit * oracle := (ignore (RegisterWorker server register_a), calm 1 "w-a").
Definition do_submit : prog unit * oracle :=
  (ignore (SubmitJob no_time_format (Some submit_build)), calm 2 "j-1").
Definition do_tick : prog unit * oracle := (run_turn true, calm 3 "unused").
Definition do_busy : prog unit * oracle :=
  (ignore (handleHeartbeat server (heartbeat_a 1 WORKER_STATUS_BUSY (Some "j-1"))), calm 4 "unused").
Definition do_fail : prog unit * oracle := (ignore (ReportJobResult (report_failure 1)), calm 5 "unused").
Definition do_poll : prog unit * oracle := (poller_tick true, calm 10 "unused").
Definition do_sweep : prog unit * oracle := (reaper_tick true 30, calm 100 "unused").

(** The worlds along the way. *)
Definition idle_world : world := play [do_register] start_world.
Definition ready_world : world := play [do_register; do_submit] start_world.
Definition assigned_world : world := play [do_tick] ready_world.
Definition running_world : world := play [do_busy] assigned_world.
Definition retrying_world : world := play [do_fail] running_world.
Definition requeued_world : world := play [do_poll] retrying_world.
Definition reaped_world : world := play [do_sweep] running_world.

Lemma start_reachable : reachable ([], start_world).
Proof. exists ([], start_world). by split. Qed.

Ltac scripted H := apply play_reachable; [|exact H]; repeat constructor.

Lemma idle_reachable : reachable ([], idle_world).
Proof. scripted start_reachable. Qed.
Lemma ready_reachable : reachable ([], ready_world).
Proof. scripted start_reachable. Qed.
Lemma assigned_reachable : reachable ([], assigned_world).
Proof. scripted ready_reachable. Qed.
Lemma running_reachable : reachable ([], running_world).
Proof. scripted assigned_reachable. Qed.
Lemma retrying_reachable : reachable ([], retrying_world).
Proof. scripted running_reachable. Qed.
Lemma reaped_reachable : reachable ([], reaped_world).
Proof. scripted running_reachable. Qed.

Lemma running_to_reaped : rtc sys_step ([], running_world) ([], reaped_world).
Proof. apply (play_steps [do_sweep] running_world). repeat constructor. Qed.

(** The statuses seen along the way. *)
Definition job_statuses (w : world) : list (string * job_status * Z) :=
  map (fun kj => (kj.1, j_status kj.2, j_retries kj.2)) (map_to_list (jobs (w_db w))).
Definition worker_statuses (w : world) : list (string * worker_status * Z) :=
  map (fun kw => (kw.1, w_status kw.2, w_available_capacity kw.2)) (map_to_list (workers (w_db w))).

Example scenario_runs :
  job_statuses ready_world = [("j-1", QUEUED, 0)] /\
  job_statuses assigned_world = [("j-1", ASSIGNED, 0)] /\
  job_statuses running_world = [("j-1", RUNNING, 0)] /\
  job_statuses retrying_world = [("j-1", RETRYING, 1)] /\
  job_statuses requeued_world = [("j-1", QUEUED, 1)] /\
  job_statuses reaped_world = [("j-1", QUEUED, 0)] /\
  worker_statuses running_world = [("w-a", BUSY, 1)] /\
  worker_statuses reaped_world = [("w-a", DEAD, 2)].
Proof. vm_compute. repeat split; reflexivity. Qed.

(** The job finishes, and later messages about it arrive. *)
Definition do_succeed : prog unit * oracle :=
  (ignore (ReportJobResult (mkReportJobResultRequest "j-1" 1 JOB_STATUS_SUCCESS 0 "log-1" "")),
   calm 6 "unused").
Definition succeeded_world : world := play [do_succeed] running_world.
Definition after_success_world : world := play [do_fail; do_sweep] succeeded_world.

Lemma succeeded_reachable : reachable ([], succeeded_world).
Proof. scripted running_reachable. Qed.

Lemma succeeded_to_after : rtc sys_step ([], succeeded_world) ([], after_success_world).
Proof. apply (play_steps [do_fail; do_sweep] succeeded_world). repeat constructor. Qed.

(** The worker restarts: a second registration of the same instance. *)
Definition do_restart : prog unit * oracle :=
  (ignore (RegisterWorker server register_a), calm 7 "unused").
Definition restarted_world : world := play [do_restart] running_world.
Definition worker_of (w : world) : worker_row :=
  default (inserted_worker (register_params register_a) (env_at 0 "")) (workers (w_db w) !! "w-a").

Lemma restarted_reachable : reachable ([], restarted_world).
Proof. scripted running_reachable. Qed.

Lemma running_to_restarted : rtc sys_step ([], running_world) ([], restarted_world).
Proof. apply (play_steps [do_restart] running_world). repeat constructor. Qed.

(** The job and the worker of the scenario. *)
Definition job_of (w : world) : job_row :=
  default (inserted_job (mkCreateJobParams 0 "" "" "" None None 0 "") (env_at 0 ""))
    (jobs (w_db w) !! "j-1").

(** Conversion should compare these worlds by name. *)
#[global] Opaque start_world idle_world ready_world assigned_world running_world retrying_world
  requeued_world reaped_world succeeded_world after_success_world restarted_world
  job_of worker_of.
