(* ===== verification/SystemProps.v ===== *)
(** * What holds of every execution of the control plane

    The invariant, the refinement of the job lifecycle, the retry budget and
    the fencing of stale epochs, over the interleavings of System.v. *)
From S2P Require Import Prelude GoStrings Database WorkerStore JobStore Lifecycle Invariant.
From S2P Require Import StoreSound Redis Effects Stores Loop Reaper RetryPoller GrpcServer.
From S2P Require Import Autoscaler Api System Scenario.
Local Open Scope Z_scope.

(** C1: in every reachable configuration, whatever the interleaving of RPCs,
    REST requests and background ticks, the faults of Postgres and Redis and
    the contents of Redis, the database is well formed: capacities within
    0..slots, epochs at least 1, every ASSIGNED or RUNNING job naming a known
    worker at an epoch it has had, queued jobs carrying no assignment, foreign
    keys, one worker row per instance_id, retries within the budget and
    attempts numbered 1, 2, 3, ... per job. *)
Theorem reachable_database_wf `{Redis} `{BackendLaws} (c : config) :
  reachable c -> wf_db (w_db c.2).
Proof. intros Hc. apply (reachable_good c Hc). Qed.

Lemma reachable_database_wf_witness :
  job_statuses running_world = [("j-1", RUNNING, 0)] /\ wf_db (w_db running_world).
Proof.
  split; [vm_compute; reflexivity|].
  exact (reachable_database_wf ([], running_world) running_reachable).
Defined.

(** C2: the store refines the job lifecycle.  Between any two points of any
    execution a job's row is never lost, its submitted columns do not change,
    and its status, holder and retry count move only along transitions of the
    abstract machine [lifecycle]. *)
Theorem jobs_follow_lifecycle `{Redis} `{BackendLaws} (c c' : config) k j :
  reachable c -> rtc sys_step c c' -> jobs (w_db c.2) !! k = Some j ->
  exists j', jobs (w_db c'.2) !! k = Some j' /\ immutable_columns j j' /\
    rtc lifecycle (abs_job j) (abs_job j').
Proof.
  intros Hc Hr Hj. pose proof (steps_evolve _ _ (reachable_good _ Hc) Hr) as He.
  destruct (evolves_job_row _ _ _ _ He Hj) as (j' & ? & ? & ? & _). eauto.
Qed.

Lemma jobs_follow_lifecycle_witness :
  abs_job (job_of running_world) = mkAJob (JRunning "w-a" 1) 0 2 /\
  exists j', jobs (w_db reaped_world) !! "j-1" = Some j' /\
    immutable_columns (job_of running_world) j' /\
    rtc lifecycle (abs_job (job_of running_world)) (abs_job j').
Proof.
  split; [vm_compute; reflexivity|].
  apply (jobs_follow_lifecycle ([], running_world) ([], reaped_world)).
  - exact running_reachable.
  - exact running_to_reaped.
  - vm_compute. reflexivity.
Defined.

(** C9: a job that reached SUCCESS, FAILED or CANCELLED is final: its whole
    row, including log reference, worker and finish time, is the same at every
    later point of every execution. *)
Theorem finished_job_is_frozen `{Redis} `{BackendLaws} (c c' : config) k j :
  reachable c -> rtc sys_step c c' ->
  jobs (w_db c.2) !! k = Some j -> job_terminal (j_status j) = true ->
  jobs (w_db c'.2) !! k = Some j.
Proof.
  intros Hc Hr Hj Ht. pose proof (steps_evolve _ _ (reachable_good _ Hc) Hr) as He.
  destruct (evolves_job_row _ _ _ _ He Hj) as (j' & Hj' & _ & _ & Hf). by rewrite Hj', Hf.
Qed.

Lemma finished_job_is_frozen_witness :
  job_terminal (j_status (job_of succeeded_world)) = true /\
  jobs (w_db after_success_world) !! "j-1" = Some (job_of succeeded_world).
Proof.
  split; [vm_compute; reflexivity|].
  apply (finished_job_is_frozen ([], succeeded_world) ([], after_success_world)).
  - exact succeeded_reachable.
  - exact succeeded_to_after.
  - vm_compute. reflexivity.
  - vm_compute. reflexivity.
Defined.

(** C3: a superseded epoch is fenced off for good.  Once a worker's row has an
    epoch above [ep], then at every later point of every execution a heartbeat
    write, a capacity release, an assignment or a death sentence that carries
    [ep] for that worker changes nothing.  Reports and starts of jobs are
    guarded by the epoch their job is held under, not by the worker's: one that
    carries [ep] changes nothing if the job is held under another epoch or
    under none.  (A job still held under [ep] itself is not fenced: see
    [Divergences.superseded_report_is_accepted].) *)
Theorem stale_epoch_is_fenced `{Redis} `{BackendLaws} (c c' : config) k w ep :
  reachable c -> rtc sys_step c c' ->
  workers (w_db c.2) !! k = Some w -> ep < w_epoch w ->
  let d := w_db c'.2 in
  forall e,
  (forall s cj, exists r, UpdateHeartbeatRow k ep s cj e d = (r, d) /\ r <> Ok true) /\
  FreeWorker k ep e d = (Ok (false, 0, ""), d) /\
  (forall j t, exists r, AssignJob j t k ep e d = (r, d) /\ r <> Ok true) /\
  MarkDeadAndRequeue k ep e d = (Ok tt, d) /\
  (forall i j, jobs d !! i = Some j -> j_assignment_epoch j <> Some ep ->
     MarkRunning i ep e d = (Ok false, d) /\
     (forall t s lr, exists r, Complete i t ep s lr e d = (r, d) /\ r <> Ok true) /\
     (forall t wk msg lr, exists r, RetryOrFail i t ep wk msg lr e d = (r, d) /\
        forall s, r <> Ok (s, true))).
Proof.
  intros Hc Hr Hw Hep d e.
  pose proof (steps_evolve _ _ (reachable_good _ Hc) Hr) as He.
  destruct (evolves_worker_row _ _ _ _ He Hw) as (w' & Hw' & _ & _ & _ & Hle). fold d in Hw'.
  assert (Hwf : wf_db d).
  { apply (reachable_good c'). destruct Hc as (c0 & Hi & Hr0). exists c0. split; [done|].
    by etransitivity. }
  split_and!.
  - intros s cj. destruct (UpdateHeartbeatRow_cases k ep s cj e d) as [?|(? & ? & _ & ? & ? & _)];
      [done|simplify_eq; lia].
  - destruct (FreeWorker_cases k ep e d) as [[? _]|(? & ? & ? & _)]; [done|simplify_eq; lia].
  - intros j t. destruct (AssignJob_cases j t k ep e d) as [?|(? & ? & ? & _ & ? & _)];
      [done|simplify_eq; lia].
  - destruct (MarkDeadAndRequeue_cases k ep e d Hwf) as [[? _]|(? & ? & ? & ? & _)];
      [done|simplify_eq; lia].
  - intros i j Hj Hne. split_and!.
    + destruct (MarkRunning_cases i ep e d) as [?|(? & ? & ? & _)]; [done|simplify_eq].
    + intros t s lr. destruct (Complete_cases i t ep s lr e d) as [?|(? & ? & _ & ? & Hg & _)]; [done|].
      apply report_guard_spec in Hg as (_ & ? & _). simplify_eq.
    + intros t wk msg lr. destruct (RetryOrFail_cases i t ep wk msg lr e d) as [?|(? & ? & Hg & _)]; [done|].
      apply report_guard_spec in Hg as (_ & ? & _). simplify_eq.
Qed.

Lemma stale_epoch_is_fenced_witness :
  w_epoch (worker_of restarted_world) = 2 /\
  FreeWorker "w-a" 1 (env_at 0 "") (w_db restarted_world) =
    (Ok (false, 0, ""), w_db restarted_world).
Proof.
  split; [vm_compute; reflexivity|].
  apply (stale_epoch_is_fenced ([], restarted_world) ([], restarted_world) "w-a"
           (worker_of restarted_world) 1).
  - exact restarted_reachable.
  - apply rtc_refl.
  - vm_compute. reflexivity.
  - vm_compute. reflexivity.
Defined.

(** worker identity.  A worker row is never deleted; its id, instance_id
    and registration time never change and its epoch never decreases, so an
    (id, epoch) pair that was current once is never current again after a
    larger one. *)
Theorem worker_identity_is_stable `{Redis} `{BackendLaws} (c c' : config) k w :
  reachable c -> rtc sys_step c c' -> workers (w_db c.2) !! k = Some w ->
  exists w', workers (w_db c'.2) !! k = Some w' /\ worker_evolves w w' /\
    (forall k2 w2, workers (w_db c'.2) !! k2 = Some w2 ->
       w_instance_id w2 = w_instance_id w -> k2 = k).
Proof.
  intros Hc Hr Hw. pose proof (steps_evolve _ _ (reachable_good _ Hc) Hr) as He.
  destruct (evolves_worker_row _ _ _ _ He Hw) as (w' & Hw' & Hev). exists w'.
  split; [done|]. split; [done|]. intros k2 w2 H2 E.
  assert (Hwf : wf_db (w_db c'.2)).
  { apply (reachable_good c'). destruct Hc as (c0 & Hi & Hr0). exists c0. split; [done|].
    by etransitivity. }
  eapply (wf_instances _ Hwf); eauto. destruct Hev as (_ & E' & _). congruence.
Qed.

Lemma worker_identity_is_stable_witness :
  workers (w_db running_world) !! "w-a" = Some (worker_of running_world) /\
  exists w', workers (w_db restarted_world) !! "w-a" = Some w' /\
    worker_evolves (worker_of running_world) w' /\
    (forall k2 w2, workers (w_db restarted_world) !! k2 = Some w2 ->
       w_instance_id w2 = w_instance_id (worker_of running_world) -> k2 = "w-a").
Proof.
  split; [vm_compute; reflexivity|].
  apply (worker_identity_is_stable ([], running_world) ([], restarted_world)).
  - exact running_reachable.
  - exact running_to_restarted.
  - vm_compute. reflexivity.
Defined.
