(* ===== verification/StoreProps.v ===== *)
(** * What each store operation guarantees

    Complete descriptions of the transactions of internal/store/postgres, on
    every branch. *)
From S2P Require Import Prelude GoStrings Database WorkerStore JobStore Lifecycle Invariant.
From S2P Require Import StoreSound Redis Effects Stores Loop Reaper RetryPoller GrpcServer.
From S2P Require Import Autoscaler Api System Scenario.
Local Open Scope Z_scope.

(** ** AssignJob *)

(** The condition under which the assignment goes through. *)
Definition assignable (jobID : string) (t : Z) (workerID : string) (ep : Z) (d : database)
    (w : worker_row) (j : job_row) : Prop :=
  workers d !! workerID = Some w /\ jobs d !! jobID = Some j /\ w_epoch w = ep /\
  w_status w = READY /\ 0 < w_available_capacity w /\ j_created_at j = t /\ j_status j = QUEUED.

Definition assigned_db (e : env) (jobID : string) (t : Z) (workerID : string) (ep : Z)
    (d : database) (w : worker_row) (j : job_row) : database :=
  mkDb (<[workerID := assigned_worker e jobID t w]> (workers d))
    (<[jobID := assigned_job workerID ep j]> (jobs d)) (job_retry_history d) (worker_events d).

Lemma AssignJob_success jobID t workerID ep e d w j :
  assignable jobID t workerID ep d w j ->
  AssignJob jobID t workerID ep e d = (Ok true, assigned_db e jobID t workerID ep d w j).
Proof.
  intros (Hw & Hj & He & Hs & Ha & Hc & Hq). unfold AssignJob, assign_body. run_stmt.
  unfold update_worker, update_where. rewrite Hw, He, Z.eqb_refl, Hs.
  rewrite bool_decide_true, (proj2 (Z.ltb_lt _ _) Ha) by done. simpl. rewrite Hj.
  rewrite bool_decide_true by done. unfold update_job, update_where. simpl.
  rewrite Hj, Hc, Z.eqb_refl, Hq. done.
Qed.

(** C4: AssignJob is an atomic compare-and-set on both rows.  It answers true
    exactly when the worker is READY at the given epoch with a free slot and
    the job is QUEUED; then the job is ASSIGNED to that worker and epoch, the
    worker is BUSY with one slot less, and nothing else changes.  On every
    other reply, errors included, neither row changes.  After a success no
    other scheduler can assign the job again, to any worker. *)
Theorem AssignJob_all_or_nothing jobID t workerID ep e d :
  let '(r, d') := AssignJob jobID t workerID ep e d in
  (r = Ok true <-> exists w j, assignable jobID t workerID ep d w j) /\
  (r <> Ok true -> d' = d) /\
  (r = Ok true ->
   (exists w j, assignable jobID t workerID ep d w j /\
      d' = assigned_db e jobID t workerID ep d w j) /\
   (forall t2 w2 ep2 e2, exists r2, AssignJob jobID t2 w2 ep2 e2 d' = (r2, d') /\ r2 <> Ok true)).
Proof.
  destruct (AssignJob_cases jobID t workerID ep e d)
    as [(r & E & Hr)|(w & j & Hw & Hj & He & Hs & Ha & Hc & Hq & E)]; rewrite E.
  - split; [|by split]. split; [done|]. intros (w & j & H).
    pose proof (AssignJob_success _ _ _ _ e _ _ _ H). congruence.
  - assert (Has : assignable jobID t workerID ep d w j) by by repeat split.
    split; [by split; [eauto|]|]. split; [done|]. intros _. split; [by eauto|]. intros t2 w2 ep2 e2.
    match goal with |- context [AssignJob _ _ _ _ _ ?x] => set (d' := x) end.
    destruct (AssignJob_cases jobID t2 w2 ep2 e2 d')
      as [?|(w' & j' & _ & Hj' & _ & _ & _ & _ & Hq' & _)]; [done|].
    simpl in Hj'. rewrite lookup_insert_eq in Hj'. by simplify_eq.
Qed.

(** giving a slot back undoes taking it.  When AssignJob succeeded and the
    worker then frees the slot under the same epoch, the worker's capacity is
    what it was and it is READY again, or DRAINING when a drain was requested. *)
Theorem assign_then_free jobID t workerID ep e1 e2 d d1 w :
  wf_db d -> workers d !! workerID = Some w ->
  AssignJob jobID t workerID ep e1 d = (Ok true, d1) ->
  exists w2,
    FreeWorker workerID ep e2 d1 =
      (Ok (true, w_available_capacity w, worker_status_text (w_status w2)),
       set_workers (<[workerID := w2]> (workers d1)) d1) /\
    w_available_capacity w2 = w_available_capacity w /\ w_current_job w2 = None /\
    w_status w2 = if w_drain_requested w then DRAINING else READY.
Proof.
  intros Hwf Hw H. destruct (AssignJob_cases jobID t workerID ep e1 d)
    as [(r & E & Hr)|(w' & j & Hw' & Hj & He & Hs & Ha & Hc & Hq & E)];
    rewrite E in H; [congruence|]. simplify_eq.
  match goal with |- context [FreeWorker _ _ _ ?x] => set (d1 := x) end.
  destruct (FreeWorker_cases workerID (w_epoch w) e2 d1) as [[_ Hno]|(w1 & Hw1 & _ & Hf)].
  - exfalso. eapply Hno; [simpl; apply lookup_insert_eq|done].
  - simpl in Hw1. rewrite lookup_insert_eq in Hw1. simplify_eq. simpl in Hf.
    destruct (wf_workers d Hwf _ _ Hw).
    replace (w_available_capacity w - 1 + 1) with (w_available_capacity w) in Hf by lia.
    rewrite Z.min_l in Hf by lia.
    match type of Hf with context [<[workerID := ?x]> _] => exists x end.
    split; [exact Hf|]. done.
Qed.

Definition ready_db : database := w_db ready_world.

Lemma assign_then_free_witness :
  exists w2,
    FreeWorker "w-a" 1 (env_at 6 "")
      (AssignJob "j-1" (2 * Second) "w-a" 1 (env_at 5 "") ready_db).2 =
      (Ok (true, 2, worker_status_text (w_status w2)),
       set_workers (<["w-a" := w2]> (workers
         (AssignJob "j-1" (2 * Second) "w-a" 1 (env_at 5 "") ready_db).2))
         (AssignJob "j-1" (2 * Second) "w-a" 1 (env_at 5 "") ready_db).2) /\
    w_available_capacity w2 = 2 /\ w_current_job w2 = None /\ w_status w2 = READY.
Proof.
  apply (assign_then_free "j-1" (2 * Second) "w-a" 1 (env_at 5 "") (env_at 6 "") ready_db
           (AssignJob "j-1" (2 * Second) "w-a" 1 (env_at 5 "") ready_db).2
           (worker_of ready_world)).
  - apply (reachable_good ([], ready_world) ready_reachable).
  - vm_compute. reflexivity.
  - vm_compute. reflexivity.
Defined.

(** ** MarkDeadAndRequeue *)

(** C20: MarkDeadAndRequeue never fails on a well-formed database.  When the
    worker is at the given epoch and neither DEAD nor OFFLINE, it becomes DEAD
    with its full capacity back, exactly the jobs it held as ASSIGNED or
    RUNNING return to QUEUED without worker, epoch or start time, one attempt
    is recorded for each of them, and every other job is untouched.  Otherwise
    nothing changes, so reaping the same epoch twice is harmless. *)
Theorem MarkDeadAndRequeue_spec workerID ep e d :
  wf_db d ->
  let '(r, d') := MarkDeadAndRequeue workerID ep e d in
  r = Ok tt /\
  match workers d !! workerID with
  | Some w =>
      if bool_decide (w_epoch w = ep) && negb (worker_gone (w_status w)) then
        workers d' = <[workerID := dead_row e w]> (workers d) /\
        (forall k j, jobs d !! k = Some j ->
           jobs d' !! k = Some (if held_by workerID j then requeued j else j) /\
           count_retries k d' = count_retries k d + (if held_by workerID j then 1 else 0)) /\
        (forall k, jobs d !! k = None -> jobs d' !! k = None) /\
        (forall e2, MarkDeadAndRequeue workerID ep e2 d' = (Ok tt, d'))
      else d' = d
  | None => d' = d
  end.
Proof.
  intros Hwf. destruct (MarkDeadAndRequeue_cases workerID ep e d Hwf)
    as [[-> Hno]|(w & d' & Hw & He & Hg & -> & Hwf' & Hws & Hjs & Hnj & _ & Hcnt)].
  - split; [done|]. destruct (workers d !! workerID) as [w|]; [|done].
    case_bool_decide; simpl; [|done]. by rewrite (Hno w).
  - split; [done|]. rewrite Hw, bool_decide_true, Hg by done. simpl.
    split; [done|]. split; [by auto|]. split; [done|]. intros e2.
    destruct (MarkDeadAndRequeue_cases workerID ep e2 d' Hwf') as [[? _]|(w' & d2 & Hw' & _ & Hg' & _)];
      [done|]. rewrite Hws, lookup_insert_eq in Hw'. by simplify_eq.
Qed.

Lemma MarkDeadAndRequeue_spec_witness :
  held_by "w-a" (job_of running_world) = true /\
  let '(r, d') := MarkDeadAndRequeue "w-a" 1 (env_at 9 "") (w_db running_world) in
  r = Ok tt /\
  match workers (w_db running_world) !! "w-a" with
  | Some w =>
      if bool_decide (w_epoch w = 1) && negb (worker_gone (w_status w)) then
        workers d' = <["w-a" := dead_row (env_at 9 "") w]> (workers (w_db running_world)) /\
        (forall k j, jobs (w_db running_world) !! k = Some j ->
           jobs d' !! k = Some (if held_by "w-a" j then requeued j else j) /\
           count_retries k d' = count_retries k (w_db running_world) +
             (if held_by "w-a" j then 1 else 0)) /\
        (forall k, jobs (w_db running_world) !! k = None -> jobs d' !! k = None) /\
        (forall e2, MarkDeadAndRequeue "w-a" 1 e2 d' = (Ok tt, d'))
      else d' = w_db running_world
  | None => d' = w_db running_world
  end.
Proof.
  split; [vm_compute; reflexivity|].
  apply (MarkDeadAndRequeue_spec "w-a" 1 (env_at 9 "") (w_db running_world)).
  apply (reachable_good ([], running_world) running_reachable).
Defined.

(** ** RetryOrFail *)

(** The attempt RetryOrFail records. *)
Definition failure_attempt (jobID : string) (t : Z) (workerID : option string) (msg : string)
    (e : env) (d : database) : retry_row :=
  attempt_row jobID t (count_retries jobID d + 1) workerID (ptr_of_string msg) (pg_now e).

Lemma RetryOrFail_accepts jobID t ep workerID msg logRef e d j :
  wf_db d -> (forall w, workerID = Some w -> is_Some (workers d !! w)) ->
  jobs d !! jobID = Some j -> report_guard t ep j = true ->
  RetryOrFail jobID t ep workerID msg logRef e d =
    (Ok (job_status_text (j_status (after_failure e logRef j)), true),
     add_attempt (failure_attempt jobID t workerID msg e d)
       (set_jobs (<[jobID := after_failure e logRef j]> (jobs d)) d)).
Proof.
  intros Hwf Hwk Hj Hg. pose proof (proj1 (report_guard_spec _ _ _) Hg) as (Hc & _ & Ha).
  set (r := failure_attempt jobID t workerID msg e d).
  assert (Hins : forall j', j_created_at j' = j_created_at j ->
    insert_retry r e (set_jobs (<[jobID := j']> (jobs d)) d) =
      (Ok tt, add_attempt r (set_jobs (<[jobID := j']> (jobs d)) d))).
  { intros j' Hj'. pose proof (insert_retry_next d r e Hwf) as Hn.
    unfold insert_retry in *. simpl in *. rewrite Hj in Hn. rewrite lookup_insert_eq, Hj'.
    assert (Hr : retry_wf d r) by (split; [by eauto|exact Hwk]).
    specialize (Hn Hr eq_refl).
    destruct (bool_decide (j_created_at j = t) && _ && _); [done|congruence]. }
  assert (Hupd : forall f,
    update_job jobID (fun j => j_created_at j =? t) f e d =
      (Ok (Some (f j)), set_jobs (<[jobID := f j]> (jobs d)) d)).
  { intros f. unfold update_job, update_where. rewrite Hj, (proj2 (Z.eqb_eq _ _) Hc). done. }
  unfold RetryOrFail, after_failure. run_stmt. rewrite Hj, Hg. simpl.
  destruct (int32 (j_retries j + 1) <=? j_max_retries j); rewrite Hupd; simpl;
    change (mkRetry _ _ _ _ _ _ _ _) with r; rewrite Hins by done; done.
Qed.

(** C21: RetryOrFail on a well-formed database.  A report is accepted exactly
    for an ASSIGNED or RUNNING job with that creation time and assignment
    epoch; acceptance cannot fail (the unique attempt index never rejects).
    While the budget lasts the job is parked as RETRYING with one retry more,
    no worker and a wake-up time exactly one backoff ahead, without the jitter
    docs/09 9.3 adds; afterwards it is FAILED with its finish time and log.
    Any other report changes nothing. *)
Theorem RetryOrFail_spec jobID t ep workerID msg logRef e d :
  wf_db d -> (forall w, workerID = Some w -> is_Some (workers d !! w)) ->
  let '(r, d') := RetryOrFail jobID t ep workerID msg logRef e d in
  match jobs d !! jobID with
  | Some j =>
      if report_guard t ep j then
        (exists j', d' = add_attempt (failure_attempt jobID t workerID msg e d)
                           (set_jobs (<[jobID := j']> (jobs d)) d) /\
           if j_retries j <? j_max_retries j
           then r = Ok ("RETRYING", true) /\ j_status j' = RETRYING /\
                j_retries j' = j_retries j + 1 /\
                j_retry_at j' = Some (go_now e + retryBackoff (j_retries j + 1)) /\
                j_worker_id j' = None /\ j_assignment_epoch j' = None /\ j_started_at j' = None
           else r = Ok ("FAILED", true) /\ j_status j' = FAILED /\
                j_retries j' = j_retries j /\ j_finished_at j' = Some (pg_now e) /\
                j_log_ref j' = ptr_of_string logRef /\ j_worker_id j' = j_worker_id j)
      else r = Ok ("", false) /\ d' = d
  | None => r = Ok ("", false) /\ d' = d
  end.
Proof.
  intros Hwf Hwk. destruct (jobs d !! jobID) as [j|] eqn:Hj.
  - destruct (report_guard t ep j) eqn:Hg.
    + rewrite (RetryOrFail_accepts _ _ _ _ _ _ _ _ _ Hwf Hwk Hj Hg).
      exists (after_failure e logRef j). split; [done|].
      unfold after_failure. rewrite (int32_succ_retries _ _ _ Hwf Hj).
      destruct (Z.ltb_spec (j_retries j) (j_max_retries j)),
        (Z.leb_spec (j_retries j + 1) (j_max_retries j)); try lia; by repeat split.
    + unfold RetryOrFail. run_stmt. by rewrite Hj, Hg.
  - unfold RetryOrFail. run_stmt. by rewrite Hj.
Qed.

Lemma RetryOrFail_spec_witness :
  report_guard (2 * Second) 1 (job_of running_world) = true /\
  let '(r, d') := RetryOrFail "j-1" (2 * Second) 1 (Some "w-a") "boom" "log" (env_at 9 "")
                    (w_db running_world) in
  match jobs (w_db running_world) !! "j-1" with
  | Some j =>
      if report_guard (2 * Second) 1 j then
        (exists j', d' = add_attempt
             (failure_attempt "j-1" (2 * Second) (Some "w-a") "boom" (env_at 9 "") (w_db running_world))
             (set_jobs (<["j-1" := j']> (jobs (w_db running_world))) (w_db running_world)) /\
           if j_retries j <? j_max_retries j
           then r = Ok ("RETRYING", true) /\ j_status j' = RETRYING /\
                j_retries j' = j_retries j + 1 /\
                j_retry_at j' = Some (9 + retryBackoff (j_retries j + 1)) /\
                j_worker_id j' = None /\ j_assignment_epoch j' = None /\ j_started_at j' = None
           else r = Ok ("FAILED", true) /\ j_status j' = FAILED /\
                j_retries j' = j_retries j /\ j_finished_at j' = Some 9 /\
                j_log_ref j' = ptr_of_string "log" /\ j_worker_id j' = j_worker_id j)
      else r = Ok ("", false) /\ d' = w_db running_world
  | None => r = Ok ("", false) /\ d' = w_db running_world
  end.
Proof.
  split; [vm_compute; reflexivity|].
  apply (RetryOrFail_spec "j-1" (2 * Second) 1 (Some "w-a") "boom" "log" (env_at 9 "")
           (w_db running_world)).
  - apply (reachable_good ([], running_world) running_reachable).
  - intros w E. injection E as <-. exists (worker_of running_world). vm_compute. reflexivity.
Defined.

(** ** retryBackoff *)

(** for the first 33 attempts the backoff is 2^attempt seconds capped at
    one minute (anything below 1 counts as 1), so it is between 2 s and 60 s
    and never decreases. *)
Theorem retryBackoff_capped n :
  n <= 33 -> retryBackoff n = Z.min (2 ^ Z.max 1 n) 60 * Second /\
  2 * Second <= retryBackoff n <= 60 * Second.
Proof.
  intros Hn. destruct (Z.le_gt_cases n 1) as [H1|H1].
  - assert (E : retryBackoff n = 2 * Second).
    { unfold retryBackoff. destruct (Z.ltb_spec n 1); [done|]. by replace n with 1 by lia. }
    rewrite E, Z.max_l by lia. unfold Second. simpl. lia.
  - rewrite Z.max_r by lia.
    assert (E : (retryBackoff n =? Z.min (2 ^ n) 60 * Second) = true).
    { apply (forallb_range (fun n => retryBackoff n =? Z.min (2 ^ n) 60 * Second) 2 32);
        [vm_compute; reflexivity|lia]. }
    apply Z.eqb_eq in E. rewrite E. split; [done|].
    pose proof (Z.pow_le_mono_r 2 1 n). unfold Second. lia.
Qed.

Lemma retryBackoff_capped_witness :
  (-1 <= 33 /\ retryBackoff (-1) = Z.min (2 ^ Z.max 1 (-1)) 60 * Second) /\
  (33 <= 33 /\ 2 * Second <= retryBackoff 33 <= 60 * Second).
Proof.
  split; (split; [lia|]); [apply (retryBackoff_capped (-1)); lia|apply (retryBackoff_capped 33); lia].
Defined.

Lemma shl_wraps n : 55 <= n -> int64 (shl64 1 n * Second) = 0.
Proof.
  intros Hn. destruct (Z.le_gt_cases 64 n).
  - unfold shl64. by rewrite (proj2 (Z.leb_le _ _)).
  - apply Z.eqb_eq, (forallb_range (fun n => int64 (shl64 1 n * Second) =? 0) 55 9);
      [vm_compute; reflexivity|lia].
Qed.

(** beyond that the int64 arithmetic overflows instead of hitting the cap:
    attempt 34 gets a negative backoff and every attempt from 55 on a backoff
    of 0, so a job with a large max_retries is retried at once. *)
Theorem retryBackoff_overflows :
  retryBackoff 34 < 0 /\ forall n, 55 <= n -> retryBackoff n = 0.
Proof.
  split; [vm_compute; reflexivity|]. intros n Hn. unfold retryBackoff.
  destruct (Z.ltb_spec n 1); [lia|]. by rewrite shl_wraps.
Qed.

(** ** Register *)

(** The parameters Postgres accepts. *)
Definition registrable (p : RegisterWorkerParams) (e : env) (d : database) : Prop :=
  0 < rp_CPUCores p /\ 0 < rp_MemoryMB p /\ workers d !! new_uuid e = None /\
  forall k w, workers d !! k = Some w -> w_epoch w < max_int64.

(** Register succeeds for valid parameters and is keyed by instance_id: a
    known instance keeps its worker id and gets the next epoch, an unknown one
    gets a fresh id and epoch 1; exactly one row has that instance_id
    afterwards.  The row is READY with all slots free, no current job and a
    heartbeat stamped now (so a worker that never heartbeats can be reaped);
    a pending drain request survives; all other workers and all jobs are
    untouched. *)
Theorem Register_spec p e d :
  wf_db d -> registrable p e d ->
  exists w d', Register p e d = (Ok (mkRegisteredWorker (w_id w) (w_epoch w)), d') /\
    workers d' = <[w_id w := w]> (workers d) /\ jobs d' = jobs d /\
    (forall k w', workers d' !! k = Some w' -> w_instance_id w' = rp_InstanceID p -> k = w_id w) /\
    w_instance_id w = rp_InstanceID p /\ w_status w = READY /\ w_current_job w = None /\
    w_last_heartbeat w = Some (pg_now e) /\ w_available_capacity w = w_capacity_slots w /\
    match worker_by_instance (rp_InstanceID p) (workers d) with
    | Some w0 => w_id w = w_id w0 /\ w_epoch w = w_epoch w0 + 1 /\
                 w_drain_requested w = w_drain_requested w0
    | None => w_id w = new_uuid e /\ w_epoch w = 1 /\ w_drain_requested w = false
    end.
Proof.
  intros Hwf (Hc & Hm & Hu & Hep).
  pose proof (proj1 (Register_sound p e d Hwf)) as Hwf'.
  destruct (Register_cases p e d) as [[x E]|[(w0 & w & Hi & -> & He & _ & _ & E)|
    (w & Hi & -> & Hn & _ & _ & E)]].
  - exfalso. assert (Hup : exists w, upsert_worker p e d =
      (Ok (mkRegisteredWorker (w_id w) (w_epoch w)), set_workers (<[w_id w := w]> (workers d)) d)).
    { unfold upsert_worker. rewrite (proj2 (Z.leb_gt _ _) Hc), (proj2 (Z.leb_gt _ _) Hm). simpl.
      destruct (worker_by_instance _ _) as [w0|] eqn:Hi.
      - apply worker_by_instance_Some in Hi as [_ [k Hk]]. specialize (Hep _ _ Hk).
        rewrite (proj2 (Z.leb_gt _ _) Hep). by exists (conflict_worker p e w0).
      - rewrite Hu. by exists (inserted_worker p e). }
    destruct Hup as [w Hup]. apply Register_after_upsert in Hup. congruence.
  - rewrite Hi. rewrite E in Hwf'. pose proof (worker_by_instance_Some _ _ _ Hi) as [Hinst _].
    exists (registered_row e (conflict_worker p e w0)). eexists.
    split; [exact E|]. simpl. repeat split; auto.
    intros k w' Hk Hk'. eapply (wf_instances _ Hwf'); [exact Hk|simpl; apply lookup_insert_eq|].
    simpl. congruence.
  - rewrite Hi. rewrite E in Hwf'.
    exists (registered_row e (inserted_worker p e)). eexists.
    split; [exact E|]. simpl. repeat split; auto.
    intros k w' Hk Hk'. eapply (wf_instances _ Hwf'); [exact Hk|simpl; apply lookup_insert_eq|].
    simpl. congruence.
Qed.

Lemma Register_spec_witness :
  exists w d', Register (register_params register_a) (env_at 9 "w-z") (w_db running_world) =
      (Ok (mkRegisteredWorker (w_id w) (w_epoch w)), d') /\ w_id w = "w-a" /\ w_epoch w = 2.
Proof.
  destruct (Register_spec (register_params register_a) (env_at 9 "w-z") (w_db running_world))
    as (w & d' & H & _ & _ & _ & _ & _ & _ & _ & _ & Hm).
  - apply (reachable_good ([], running_world) running_reachable).
  - split; [vm_compute; reflexivity|]. split; [vm_compute; reflexivity|].
    split; [vm_compute; reflexivity|]. intros k w Hk.
    apply (elem_of_map_to_list (workers (w_db running_world))) in Hk.
    assert (E : map_to_list (workers (w_db running_world)) = [("w-a", worker_of running_world)])
      by (vm_compute; reflexivity).
    rewrite E in Hk. apply list_elem_of_singleton in Hk. apply pair_eq in Hk as [-> ->].
    vm_compute. reflexivity.
  - exists w, d'. split; [exact H|].
    assert (E : worker_by_instance (rp_InstanceID (register_params register_a))
                  (workers (w_db running_world)) = Some (worker_of running_world))
      by (vm_compute; reflexivity).
    rewrite E in Hm. destruct Hm as (-> & -> & _). vm_compute. split; reflexivity.
Defined.

(** ** Draining *)

(** No assignment can reach the worker. *)
Definition unschedulable (workerID : string) (d : database) : Prop :=
  (forall req e l, ListReadyCandidates req e d = (Ok l, d) -> workerID ∉ map c_ID l) /\
  (forall j t ep e, exists r, AssignJob j t workerID ep e d = (r, d) /\ r <> Ok true).

Lemma not_ready_unschedulable workerID d w :
  wf_db d -> workers d !! workerID = Some w -> w_status w <> READY -> unschedulable workerID d.
Proof.
  intros Hwf Hw Hs. split.
  - intros req e l E. unfold ListReadyCandidates in E. simplify_eq. rewrite map_map. simpl.
    intros (w' & -> & Hin)%list_elem_of_fmap. apply elem_of_select_where in Hin as [Hc [k Hk]].
    destruct (wf_workers d Hwf _ _ Hk) as [E _ _ _ _ _ _ _]. rewrite E in Hw. simplify_eq.
    unfold ready_candidate in Hc. rewrite bool_decide_false in Hc by done. done.
  - intros j t ep e. destruct (AssignJob_cases j t workerID ep e d)
      as [?|(w' & ? & ? & _ & _ & ? & _)]; [done|congruence].
Qed.

(** a drain request takes hold at once and survives the end of the running
    job.  After RequestDrain succeeded the scheduler neither lists nor can
    assign to the worker; the job it is running and its capacity are left
    alone; and when the worker later frees its slot it goes to DRAINING, still
    out of reach, instead of READY. *)
Theorem drained_worker_gets_no_job workerID e d r d1 :
  wf_db d -> RequestDrain workerID e d = (Ok (Some r), d1) ->
  unschedulable workerID d1 /\ jobs d1 = jobs d /\
  (exists w w1, workers d !! workerID = Some w /\ workers d1 !! workerID = Some w1 /\
     w_current_job w1 = w_current_job w /\ w_available_capacity w1 = w_available_capacity w /\
     w_status w1 = (if decide (w_status w = READY) then DRAINING else w_status w)) /\
  forall ep e2 cap st d2, FreeWorker workerID ep e2 d1 = (Ok (true, cap, st), d2) ->
    st = "DRAINING" /\ unschedulable workerID d2.
Proof.
  intros Hwf E. pose proof (proj1 (RequestDrain_sound workerID e d Hwf)) as Hwf1.
  rewrite E in Hwf1. simpl in Hwf1. unfold RequestDrain in E.
  match type of E with drain_update ?k ?f ?ev e d = _ =>
    destruct (drain_update_cases k f ev e d) as [[E' _]|(w & Hw & Hg & E')] end;
    rewrite E' in E; simplify_eq.
  match goal with |- context [unschedulable _ (mkDb (<[_ := ?x]> _) _ _ _)] => set (w1 := x) in * end.
  match goal with |- unschedulable _ ?x /\ _ => set (d1 := x) in * end.
  assert (Hw1 : workers d1 !! workerID = Some w1) by (simpl; apply lookup_insert_eq).
  assert (Hs1 : w_status w1 <> READY) by (unfold w1; simpl; by case_decide).
  split; [by eapply not_ready_unschedulable|]. split; [done|].
  split; [exists w, w1; by split_and!|]. intros ep e2 cap st d2 Hf.
  pose proof (proj1 (FreeWorker_sound workerID ep e2 d1 Hwf1)) as Hwf2.
  destruct (FreeWorker_cases workerID ep e2 d1) as [[Ef _]|(w2 & Hw2 & _ & Ef)];
    rewrite Ef in Hf, Hwf2; simplify_eq. simpl in Hwf2. split; [done|].
  eapply not_ready_unschedulable; [done|simpl; apply lookup_insert_eq|done].
Qed.

Lemma drained_worker_gets_no_job_witness :
  dr_Status <$> (match (RequestDrain "w-a" (env_at 9 "") (w_db running_world)).1 with
                 | Ok (Some r) => Some r | _ => None end) = Some "BUSY" /\
  unschedulable "w-a" (RequestDrain "w-a" (env_at 9 "") (w_db running_world)).2.
Proof.
  split; [vm_compute; reflexivity|].
  destruct (RequestDrain "w-a" (env_at 9 "") (w_db running_world)) as [[[r|]|x] d1] eqn:E;
    [|exfalso; vm_compute in E; discriminate E..].
  apply (drained_worker_gets_no_job "w-a" (env_at 9 "") (w_db running_world) r d1).
  - apply (reachable_good ([], running_world) running_reachable).
  - exact E.
Defined.

(** resuming cancels a drain.  RequestDrain followed by ResumeDrain leaves
    a worker that was READY as READY and one that was busy as it was, without
    drain request and otherwise unchanged; both answer "not found" exactly for
    unknown, DEAD or OFFLINE workers and then change nothing. *)
Theorem drain_resume_roundtrip workerID e1 e2 d :
  match workers d !! workerID with
  | Some w =>
      if worker_gone (w_status w)
      then RequestDrain workerID e1 d = (Ok None, d) /\ ResumeDrain workerID e1 d = (Ok None, d)
      else exists r1 r2 d1 d2,
        RequestDrain workerID e1 d = (Ok (Some r1), d1) /\
        ResumeDrain workerID e2 d1 = (Ok (Some r2), d2) /\
        (w_status w <> DRAINING ->
         workers d2 = <[workerID := w_set_updated_at (pg_now e2)
                                      (w_set_drain_requested false w)]> (workers d)) /\
        dr_Status r2 = worker_status_text (if decide (w_status w = DRAINING) then READY else w_status w) /\
        dr_Epoch r2 = w_epoch w
  | None => RequestDrain workerID e1 d = (Ok None, d) /\ ResumeDrain workerID e1 d = (Ok None, d)
  end.
Proof.
  unfold RequestDrain, ResumeDrain, drain_update, update_worker, update_where. run_stmt.
  destruct (workers d !! workerID) as [w|] eqn:Hw; [|by rewrite set_workers_id].
  destruct (worker_gone (w_status w)) eqn:Hg; [simpl; by rewrite set_workers_id|].
  destruct (decide (w_status w = READY)) as [Hr|Hr]; simpl;
    do 4 eexists; (split; [reflexivity|]); simpl; rewrite lookup_insert_eq; simpl.
  - change (worker_gone DRAINING) with false. simpl. split; [reflexivity|]. simpl.
    rewrite Hr. split; [|done]. intros _. rewrite insert_insert_eq. f_equal.
    destruct w; simpl in *; by subst.
  - rewrite Hg. simpl. split; [reflexivity|]. simpl. split; [|done].
    intros Hd. rewrite decide_False by done. rewrite insert_insert_eq. by destruct w.
Qed.
