(* ===== verification/SchedulerProps.v ===== *)
(** * What the scheduler's loops guarantee

    The acknowledgement discipline and progress of the scheduling loop, the
    completeness of the reaper's sweep and of the retry poller. *)
From S2P Require Import Prelude GoStrings Database WorkerStore JobStore Lifecycle Invariant.
From S2P Require Import StoreSound Algorithm Redis Effects Stores Loop Reaper RetryPoller.
From S2P Require Import GrpcServer Autoscaler Api System Scenario StoreProps.
Local Open Scope Z_scope.

(** ** The queue entry and its acknowledgement *)

(** The calls [tr] for entry [msg]: one acknowledgement of this very entry, as
    the last call, if [acked], and none otherwise. *)
Definition ack_ok (streamKey : string) (msg : XMessage) (acked : bool) (tr : list event) : Prop :=
  exists pre r, Forall (fun ev => is_ack ev = false) pre /\
    tr = pre ++ (if acked then [mkEvent (Rd (RXAck streamKey ConsumerGroup (xm_ID msg))) r] else []).

Section acks.
Context (streamKey : string) (msg : XMessage).

Lemma ack_ok_nil : ack_ok streamKey msg false [].
Proof. by exists [], (Err ErrDriver). Qed.

Lemma ack_ok_cons b ev tr :
  is_ack ev = false -> ack_ok streamKey msg b tr -> ack_ok streamKey msg b (ev :: tr).
Proof. intros Hev (pre & r & Hp & ->). exists (ev :: pre), r. by split; [constructor|]. Qed.

Lemma ack_ok_ack tr : trace (ack streamKey (xm_ID msg)) tr tt -> ack_ok streamKey msg true tr.
Proof. intros (r & ? & -> & -> & _). by exists [], r. Qed.

(** No reply to the acknowledgement itself settles anything. *)
Lemma ack_settles tr : trace (ack streamKey (xm_ID msg)) tr tt -> existsb settles tr = false.
Proof. by intros (r & ? & -> & -> & _). Qed.
End acks.

(** C11: processMessage acknowledges a queue entry exactly when its work is
    done: the entry names no job, or Postgres answered that the job does not
    exist, is no longer QUEUED, or has just been assigned.  For every other
    combination of replies (no candidate, a lost assignment race, any Postgres
    failure) the entry is left pending and will be redelivered.  At most one
    acknowledgement is sent, as the last call, for this very entry. *)
Theorem processMessage_acks_iff_settled streamKey msg tr :
  trace (processMessage streamKey msg) tr tt ->
  ack_ok streamKey msg
    (bool_decide (field (xm_Values msg) "job_id" = "") || existsb settles tr) tr.
Proof.
  unfold processMessage. case_decide as Hid.
  { intros H. rewrite bool_decide_true by done. simpl. by apply ack_ok_ack. }
  rewrite bool_decide_false by done. intros (rj & t1 & -> & H).
  apply ack_ok_cons; [done|]. cbn [existsb orb].
  destruct rj as [job|x].
  2: { destruct x; simpl in H; try (destruct H as [-> _]; apply ack_ok_nil).
       change (ack_ok streamKey msg true t1). by apply ack_ok_ack. }
  simpl in H. unfold settles at 1. simpl. case_decide as Hq; simpl in H.
  { rewrite bool_decide_false by done. simpl. by apply ack_ok_ack. }
  rewrite bool_decide_true by done. simpl.
  destruct H as (rc & t2 & -> & H). apply ack_ok_cons; [done|]. cbn [existsb orb]. simpl.
  destruct rc as [cs|]; [|destruct H as [-> _]; apply ack_ok_nil].
  destruct (SelectLeastLoaded cs) as [c|]; [|destruct H as [-> _]; apply ack_ok_nil].
  destruct H as (ra & t3 & -> & H). apply ack_ok_cons; [done|]. cbn [existsb orb]. simpl.
  destruct ra as [[]|]; [|destruct H as [-> _]; apply ack_ok_nil..].
  simpl. destruct H as (? & t4 & -> & ? & t5 & -> & H).
  do 2 (apply ack_ok_cons; [done|]). by apply ack_ok_ack.
Qed.

Definition full_stream_entry : XMessage :=
  mkXMessage "7-0" (list_to_map [("job_id", "j-1"); ("required_capabilities", "docker,go")]).

(** No worker is ready: the entry is read, two queries are made, no ack. *)
Lemma processMessage_acks_iff_settled_witness :
  ack_ok "queue:jobs:p3" full_stream_entry false
    [mkEvent (Pg (PgGetJob "j-1")) (Ok (scanJobRow (job_of ready_world)));
     mkEvent (Pg (PgListReadyCandidates (Some ["docker"; "go"]))) (Ok [])].
Proof.
  apply (processMessage_acks_iff_settled "queue:jobs:p3" full_stream_entry
    [mkEvent (Pg (PgGetJob "j-1")) (Ok (scanJobRow (job_of ready_world)));
     mkEvent (Pg (PgListReadyCandidates (Some ["docker"; "go"]))) (Ok [])]).
  exists (Ok (scanJobRow (job_of ready_world))). eexists. split; [vm_compute; reflexivity|].
  assert (E : J_Status (scanJobRow (job_of ready_world)) = "QUEUED") by (vm_compute; reflexivity).
  simpl. case_decide as Hq; [by destruct Hq|]. simpl. exists (Ok []). eexists.
  split; [vm_compute; reflexivity|]. by split.
Defined.

(** ** Progress *)

#[local] Arguments run : simpl never.

(** What processMessage needs of a worker for the entry. *)
Definition entry_capabilities (msg : XMessage) : list string :=
  default [] (read_capabilities (xm_Values msg)).

Lemma run_call `{Redis} {A X} (c : call X) (k : X -> prog A) o w :
  run (Call c k) o w = run (k (handle c (o 0%nat) w).1) (later o 1) (handle c (o 0%nat) w).2.
Proof. unfold run at 1. fold (@run _ A). by destruct (handle c (o 0%nat) w). Qed.

Lemma run_pg `{Redis} {A B} (c : pg A) (k : result A -> prog B) o w :
  env_fault (o 0%nat) = NoFault ->
  run (Call (Pg c) k) o w =
  run (k (exec_pg c (o 0%nat) (w_db w)).1) (later o 1)
    (mkWorld _ (exec_pg c (o 0%nat) (w_db w)).2 (w_redis w) (w_counters w) (w_observations w)).
Proof. intros E. unfold run at 1. fold @run. simpl. rewrite E. simpl. by destruct (exec_pg c (o 0%nat) (w_db w)). Qed.

(** A loop whose every round leaves the world alone. *)
Lemma run_for_each_id `{Redis} {A} (l : list A) body o w :
  pg_reliable o -> (forall a o, a ∈ l -> pg_reliable o -> run (body a) o w = (tt, w)) ->
  run (for_each l body) o w = (tt, w).
Proof.
  revert o. induction l as [|a l IH]; intros o Ho Hb; [done|]. cbn [for_each].
  match goal with |- context [run (bind ?p ?k) o w] => destruct (events_bind p k o w) as (n & -> & _) end.
  rewrite Hb by (left || done). apply IH; [auto with fleet|]. intros a' o' Ha'. apply Hb. by right.
Qed.

Lemma candidates_found e d req k wk :
  wf_db d -> workers d !! k = Some wk -> ready_candidate req wk = true ->
  exists wid wc, SelectLeastLoaded
      (map candidate_of (select_where (ready_candidate req) e (workers d))) = Some (candidate_of wc) /\
    workers d !! wid = Some wc /\ w_id wc = wid /\ ready_candidate req wc = true.
Proof.
  intros Hwf Hk Hr.
  set (l := select_where (ready_candidate req) e (workers d)).
  assert (Hin : wk ∈ l) by (apply elem_of_select_where; eauto).
  destruct (SelectLeastLoaded_Some (map candidate_of l)) as (b & Hb & Hs).
  - intros E%fmap_nil_inv. rewrite E in Hin. by apply not_elem_of_nil in Hin.
  - intros c (w & -> & Hw)%list_elem_of_fmap. apply elem_of_select_where in Hw as [_ [k' Hk']].
    apply (wf_workers d Hwf _ _ Hk').
  - apply list_elem_of_fmap in Hb as (wc & -> & Hw).
    apply elem_of_select_where in Hw as [Hrc [k' Hk']]. exists k', wc.
    split_and!; try done. apply (wf_workers d Hwf _ _ Hk').
Qed.

(** What processing an entry does to the database when Postgres answers: it
    assigns the entry's QUEUED job to a candidate, or nothing. *)
Definition assigns (msg : XMessage) (e : env) (d d' : database) : Prop :=
  exists j wid wc, let id := field (xm_Values msg) "job_id" in
    id <> "" /\ ready_candidate (entry_capabilities msg) wc = true /\
    assignable id (j_created_at j) wid (w_epoch wc) d wc j /\
    d' = assigned_db e id (j_created_at j) wid (w_epoch wc) d wc j.

(** No worker could take the entry's job. *)
Definition no_candidate (msg : XMessage) (d : database) : Prop :=
  forall k wk, workers d !! k = Some wk -> ready_candidate (entry_capabilities msg) wk = false.

(** What is left of processMessage once the assignment went through. *)
Definition after_assignment (streamKey : string) (msg : XMessage) (j : job_row) (wc : worker_row)
  : prog unit :=
  SetState (w_id wc) (assigned_state (scanJobRow j) (candidate_of wc)) >>
  trigger (MetricInc "fleetforge_jobs_assigned_total" "") >>
  ack streamKey (xm_ID msg).

(** With Postgres answering, an entry for a QUEUED job makes three Postgres
    calls and goes on, or finds no candidate and stops. *)
Lemma processMessage_picks `{Redis} streamKey msg o w j :
  let id := field (xm_Values msg) "job_id" in
  wf_db (w_db w) -> pg_reliable o -> id <> "" ->
  jobs (w_db w) !! id = Some j -> j_status j = QUEUED ->
  (run (processMessage streamKey msg) o w = (tt, w) /\ no_candidate msg (w_db w)) \/
  exists wc, ready_candidate (entry_capabilities msg) wc = true /\
    assignable id (j_created_at j) (w_id wc) (w_epoch wc) (w_db w) wc j /\
    run (processMessage streamKey msg) o w =
    run (after_assignment streamKey msg j wc) (later o 3)
      (mkWorld _ (assigned_db (o 2%nat) id (j_created_at j) (w_id wc) (w_epoch wc) (w_db w) wc j)
         (w_redis w) (w_counters w) (w_observations w)).
Proof.
  intros id Hwf Ho Hid Hj Hq. unfold processMessage. fold id. rewrite decide_False by done.
  unfold pgc, trigger. cbn [bind]. rewrite run_pg by apply Ho. simpl. unfold GetJobRow. rewrite Hj. simpl.
  rewrite Hq. simpl. unfold pgc, trigger. cbn [bind]. rewrite run_pg by apply Ho. simpl.
  change (later o 1 0%nat) with (o 1%nat). fold (entry_capabilities msg).
  destruct (select_where (ready_candidate (entry_capabilities msg)) (o 1%nat) (workers (w_db w)))
    as [|w0 l] eqn:El.
  - left. split; [by destruct w|]. intros k wk Hk. apply not_true_iff_false. intros Hr.
    assert (Hin : wk ∈ select_where (ready_candidate (entry_capabilities msg)) (o 1%nat)
      (workers (w_db w))) by (apply elem_of_select_where; eauto).
    rewrite El in Hin. by apply not_elem_of_nil in Hin.
  - right. assert (Hw0 : w0 ∈ select_where (ready_candidate (entry_capabilities msg)) (o 1%nat)
      (workers (w_db w))) by (rewrite El; left).
    apply elem_of_select_where in Hw0 as [Hr0 [k0 Hk0]]. rewrite <- El.
    destruct (candidates_found (o 1%nat) (w_db w) (entry_capabilities msg) k0 w0 Hwf Hk0 Hr0)
      as (wid & wc & -> & Hwid & <- & Hrc).
    unfold pgc, trigger. cbn [bind]. rewrite run_pg by apply Ho. simpl.
    assert (Ha : assignable id (j_created_at j) (w_id wc) (w_epoch wc) (w_db w) wc j).
    { unfold ready_candidate in Hrc. apply andb_true_iff in Hrc as [[Hs Hc]%andb_true_iff _].
      apply bool_decide_eq_true in Hs. repeat split; auto. lia. }
    destruct (wf_jobs _ Hwf _ _ Hj) as [Hidj _ _ _ _ _]. rewrite Hidj. fold id.
    change (later (later o 1) 1 0%nat) with (o 2%nat).
    rewrite (AssignJob_success _ _ _ _ (o 2%nat) _ _ _ Ha). cbn [fst snd].
    exists wc. by split.
Qed.

Lemma processMessage_queued `{Redis} streamKey msg o w j :
  wf_db (w_db w) -> pg_reliable o -> field (xm_Values msg) "job_id" <> "" ->
  jobs (w_db w) !! field (xm_Values msg) "job_id" = Some j -> j_status j = QUEUED ->
  let d' := w_db (run (processMessage streamKey msg) o w).2 in
  (d' = w_db w /\ no_candidate msg (w_db w)) \/ assigns msg (o 2%nat) (w_db w) d'.
Proof.
  intros Hwf Ho Hid Hj Hq d'. subst d'.
  destruct (processMessage_picks streamKey msg o w j Hwf Ho Hid Hj Hq)
    as [[-> Hno]|(wc & Hrc & Ha & ->)]; [by left|].
  right. exists j, (w_id wc), wc. split; [done|]. split; [done|]. split; [done|].
  rewrite run_not_pg_db; [done|]. by repeat (split; [done|]; intros).
Qed.

(** C14: progress of the scheduler.  When Postgres answers, an entry for a
    QUEUED job is assigned in one go whenever some READY worker has a free slot
    and the entry's capabilities: the job becomes ASSIGNED to such a worker at
    its current epoch and that worker loses one slot, whatever Redis does
    meanwhile.  With no such worker the database is left untouched. *)
Theorem processMessage_progress `{Redis} streamKey msg o w id j :
  wf_db (w_db w) -> pg_reliable o ->
  field (xm_Values msg) "job_id" = id -> id <> "" ->
  jobs (w_db w) !! id = Some j -> j_status j = QUEUED ->
  let d' := w_db (run (processMessage streamKey msg) o w).2 in
  ((exists k wk, workers (w_db w) !! k = Some wk /\
      ready_candidate (entry_capabilities msg) wk = true) ->
   exists wid wc, ready_candidate (entry_capabilities msg) wc = true /\
     assignable id (j_created_at j) wid (w_epoch wc) (w_db w) wc j /\
     d' = assigned_db (o 2%nat) id (j_created_at j) wid (w_epoch wc) (w_db w) wc j) /\
  ((forall k wk, workers (w_db w) !! k = Some wk ->
      ready_candidate (entry_capabilities msg) wk = false) -> d' = w_db w).
Proof.
  intros Hwf Ho <- Hid Hj Hq d'.
  destruct (processMessage_queued streamKey msg o w j Hwf Ho Hid Hj Hq)
    as [[E Hno]|(j' & wid & wc & _ & Hrc & Ha & E)].
  - split; [|done]. intros (k & wk & Hk & Hr). rewrite (Hno k wk Hk) in Hr. done.
  - destruct Ha as (Hwc & Hj' & Ha). assert (j' = j) as -> by congruence. split.
    + intros _. exists wid, wc. split; [done|]. split; [by split|exact E].
    + intros Hno. rewrite (Hno wid wc Hwc) in Hrc. done.
Qed.

Lemma processMessage_progress_witness :
  exists wid wc, ready_candidate (entry_capabilities full_stream_entry) wc = true /\
    assignable "j-1" (j_created_at (job_of ready_world)) wid (w_epoch wc) (w_db ready_world) wc
      (job_of ready_world) /\
    w_db (run (processMessage "queue:jobs:p3" full_stream_entry) (calm 3 "") ready_world).2 =
      assigned_db (calm 3 "" 2%nat) "j-1" (j_created_at (job_of ready_world)) wid (w_epoch wc)
        (w_db ready_world) wc (job_of ready_world).
Proof.
  apply (processMessage_progress "queue:jobs:p3" full_stream_entry (calm 3 "") ready_world "j-1"
           (job_of ready_world)).
  - apply (reachable_good ([], ready_world) ready_reachable).
  - intros n. reflexivity.
  - vm_compute. reflexivity.
  - discriminate.
  - vm_compute. reflexivity.
  - vm_compute. reflexivity.
  - exists "w-a", (worker_of ready_world). split; vm_compute; reflexivity.
Defined.

(** ** The reaper's sweep *)

(** Reaping one worker changes the database as MarkDeadAndRequeue does; what
    Redis answers to the cache deletion does not matter. *)
Lemma reap_one_db `{Redis} s o w :
  wf_db (w_db w) -> env_fault (o 0%nat) = NoFault ->
  w_db (run (reap_one s) o w).2 =
  (MarkDeadAndRequeue (sw_ID s) (sw_Epoch s) (o 0%nat) (w_db w)).2.
Proof.
  intros Hwf Ho. unfold reap_one, pgc, trigger. cbn [bind]. rewrite run_pg by done. simpl.
  assert (E : exists d', MarkDeadAndRequeue (sw_ID s) (sw_Epoch s) (o 0%nat) (w_db w) = (Ok tt, d')).
  { destruct (MarkDeadAndRequeue_cases (sw_ID s) (sw_Epoch s) (o 0%nat) (w_db w) Hwf)
      as [[-> _]|(? & d' & _ & _ & _ & -> & _)]; eauto. }
  destruct E as [d' ->]. simpl. by rewrite run_not_pg_db.
Qed.

(** The entry names a live worker at its current epoch. *)
Definition reapable (d : database) (s : StaleWorker) : Prop :=
  exists w, workers d !! sw_ID s = Some w /\ w_epoch w = sw_Epoch s /\
    worker_gone (w_status w) = false.

Lemma reap_all_db `{Redis} l o w :
  wf_db (w_db w) -> pg_reliable o -> NoDup (map sw_ID l) -> Forall (reapable (w_db w)) l ->
  let d := w_db w in let d' := w_db (run (for_each l reap_one) o w).2 in
  (forall k, k ∈ map sw_ID l -> exists w0 e, workers d !! k = Some w0 /\
     workers d' !! k = Some (dead_row e w0)) /\
  (forall k, k ∉ map sw_ID l -> workers d' !! k = workers d !! k) /\
  (forall k j, jobs d !! k = Some j ->
     jobs d' !! k = Some (if existsb (fun s => held_by (sw_ID s) j) l then requeued j else j)).
Proof.
  revert o w. induction l as [|s l IH]; intros o w Hwf Ho Hnd Hl d d'.
  { subst d d'. simpl. split_and!; [by intros ? ?%not_elem_of_nil|done|done]. }
  cbn [map] in Hnd. apply list.NoDup_cons in Hnd as [Hs Hnd].
  apply list.Forall_cons in Hl as [(w0 & Hw0 & He & Hg) Hl].
  subst d'. cbn [for_each]. destruct (events_bind (reap_one s) (fun _ => for_each l reap_one) o w)
    as (n & En & _). rewrite En. clear En.
  set (w1 := (run (reap_one s) o w).2).
  assert (E1 : w_db w1 = (MarkDeadAndRequeue (sw_ID s) (sw_Epoch s) (o 0%nat) (w_db w)).2)
    by (apply reap_one_db; [done|apply Ho]).
  destruct (MarkDeadAndRequeue_cases (sw_ID s) (sw_Epoch s) (o 0%nat) (w_db w) Hwf)
    as [[_ Hno]|(w0' & d1 & Hw0' & _ & _ & E & Hwf1 & Hws & Hjs & _)].
  { specialize (Hno w0 Hw0 He). congruence. }
  rewrite E in E1. simpl in E1. assert (w0' = w0) as -> by congruence.
  destruct (IH (later o n) w1) as (A & B & C); rewrite ?E1; auto with fleet.
  { rewrite list.Forall_forall in Hl |- *. intros s' Hs'. destruct (Hl s' Hs') as (w' & Hw' & ? & ?).
    exists w'. rewrite Hws, lookup_insert_ne; [done|]. intros E'. apply Hs. rewrite E'.
    by apply list_elem_of_fmap_2. }
  rewrite E1 in A, B, C. split_and!.
  - intros k [->|Hk]%elem_of_cons.
    + exists w0, (o 0%nat). rewrite B by done. by rewrite Hws, lookup_insert_eq.
    + destruct (A k Hk) as (w' & e & Hw' & ?). exists w', e.
      rewrite Hws, lookup_insert_ne in Hw' by (intros E'; by rewrite E' in Hs). done.
  - intros k Hk. apply not_elem_of_cons in Hk as [Hne Hk]. rewrite B by done.
    by rewrite Hws, lookup_insert_ne.
  - intros k j Hj. specialize (Hjs k j Hj). simpl.
    destruct (held_by (sw_ID s) j) eqn:Hb; rewrite (C _ _ Hjs); [|done].
    assert (existsb (fun s => held_by (sw_ID s) (requeued j)) l = false) as ->; [|done].
    apply not_true_iff_false. intros (s' & _ & Hs')%existsb_exists.
    apply held_by_spec in Hs' as [Hs' _]. done.
Qed.

Lemma stale_entries_reapable e d t :
  wf_db d ->
  let l := map (fun w => mkStaleWorker (w_id w) (w_epoch w))
             (select_where (is_stale (pg_now e) t) e (workers d)) in
  NoDup (map sw_ID l) /\ Forall (reapable d) l /\
  (forall k w, workers d !! k = Some w -> k ∈ map sw_ID l <-> is_stale (pg_now e) t w = true).
Proof.
  intros Hwf l. assert (Hid : forall k w, workers d !! k = Some w -> w_id w = k).
  { intros k w Hw. by destruct (wf_workers d Hwf _ _ Hw). }
  assert (El : map sw_ID l = map w_id (select_where (is_stale (pg_now e) t) e (workers d)))
    by (unfold l; rewrite map_map; done).
  split_and!; rewrite ?El.
  - by apply NoDup_select_ids.
  - apply list.Forall_forall. intros s (w & -> & Hw)%list_elem_of_fmap.
    apply elem_of_select_where in Hw as [Hs [k Hk]]. exists w. simpl. rewrite (Hid _ _ Hk).
    split_and!; try done. unfold is_stale in Hs. by destruct (worker_gone (w_status w)).
  - intros k w Hw. split.
    + intros (w' & -> & Hin)%list_elem_of_fmap. apply elem_of_select_where in Hin as [Hs [k' Hk']].
      rewrite (Hid _ _ Hk') in Hw. congruence.
    + intros Hs. rewrite <- (Hid _ _ Hw). apply list_elem_of_fmap_2, elem_of_select_where. eauto.
Qed.

(** The worker holding the job is stale. *)
Definition holder_stale (now timeout : Z) (d : database) (j : job_row) : bool :=
  job_active (j_status j) &&
  match j_worker_id j with
  | Some k => match workers d !! k with Some w => is_stale now timeout w | None => false end
  | None => false
  end.

(** The rows after a sweep. *)
Lemma sweep_rows `{Redis} timeout o w :
  wf_db (w_db w) -> pg_reliable o ->
  let d := w_db w in
  let d' := w_db (run (sweep timeout) o w).2 in
  let now := pg_now (o 0%nat) in
  (forall k wk, workers d !! k = Some wk ->
     if is_stale now timeout wk
     then exists e, workers d' !! k = Some (dead_row e wk)
     else workers d' !! k = Some wk) /\
  (forall k j, jobs d !! k = Some j ->
     jobs d' !! k = Some (if holder_stale now timeout d j then requeued j else j)).
Proof.
  intros Hwf Ho d d' now. subst d' now. unfold sweep, pgc, trigger. cbn [bind].
  rewrite run_pg by apply Ho. simpl.
  destruct (stale_entries_reapable (o 0%nat) (w_db w) timeout Hwf) as (Hnd & Hr & Hin).
  match goal with |- context [for_each ?x reap_one] => set (l := x) in * end.
  match goal with |- context [run (for_each l reap_one) _ ?x] => set (w1 := x) in * end.
  destruct (reap_all_db l (later o 1) w1) as (A & B & C); auto with fleet. split.
  - intros k wk Hk. specialize (Hin k wk Hk). destruct (is_stale _ _ wk).
    + destruct (A k) as (w0 & e & Hw0 & He); [by apply Hin|].
      change (workers d !! k = Some w0) in Hw0. simplify_eq. eauto.
    + rewrite B; [done|]. intros X%Hin. done.
  - intros k j Hj. rewrite (C k j Hj). f_equal.
    assert (existsb (fun s => held_by (sw_ID s) j) l = holder_stale (pg_now (o 0%nat)) timeout d j)
      as ->; [|done].
    apply eq_iff_eq_true. unfold holder_stale. rewrite existsb_exists, andb_true_iff. split.
    + intros (s & Hs & [Hw Ha]%held_by_spec). split; [done|]. rewrite Hw.
      apply list_elem_of_In in Hs. rewrite list.Forall_forall in Hr.
      destruct (Hr s Hs) as (w0 & Hw0 & _). fold d in Hw0. rewrite Hw0.
      apply (Hin _ _ Hw0). by apply list_elem_of_fmap_2.
    + intros [Ha Hst]. destruct (j_worker_id j) as [wid|] eqn:Hw; [|done].
      destruct (workers d !! wid) as [w0|] eqn:Hw0; [|done].
      apply (Hin _ _ Hw0) in Hst. apply list_elem_of_fmap in Hst as (s & -> & Hs).
      exists s. split; [by apply list_elem_of_In|]. by apply held_by_spec.
Qed.

(** C10: the reaper finds every silent worker and only those.  When Postgres
    answers, after one sweep every worker whose last heartbeat is older than
    the timeout is DEAD at its epoch with its capacity restored, every other
    worker's row is untouched, every job held by a stale worker is QUEUED
    again without assignment, and every other job is untouched.  Redis may
    fail at will. *)
Theorem sweep_reaps_silent_workers `{Redis} timeout o w :
  wf_db (w_db w) -> pg_reliable o ->
  let d := w_db w in
  let d' := w_db (run (sweep timeout) o w).2 in
  let now := pg_now (o 0%nat) in
  (forall k wk, workers d !! k = Some wk ->
     if is_stale now timeout wk
     then exists e, workers d' !! k = Some (dead_row e wk)
     else workers d' !! k = Some wk) /\
  (forall k j, jobs d !! k = Some j ->
     jobs d' !! k = Some (if holder_stale now timeout d j then requeued j else j)).
Proof. apply sweep_rows. Qed.

Lemma sweep_reaps_silent_workers_witness :
  is_stale (100 * Second) 30 (worker_of running_world) = true /\
  jobs (w_db (run (sweep 30) (calm 100 "") running_world).2) !! "j-1" =
    Some (if holder_stale (100 * Second) 30 (w_db running_world) (job_of running_world)
          then requeued (job_of running_world) else job_of running_world).
Proof.
  split; [vm_compute; reflexivity|].
  apply (sweep_reaps_silent_workers 30 (calm 100 "") running_world).
  - apply (reachable_good ([], running_world) running_reachable).
  - intros n. reflexivity.
  - vm_compute. reflexivity.
Defined.

(** ** The retry poller *)

(** The entry a call asks Redis to add to a stream, if any; whether it gets
    there is up to the environment. *)
Definition enqueue_request (ev : event) : option (string * gmap string string) :=
  match ev_call ev with
  | Rd c => match c with RXAdd s _ vals => Some (s, vals) | _ => None end
  | _ => None
  end.

(** The entry a job's retry puts on its priority's stream. *)
Definition retry_entry (j : job_row) : string * gmap string string :=
  (StreamKey (j_priority j), message_values (retry_message (due_retry j))).

Definition unparked (j : job_row) : job_row := j_set_retry_at None (j_set_status QUEUED j).

Lemma requeue_due_run `{Redis} j o w :
  jobs (w_db w) !! j_id j = Some j -> j_status j = RETRYING -> env_fault (o 0%nat) = NoFault ->
  w_db (run (requeue_due (due_retry j)) o w).2 =
    set_jobs (<[j_id j := unparked j]> (jobs (w_db w))) (w_db w) /\
  omap enqueue_request (events (requeue_due (due_retry j)) o w) = [retry_entry j].
Proof.
  intros Hj Hs Ho. assert (E : MarkQueuedFromRetry (j_id j) (j_created_at j) (o 0%nat) (w_db w) =
    (Ok true, set_jobs (<[j_id j := unparked j]> (jobs (w_db w))) (w_db w))).
  { unfold MarkQueuedFromRetry. run_stmt. unfold update_job, update_where.
    by rewrite Hj, Z.eqb_refl, Hs. }
  unfold requeue_due, pgc, trigger. cbn [bind]. split.
  - rewrite run_pg by done. simpl. rewrite E. simpl. by rewrite run_not_pg_db.
  - simpl. rewrite Ho. simpl. rewrite E. simpl. unfold with_fault.
    by destruct (redis_fault (o 1%nat)).
Qed.

Lemma requeue_all_run `{Redis} l o w :
  pg_reliable o -> NoDup (map j_id l) ->
  (forall j, j ∈ l -> jobs (w_db w) !! j_id j = Some j /\ j_status j = RETRYING) ->
  let p := for_each (map due_retry l) requeue_due in
  let d' := w_db (run p o w).2 in
  (forall k, jobs d' !! k =
     match list_find (fun j => j_id j = k) l with
     | Some (_, j) => Some (unparked j)
     | None => jobs (w_db w) !! k
     end) /\
  workers d' = workers (w_db w) /\
  omap enqueue_request (events p o w) = map retry_entry l.
Proof.
  revert o w. induction l as [|j l IH]; intros o w Ho Hnd Hl p d'; [done|].
  subst p d'. cbn [map for_each] in *. apply list.NoDup_cons in Hnd as [Hn Hnd].
  destruct (Hl j ltac:(left)) as [Hj Hs].
  destruct (requeue_due_run j o w Hj Hs (Ho _)) as [E1 E2].
  destruct (events_bind (requeue_due (due_retry j))
    (fun _ => for_each (map due_retry l) requeue_due) o w) as (n & -> & ->).
  set (w1 := (run (requeue_due (due_retry j)) o w).2) in *.
  destruct (IH (later o n) w1) as (A & B & C); auto with fleet.
  { intros j' Hj'. destruct (Hl j') as [H1 H2]; [by right|]. split; [|done].
    rewrite E1. simpl. rewrite lookup_insert_ne; [done|]. intros E. apply Hn. rewrite E.
    by apply list_elem_of_fmap_2. }
  split_and!.
  - intros k. rewrite A, E1. simpl. destruct (decide (j_id j = k)) as [<-|Hne].
    + rewrite lookup_insert_eq.
      assert (list_find (fun j' => j_id j' = j_id j) l = None) as ->; [|done].
      apply list_find_None, list.Forall_forall. intros j' Hj' E. apply Hn. rewrite <- E.
      by apply list_elem_of_fmap_2.
    + rewrite lookup_insert_ne by done. by destruct (list_find _ l) as [[]|].
  - rewrite B, E1. done.
  - rewrite omap_app, E2, C. done.
Qed.

#[global] Instance retry_before_trans : Transitive retry_before.
Proof. intros a b c. unfold retry_before. lia. Qed.
#[global] Instance retry_before_total : Total retry_before.
Proof. intros a b. unfold retry_before. lia. Qed.

(** The jobs ListDueRetries 100 picks. *)
Definition picked (e : env) (d : database) : list job_row :=
  take 100 (merge_sort retry_before (select_where (retry_due (pg_now e)) e (jobs d))).

Lemma picked_spec e d :
  wf_db d ->
  NoDup (map j_id (picked e d)) /\
  (forall j, j ∈ picked e d -> retry_due (pg_now e) j = true /\ jobs d !! j_id j = Some j) /\
  (forall k j, jobs d !! k = Some j -> retry_due (pg_now e) j = true ->
     j ∈ picked e d \/
     (length (picked e d) = 100%nat /\ forall j0, j0 ∈ picked e d -> retry_before j0 j)).
Proof.
  intros Hwf. unfold picked.
  set (due := merge_sort retry_before (select_where (retry_due (pg_now e)) e (jobs d))).
  assert (Hid : forall k j, jobs d !! k = Some j -> j_id j = k).
  { intros k j Hj. by destruct (wf_jobs d Hwf _ _ Hj). }
  assert (Hdue : forall j, j ∈ due <-> retry_due (pg_now e) j = true /\ jobs d !! j_id j = Some j).
  { intros j. unfold due. rewrite merge_sort_Permutation, elem_of_select_where. split.
    - intros [Hr [k Hk]]. split; [done|]. by rewrite (Hid _ _ Hk).
    - intros [Hr Hk]. eauto. }
  assert (Hnd : NoDup (map j_id due)).
  { unfold due. rewrite merge_sort_Permutation. by apply NoDup_select_ids. }
  rewrite <- (take_drop 100 due), map_app in Hnd. split; [by apply list.NoDup_app in Hnd as (? & _)|].
  split.
  - intros j Hj. apply Hdue. rewrite <- (take_drop 100 due). apply elem_of_app. by left.
  - intros k j Hj Hr. assert (Hin : j ∈ due) by (apply Hdue; by rewrite (Hid _ _ Hj)).
    rewrite <- (take_drop 100 due) in Hin. apply elem_of_app in Hin as [Hin|Hin]; [by left|right].
    split.
    + rewrite length_take. apply list_elem_of_lookup in Hin as [i Hi].
      rewrite lookup_drop in Hi. apply lookup_lt_Some in Hi. lia.
    + intros j0 Hj0.
      apply (StronglySorted_app_1_elem_of retry_before (take 100 due) (drop 100 due)); try done.
      rewrite take_drop. apply StronglySorted_merge_sort; apply _.
Qed.

Lemma poll_run `{Redis} o w :
  env_fault (o 0%nat) = NoFault ->
  let p := for_each (map due_retry (picked (o 0%nat) (w_db w))) requeue_due in
  run poll o w = run p (later o 1) w /\
  omap enqueue_request (events poll o w) = omap enqueue_request (events p (later o 1) w).
Proof.
  intros Ho p. unfold poll, pgc, trigger. cbn [bind]. rewrite run_pg by apply Ho. simpl.
  rewrite Ho. by destruct w.
Qed.

(** A job found by its id in a list of rows of the table. *)
Lemma list_find_row d l k j :
  (forall j, j ∈ l -> jobs d !! j_id j = Some j) -> jobs d !! k = Some j -> j_id j = k ->
  match list_find (fun j => j_id j = k) l with
  | Some (_, j') => j' = j /\ j ∈ l
  | None => j ∉ l
  end.
Proof.
  intros Hl Hj <-. destruct (list_find _ l) as [[i j']|] eqn:E.
  - apply list_find_Some in E as (Hi & E & _). apply list_elem_of_lookup_2 in Hi.
    pose proof (Hl j' Hi) as Hj'. rewrite E, Hj in Hj'. by simplify_eq.
  - apply list_find_None in E. rewrite list.Forall_forall in E. intros Hin. by destruct (E j Hin).
Qed.

(** C22: the retry poller.  When Postgres answers, one poll moves exactly the
    parked jobs it picked from RETRYING to QUEUED and puts exactly one entry
    per such job, in order, on the stream of its priority; every other job is
    untouched.  It picks only jobs whose retry_at has passed: all of them, or
    100 with no due job left out that was due earlier. *)
Theorem poll_requeues_due_retries `{Redis} o w :
  wf_db (w_db w) -> pg_reliable o ->
  let d := w_db w in
  let d' := w_db (run poll o w).2 in
  let now := pg_now (o 0%nat) in
  exists l, NoDup (map j_id l) /\
    (forall j, j ∈ l -> retry_due now j = true /\ jobs d !! j_id j = Some j) /\
    (forall k j, jobs d !! k = Some j -> retry_due now j = true ->
       j ∈ l \/ (length l = 100%nat /\ forall j0, j0 ∈ l -> retry_before j0 j)) /\
    (forall k j, jobs d !! k = Some j ->
       (j ∈ l -> jobs d' !! k = Some (unparked j)) /\ (j ∉ l -> jobs d' !! k = Some j)) /\
    omap enqueue_request (events poll o w) = map retry_entry l.
Proof.
  intros Hwf Ho d d' now. destruct (picked_spec (o 0%nat) d Hwf) as (Hnd & Hl & Hall).
  destruct (poll_run o w (Ho _)) as [Hrun Hev]. subst d'. rewrite Hrun, Hev.
  destruct (requeue_all_run (picked (o 0%nat) d) (later o 1) w) as (A & _ & C); auto with fleet.
  { intros j Hj. destruct (Hl j Hj) as [Hr ?]. split; [done|]. unfold retry_due in Hr.
    apply andb_true_iff in Hr as [Hr _]. by apply bool_decide_eq_true in Hr. }
  exists (picked (o 0%nat) d). split_and!; try done. intros k j Hj. rewrite A.
  assert (Hid : j_id j = k) by by destruct (wf_jobs d Hwf _ _ Hj).
  pose proof (list_find_row d (picked (o 0%nat) d) k j (fun j Hj => proj2 (Hl j Hj)) Hj Hid) as Hf.
  case_match; [case_match; destruct Hf as [-> Hin]|]; by split.
Qed.

Lemma poll_requeues_due_retries_witness :
  retry_due (10 * Second) (job_of retrying_world) = true /\
  exists l, NoDup (map j_id l) /\
    (forall j, j ∈ l -> retry_due (10 * Second) j = true /\
       jobs (w_db retrying_world) !! j_id j = Some j) /\
    (forall k j, jobs (w_db retrying_world) !! k = Some j -> retry_due (10 * Second) j = true ->
       j ∈ l \/ (length l = 100%nat /\ forall j0, j0 ∈ l -> retry_before j0 j)) /\
    (forall k j, jobs (w_db retrying_world) !! k = Some j ->
       (j ∈ l -> jobs (w_db (run poll (calm 10 "") retrying_world).2) !! k = Some (unparked j)) /\
       (j ∉ l -> jobs (w_db (run poll (calm 10 "") retrying_world).2) !! k = Some j)) /\
    omap enqueue_request (events poll (calm 10 "") retrying_world) = map retry_entry l.
Proof.
  split; [vm_compute; reflexivity|].
  apply (poll_requeues_due_retries (calm 10 "") retrying_world).
  - apply (reachable_good ([], retrying_world) retrying_reachable).
  - intros n. reflexivity.
Defined.
