(* ===== verification/GrpcProps.v ===== *)
(** * What the worker-facing RPCs guarantee *)
From S2P Require Import Prelude GoStrings Database WorkerStore JobStore Lifecycle Invariant.
From S2P Require Import StoreSound Redis Effects Stores Loop Reaper RetryPoller GrpcServer.
From S2P Require Import Autoscaler Api System Scenario StoreProps SchedulerProps.
Local Open Scope Z_scope.

(** ** Heartbeats *)

(** A call that can change Postgres or Redis. *)
Definition is_write (ev : event) : bool :=
  match ev_call ev with
  | Pg c =>
      match c with
      | PgCountByStatus | PgPickDrainCandidate | PgListWorkers _ _ | PgGetEpochAndStatus _
      | PgSelectJobCreatedAt _ | PgListStale _ | PgListReadyCandidates _
      | PgGetByIdempotencyKey _ | PgGetJob _ | PgCountQueuedByPriority | PgListJobs _
      | PgListDueRetries _ => false
      | _ => true
      end
  | Rd c => match c with RHGetAll _ => false | _ => true end
  | _ => false
  end.

(** The worker state a HGETALL reply carries, if it is a hit. *)
Definition cache_hit (ev : event) : option WorkerState :=
  match ev_call ev in call X return X -> option WorkerState with
  | Rd c =>
      match c in rd A return result A -> option WorkerState with
      | RHGetAll _ => fun r => match r with
                               | Ok h => if decide (h = ∅) then None else Some (decode_state h)
                               | Err _ => None
                               end
      | _ => fun _ => None
      end
  | _ => fun _ => None
  end (ev_reply ev).

(** The epoch and drain flag a Postgres lookup reports for a live worker. *)
Definition live_worker (ev : event) : option (Z * bool) :=
  match ev_call ev in call X return X -> option (Z * bool) with
  | Pg c =>
      match c in pg A return result A -> option (Z * bool) with
      | PgGetEpochAndStatus _ => fun r =>
          match r with
          | Ok (ep, st, drain) => if decide (st = "DEAD" \/ st = "OFFLINE") then None
                                  else Some (ep, drain)
          | Err _ => None
          end
      | _ => fun _ => None
      end
  | _ => fun _ => None
  end (ev_reply ev).

(** What the handler knows about the worker after its lookups: the cache's
    word if the cache has the worker, Postgres's otherwise. *)
Definition known_worker (tr : list event) : option (Z * bool) :=
  match tr with
  | ev :: rest =>
      match cache_hit ev with
      | Some s => Some (ws_Epoch s, ws_DrainRequested s)
      | None => match rest with ev2 :: _ => live_worker ev2 | [] => None end
      end
  | [] => None
  end.

(** The job a GetJob call reports as ASSIGNED. *)
Definition assigned_job_seen (ev : event) : option Job :=
  match ev_call ev in call X return X -> option Job with
  | Pg c =>
      match c in pg A return result A -> option Job with
      | PgGetJob _ => fun r => match r with
                               | Ok j => if decide (J_Status j = "ASSIGNED") then Some j else None
                               | Err _ => None
                               end
      | _ => fun _ => None
      end
  | _ => fun _ => None
  end (ev_reply ev).

(** The rest of the handler once the epoch was accepted. *)
Definition heartbeat_accepted (s : Server) (req : HeartbeatRequest) (found : bool)
    (cached : WorkerState) (drain : bool) : prog (rpc HeartbeatResponse) :=
  let newStatus := workerStatusToDB (hb_status req) in
  let currentJobID := string_of_ptr (hb_current_job_id req) in
  let! assignment := pending_assignment found cached (hb_epoch req) currentJobID in
  (if bool_decide (newStatus = "BUSY") && negb (bool_decide (currentJobID = ""))
   then pgc (PgMarkRunning currentJobID (hb_epoch req)) >> Ret tt
   else Ret tt) >>
  let! lastFlush := flush_heartbeat (hb_worker_id req) found cached (hb_epoch req) newStatus
                      currentJobID in
  SetState (hb_worker_id req) (mkWorkerState (hb_epoch req) newStatus currentJobID
                       (hb_available_capacity req) lastFlush false) >>
  SetAlive (hb_worker_id req) (s_heartbeatTimeoutSeconds s * Second) >>
  Ret (Reply (mkHeartbeatResponse true assignment drain)).

Lemma heartbeat_accepted_trace s req found cached drain tr r :
  trace (heartbeat_accepted s req found cached drain) tr r ->
  exists a, r = Reply (mkHeartbeatResponse true a drain) /\
    match a with
    | None => True
    | Some a => found = true /\ ws_Status cached = "BUSY" /\ string_of_ptr (hb_current_job_id req) = "" /\
        exists ev j, ev ∈ tr /\ assigned_job_seen ev = Some j /\
          a = mkJobAssignment (J_ID j) (hb_epoch req) (J_Repository j) (J_Branch j) (J_CommitSHA j)
    end.
Proof.
  unfold heartbeat_accepted. intros H. apply trace_bind in H as (tr1 & tr2 & a & -> & H1 & H2).
  exists a. split.
  - apply trace_bind in H2 as (? & ? & ? & _ & _ & H2).
    apply trace_bind in H2 as (? & ? & ? & _ & _ & H2). simpl in H2.
    destruct H2 as (? & ? & _ & ? & ? & _ & _ & ->). done.
  - destruct a as [a|]; [|done]. unfold pending_assignment in H1.
    destruct (found && _ && _ && _) eqn:Hc; [|by destruct H1].
    rewrite !andb_true_iff in Hc. destruct Hc as [[[-> Hb%bool_decide_eq_true] _] Hj%bool_decide_eq_true].
    split_and!; try done. simpl in H1. destruct H1 as (rj & ? & -> & -> & Ha).
    destruct rj as [j|]; [|done]. case_decide as Hs; [|done]. simplify_eq.
    eexists _, j. split; [left|]. split; [|done]. unfold assigned_job_seen. simpl.
    by rewrite decide_True.
Qed.

Lemma cache_hit_cached k rc :
  cached_state (match rc with
                | Err x => Err x
                | Ok h => if decide (h = ∅) then Ok None else Ok (Some (decode_state h))
                end) =
  match cache_hit (mkEvent (Rd (RHGetAll k)) rc) with
  | Some st => (true, st) | None => (false, zero_state)
  end.
Proof. unfold cache_hit. cbn. destruct rc as [h|]; [|done]. by destruct (decide (h = ∅)). Qed.

(** C16: the epoch check on heartbeats.  For arbitrary replies of Redis and
    Postgres, a heartbeat is acknowledged only if its epoch equals the one the
    handler read, from the cache or, on a miss, from the row of a worker that
    is neither DEAD nor OFFLINE; the drain flag returned is the one read there.
    (On a cache hit nothing checks that the worker is alive:
    [Divergences.dead_worker_can_return_unregistered].)
    A job is handed over only when the cache showed the worker BUSY, the worker
    reported no job, and Postgres answered that the job is ASSIGNED.  A
    rejected heartbeat has written nothing anywhere. *)
Theorem heartbeat_epoch_check s req tr r :
  trace (handleHeartbeat s req) tr r ->
  match r with
  | Status _ _ => Forall (fun ev => is_write ev = false) tr
  | Reply resp =>
      hb_worker_id req <> "" /\ hr_acknowledged resp = true /\
      known_worker tr = Some (hb_epoch req, hr_drain_requested resp) /\
      match hr_assignment resp with
      | None => True
      | Some a => string_of_ptr (hb_current_job_id req) = "" /\
          (exists ev st, ev ∈ tr /\ cache_hit ev = Some st /\ ws_Status st = "BUSY") /\
          exists ev j, ev ∈ tr /\ assigned_job_seen ev = Some j /\
            a = mkJobAssignment (J_ID j) (hb_epoch req) (J_Repository j) (J_Branch j) (J_CommitSHA j)
      end
  end.
Proof.
  unfold handleHeartbeat. case_decide as Hid; [intros [-> ->]; constructor|].
  cbn [bind GetState rdc trigger]. intros (rc & tr1 & -> & H). simpl in H.
  rewrite (cache_hit_cached (stateKey (hb_worker_id req))) in H.
  set (ev := mkEvent (Rd (RHGetAll (stateKey (hb_worker_id req)))) rc) in *.
  unfold known_worker. destruct (cache_hit ev) as [st|] eqn:Hev; simpl in H.
  - case_decide as Hep; [destruct H as [-> ->]; by repeat constructor|].
    rewrite <- Hep in H. apply (heartbeat_accepted_trace s req true st) in H as (a & -> & Ha).
    simpl. rewrite Hep. split_and!; try done. destruct a as [a|]; [|done].
    destruct Ha as (_ & Hb & Hj & ev' & j & Hin & Hseen & ->). split; [done|]. split.
    + exists ev, st. split_and!; [left|done..].
    + exists ev', j. rewrite Hep. split_and!; [by right|done..].
  - destruct H as (rg & tr2 & -> & H). destruct rg as [[[ep st] dr]|]; simpl in H.
    2: { destruct H as [-> ->]. by repeat constructor. }
    set (ev2 := mkEvent (Pg (PgGetEpochAndStatus (hb_worker_id req))) (Ok (ep, st, dr))).
    assert (Hlive : live_worker ev2 =
      if decide (st = "DEAD" \/ st = "OFFLINE") then None else Some (ep, dr)) by done.
    destruct (decide (st = "DEAD" \/ st = "OFFLINE")); simpl in H.
    { destruct H as [-> ->]. by repeat constructor. }
    case_decide as Hep; [destruct H as [-> ->]; by repeat constructor|].
    subst ep. apply (heartbeat_accepted_trace s req false zero_state) in H as (a & -> & Ha).
    simpl. split_and!; try done. destruct a as [a|]; [|done]. by destruct Ha as [? _].
Qed.

(** A heartbeat of the restarted worker's previous life. *)
Lemma heartbeat_epoch_check_witness :
  Forall (fun ev => is_write ev = false)
    (events (handleHeartbeat server (heartbeat_a 1 WORKER_STATUS_BUSY (Some "j-1"))) (calm 8 "")
       restarted_world).
Proof.
  assert (E : exists c m, (run (handleHeartbeat server (heartbeat_a 1 WORKER_STATUS_BUSY (Some "j-1")))
    (calm 8 "") restarted_world).1 = Status c m) by (do 2 eexists; vm_compute; reflexivity).
  destruct E as (c & m & E).
  apply (heartbeat_epoch_check server (heartbeat_a 1 WORKER_STATUS_BUSY (Some "j-1"))
           (events (handleHeartbeat server (heartbeat_a 1 WORKER_STATUS_BUSY (Some "j-1"))) (calm 8 "")
              restarted_world) (Status c m)).
  rewrite <- E. apply events_trace.
Defined.

(** The Postgres calls a heartbeat can make. *)
Definition heartbeat_call (req : HeartbeatRequest) {X} (c : call X) : Prop :=
  match c with
  | Pg c =>
      match c with
      | PgUpdateHeartbeatRow k ep _ _ => k = hb_worker_id req /\ ep = hb_epoch req
      | PgMarkRunning j ep => j = string_of_ptr (hb_current_job_id req) /\ ep = hb_epoch req
      | PgGetEpochAndStatus _ | PgSelectJobCreatedAt _ | PgGetJob _ => True
      | _ => False
      end
  | _ => True
  end.

Lemma flush_heartbeat_calls req f c st j :
  all_calls (@heartbeat_call req) (flush_heartbeat (hb_worker_id req) f c (hb_epoch req) st j).
Proof.
  unfold flush_heartbeat, UpdateHeartbeat. apply all_calls_bind; [by destruct f|]. intros due.
  case_match; [|done]. apply all_calls_bind; [|intros [|]; simpl; auto].
  destruct (ptr_of_string j); simpl; [|auto]. split; [done|].
  intros [t|]; simpl; auto.
Qed.

Lemma handleHeartbeat_calls s req :
  all_calls (@heartbeat_call req) (handleHeartbeat s req).
Proof.
  unfold handleHeartbeat. case_decide; [done|]. simpl. split; [done|]. intros rc.
  destruct (cached_state _) as [found cached]. apply all_calls_bind.
  { unfold known_epoch. destruct found; simpl; auto. }
  intros [[ep dr]|]; [|done]. case_decide as E; [done|]. subst ep.
  apply all_calls_bind; [unfold pending_assignment; case_match; simpl; auto|]. intros a.
  apply all_calls_bind; [case_match; simpl; auto|]. intros _.
  apply all_calls_bind; [apply flush_heartbeat_calls|]. simpl. auto.
Qed.

(** How a heartbeat may change the database. *)
Definition heartbeat_effect (req : HeartbeatRequest) (d d' : database) : Prop :=
  (forall k wk, workers d !! k = Some wk -> exists wk', workers d' !! k = Some wk' /\
     w_available_capacity wk' = w_available_capacity wk /\ w_epoch wk' = w_epoch wk /\
     w_drain_requested wk' = w_drain_requested wk /\
     (k <> hb_worker_id req \/ w_epoch wk <> hb_epoch req -> wk' = wk)) /\
  (forall k j, jobs d !! k = Some j -> jobs d' !! k = Some j \/
     (k = string_of_ptr (hb_current_job_id req) /\ j_assignment_epoch j = Some (hb_epoch req) /\
      j_status j = ASSIGNED /\ exists t,
      jobs d' !! k = Some (j_set_started_at (Some t) (j_set_status RUNNING j)))).

Lemma heartbeat_effect_refl req d : heartbeat_effect req d d.
Proof. split; [|by auto]. intros k wk Hk. exists wk. by split_and!. Qed.

Lemma heartbeat_effect_row req d d1 w1 cj s e :
  heartbeat_effect req d d1 -> workers d1 !! hb_worker_id req = Some w1 ->
  w_epoch w1 = hb_epoch req ->
  let w' := w_set_updated_at (pg_now e) (w_set_last_heartbeat (Some (pg_now e))
              (w_set_current_job cj (w_set_status s w1))) in
  heartbeat_effect req d (set_workers (<[hb_worker_id req := w']> (workers d1)) d1).
Proof.
  intros [HW HJ] Hw1 He w'. split; [|exact HJ]. intros k wk Hk.
  destruct (HW k wk Hk) as (wk1 & Hk1 & E1 & E2 & E3 & E4). simpl.
  destruct (decide (hb_worker_id req = k)) as [<-|Hne].
  - rewrite lookup_insert_eq. exists w'. simplify_eq. split_and!; try done.
    intros [?|?]; [done|]. simpl in *. congruence.
  - rewrite lookup_insert_ne by done. eauto 10.
Qed.

Lemma heartbeat_effect_running req d d1 j1 t :
  heartbeat_effect req d d1 ->
  let k := string_of_ptr (hb_current_job_id req) in
  jobs d1 !! k = Some j1 -> j_assignment_epoch j1 = Some (hb_epoch req) -> j_status j1 = ASSIGNED ->
  heartbeat_effect req d
    (set_jobs (<[k := j_set_started_at (Some t) (j_set_status RUNNING j1)]> (jobs d1)) d1).
Proof.
  intros [HW HJ] k Hj1 He Hs. split; [exact HW|]. intros k' j Hj. simpl.
  destruct (decide (k = k')) as [<-|Hne].
  - rewrite lookup_insert_eq. destruct (HJ k j Hj) as [E|(_ & _ & _ & t' & E)]; [|by simplify_eq].
    right. simplify_eq. eauto 10.
  - rewrite lookup_insert_ne by done. auto.
Qed.

Lemma heartbeat_call_effect `{Redis} req d {X} (c : call X) e w :
  heartbeat_call req c -> heartbeat_effect req d (w_db w) ->
  heartbeat_effect req d (w_db (handle c e w).2).
Proof.
  intros Hc HI. destruct c as [B c| | | |]; try (by rewrite handle_not_pg_db).
  destruct (handle_pg_db c e w) as [->| ->]; [done|].
  pose proof (reads_only_pg c) as Hr.
  destruct c; try done; try (by rewrite Hr); simpl in *; destruct Hc as [-> ->].
  - match goal with |- context [UpdateHeartbeatRow ?a ?b ?s ?cj e ?d1] =>
      destruct (UpdateHeartbeatRow_cases a b s cj e d1) as [(r & -> & _)|(st & w1 & _ & Hw & He & _ & ->)] end;
      [done|]. by apply heartbeat_effect_row.
  - match goal with |- context [MarkRunning ?a ?b e ?d1] =>
      destruct (MarkRunning_cases a b e d1) as [->|(j & Hj & He & Hs & ->)] end; [done|].
    by apply heartbeat_effect_running.
Qed.

(** C17: heartbeats are fenced in Postgres too, so a wrong or missing cache
    entry cannot do harm.  For every content of Redis and every fault, a
    heartbeat leaves capacity, epoch and drain request of all workers alone;
    it changes no row but its own worker's, and that only when the row's epoch
    is the one it carries; and the only job it can touch is the one it names,
    from ASSIGNED under that same epoch to RUNNING. *)
Theorem heartbeat_writes_are_fenced `{Redis} s req o w :
  heartbeat_effect req (w_db w) (w_db (run (handleHeartbeat s req) o w).2).
Proof.
  apply (run_preserves (@heartbeat_call req) (fun w' => heartbeat_effect req (w_db w) (w_db w'))).
  - apply handleHeartbeat_calls.
  - intros X c e w'. apply heartbeat_call_effect.
  - apply heartbeat_effect_refl.
Qed.

(** ** Job results *)

#[local] Arguments run : simpl never.

(** The row after an accepted report. *)
Definition reported_row (e : env) (req : ReportJobResultRequest) (j : job_row) : job_row :=
  if decide (jobStatusToDB (rr_status req) = "FAILED") then after_failure e (rr_log_ref req) j
  else j_set_finished (Some (pg_now e)) (ptr_of_string (rr_log_ref req))
         (j_set_status (if decide (jobStatusToDB (rr_status req) = "SUCCESS") then SUCCESS
                        else CANCELLED) j).

(** What recording the result does to the database. *)
Lemma record_result_run `{Redis} req o w j :
  wf_db (w_db w) -> env_fault (o 0%nat) = NoFault -> jobs (w_db w) !! j_id j = Some j ->
  (forall k, j_worker_id j = Some k -> is_Some (workers (w_db w) !! k)) ->
  let '(r, w') := run (record_result (scanJobRow j) req) o w in
  if report_guard (j_created_at j) (rr_assignment_epoch req) j
  then r = Ok (true, job_status_text (j_status (reported_row (o 0%nat) req j))) /\
       workers (w_db w') = workers (w_db w) /\
       jobs (w_db w') = <[j_id j := reported_row (o 0%nat) req j]> (jobs (w_db w))
  else (exists s, r = Ok (false, s)) /\ w_db w' = w_db w.
Proof.
  intros Hwf Ho Hj Hw. unfold record_result, reported_row. case_decide as Hf.
  - unfold pgc, trigger. cbn [bind]. rewrite run_pg by done. cbn [exec_pg scanJobRow J_ID J_CreatedAt J_WorkerID].
    destruct (report_guard _ _ j) eqn:Hg.
    + rewrite (RetryOrFail_accepts _ _ _ _ _ _ _ _ _ Hwf Hw Hj Hg). done.
    + unfold RetryOrFail. run_stmt. rewrite Hj, Hg. split; [by eexists|done].
  - unfold pgc, trigger. cbn [bind]. rewrite run_pg by done. cbn [exec_pg scanJobRow J_ID J_CreatedAt J_WorkerID].
    assert (Hs : job_status_of_text (jobStatusToDB (rr_status req)) =
      Ok (if decide (jobStatusToDB (rr_status req) = "SUCCESS") then SUCCESS else CANCELLED) /\
      jobStatusToDB (rr_status req) =
      job_status_text (if decide (jobStatusToDB (rr_status req) = "SUCCESS") then SUCCESS else CANCELLED)).
    { destruct (jobStatusToDB_final (rr_status req) Hf) as [-> | ->]; done. }
    destruct Hs as [Hs1 Hs2]. unfold Complete. rewrite Hs1. run_stmt.
    unfold update_job, update_where. rewrite Hj. destruct (report_guard _ _ j) eqn:Hg; cbn.
    + split; [by rewrite <- Hs2|done].
    + rewrite set_jobs_id. split; [by eexists|done].
Qed.

(** The row after the worker's slot was given back. *)
Definition freed_row (e : env) (w : worker_row) : worker_row :=
  w_set_updated_at (pg_now e) (w_set_available_capacity
    (Z.min (w_available_capacity w + 1) (w_capacity_slots w))
    (w_set_current_job None (w_set_status (if w_drain_requested w then DRAINING else READY) w))).

(** After an accepted report: the answer, and the one Postgres call. *)
Lemma finish_report_run `{Redis} job epoch s o w :
  env_fault (o 0%nat) = NoFault ->
  let '(r, w') := run (finish_report job epoch s) o w in
  r = Reply (mkReportJobResultResponse true false) /\
  w_db w' = match J_WorkerID job with
            | Some k => (FreeWorker k epoch (o 0%nat) (w_db w)).2
            | None => w_db w
            end.
Proof.
  intros Ho. pose proof (events_trace (finish_report job epoch s) o w) as Ht.
  destruct (run (finish_report job epoch s) o w) as [r w'] eqn:E. cbn [fst snd] in *. split.
  - unfold finish_report in Ht. do 3 (apply trace_bind in Ht as (? & ? & ? & _ & _ & Ht)).
    by destruct Ht as [_ ->].
  - change w' with ((r, w').2). rewrite <- E. unfold finish_report.
    assert (Htail : all_calls (@not_pg)
      (trigger (MetricInc "fleetforge_jobs_completed_total" s) >>
       (match J_StartedAt job with
        | Some t => if decide (s <> "RETRYING") then
                      let! now := trigger TimeNow in
                      trigger (MetricObserve "fleetforge_job_duration_seconds" (now - t))
                    else Ret tt
        | None => Ret tt end) >>
       Ret (Reply (mkReportJobResultResponse true false)))).
    { simpl. split; [done|]. intros _. apply all_calls_bind; [|done].
      destruct (J_StartedAt job); [|done]. case_decide; simpl; auto. }
    destruct (J_WorkerID job) as [k|]; [|by rewrite run_not_pg_db].
    unfold free_worker, pgc, trigger. cbn [bind]. rewrite run_pg by done.
    rewrite run_not_pg_db; [done|]. apply all_calls_bind; [|done].
    repeat case_match; simpl; auto.
Qed.

Lemma holder_known d k j :
  wf_db d -> jobs d !! k = Some j ->
  forall wid, j_worker_id j = Some wid -> is_Some (workers d !! wid).
Proof.
  intros Hwf Hj wid Hw. destruct (wf_jobs d Hwf _ _ Hj) as [_ _ _ _ _ Hst].
  assert (assigned_to (workers d) j) as (wid' & w & ep & Hw' & _ & Hk & _).
  { unfold status_wf, unassigned in Hst. destruct (j_status j); destruct Hst as [Hst _]; try done;
      destruct Hst; congruence. }
  simplify_eq. eauto.
Qed.

Lemma FreeWorker_jobs k ep e d : jobs (FreeWorker k ep e d).2 = jobs d.
Proof. destruct (FreeWorker_cases k ep e d) as [[-> _]|(w & _ & _ & ->)]; done. Qed.

Lemma FreeWorker_workers k ep e d ws wk :
  workers d = ws -> ws !! k = Some wk ->
  workers (FreeWorker k ep e d).2 =
  if w_epoch wk =? ep then <[k := freed_row e wk]> ws else ws.
Proof.
  intros <- Hk. destruct (FreeWorker_cases k ep e d) as [[-> Hno]|(w & Hw & He & ->)].
  - specialize (Hno _ Hk). by rewrite (proj2 (Z.eqb_neq _ _)).
  - simplify_eq. by rewrite Z.eqb_refl.
Qed.

Lemma reported_row_lifecycle d k j e req :
  wf_db d -> jobs d !! k = Some j -> job_active (j_status j) = true ->
  job_active (j_status (reported_row e req j)) = false /\
  lifecycle (abs_job j) (abs_job (reported_row e req j)).
Proof.
  intros Hwf Hj Ha. unfold reported_row. case_decide as Hf.
  - assert (Hn : job_active (j_status (after_failure e (rr_log_ref req) j)) = false).
    { unfold after_failure. by case_match. }
    split; [done|]. destruct (after_failure_wf d k j e (rr_log_ref req) Hwf Hj Ha) as [_ Hev].
    destruct Hev as (_ & _ & _ & _ & _ & _ & _ & _ & _ & _ & [E|Hl]); [congruence|done].
  - destruct (active_assigned _ _ _ Hwf Hj Ha) as ((wid & w & ep & Hw & He & _) & _ & _).
    case_decide; (split; [done|]); (eapply L_finish; [by apply active_held|auto]).
Qed.

(** What a report about the existing job [j] does. *)
Definition report_outcome `{Redis} (req : ReportJobResultRequest) (o : oracle) (w : world)
    (j : job_row) : Prop :=
  let '(r, w') := run (ReportJobResult req) o w in
  if report_guard (j_created_at j) (rr_assignment_epoch req) j
  then r = Reply (mkReportJobResultResponse true false) /\
       jobs (w_db w') = <[rr_job_id req := reported_row (o 1%nat) req j]> (jobs (w_db w)) /\
       job_active (j_status (reported_row (o 1%nat) req j)) = false /\
       lifecycle (abs_job j) (abs_job (reported_row (o 1%nat) req j)) /\
       (forall k wk, j_worker_id j = Some k -> workers (w_db w) !! k = Some wk ->
          exists e, workers (w_db w') = if w_epoch wk =? rr_assignment_epoch req
                    then <[k := freed_row e wk]> (workers (w_db w)) else workers (w_db w))
  else r = Reply (mkReportJobResultResponse true true) /\ w_db w' = w_db w.

Lemma ReportJobResult_outcome `{Redis} req o w j :
  wf_db (w_db w) -> pg_reliable o -> rr_job_id req <> "" ->
  jobs (w_db w) !! rr_job_id req = Some j -> report_outcome req o w j.
Proof.
  unfold report_outcome.
  intros Hwf Ho Hid Hj. assert (Hjid : j_id j = rr_job_id req) by by destruct (wf_jobs _ Hwf _ _ Hj).
  unfold ReportJobResult. rewrite decide_False by done. unfold pgc, trigger. cbn [bind].
  rewrite run_pg by apply Ho. cbn [exec_pg]. unfold GetJobRow at 1 2. rewrite Hj. cbn [fst snd].
  match goal with |- context [run (bind ?p ?f) ?o1 ?w1] =>
    destruct (events_bind p f o1 w1) as (n & -> & _);
    pose proof (record_result_run req o1 w1 j Hwf (Ho _)) as Hrec;
    destruct (run p o1 w1) as [r w2] eqn:Er end.
  rewrite Hjid in Hrec. specialize (Hrec Hj (holder_known _ _ _ Hwf Hj)). cbn [fst snd].
  destruct (report_guard _ _ j) eqn:Hg.
  - destruct Hrec as (-> & Hws & Hjs). cbn [w_db] in Hws, Hjs. change (later o 1 0%nat) with (o 1%nat) in Hjs.
    match goal with |- context [run (finish_report ?a ?b ?c) ?o2 w2] =>
      pose proof (finish_report_run a b c o2 w2 (pg_reliable_later _ _ (pg_reliable_later _ _ Ho) _)) as Hfin;
      destruct (run (finish_report a b c) o2 w2) as [r w'] end.
    destruct Hfin as [-> Hdb]. cbn [scanJobRow J_WorkerID] in Hdb.
    pose proof (proj1 (report_guard_spec _ _ _) Hg) as (_ & _ & Ha).
    destruct (reported_row_lifecycle _ _ _ (o 1%nat) req Hwf Hj Ha) as [Hna Hl].
    split; [done|]. split; [|split; [done|split; [done|]]].
    + rewrite Hdb, <- Hjs. case_match; [|done]. by rewrite FreeWorker_jobs.
    + intros k wk Hk Hwk. rewrite Hk in Hdb. eexists. rewrite Hdb. by apply FreeWorker_workers.
  - destruct Hrec as ([s ->] & Hdb). cbn in Hdb. done.
Qed.

(** C19: ReportJobResult when Postgres answers.  The report is accepted exactly
    when the job is ASSIGNED or RUNNING under the report's assignment epoch.
    Then the job leaves its holder along the lifecycle (SUCCESS or CANCELLED
    as reported, RETRYING or FAILED by the retry budget for everything else),
    no other job changes, and the holder gets one slot back if it is still at
    that epoch.  Any other report is acknowledged as discarded and changes
    nothing. *)
Theorem ReportJobResult_spec `{Redis} req o w j :
  wf_db (w_db w) -> pg_reliable o -> rr_job_id req <> "" ->
  jobs (w_db w) !! rr_job_id req = Some j -> report_outcome req o w j.
Proof. apply ReportJobResult_outcome. Qed.

Definition report_success : ReportJobResultRequest :=
  mkReportJobResultRequest "j-1" 1 JOB_STATUS_SUCCESS 0 "log-1" "".

Lemma ReportJobResult_spec_witness :
  report_guard (j_created_at (job_of running_world)) 1 (job_of running_world) = true /\
  (run (ReportJobResult report_success) (calm 6 "") running_world).1 =
    Reply (mkReportJobResultResponse true false).
Proof.
  split; [vm_compute; reflexivity|].
  pose proof (ReportJobResult_spec report_success (calm 6 "") running_world (job_of running_world)) as H.
  unfold report_outcome in H. destruct (run (ReportJobResult report_success) (calm 6 "") running_world) as [r w'].
  assert (E : report_guard (j_created_at (job_of running_world)) (rr_assignment_epoch report_success)
                (job_of running_world) = true) by (vm_compute; reflexivity).
  rewrite E in H. apply H.
  - apply (reachable_good ([], running_world) running_reachable).
  - intros n. reflexivity.
  - discriminate.
  - vm_compute. reflexivity.
Defined.

(** Delivering a result twice is harmless.  Whenever a report was
    acknowledged, accepted or not, the same report delivered again is
    acknowledged as discarded and changes nothing: the job keeps the first
    outcome and its worker's capacity is not freed twice. *)
Theorem report_is_idempotent `{Redis} req o1 o2 w w1 resp :
  wf_db (w_db w) -> pg_reliable o1 -> pg_reliable o2 ->
  run (ReportJobResult req) o1 w = (Reply resp, w1) ->
  let '(r2, w2) := run (ReportJobResult req) o2 w1 in
  r2 = Reply (mkReportJobResultResponse true true) /\ w_db w2 = w_db w1.
Proof.
  intros Hwf Ho1 Ho2 E1.
  assert (Hid : rr_job_id req <> "").
  { intros E. unfold ReportJobResult in E1. by rewrite decide_True in E1. }
  assert (Hwf1 : wf_db (w_db w1)).
  { change w1 with ((Reply resp, w1).2). rewrite <- E1.
    apply (run_preserves (@call_ok) (fun w => wf_db (w_db w))); [apply ReportJobResult_ok| |done].
    intros X c e w' Hc Hw'. by apply handle_sound. }
  destruct (jobs (w_db w) !! rr_job_id req) as [j|] eqn:Hj.
  - pose proof (ReportJobResult_outcome req o1 w j Hwf Ho1 Hid Hj) as H1.
    unfold report_outcome in H1. rewrite E1 in H1.
    destruct (report_guard _ _ j) eqn:Hg.
    + destruct H1 as (_ & Hjs & Hna & _).
      pose proof (ReportJobResult_outcome req o2 w1 (reported_row (o1 1%nat) req j) Hwf1 Ho2 Hid) as H2.
      unfold report_outcome in H2.
      rewrite Hjs, lookup_insert_eq in H2. specialize (H2 eq_refl).
      assert (Hg2 : forall t ep, report_guard t ep (reported_row (o1 1%nat) req j) = false).
      { intros t ep. unfold report_guard. by rewrite Hna, andb_false_r. }
      rewrite Hg2 in H2. exact H2.
    + destruct H1 as (_ & Hd). rewrite <- Hd in Hj, Hwf.
      pose proof (ReportJobResult_outcome req o2 w1 j Hwf Ho2 Hid Hj) as H2.
      unfold report_outcome in H2.
      rewrite Hg in H2. exact H2.
  - exfalso. unfold ReportJobResult in E1. rewrite decide_False in E1 by done.
    unfold pgc, trigger in E1. cbn [bind] in E1. rewrite run_pg in E1 by apply Ho1.
    cbn [exec_pg] in E1. unfold GetJobRow in E1. rewrite Hj in E1. done.
Qed.

Lemma report_is_idempotent_witness :
  (run (ReportJobResult report_success) (calm 6 "") running_world).1 =
    Reply (mkReportJobResultResponse true false) /\
  let '(r2, w2) := run (ReportJobResult report_success) (calm 7 "")
                     (run (ReportJobResult report_success) (calm 6 "") running_world).2 in
  r2 = Reply (mkReportJobResultResponse true true) /\
  w_db w2 = w_db (run (ReportJobResult report_success) (calm 6 "") running_world).2.
Proof.
  assert (E : (run (ReportJobResult report_success) (calm 6 "") running_world).1 =
    Reply (mkReportJobResultResponse true false)) by (vm_compute; reflexivity).
  split; [exact E|].
  apply (report_is_idempotent report_success (calm 6 "") (calm 7 "") running_world
           (run (ReportJobResult report_success) (calm 6 "") running_world).2
           (mkReportJobResultResponse true false)).
  - apply (reachable_good ([], running_world) running_reachable).
  - intros n. reflexivity.
  - intros n. reflexivity.
  - rewrite <- E. apply surjective_pairing.
Defined.
