(* ===== verification/AutoscalerProps.v ===== *)
(** * What the autoscaler guarantees *)
From S2P Require Import Prelude GoStrings Float64 Database WorkerStore JobStore Lifecycle.
From S2P Require Import Invariant StoreSound Redis Effects Stores Loop Reaper RetryPoller.
From S2P Require Import GrpcServer Autoscaler Api System Scenario StoreProps SchedulerProps.
Local Open Scope Z_scope.

(** ** The decision *)

Lemma div_above_five q f :
  0 < f < 2 ^ 31 -> 5 * f < q -> f64_of_int 5 < f64_div q f.
Proof.
  intros Hf Hq.
  assert (H : f64_div (5 * f + 1) f <= f64_div q f) by (apply f64_div_mono; nia).
  enough (f64_of_int 5 < f64_div (5 * f + 1) f) by lia. clear H Hq q.
  unfold f64_div, f64_of_int. rewrite Z.sgn_pos, Z.mul_1_l, Z.abs_eq by lia.
  set (n := (5 * f + 1) * f64_unit).
  assert (Hu : ulp n f = 2 ^ 33).
  { unfold ulp. replace (Z.log2 (n / f)) with 85; [done|]. symmetry.
    apply Z.log2_unique; [done|]. unfold n, f64_unit.
    split; [apply Z.div_le_lower_bound|apply Z.div_lt_upper_bound]; lia. }
  pose proof (round53_error n f) as He. rewrite Hu in He. unfold n, f64_unit in *. nia.
Qed.

(** the float64 thresholds of the default configuration decide exactly.
    For a queue of q jobs and a fleet of f workers (below 2^26) the scale-up
    condition queuedPerWorker > 5 holds iff q > 5 f, and the scale-down
    condition queuedPerWorker < 1 iff q < f: rounding never flips a decision. *)
Theorem default_thresholds_exact q f :
  0 <= q <= max_int32 -> 0 < f < 2 ^ 26 ->
  let cfg := DefaultAutoscalerConfig in
  (ScaleUpThresholdPerWorker cfg <? queuedPerWorker cfg q f) = (5 * f <? q) /\
  (queuedPerWorker cfg q f <? ScaleDownThresholdPerWorker cfg) = (q <? f).
Proof.
  intros Hq Hf cfg. unfold queuedPerWorker. rewrite (proj2 (Z.ltb_lt 0 f)) by lia.
  unfold cfg, DefaultAutoscalerConfig. cbn [ScaleUpThresholdPerWorker ScaleDownThresholdPerWorker].
  split.
  - apply eq_iff_eq_true. rewrite !Z.ltb_lt. split.
    + intros H. destruct (Z.lt_ge_cases (5 * f) q) as [|Hge]; [done|].
      pose proof (f64_div_mono q f 5 1). replace (f64_div 5 1) with (f64_of_int 5) in * by done. lia.
    + intros H. apply div_above_five; lia.
  - apply eq_iff_eq_true. rewrite !Z.ltb_lt. split.
    + intros H. destruct (Z.lt_ge_cases q f) as [|Hge]; [done|].
      pose proof (f64_div_mono 1 1 q f). replace (f64_div 1 1) with (f64_of_int 1) in * by done. lia.
    + intros H. replace (f64_of_int 1) with (f64_div 1 1) by done. apply f64_div_strict; lia.
Qed.

Lemma default_thresholds_exact_witness :
  (f64_of_int 5 <? queuedPerWorker DefaultAutoscalerConfig 16 3) = true /\
  (ScaleUpThresholdPerWorker DefaultAutoscalerConfig <?
     queuedPerWorker DefaultAutoscalerConfig 16 3) = (5 * 3 <? 16) /\
  (queuedPerWorker DefaultAutoscalerConfig 16 3 <?
     ScaleDownThresholdPerWorker DefaultAutoscalerConfig) = (16 <? 3).
Proof.
  split; [vm_compute; reflexivity|].
  apply (default_thresholds_exact 16 3); unfold max_int32; lia.
Defined.

(** ** The trend window *)
Lemma non_decreasing_sorted l : non_decreasing l = true <-> Sorted Z.le l.
Proof.
  induction l as [|a l IH]; [split; [constructor|done]|].
  destruct l as [|b l]; [split; [repeat constructor|done]|].
  change (non_decreasing (a :: b :: l)) with (if b <? a then false else non_decreasing (b :: l)).
  destruct (Z.ltb_spec b a).
  - split; [done|]. intros Hs. inversion Hs as [|? ? _ Hh]; subst. inversion Hh; subst. lia.
  - rewrite IH. split.
    + intros. constructor; [done|]. by constructor.
    + intros Hs. by inversion Hs.
Qed.

Lemma recordSample_window cfg l d :
  1 <= TrendWindowSamples cfg ->
  let W := Z.to_nat (TrendWindowSamples cfg) in
  recordSample cfg d (drop (length l - W) l) = drop (length (l ++ [d]) - W) (l ++ [d]).
Proof.
  intros HW W. unfold recordSample. rewrite !length_app, length_drop. simpl.
  destruct (Z.ltb_spec (TrendWindowSamples cfg)
    (Z.of_nat (length l - (length l - W) + 1))) as [Hlt|Hge].
  - assert (Hl : (W <= length l)%nat) by lia.
    replace (Z.to_nat _) with 1%nat by lia.
    rewrite <- (drop_app_le l [d] (length l - W)) by lia. rewrite drop_drop. f_equal. lia.
  - replace (length l - W)%nat with 0%nat by lia. replace (length l + 1 - W)%nat with 0%nat by lia.
    done.
Qed.

(** the trend test looks at exactly the last [TrendWindowSamples] depths.
    After any history of recorded queue depths, the trend is judged flat or
    rising iff that many samples exist and the most recent ones are in
    non-decreasing order. *)
Theorem trend_is_over_last_samples cfg (depths : list Z) :
  1 <= TrendWindowSamples cfg ->
  let W := Z.to_nat (TrendWindowSamples cfg) in
  let window := foldl (fun s d => recordSample cfg d s) [] depths in
  window = drop (length depths - W) depths /\
  (trendIsFlatOrRising cfg window = true <->
   (W <= length depths)%nat /\ Sorted Z.le (drop (length depths - W) depths)).
Proof.
  intros HW W window.
  assert (E : window = drop (length depths - W) depths).
  { unfold window. induction depths as [|d l IH] using rev_ind; [done|].
    rewrite foldl_app. simpl. rewrite IH. by apply recordSample_window. }
  split; [done|]. rewrite E. unfold trendIsFlatOrRising. rewrite length_drop.
  destruct (Z.ltb_spec (Z.of_nat (length depths - (length depths - W))) (TrendWindowSamples cfg)).
  - split; [done|]. lia.
  - rewrite non_decreasing_sorted. split; [|tauto]. intros. split; [lia|done].
Qed.

Lemma trend_is_over_last_samples_witness :
  trendIsFlatOrRising DefaultAutoscalerConfig
    (foldl (fun s d => recordSample DefaultAutoscalerConfig d s) [] [9; 2; 4; 4]) = true /\
  (trendIsFlatOrRising DefaultAutoscalerConfig
     (foldl (fun s d => recordSample DefaultAutoscalerConfig d s) [] [9; 2; 4; 4]) = true <->
   (3 <= 4)%nat /\ Sorted Z.le [2; 4; 4]).
Proof.
  split; [vm_compute; reflexivity|].
  apply (trend_is_over_last_samples DefaultAutoscalerConfig [9; 2; 4; 4]). simpl. lia.
Defined.

(** ** One tick *)

Definition is_drain_request (ev : event) : bool :=
  match ev_call ev with
  | Pg c => match c with PgRequestDrain _ => true | _ => false end
  | _ => false
  end.

(** The clock reading of the tick. *)
Definition clock_reading (ev : event) : option Z :=
  match ev_call ev in call X return X -> option Z with
  | TimeNow => fun t => Some t
  | _ => fun _ => None
  end (ev_reply ev).

Lemma doScaleDown_trace now a tr a' :
  trace (doScaleDown now a) tr a' ->
  queueDepthSamples a' = queueDepthSamples a /\ lastScaleUp a' = lastScaleUp a /\
  (lastScaleDown a' = lastScaleDown a \/
   (lastScaleDown a' = Some now /\ existsb is_drain_request tr = true)) /\
  (length (filter (fun ev => is_drain_request ev = true) tr) <= 1)%nat.
Proof.
  unfold doScaleDown, pgc, trigger. cbn [bind]. intros (rc & t1 & -> & H).
  destruct rc as [c|]; [|destruct H as [-> ->]; cbn; auto 10].
  case_decide; [destruct H as [-> ->]; cbn; auto 10|].
  cbn [bind] in H. destruct H as (rd & t2 & -> & H).
  destruct rd as [[res|]|]; try (destruct H as [-> ->]; cbn; auto 10).
  destruct H as (? & t3 & -> & ? & t4 & -> & -> & ->). cbn. auto 10.
Qed.

(** one tick of the autoscaler, for arbitrary replies of its
    environment.  It takes at most one action: it never scales up and down in
    the same tick and requests at most one drain.  A scale-up is only recorded
    when the trend over a full window is flat or rising and the scale-up
    cooldown has passed since the previous one; a drain is only requested when
    the scale-down cooldown has passed since the previous successful one, and
    only then is a new scale-down time recorded. *)
Theorem autoscaler_respects_cooldowns cfg a tr a' :
  trace (autoscale_tick cfg a) tr a' ->
  (lastScaleUp a' = lastScaleUp a \/
   exists now, lastScaleUp a' = Some now /\ now ∈ omap clock_reading tr /\
     ScaleUpCooldown cfg <= time_sub now (lastScaleUp a) /\
     trendIsFlatOrRising cfg (queueDepthSamples a') = true /\
     lastScaleDown a' = lastScaleDown a /\ existsb is_drain_request tr = false) /\
  (existsb is_drain_request tr = true ->
   exists now, now ∈ omap clock_reading tr /\
     ScaleDownCooldown cfg <= time_sub now (lastScaleDown a) /\
     (lastScaleDown a' = lastScaleDown a \/ lastScaleDown a' = Some now)) /\
  (existsb is_drain_request tr = false -> lastScaleDown a' = lastScaleDown a) /\
  (length (filter (fun ev => is_drain_request ev = true) tr) <= 1)%nat.
Proof.
  unfold autoscale_tick, pgc, trigger. cbn [bind]. intros (rq & t1 & -> & H).
  destruct rq as [q|]; [|by destruct H as [-> ->]; cbn; split_and!; auto].
  cbn [bind] in H. destruct H as (rs & t2 & -> & H).
  destruct rs as [m|]; [|by destruct H as [-> ->]; cbn; split_and!; auto].
  cbn [bind] in H. destruct H as (now & t3 & -> & [] & t4 & -> & H).
  set (a1 := mkAutoscaler (recordSample cfg (total_queued q) (queueDepthSamples a))
               (lastScaleUp a) (lastScaleDown a)) in *.
  set (act := decide_action cfg a1 _ _ _ _) in *.
  assert (Hact : match act with
    | ActionScaleUp => trendIsFlatOrRising cfg (queueDepthSamples a1) = true /\
                       ScaleUpCooldown cfg <= time_sub now (lastScaleUp a)
    | ActionScaleDown => ScaleDownCooldown cfg <= time_sub now (lastScaleDown a)
    | ActionHold => True end).
  { unfold act, decide_action. destruct (_ && _ && _) eqn:E1.
    - rewrite !andb_true_iff in E1. destruct E1 as [[_ ?] ?%Z.leb_le]. done.
    - destruct (_ && _ && _) eqn:E2 in |- *; [|done].
      rewrite !andb_true_iff in E2. by destruct E2 as [_ ?%Z.leb_le]. }
  clearbody act. destruct act.
  - destruct H as [-> ->]. cbn. by split_and!; auto.
  - destruct H as [-> ->]. cbn. destruct Hact. split; [right|by split_and!; auto].
    exists now. split_and!; try done. left.
  - apply doScaleDown_trace in H as (_ & Hup & Hdown & Hlen).
    change (omap clock_reading _) with (now :: omap clock_reading t4).
    change (existsb is_drain_request _) with (existsb is_drain_request t4).
    change (filter (fun ev => is_drain_request ev = true) _)
      with (filter (fun ev => is_drain_request ev = true) t4).
    split; [by left|]. split; [|split; [|done]].
    + intros _. exists now. split_and!; [left|done|]. destruct Hdown as [?|[? _]]; auto.
    + intros Hno. destruct Hdown as [?|[_ E]]; [done|congruence].
Qed.

Definition idle_tick : prog Autoscaler := autoscale_tick DefaultAutoscalerConfig NewAutoscaler.

Lemma autoscaler_respects_cooldowns_witness :
  existsb is_drain_request (events idle_tick (calm 9 "") idle_world) = true /\
  exists now, now ∈ omap clock_reading (events idle_tick (calm 9 "") idle_world) /\
    ScaleDownCooldown DefaultAutoscalerConfig <= time_sub now (lastScaleDown NewAutoscaler) /\
    (lastScaleDown (run idle_tick (calm 9 "") idle_world).1 = lastScaleDown NewAutoscaler \/
     lastScaleDown (run idle_tick (calm 9 "") idle_world).1 = Some now).
Proof.
  assert (E : existsb is_drain_request (events idle_tick (calm 9 "") idle_world) = true)
    by (vm_compute; reflexivity).
  split; [exact E|].
  destruct (autoscaler_respects_cooldowns DefaultAutoscalerConfig NewAutoscaler
    (events idle_tick (calm 9 "") idle_world) (run idle_tick (calm 9 "") idle_world).1
    (events_trace idle_tick (calm 9 "") idle_world)) as (_ & H & _).
  exact (H E).
Defined.

(** ** Scale-down *)

#[global] Instance registered_before_trans : Transitive registered_before.
Proof. intros x y z. unfold registered_before. lia. Qed.
#[global] Instance registered_before_total : Total registered_before.
Proof. intros x y. unfold registered_before. lia. Qed.

Lemma PickDrainCandidate_spec e d :
  wf_db d ->
  (PickDrainCandidate e d = (Ok "", d) /\
   forall k w, workers d !! k = Some w -> drainable w = false) \/
  (exists k w, PickDrainCandidate e d = (Ok k, d) /\ workers d !! k = Some w /\
     drainable w = true /\
     forall k' w', workers d !! k' = Some w' -> drainable w' = true ->
       w_registered_at w <= w_registered_at w').
Proof.
  intros Hwf. unfold PickDrainCandidate.
  pose proof (StronglySorted_merge_sort registered_before
    (select_where drainable e (workers d))) as Hs.
  assert (Hin : forall w, w ∈ merge_sort registered_before (select_where drainable e (workers d)) <->
    drainable w = true /\ exists k, workers d !! k = Some w).
  { intros w. by rewrite merge_sort_Permutation, elem_of_select_where. }
  destruct (merge_sort _ _) as [|w l].
  - left. split; [done|]. intros k w Hk. apply not_true_iff_false. intros Hd.
    apply (not_elem_of_nil w), Hin. eauto.
  - right. destruct (proj1 (Hin w) ltac:(left)) as [Hd [k Hk]].
    exists k, w. assert (w_id w = k) as -> by apply (wf_workers d Hwf _ _ Hk). split_and!; try done.
    intros k' w' Hk' Hd'.
    assert (Hw' : w' ∈ w :: l) by (apply Hin; eauto). apply elem_of_cons in Hw' as [->|Hw']; [lia|].
    apply StronglySorted_cons in Hs as [Hs _]. rewrite list.Forall_forall in Hs. by apply Hs.
Qed.

#[local] Arguments run : simpl never.

(** Scaling down takes out one idle worker.  When Postgres answers, the
    scale-down step drains the longest-registered worker among those that are
    READY with every slot free and not already asked to drain: no running job
    is affected, the worker goes to DRAINING, no other row changes, and the
    time is recorded.  When no worker qualifies nothing changes and the
    cooldown is not started. *)
Theorem scale_down_drains_an_idle_worker `{Redis} now a o w :
  wf_db (w_db w) -> pg_reliable o -> workers (w_db w) !! "" = None ->
  let '(a', w') := run (doScaleDown now a) o w in
  (a' = a /\ w_db w' = w_db w /\
   forall k wk, workers (w_db w) !! k = Some wk -> drainable wk = false) \/
  (exists k wk, workers (w_db w) !! k = Some wk /\ drainable wk = true /\
     (forall k' wk', workers (w_db w) !! k' = Some wk' -> drainable wk' = true ->
        w_registered_at wk <= w_registered_at wk') /\
     a' = mkAutoscaler (queueDepthSamples a) (lastScaleUp a) (Some now) /\
     jobs (w_db w') = jobs (w_db w) /\
     workers (w_db w') = <[k := w_set_updated_at (pg_now (o 1%nat))
       (w_set_drain_requested true (w_set_status DRAINING wk))]> (workers (w_db w))).
Proof.
  intros Hwf Ho Hne. unfold doScaleDown, pgc, trigger. cbn [bind]. rewrite run_pg by apply Ho.
  cbn [exec_pg].
  destruct (PickDrainCandidate_spec (o 0%nat) (w_db w) Hwf)
    as [[-> Hno]|(k & wk & -> & Hk & Hd & Hmin)]; cbn [fst snd].
  - left. by destruct w.
  - rewrite decide_False by congruence. unfold pgc, trigger. cbn [bind].
    rewrite run_pg by apply Ho. cbn [exec_pg w_db].
    assert (Hst : w_status wk = READY).
    { unfold drainable in Hd. rewrite !andb_true_iff in Hd. destruct Hd as [[Hd _] _].
      by apply bool_decide_eq_true in Hd. }
    unfold RequestDrain.
    match goal with |- context [drain_update k ?f ?ev ?e _] =>
      destruct (drain_update_cases k f ev e (w_db w)) as [[_ Hg]|(wk' & Hk' & _ & E)] end.
    { specialize (Hg wk Hk). by rewrite Hst in Hg. }
    simplify_eq. rewrite E. cbn [fst snd].
    match goal with |- context [run ?p ?o2 ?w2] =>
      pose proof (events_trace p o2 w2) as Ht;
      assert (Hdb : w_db (run p o2 w2).2 = w_db w2) by (by apply run_not_pg_db);
      destruct (run p o2 w2) as [a' w'] end.
    cbn in Ht. destruct Ht as (? & ? & _ & ? & ? & _ & _ & ->).
    right. exists k, wk. cbn [fst snd w_db] in Hdb. rewrite Hdb. split_and!; try done.
    cbn. by rewrite Hst.
Qed.

Lemma scale_down_drains_an_idle_worker_witness :
  drainable (worker_of idle_world) = true /\
  let '(a', w') := run (doScaleDown 9 NewAutoscaler) (calm 9 "") idle_world in
  (a' = NewAutoscaler /\ w_db w' = w_db idle_world /\
   forall k wk, workers (w_db idle_world) !! k = Some wk -> drainable wk = false) \/
  (exists k wk, workers (w_db idle_world) !! k = Some wk /\ drainable wk = true /\
     (forall k' wk', workers (w_db idle_world) !! k' = Some wk' -> drainable wk' = true ->
        w_registered_at wk <= w_registered_at wk') /\
     a' = mkAutoscaler [] None (Some 9) /\
     jobs (w_db w') = jobs (w_db idle_world) /\
     workers (w_db w') = <[k := w_set_updated_at (9 * Second)
       (w_set_drain_requested true (w_set_status DRAINING wk))]> (workers (w_db idle_world))).
Proof.
  split; [vm_compute; reflexivity|].
  assert (E : workers (w_db idle_world) !! "" = None) by (vm_compute; reflexivity).
  exact (scale_down_drains_an_idle_worker 9 NewAutoscaler (calm 9 "") idle_world
    (proj2 (reachable_good ([], idle_world) idle_reachable)) (fun n => eq_refl) E).
Defined.
