(* ===== verification/ApiProps.v ===== *)
(** * What the REST handlers guarantee *)
From S2P Require Import Prelude GoStrings Database WorkerStore JobStore Lifecycle Invariant.
From S2P Require Import StoreSound Redis Effects Stores CacheProps Loop Reaper RetryPoller GrpcServer.
From S2P Require Import Autoscaler Api System Scenario StoreProps SchedulerProps.
Local Open Scope Z_scope.

#[local] Arguments run : simpl never.

(** ** SubmitJob *)

Definition submit_params (req : submitJobRequest) (priority : Z) : CreateJobParams :=
  mkCreateJobParams priority (sj_Repository req) (sj_Branch req) (sj_CommitSHA req)
    (sj_Labels req) (sj_RequiredCapabilities req) (sj_MaxRetries req) (sj_IdempotencyKey req).

(** The request passes validation. *)
Definition submit_valid (req : submitJobRequest) : Prop :=
  sj_Repository req <> "" /\ sj_Branch req <> "" /\ sj_CommitSHA req <> "" /\
  is_Some (submit_priority (sj_Priority req)).

(** validation.  A malformed body, a missing repository, branch or commit,
    or a priority outside 0..9 is answered 400 without any call to Postgres or
    Redis; conversely a 400 is only ever sent for those, whatever the stores
    answer, and an omitted priority counts as 5. *)
Theorem submit_validation fmt decoded tr r :
  trace (SubmitJob fmt decoded) tr r ->
  (rsp_status r = StatusBadRequest <->
   match decoded with None => True | Some req => ~ submit_valid req end) /\
  (rsp_status r = StatusBadRequest -> tr = []) /\ submit_priority None = Some 5.
Proof.
  destruct decoded as [req|]; cbn [SubmitJob]; [|intros [-> ->]; by repeat split].
  case_decide as Hm.
  { intros [-> ->]. split; [|done]. split; [|done]. intros _ (H1 & H2 & H3 & _). tauto. }
  destruct (submit_priority (sj_Priority req)) as [p|] eqn:Hp.
  2: { intros [-> ->]. split; [|done]. split; [|done]. intros _ (_ & _ & _ & Hs). rewrite Hp in Hs.
       by destruct Hs. }
  assert (Hv : submit_valid req) by (repeat split; [tauto..|by eauto]).
  intros (tr1 & tr2 & c & -> & _ & H)%trace_bind.
  assert (Hne : rsp_status r <> StatusBadRequest).
  { destruct c as [[job []]|]; try (by destruct H as [_ ->]).
    apply trace_bind in H as (? & ? & ? & _ & _ & H). by destruct H as [_ ->]. }
  split; [|done]. split; [done|]. intros X. by destruct X.
Qed.

Definition urgent_request : submitJobRequest :=
  mkSubmitJobRequest (Some 10) "repo" "main" "abc123" None None 0 "".

Lemma submit_validation_witness :
  rsp_status (writeError StatusBadRequest "invalid_request" "priority must be between 0 and 9") =
    StatusBadRequest <-> ~ submit_valid urgent_request.
Proof.
  apply (submit_validation no_time_format (Some urgent_request) []
    (writeError StatusBadRequest "invalid_request" "priority must be between 0 and 9")).
  cbn. split; reflexivity.
Defined.

(** The lookup by idempotency key. *)
Lemma getByIdempotencyKey_cases key e d :
  (getByIdempotencyKey key e d = (Err ErrJobNotFound, d) /\
   forall k j, jobs d !! k = Some j -> j_idempotency_key j <> Some key) \/
  (exists k j, getByIdempotencyKey key e d = (Ok (scanJobRow j), d) /\ jobs d !! k = Some j /\
     j_idempotency_key j = Some key).
Proof.
  unfold getByIdempotencyKey.
  assert (Hin : forall j, j ∈ merge_sort created_after (select_where
    (fun j => bool_decide (j_idempotency_key j = Some key)) e (jobs d)) <->
    j_idempotency_key j = Some key /\ exists k, jobs d !! k = Some j).
  { intros j. by rewrite merge_sort_Permutation, elem_of_select_where, bool_decide_eq_true. }
  destruct (merge_sort _ _) as [|j l].
  - left. split; [done|]. intros k j Hj Hk. apply (not_elem_of_nil j), Hin. eauto.
  - right. destruct (proj1 (Hin j) ltac:(left)) as [Hk [k Hj]]. eauto.
Qed.

(** The run of a valid request with a key: found, refused by Postgres, or
    inserted and enqueued. *)
Lemma SubmitJob_run `{Redis} fmt req p o w :
  pg_reliable o -> submit_valid req -> submit_priority (sj_Priority req) = Some p ->
  sj_IdempotencyKey req <> "" ->
  let '(r, w') := run (SubmitJob fmt (Some req)) o w in
  let added := omap enqueue_request (events (SubmitJob fmt (Some req)) o w) in
  (exists k j, jobs (w_db w) !! k = Some j /\
     j_idempotency_key j = Some (sj_IdempotencyKey req) /\
     r = mkResponse StatusConflict (BJob (toJobResponse fmt (scanJobRow j))) /\
     w_db w' = w_db w /\ added = []) \/
  ((forall k j, jobs (w_db w) !! k = Some j ->
      j_idempotency_key j <> Some (sj_IdempotencyKey req)) /\
   ((rsp_status r = StatusInternalServerError /\ w_db w' = w_db w /\ added = []) \/
    (let j := inserted_job (submit_params req p) (o 1%nat) in
     r = mkResponse StatusAccepted (BJob (toJobResponse fmt (scanJobRow j))) /\
     jobs (w_db w) !! j_id j = None /\
     w_db w' = set_jobs (<[j_id j := j]> (jobs (w_db w))) (w_db w) /\
     added = [(StreamKey p, message_values (job_message (scanJobRow j)))]))).
Proof.
  intros Ho (Hr & Hb & Hc & _) Hp Hk. cbn [SubmitJob].
  rewrite decide_False by tauto. rewrite Hp. fold (submit_params req p). unfold Create.
  cbn [cp_IdempotencyKey submit_params]. rewrite decide_False by done.
  unfold pgc, trigger. cbn [bind]. rewrite run_pg by apply Ho. cbn [events handle].
  rewrite Ho. cbn [with_fault exec_pg].
  destruct (getByIdempotencyKey_cases (sj_IdempotencyKey req) (o 0%nat) (w_db w))
    as [[-> Hno]|(k & j & -> & Hj & Hkey)]; cbn [fst snd bind].
  2: { left. exists k, j. destruct w. by split_and!. }
  unfold pgc, trigger. cbn [bind]. rewrite run_pg by apply Ho.
  cbn [events handle]. rewrite Ho. cbn [with_fault exec_pg w_db].
  change (later o 1 0%nat) with (o 1%nat).
  destruct (InsertJob_cases (submit_params req p) (o 1%nat) (w_db w))
    as [[x ->]|(Hn & _ & ->)]; cbn [fst snd bind].
  - right. split; [done|]. left. by split_and!.
  - cbn [Enqueue StreamQueue StreamQueue_Enqueue rdc trigger bind].
    match goal with |- context [run ?q ?o2 ?w2] =>
      pose proof (events_trace q o2 w2) as Ht;
      assert (Hdb : w_db (run q o2 w2).2 = w_db w2) by (by apply run_not_pg_db);
      destruct (run q o2 w2) as [r w'] end.
    cbn in Ht. destruct Ht as (? & ? & _ & _ & ->).
    right. split; [done|]. right. split_and!; [done|done|exact Hdb|].
    cbn. by destruct (with_fault _ _ _).
Qed.

(** SubmitJob's only Redis call is the one that enqueues. *)
Definition enqueues {X} (c : call X) : Prop :=
  match c with
  | Rd c => match c with RXAdd _ n _ => n = 100000 | _ => False end
  | _ => True
  end.

(** When Redis answers, such a program leaves it with exactly the entries it
    asked for. *)
Lemma run_enqueues `{Redis} {A} (p : prog A) o w :
  all_calls (@enqueues) p -> redis_reliable o ->
  w_redis (run p o w).2 =
  foldl (fun r sv => xadd sv.1 100000 sv.2 r) (w_redis w) (omap enqueue_request (events p o w)).
Proof.
  revert o w. induction p as [a|X c k IH]; intros o w Hp Ho; [done|]. destruct Hp as [Hc Hk].
  rewrite run_call. cbn [events].
  assert (Hn : redis_reliable (later o 1)) by (intros n; apply Ho).
  specialize (IH (handle c (o 0%nat) w).1 (later o 1) (handle c (o 0%nat) w).2 (Hk _) Hn). rewrite IH.
  destruct c as [B c|B c| | |]; cbn [handle].
  - by destruct (with_fault _ _ _).
  - destruct c; try done. cbn in Hc. subst. rewrite (Ho 0%nat). done.
  - done.
  - done.
  - done.
Qed.

(** It leaves Redis alone when it asks for none, or when no request arrives. *)
Lemma run_enqueues_none `{Redis} {A} (p : prog A) o w :
  all_calls (@enqueues) p ->
  omap enqueue_request (events p o w) = [] \/ (forall n, redis_fault (o n) = LostRequest) ->
  w_redis (run p o w).2 = w_redis w.
Proof.
  revert o w. induction p as [a|X c k IH]; intros o w Hp Ho; [done|]. destruct Hp as [Hc Hk].
  rewrite run_call. cbn [events] in Ho.
  assert (Hsame : w_redis (handle c (o 0%nat) w).2 = w_redis w /\
    (omap enqueue_request (events (k (handle c (o 0%nat) w).1) (later o 1) (handle c (o 0%nat) w).2) = [] \/
     forall n, redis_fault (later o 1 n) = LostRequest)).
  { destruct Ho as [Ho|Ho]; [|split; [|right; intros n; apply Ho]];
      destruct c as [B c|B c| | |]; cbn [handle] in *.
    - by destruct (with_fault _ _ _); auto.
    - destruct c; try done. by destruct (with_fault _ _ _).
    - auto.
    - auto.
    - auto.
    - by destruct (with_fault _ _ _).
    - by rewrite (Ho 0%nat).
    - done.
    - done.
    - done. }
  destruct Hsame as [<- Hn]. by apply IH.
Qed.

Lemma SubmitJob_enqueues fmt decoded : all_calls (@enqueues) (SubmitJob fmt decoded).
Proof.
  destruct decoded as [req|]; [|done]. cbn [SubmitJob]. case_decide; [done|]. case_match; [|done].
  apply all_calls_bind; [|by intros [[j []]|]; simpl; auto].
  unfold Create. case_decide; simpl; [auto|]. split; [done|]. intros [|[]]; simpl; auto.
Qed.

(** C24: submission is idempotent under an idempotency key.  A submission
    answered 202 has created exactly one QUEUED job row with the request's
    fields, the defaulted priority and retry budget, and asked Redis exactly
    once to add an entry for it to its priority's stream.  If Redis answers,
    the streams have exactly that entry more; if the request is lost they are
    unchanged and the answer is still 202, the gap the handler's comment
    documents.  Submitting the same request again is answered 409 with that
    very job, and neither Postgres nor Redis changes. *)
Theorem submit_is_idempotent `{Redis} fmt req o1 o2 w w1 b :
  pg_reliable o1 -> pg_reliable o2 -> submit_valid req -> sj_IdempotencyKey req <> "" ->
  run (SubmitJob fmt (Some req)) o1 w = (mkResponse StatusAccepted b, w1) ->
  exists p j, submit_priority (sj_Priority req) = Some p /\
    j = inserted_job (submit_params req p) (o1 1%nat) /\
    b = BJob (toJobResponse fmt (scanJobRow j)) /\
    jobs (w_db w) !! j_id j = None /\
    w_db w1 = set_jobs (<[j_id j := j]> (jobs (w_db w))) (w_db w) /\
    omap enqueue_request (events (SubmitJob fmt (Some req)) o1 w) =
      [(StreamKey p, message_values (job_message (scanJobRow j)))] /\
    (redis_reliable o1 ->
     w_redis w1 = xadd (StreamKey p) 100000 (message_values (job_message (scanJobRow j))) (w_redis w)) /\
    ((forall n, redis_fault (o1 n) = LostRequest) -> w_redis w1 = w_redis w) /\
    let '(r2, w2) := run (SubmitJob fmt (Some req)) o2 w1 in
    r2 = mkResponse StatusConflict b /\ w_db w2 = w_db w1 /\ w_redis w2 = w_redis w1.
Proof.
  intros Ho1 Ho2 Hv Hk E1. pose proof Hv as (_ & _ & _ & [p Hp]).
  pose proof (SubmitJob_run fmt req p o1 w Ho1 Hv Hp Hk) as H1. rewrite E1 in H1.
  destruct H1 as [(? & ? & _ & _ & ? & _)|(Hno & [[? _]|(Hr & Hn & Hdb & Hadd)])]; [done|done|].
  exists p, (inserted_job (submit_params req p) (o1 1%nat)).
  split; [done|]. split; [done|]. split; [by simplify_eq|]. do 3 (split; [done|]). split_and!.
  - intros Hr1. pose proof (run_enqueues _ o1 w (SubmitJob_enqueues fmt (Some req)) Hr1) as E.
    by rewrite E1, Hadd in E.
  - intros Hl. pose proof (run_enqueues_none _ o1 w (SubmitJob_enqueues fmt (Some req)) (or_intror Hl)) as E.
    by rewrite E1 in E.
  - pose proof (SubmitJob_run fmt req p o2 w1 Ho2 Hv Hp Hk) as H2.
    pose proof (fun Hx => run_enqueues_none _ o2 w1 (SubmitJob_enqueues fmt (Some req)) (or_introl Hx)) as Hred.
    destruct (run (SubmitJob fmt (Some req)) o2 w1) as [r2 w2].
    assert (Hkey : j_idempotency_key (inserted_job (submit_params req p) (o1 1%nat)) =
      Some (sj_IdempotencyKey req)) by (simpl; unfold ptr_of_string; by rewrite decide_False).
    destruct H2 as [(k & j & Hj & Hjk & -> & Hw2 & Ha2)|[Hno2 _]].
    + split; [|split; [done|by apply Hred]]. rewrite Hdb in Hj. simpl in Hj.
      apply lookup_insert_Some in Hj as [[_ <-]|[_ Hj]]; [congruence|]. by destruct (Hno _ _ Hj).
    + exfalso. eapply Hno2; [|exact Hkey]. rewrite Hdb. apply lookup_insert_eq.
Qed.

Lemma submit_is_idempotent_witness :
  let '(r2, w2) := run (SubmitJob no_time_format (Some submit_build)) (calm 9 "j-2")
    (run (SubmitJob no_time_format (Some submit_build)) (calm 2 "j-1") idle_world).2 in
  rsp_status r2 = StatusConflict /\
  w_db w2 = w_db (run (SubmitJob no_time_format (Some submit_build)) (calm 2 "j-1") idle_world).2.
Proof.
  assert (E : rsp_status (run (SubmitJob no_time_format (Some submit_build)) (calm 2 "j-1") idle_world).1 =
    StatusAccepted) by (vm_compute; reflexivity).
  destruct (run (SubmitJob no_time_format (Some submit_build)) (calm 2 "j-1") idle_world)
    as [[st b] w1] eqn:Er. cbn in E. subst st.
  destruct (submit_is_idempotent no_time_format submit_build (calm 2 "j-1") (calm 9 "j-2")
    idle_world w1 b) as (p & j & _ & _ & _ & _ & _ & _ & _ & _ & H2).
  - intros n. reflexivity.
  - intros n. reflexivity.
  - repeat split; try discriminate. exists 3. reflexivity.
  - discriminate.
  - exact Er.
  - cbn [snd]. destruct (run (SubmitJob no_time_format (Some submit_build)) (calm 9 "j-2") w1)
      as [r2 w2]. destruct H2 as (-> & -> & _). split; reflexivity.
Defined.
