(* ===== verification/Divergences.v ===== *)
(** * Where the code differs from its documentation

    Theorems about executions the repository's comments and docs rule out:
    each exhibits the behaviour in the model, in general or as a concrete
    reachable execution with the in-memory Redis. *)
From S2P Require Import Prelude GoStrings Database WorkerStore JobStore Lifecycle Invariant.
From S2P Require Import StoreSound Redis Effects Stores Loop Reaper RetryPoller GrpcServer.
From S2P Require Import Autoscaler Api System Scenario StoreProps SchedulerProps.
Local Open Scope Z_scope.

Definition job_now (w : world) : option (job_status * option string * option Z) :=
  (fun j => (j_status j, j_worker_id j, j_assignment_epoch j)) <$> jobs (w_db w) !! "j-1".
Definition worker_now (w : world) (k : string) : option (worker_status * Z * bool) :=
  (fun r => (w_status r, w_epoch r, w_drain_requested r)) <$> workers (w_db w) !! k.

(** ** An assignment epoch does not identify the worker *)

Definition register_b : RegisterWorkerRequest :=
  mkRegisterWorkerRequest "host-b" "instance-b" "linux" 4 8192 None
    (Some ["docker"; "go"]) "1.0" 2.

(** Environments in which Redis fails from call [n] on. *)
Definition redis_down_from (n : nat) (t : Z) (uuid : string) : oracle := fun m =>
  if decide (m < n)%nat then env_at (t * Second) uuid
  else mkEnv (t * Second) (t * Second) uuid NoFault LostRequest (fun l => l) (fun l => reflexivity l).

(** The acknowledgement is lost, so the entry stays pending; worker a starts
    the job and dies; worker b registers and gets the redelivered entry. *)
Definition reassign_script : list (prog unit * oracle) :=
  [(run_turn true, redis_down_from 6 3 "unused"); do_busy; do_sweep;
   (ignore (RegisterWorker server register_b), calm 101 "w-b");
   (run_turn true, calm 102 "unused")].
Definition reassigned_world : world := play reassign_script ready_world.

Lemma reassigned_reachable : reachable ([], reassigned_world).
Proof. apply play_reachable; [|exact ready_reachable]. repeat constructor. Qed.

(** What worker a sends when its build, started before it was declared dead,
    ends: the job and the epoch it was assigned under. *)
Definition late_report : ReportJobResultRequest :=
  mkReportJobResultRequest "j-1" 1 JOB_STATUS_SUCCESS 0 "log-of-a" "".

(** Epochs count per worker, from 1, and a report is guarded by the epoch
    alone.  In a reachable state the job was taken from dead worker w-a
    (epoch 1) and is now held by w-b (epoch 1 too); w-a's late report of its
    first run is accepted, finishes the job with w-a's log and frees a slot of
    w-b, although jobs.go says the epoch proves which worker reports. *)
Theorem late_report_of_dead_worker_is_accepted :
  reachable ([], reassigned_world) /\
  job_now reassigned_world = Some (ASSIGNED, Some "w-b", Some 1) /\
  worker_now reassigned_world "w-a" = Some (DEAD, 1, false) /\
  (run (ReportJobResult late_report) (calm 103 "") reassigned_world).1 =
    Reply (mkReportJobResultResponse true false) /\
  job_now (run (ReportJobResult late_report) (calm 103 "") reassigned_world).2 =
    Some (SUCCESS, Some "w-b", Some 1).
Proof. split; [exact reassigned_reachable|]. vm_compute. repeat split; reflexivity. Qed.

(** ** A heartbeat can undo a drain *)

Definition drain_race_script : list (prog unit * oracle) :=
  [(ignore (DrainWorker "w-a"), calm 8 "unused");
   (ignore (handleHeartbeat server (heartbeat_a 1 WORKER_STATUS_READY None)), calm 9 "unused")].
Definition drain_race_world : world := play drain_race_script idle_world.

Lemma drain_race_reachable : reachable ([], drain_race_world).
Proof. apply play_reachable; [|exact idle_reachable]. repeat constructor. Qed.

(** the worker's own status overwrites the drain.  A heartbeat that says
    READY (sent before the worker learned of the drain) after DrainWorker put
    the worker to DRAINING makes its row READY again with the drain still
    requested, and the scheduler's candidate query returns it, although the
    agent's code relies on a draining worker never being READY. *)
Theorem heartbeat_can_undo_drain :
  reachable ([], drain_race_world) /\
  worker_now (play (take 1 drain_race_script) idle_world) "w-a" = Some (DRAINING, 1, true) /\
  worker_now drain_race_world "w-a" = Some (READY, 1, true) /\
  (exists c, ListReadyCandidates None (env_at 0 "") (w_db drain_race_world) =
     (Ok [c], w_db drain_race_world) /\ c_ID c = "w-a").
Proof.
  split; [exact drain_race_reachable|].
  split; [vm_compute; reflexivity|]. split; [vm_compute; reflexivity|].
  exists (candidate_of (worker_of drain_race_world)). vm_compute. split; reflexivity.
Qed.

(** ** A dead worker can come back under its old epoch *)

(** The reaper's cache deletion is lost; the worker's next heartbeat arrives. *)
Definition zombie_script : list (prog unit * oracle) :=
  [(reaper_tick true 30, redis_down_from 0 100 "unused");
   (ignore (handleHeartbeat server (heartbeat_a 1 WORKER_STATUS_READY None)), calm 101 "unused")].
Definition zombie_world : world := play zombie_script running_world.

Lemma zombie_reachable : reachable ([], zombie_world).
Proof. apply play_reachable; [|exact running_reachable]. repeat constructor. Qed.

(** the cached state has no expiry, so when the reaper's deletion of it is
    lost a worker declared DEAD is not forced to re-register: its next
    heartbeat passes the cached epoch check and sets its row back to READY
    under the old epoch, although reaper.go and cache.go call the deletion
    optional because both keys carry a TTL. *)
Theorem dead_worker_can_return_unregistered :
  reachable ([], zombie_world) /\
  worker_now (play (take 1 zombie_script) running_world) "w-a" = Some (DEAD, 1, false) /\
  worker_now zombie_world "w-a" = Some (READY, 1, false) /\
  job_now zombie_world = Some (QUEUED, None, None).
Proof. split; [exact zombie_reachable|]. vm_compute. repeat split; reflexivity. Qed.

(** ** A restart strands the running job *)

Definition stranded_world : world :=
  play [(ignore (handleHeartbeat server (heartbeat_a 2 WORKER_STATUS_READY None)), calm 60 "unused");
        (reaper_tick true 30, calm 61 "unused")] restarted_world.

(** re-registration clears the worker's current job without requeueing
    it.  A worker that restarts within the heartbeat timeout leaves its old
    job RUNNING under the superseded epoch while its row shows all slots free;
    later sweeps skip it because the worker is alive, so the job is not
    retried as long as the worker keeps heartbeating. *)
Theorem restart_strands_running_job :
  reachable ([], restarted_world) /\
  job_now restarted_world = Some (RUNNING, Some "w-a", Some 1) /\
  worker_now restarted_world "w-a" = Some (READY, 2, false) /\
  worker_statuses restarted_world = [("w-a", READY, 2)] /\
  job_now stranded_world = Some (RUNNING, Some "w-a", Some 1).
Proof. split; [exact restarted_reachable|]. vm_compute. repeat split; reflexivity. Qed.

(** The restarted worker's previous life reports its build. *)
Definition superseded_report : ReportJobResultRequest :=
  mkReportJobResultRequest "j-1" 1 JOB_STATUS_SUCCESS 0 "log-of-epoch-1" "".

(** Re-registration does not fence the reports of the previous epoch.  With
    the worker at epoch 2 and its old job still RUNNING under epoch 1, a report
    under epoch 1 is accepted and finishes the job, although the comment on
    Register and docs/05 5.1 say such a report is rejected. *)
Theorem superseded_report_is_accepted :
  reachable ([], restarted_world) /\
  worker_now restarted_world "w-a" = Some (READY, 2, false) /\
  job_now restarted_world = Some (RUNNING, Some "w-a", Some 1) /\
  (run (ReportJobResult superseded_report) (calm 8 "") restarted_world).1 =
    Reply (mkReportJobResultResponse true false) /\
  job_now (run (ReportJobResult superseded_report) (calm 8 "") restarted_world).2 =
    Some (SUCCESS, Some "w-a", Some 1).
Proof. split; [exact restarted_reachable|]. vm_compute. repeat split; reflexivity. Qed.
