(* ===== verification/Capacity.v ===== *)
(** * Slot accounting

    A worker's free slots are counted in Postgres by AssignJob, FreeWorker,
    Register and MarkDeadAndRequeue.  [cap_ok] relates the counter to the jobs
    actually held under the worker's current epoch.  Every store operation but
    FreeWorker keeps it by itself; FreeWorker keeps it when it follows the
    result of a job that worker held, as in ReportJobResult. *)
From S2P Require Import Prelude GoStrings Database WorkerStore JobStore Lifecycle Invariant.
From S2P Require Import StoreSound Redis Effects Stores Loop Reaper RetryPoller GrpcServer.
From S2P Require Import Autoscaler Api System Scenario.
Local Open Scope Z_scope.

(** The job occupies a slot of worker [k] at epoch [ep]. *)
Definition occupies (k : string) (ep : Z) (j : job_row) : bool :=
  held_by k j && bool_decide (j_assignment_epoch j = Some ep).

Definition occupants (k : string) (ep : Z) (js : gmap string job_row) : gset string :=
  dom (filter (fun kj : string * job_row => occupies k ep kj.2 = true) js).

Definition used_slots (k : string) (ep : Z) (js : gmap string job_row) : Z :=
  Z.of_nat (size (occupants k ep js)).

Definition cap_ok (d : database) : Prop :=
  forall k w, workers d !! k = Some w ->
    used_slots k (w_epoch w) (jobs d) <= w_capacity_slots w - w_available_capacity w.

Lemma elem_of_occupants k ep js id :
  id ∈ occupants k ep js <-> exists j, js !! id = Some j /\ occupies k ep j = true.
Proof.
  unfold occupants. rewrite elem_of_dom. split.
  - intros [j [Hj Ho]%map_lookup_filter_Some]. eauto.
  - intros (j & Hj & Ho). exists j. by apply map_lookup_filter_Some.
Qed.

Lemma used_mono k ep js js' :
  (forall id j', js' !! id = Some j' -> occupies k ep j' = true ->
     exists j, js !! id = Some j /\ occupies k ep j = true) ->
  used_slots k ep js' <= used_slots k ep js.
Proof.
  intros H. unfold used_slots. apply inj_le, subseteq_size. intros id.
  rewrite !elem_of_occupants. intros (j' & Hj' & Ho). eauto.
Qed.

Lemma used_none k ep js :
  (forall id j, js !! id = Some j -> occupies k ep j = false) -> used_slots k ep js = 0.
Proof.
  intros H. unfold used_slots. replace (occupants k ep js) with (∅ : gset string); [done|].
  symmetry. apply set_eq. intros id. rewrite elem_of_occupants. split; [|set_solver].
  intros (j & Hj & Ho). rewrite (H _ _ Hj) in Ho. done.
Qed.

Lemma used_one_more k ep js js' id :
  (forall id' j', js' !! id' = Some j' -> occupies k ep j' = true -> id' <> id ->
     exists j, js !! id' = Some j /\ occupies k ep j = true) ->
  used_slots k ep js' <= used_slots k ep js + 1.
Proof.
  intros H. unfold used_slots.
  assert (Hs : occupants k ep js' ⊆ {[id]} ∪ occupants k ep js).
  { intros id'. rewrite elem_of_union, elem_of_singleton, !elem_of_occupants.
    intros (j' & Hj' & Ho). destruct (decide (id' = id)); [by left|right]. eauto. }
  apply subseteq_size in Hs. rewrite size_union_alt, size_singleton in Hs.
  assert (size (occupants k ep js ∖ {[id]}) <= size (occupants k ep js))%nat
    by (apply subseteq_size; set_solver). lia.
Qed.

(** A job that stops occupying its slot frees one. *)
Lemma used_one_less k ep js j j' id :
  js !! id = Some j -> occupies k ep j = true -> occupies k ep j' = false ->
  used_slots k ep (<[id := j']> js) + 1 <= used_slots k ep js.
Proof.
  intros Hj Ho Hn. unfold used_slots.
  assert (Hs : {[id]} ∪ occupants k ep (<[id := j']> js) ⊆ occupants k ep js).
  { intros id'. rewrite elem_of_union, elem_of_singleton, !elem_of_occupants.
    intros [->|(j2 & [[<- <-]|[Hne H2]]%lookup_insert_Some & H3)]; [eauto|congruence|eauto]. }
  apply subseteq_size in Hs.
  rewrite size_union, size_singleton in Hs; [lia|].
  apply disjoint_singleton_l. rewrite elem_of_occupants. rewrite lookup_insert_eq.
  intros (j2 & ? & ?). congruence.
Qed.

Lemma occupies_spec k ep j :
  occupies k ep j = true <->
  j_worker_id j = Some k /\ job_active (j_status j) = true /\ j_assignment_epoch j = Some ep.
Proof. unfold occupies. rewrite andb_true_iff, held_by_spec, bool_decide_eq_true. tauto. Qed.

Lemma not_active_free k ep j : job_active (j_status j) = false -> occupies k ep j = false.
Proof. intros H. apply not_true_iff_false. intros (_ & ? & _)%occupies_spec. congruence. Qed.

(** ** Every operation but FreeWorker *)

(** A change of the jobs table that gives no worker a new occupant. *)
Lemma cap_ok_jobs d d' :
  workers d' = workers d ->
  (forall k ep id j', jobs d' !! id = Some j' -> occupies k ep j' = true ->
     exists j, jobs d !! id = Some j /\ occupies k ep j = true) ->
  cap_ok d -> cap_ok d'.
Proof.
  intros Hw Hj Hc k w Hk. rewrite Hw in Hk. specialize (Hc k w Hk).
  pose proof (used_mono k (w_epoch w) (jobs d) (jobs d') (Hj k (w_epoch w))). lia.
Qed.

Lemma cap_ok_job_update d id j j' h :
  jobs d !! id = Some j ->
  (forall k ep, occupies k ep j' = true -> occupies k ep j = true) ->
  cap_ok d -> cap_ok (mkDb (workers d) (<[id := j']> (jobs d)) h (worker_events d)).
Proof.
  intros Hj Ho. apply cap_ok_jobs; [done|]. simpl.
  intros k ep id' j2 [[<- <-]|[Hne H2]]%lookup_insert_Some; eauto.
Qed.

(** A change of one worker row that keeps epoch and counters. *)
Lemma cap_ok_worker_update d k w w' ev :
  workers d !! k = Some w -> w_epoch w' = w_epoch w ->
  w_capacity_slots w' = w_capacity_slots w -> w_available_capacity w' = w_available_capacity w ->
  cap_ok d -> cap_ok (mkDb (<[k := w']> (workers d)) (jobs d) (job_retry_history d) ev).
Proof.
  intros Hk He Hs Ha Hc k' w2. simpl. intros [[<- <-]|[Hne H2]]%lookup_insert_Some.
  - rewrite He, Hs, Ha. by apply Hc.
  - by apply Hc.
Qed.

(** A worker none of whose jobs is at its epoch may show all slots free. *)
Lemma cap_ok_fresh_worker d k w' h ev :
  (forall id j, jobs d !! id = Some j -> occupies k (w_epoch w') j = false) ->
  w_available_capacity w' <= w_capacity_slots w' ->
  cap_ok d -> cap_ok (mkDb (<[k := w']> (workers d)) (jobs d) h ev).
Proof.
  intros Hno Ha Hc k' w2. simpl. intros [[<- <-]|[Hne H2]]%lookup_insert_Some.
  - rewrite used_none by done. lia.
  - by apply Hc.
Qed.

Lemma cap_ok_Register p e d : wf_db d -> cap_ok d -> cap_ok (Register p e d).2.
Proof.
  intros Hwf Hc. destruct (Register_cases p e d) as [[x ->]|[(w0 & w & Hi & -> & He & _ & _ & ->)|
    (w & Hi & -> & Hn & _ & _ & ->)]]; [done|..]; simpl.
  - apply worker_by_instance_Some in Hi as [_ [k Hk]].
    apply cap_ok_fresh_worker; [|simpl; lia|done]. intros id j Hj. apply not_true_iff_false.
    intros (Hw & Ha & Hep)%occupies_spec. simpl in *.
    destruct (active_assigned _ _ _ Hwf Hj Ha) as ((k' & w' & ep & Hw' & Hep' & Hk' & ?) & _).
    destruct (wf_workers d Hwf _ _ Hk) as [Hid _ _ _ _ _ _ _]. simplify_eq. lia.
  - apply cap_ok_fresh_worker; [|simpl; lia|done]. intros id j Hj. apply not_true_iff_false.
    intros (Hw & Ha & Hep)%occupies_spec. simpl in *.
    destruct (active_assigned _ _ _ Hwf Hj Ha) as ((k' & w' & ep & Hw' & Hep' & Hk' & ?) & _).
    congruence.
Qed.

Lemma cap_ok_MarkDead k ep e d : wf_db d -> cap_ok d -> cap_ok (MarkDeadAndRequeue k ep e d).2.
Proof.
  intros Hwf Hc. destruct (MarkDeadAndRequeue_cases k ep e d Hwf)
    as [[-> _]|(w & d' & Hw & _ & _ & -> & _ & Hws & Hjs & Hnj & _)]; [done|]. simpl.
  assert (Hocc : forall k' ep' id j', jobs d' !! id = Some j' -> occupies k' ep' j' = true ->
    jobs d !! id = Some j' /\ held_by k j' = false).
  { intros k' ep' id j' Hj' Ho. destruct (jobs d !! id) as [j|] eqn:Hj.
    - rewrite (Hjs _ _ Hj) in Hj'. destruct (held_by k j) eqn:Hb; by simplify_eq.
    - rewrite (Hnj _ Hj) in Hj'. done. }
  intros k' w' Hk'. rewrite Hws in Hk'. apply lookup_insert_Some in Hk' as [[<- <-]|[Hne Hk']].
  - rewrite used_none; [simpl; lia|]. intros id j Hj. apply not_true_iff_false. intros Ho.
    destruct (Hocc _ _ _ _ Hj Ho) as [_ Hb]. apply occupies_spec in Ho as (Ho & Ha & _).
    assert (held_by k j = true) by (by apply held_by_spec). congruence.
  - specialize (Hc _ _ Hk'). etransitivity; [apply used_mono|exact Hc].
    intros id j' Hj' Ho. destruct (Hocc _ _ _ _ Hj' Ho). eauto.
Qed.

Lemma cap_ok_AssignJob id t k ep e d : wf_db d -> cap_ok d -> cap_ok (AssignJob id t k ep e d).2.
Proof.
  intros Hwf Hc. destruct (AssignJob_cases id t k ep e d)
    as [(r & -> & _)|(w & j & Hk & Hj & He & Hs & Ha & _ & Hq & ->)]; [done|].
  intros k' w'. simpl. intros [[<- <-]|[Hne Hk']]%lookup_insert_Some; simpl.
  - specialize (Hc _ _ Hk). etransitivity; [apply (used_one_more _ _ (jobs d) _ id)|lia].
    intros id' j' [[<- <-]|[Hne H2]]%lookup_insert_Some Ho Hid; [done|eauto].
  - specialize (Hc _ _ Hk'). etransitivity; [apply used_mono|exact Hc].
    intros id' j' [[<- <-]|[Hne' H2]]%lookup_insert_Some Ho; [|eauto].
    apply occupies_spec in Ho as [Ho _]. simpl in Ho. congruence.
Qed.

(** The calls that keep [cap_ok] by themselves. *)
Definition keeps_capacity {X} (c : call X) : Prop :=
  match c with Pg c => match c with PgFreeWorker _ _ => False | c => pg_ok c end | _ => True end.

Lemma cap_ok_exec {A} (c : pg A) e d :
  keeps_capacity (Pg c) -> wf_db d -> cap_ok d -> cap_ok (exec_pg c e d).2.
Proof.
  intros Hok Hwf Hc. pose proof (reads_only_pg c) as Hr.
  destruct c; try (by rewrite Hr); try done; simpl in *.
  - by apply cap_ok_Register.
  - destruct (UpdateHeartbeatRow_cases workerID epoch dbStatus currentJob e d)
      as [(r & -> & _)|(s & w & _ & Hk & _ & _ & ->)]; [done|]. by eapply cap_ok_worker_update.
  - by apply cap_ok_MarkDead.
  - by apply cap_ok_AssignJob.
  - unfold RequestDrain. match goal with |- context [drain_update ?k ?f ?ev e d] =>
      destruct (drain_update_cases k f ev e d) as [[-> _]|(w & Hk & _ & ->)] end; [done|].
    by eapply cap_ok_worker_update.
  - unfold ResumeDrain. match goal with |- context [drain_update ?k ?f ?ev e d] =>
      destruct (drain_update_cases k f ev e d) as [[-> _]|(w & Hk & _ & ->)] end; [done|].
    by eapply cap_ok_worker_update.
  - destruct (InsertJob_cases p e d) as [[x ->]|(Hn & _ & ->)]; [done|]. simpl.
    apply (cap_ok_jobs d); [done| |done]. simpl.
    intros k ep id j' [[<- <-]|[Hne H2]]%lookup_insert_Some Ho; [|eauto].
    apply occupies_spec in Ho as [Ho _]. done.
  - destruct (MarkRunning_cases jobID epoch e d) as [->|(j & Hj & _ & Hs & ->)]; [done|].
    apply (cap_ok_job_update d jobID j); [done| |done]. intros k ep.
    rewrite !occupies_spec, Hs. simpl. tauto.
  - destruct (Complete_cases jobID jobCreatedAt epoch finalStatus logRef e d)
      as [(r & -> & _)|(s & j & Hs & Hj & _ & ->)]; [done|].
    apply (cap_ok_job_update d jobID j); [done| |done]. intros k ep Ho.
    exfalso. rewrite not_active_free in Ho; [done|].
    destruct Hok as [-> | ->]; vm_compute in Hs; by simplify_eq.
  - destruct (RetryOrFail_cases jobID jobCreatedAt epoch workerID errorMessage logRef e d)
      as [(r & -> & _)|(j & Hj & _ & _ & ->)]; [done|].
    apply (cap_ok_job_update d jobID j); [done| |done]. intros k ep Ho.
    exfalso. rewrite not_active_free in Ho; [done|]. unfold after_failure. by case_match.
  - destruct (MarkQueuedFromRetry_cases jobID jobCreatedAt e d) as [->|(j & Hj & _ & _ & ->)];
      [done|]. apply (cap_ok_job_update d jobID j); [done| |done]. intros k ep Ho.
    exfalso. by rewrite not_active_free in Ho.
Qed.

Definition cap_wf (d : database) : Prop := wf_db d /\ cap_ok d.

Lemma keeps_capacity_ok {X} (c : call X) : keeps_capacity c -> call_ok c.
Proof. by destruct c as [A []| | | |]. Qed.

Lemma cap_wf_handle `{Redis} {X} (c : call X) e w :
  keeps_capacity c -> cap_wf (w_db w) -> cap_wf (w_db (handle c e w).2).
Proof.
  intros Hk [Hwf Hc]. split; [by apply handle_sound; [apply keeps_capacity_ok|]|].
  destruct c as [A c| | | |]; try (by rewrite handle_not_pg_db).
  destruct (handle_pg_db c e w) as [->| ->]; [done|]. by apply cap_ok_exec.
Qed.

Lemma cap_wf_run `{Redis} {A} (p : prog A) o w :
  all_calls (@keeps_capacity) p -> cap_wf (w_db w) -> cap_wf (w_db (run p o w).2).
Proof.
  intros Hp. apply (run_preserves (@keeps_capacity) (fun w => cap_wf (w_db w)) p o w Hp).
  intros X c e w'. apply cap_wf_handle.
Qed.

(** ** ReportJobResult *)

(** One slot of the worker at that epoch is counted as taken but not occupied. *)
Definition slack (k : string) (ep : Z) (d : database) : Prop :=
  forall w, workers d !! k = Some w -> w_epoch w = ep ->
    used_slots k ep (jobs d) + 1 <= w_capacity_slots w - w_available_capacity w.

Lemma cap_ok_FreeWorker k ep e d :
  slack k ep d -> cap_ok d -> cap_ok (FreeWorker k ep e d).2.
Proof.
  intros Hs Hc. destruct (FreeWorker_cases k ep e d) as [[-> _]|(w & Hk & He & ->)]; [done|].
  intros k' w'. simpl. intros [[<- <-]|[Hne Hk']]%lookup_insert_Some; simpl; [|by apply Hc].
  specialize (Hs w Hk He). rewrite He. lia.
Qed.

(** Accepting a result frees the slot the job occupied. *)
Lemma slack_after d k ep j j' h ev :
  cap_ok d -> jobs d !! j_id j = Some j -> occupies k ep j = true ->
  job_active (j_status j') = false ->
  slack k ep (mkDb (workers d) (<[j_id j := j']> (jobs d)) h ev).
Proof.
  intros Hc Hj Ho Hn w Hw He. simpl in *. specialize (Hc k w Hw). rewrite He in Hc.
  pose proof (used_one_less k ep (jobs d) j j' (j_id j) Hj Ho (not_active_free k ep j' Hn)). lia.
Qed.

Lemma guard_occupies k t ep j :
  j_worker_id j = Some k -> report_guard t ep j = true -> occupies k ep j = true.
Proof. intros Hk (_ & He & Ha)%report_guard_spec. by apply occupies_spec. Qed.

Lemma record_result_slack `{Redis} req o w j k s :
  cap_wf (w_db w) -> jobs (w_db w) !! j_id j = Some j -> j_worker_id j = Some k ->
  (run (record_result (scanJobRow j) req) o w).1 = Ok (true, s) ->
  slack k (rr_assignment_epoch req) (w_db (run (record_result (scanJobRow j) req) o w).2).
Proof.
  intros [Hwf Hc] Hj Hk. unfold record_result. case_decide as Hf; simpl;
    destruct (env_fault (o 0%nat)); simpl; try done.
  - destruct (RetryOrFail_cases (j_id j) (j_created_at j) (rr_assignment_epoch req) (j_worker_id j)
      (rr_error_message req) (rr_log_ref req) (o 0%nat) (w_db w))
      as [(r & -> & Hr)|(j0 & Hj0 & Hg & _ & ->)]; simpl.
    + destruct r as [[s' []]|]; simpl; try done. by destruct (Hr s').
    + intros _. simplify_eq. apply (slack_after (w_db w)); try done; [by eapply guard_occupies|].
      unfold after_failure. by case_match.
  - destruct (Complete_cases (j_id j) (j_created_at j) (rr_assignment_epoch req)
      (jobStatusToDB (rr_status req)) (rr_log_ref req) (o 0%nat) (w_db w))
      as [(r & -> & Hr)|(st & j0 & Hst & Hj0 & Hg & ->)]; simpl.
    + destruct r as [[]|]; simpl; done.
    + intros _. simplify_eq. apply (slack_after (w_db w)); try done; [by eapply guard_occupies|]. simpl.
      destruct (jobStatusToDB_final (rr_status req) Hf) as [E|E]; rewrite E in Hst;
        vm_compute in Hst; by simplify_eq.
Qed.

Lemma finish_report_db `{Redis} job ep s o w :
  w_db (run (finish_report job ep s) o w).2 = w_db w \/
  exists k e, J_WorkerID job = Some k /\
    w_db (run (finish_report job ep s) o w).2 = (FreeWorker k ep e (w_db w)).2.
Proof.
  unfold finish_report, free_worker, pgc, trigger.
  assert (Htail : forall X (q : prog X), all_calls (@not_pg) q -> all_calls (@not_pg)
    (q >> trigger (MetricInc "fleetforge_jobs_completed_total" s) >>
       (match J_StartedAt job with
        | Some t => if decide (s <> "RETRYING") then
                      let! now := trigger TimeNow in
                      trigger (MetricObserve "fleetforge_job_duration_seconds" (now - t))
                    else Ret tt
        | None => Ret tt end) >>
       Ret (Reply (mkReportJobResultResponse true false)))).
  { intros X q Hq. apply all_calls_bind; [done|]. intros _. simpl. split; [done|]. intros _.
    apply all_calls_bind; [|done]. destruct (J_StartedAt job); [|done]. case_decide; simpl; auto. }
  destruct (J_WorkerID job) as [k|].
  - cbn [bind run]. pose proof (handle_pg_db (PgFreeWorker k ep) (o 0%nat) w) as Hd.
    destruct (handle (Pg (PgFreeWorker k ep)) (o 0%nat) w) as [x w'].
    rewrite run_not_pg_db; [|apply Htail; repeat case_match; simpl; auto].
    destruct Hd as [Hd|Hd]; [by left|right]. by exists k, (o 0%nat).
  - left. rewrite run_not_pg_db; [done|]. by apply (Htail unit (Ret tt)).
Qed.

Lemma cap_ok_ReportJobResult `{Redis} req o w :
  cap_wf (w_db w) -> cap_ok (w_db (run (ReportJobResult req) o w).2).
Proof.
  intros Hw. pose proof Hw as [Hwf Hc]. unfold ReportJobResult. case_decide; [done|].
  unfold pgc, trigger. cbn [bind run].
  pose proof (cap_wf_handle (Pg (PgGetJob (rr_job_id req))) (o 0%nat) w I Hw) as Hw1.
  assert (Hx : forall job, (handle (Pg (PgGetJob (rr_job_id req))) (o 0%nat) w).1 = Ok job ->
    exists j, job = scanJobRow j /\
      jobs (w_db (handle (Pg (PgGetJob (rr_job_id req))) (o 0%nat) w).2) !! j_id j = Some j).
  { intros job. simpl. unfold GetJobRow. destruct (env_fault (o 0%nat)); simpl; try done.
    destruct (jobs (w_db w) !! rr_job_id req) as [j|] eqn:Hj; simpl; [|done]. intros E.
    simplify_eq. exists j. split; [done|]. by destruct (wf_jobs _ Hwf _ _ Hj) as [-> _ _ _ _ _]. }
  destruct (handle _ _ _) as [[job|] w1]; cbn [fst snd] in *; [|apply Hw1].
  destruct (Hx job eq_refl) as (j & -> & Hj). clear Hx.
  match goal with |- context [run (bind ?p ?f) ?o1 w1] =>
    destruct (events_bind p f o1 w1) as (n & -> & _);
    assert (Hw2 : cap_wf (w_db (run p o1 w1).2));
    [apply cap_wf_run; [|done]|
     pose proof (fun k s => record_result_slack req o1 w1 j k s Hw1 Hj) as Hsl;
     destruct (run p o1 w1) as [r w2]] end; cbn [fst snd] in *.
  { unfold record_result. case_decide as Hf; simpl; [by auto|].
    split; [by apply jobStatusToDB_final|done]. }
  destruct r as [[[] s]|]; [|apply Hw2..].
  match goal with |- context [run (finish_report ?a ?b ?c) ?o2 w2] =>
    destruct (finish_report_db a b c o2 w2) as [->|(k & e & Hk & ->)] end; [apply Hw2|].
  apply cap_ok_FreeWorker; [|apply Hw2]. by apply (Hsl k s).
Qed.

(** ** All requests *)
Ltac solve_keeps :=
  repeat first [ progress simpl | apply all_calls_bind | apply all_calls_for_each | split | done
               | progress intros | progress auto | case_match ].

Lemma handleHeartbeat_keeps s req : all_calls (@keeps_capacity) (handleHeartbeat s req).
Proof.
  unfold handleHeartbeat, known_epoch, pending_assignment, flush_heartbeat, UpdateHeartbeat.
  solve_keeps.
Qed.

Lemma request_keeps_capacity p :
  request p -> (exists r, p = ignore (ReportJobResult r)) \/ all_calls (@keeps_capacity) p.
Proof.
  destruct 1; [| | |left; eauto|..]; right; unfold ignore.
  - unfold RegisterWorker. solve_keeps.
  - apply all_calls_bind; [apply handleHeartbeat_keeps|done].
  - apply all_calls_bind; [apply all_calls_Heartbeat, handleHeartbeat_keeps|done].
  - destruct r as [req|]; [|done]. unfold SubmitJob, Create. solve_keeps.
  - solve_keeps.
  - solve_keeps.
  - solve_keeps.
  - unfold DrainWorker, drain_reply. solve_keeps.
  - unfold ResumeWorker, drain_reply. solve_keeps.
  - destruct leader; [|done]. unfold run_turn, tick, readAndProcess, processMessage, ack. solve_keeps.
  - destruct leader; [|done]. unfold reaper_tick, sweep, reap_one. solve_keeps.
  - destruct leader; [|done]. unfold poller_tick, poll, requeue_due. solve_keeps.
  - unfold autoscale_tick, doScaleDown. solve_keeps.
  - solve_keeps.
Qed.

Lemma request_cap_wf `{Redis} p o w : request p -> cap_wf (w_db w) -> cap_wf (w_db (run p o w).2).
Proof.
  intros Hr Hw. destruct (request_keeps_capacity p Hr) as [[r ->]|Hp]; [|by apply cap_wf_run].
  split.
  - apply (run_preserves (@call_ok) (fun w => wf_db (w_db w))); [by apply request_ok| |apply Hw].
    intros X c e w' Hc Hw'. by apply handle_sound.
  - unfold ignore. destruct (events_bind (ReportJobResult r) (fun _ => Ret tt) o w) as (n & -> & _).
    by apply cap_ok_ReportJobResult.
Qed.

(** C5: no worker is over-committed.  Let any sequence of RPCs, REST requests
    and background ticks run one after the other from a fresh database, under
    any faults of Postgres and Redis, clocks and scan orders.  Then for every
    worker the jobs that are ASSIGNED to or RUNNING on it under its current
    epoch are at most the slots it counts as taken, so never more than
    capacity_slots. *)
Theorem no_worker_is_overcommitted `{Redis} (script : list (prog unit * oracle)) (w0 : world) :
  Forall (fun po => request po.1) script -> w_db w0 = empty_db ->
  let d := w_db (play script w0) in
  forall k w, workers d !! k = Some w ->
    used_slots k (w_epoch w) (jobs d) <= w_capacity_slots w - w_available_capacity w /\
    used_slots k (w_epoch w) (jobs d) <= w_capacity_slots w.
Proof.
  intros Hs Hd d k w Hk.
  assert (Hcw : cap_wf d).
  { unfold d. clear k w Hk d. assert (Hw : cap_wf (w_db w0)).
    { rewrite Hd. split; [apply empty_db_wf|]. intros k w. simpl. by rewrite lookup_empty. }
    clear Hd. revert w0 Hw. induction script as [|[p o] rest IH]; intros w0 Hw; [done|].
    apply list.Forall_cons in Hs as [Hp Hs]. apply IH; [done|]. by apply request_cap_wf. }
  destruct Hcw as [Hwf Hc]. specialize (Hc k w Hk). destruct (wf_workers d Hwf _ _ Hk). lia.
Qed.

Lemma no_worker_is_overcommitted_witness :
  used_slots "w-a" 1 (jobs (w_db (play [do_register; do_submit; do_tick] start_world))) = 1 /\
  forall k w, workers (w_db (play [do_register; do_submit; do_tick] start_world)) !! k = Some w ->
    used_slots k (w_epoch w) (jobs (w_db (play [do_register; do_submit; do_tick] start_world))) <=
      w_capacity_slots w - w_available_capacity w /\
    used_slots k (w_epoch w) (jobs (w_db (play [do_register; do_submit; do_tick] start_world))) <=
      w_capacity_slots w.
Proof.
  split; [vm_compute; reflexivity|].
  apply (no_worker_is_overcommitted [do_register; do_submit; do_tick] start_world).
  - repeat constructor.
  - vm_compute. reflexivity.
Defined.
