(* ===== verification/Executor.v ===== *)
(** * worker-agent-runtime: running one assigned build

    The [Executor] interface is the set of results a run may have; its law is
    that every run has one.  [SimulatedExecutor] is executor.go's only
    implementation: it waits a time derived from the commit, may be cancelled
    meanwhile, and fails with a configured probability.  The random draw and
    whether the context ends first are arguments. *)
From Stdlib Require Import Ascii SpecFloat.
From S2P Require Import Prelude GoStrings.
Local Open Scope Z_scope.

Record Assignment := mkAssignment {
  as_JobID : string; as_Repository : string; as_Branch : string; as_CommitSHA : string }.

Record Result := mkResult {
  re_Success : bool; re_ExitCode : Z; re_LogRef : string; re_ErrorMessage : string }.

(** [Executor.Execute(ctx, a)]: the results it may return. *)
Class Executor := Executes : Assignment -> Result -> Prop.
Class ExecutorLaws `{Executor} : Prop := executes_total : forall a, exists r, Executes a r.

(** ** hash/fnv: New32a, Write, Sum32 *)
Definition fnv_offset32 : Z := 2166136261.
Definition fnv_prime32 : Z := 16777619.

Fixpoint fnv32a_from (h : Z) (s : string) : Z :=
  match s with
  | "" => h
  | String c s' =>
      fnv32a_from (Z.lxor h (Z.of_N (Ascii.N_of_ascii c)) * fnv_prime32 mod 2 ^ 32) s'
  end.
Definition fnv32a (s : string) : Z := fnv32a_from fnv_offset32 s.

(** ** SimulatedExecutor *)

(** time.Duration(3+int(h.Sum32()%5)) * time.Second *)
Definition build_duration (commitSHA : string) : Z := (3 + fnv32a commitSHA mod 5) * Second.

(** [cancelled d]: ctx is done before (or together with, and is picked over)
    a timer of [d] nanoseconds.  [draw] is rand.Float64(). *)
Definition SimulatedExecute (FailureRate : spec_float) (cancelled : Z -> bool) (draw : spec_float)
    (a : Assignment) : Result :=
  if cancelled (build_duration (as_CommitSHA a)) then mkResult false (-1) "" "cancelled"
  else if SFltb (S754_zero false) FailureRate && SFltb draw FailureRate
  then mkResult false 1 "" "simulated build failure"
  else mkResult true 0 ("local://simulated/" +:+ as_JobID a) "".

Definition SimulatedExecutor (FailureRate : spec_float) : Executor := fun a r =>
  exists cancelled draw, r = SimulatedExecute FailureRate cancelled draw a.

Lemma SimulatedExecutor_laws FailureRate : @ExecutorLaws (SimulatedExecutor FailureRate).
Proof. intros a. eexists. by exists (fun _ => false), (S754_zero false). Qed.

Example fnv32a_known : fnv32a "" = 2166136261 /\ fnv32a "a" = 3826002220 /\
  fnv32a "foobar" = 3214735720.
Proof. by vm_compute. Qed.

Lemma fnv32a_from_range h s : 0 <= h < 2 ^ 32 -> 0 <= fnv32a_from h s < 2 ^ 32.
Proof.
  revert h. induction s as [|c s IH]; intros h Hh; cbn [fnv32a_from]; [done|].
  apply IH, Z.mod_pos_bound. lia.
Qed.

Lemma build_duration_range sha : 3 * Second <= build_duration sha <= 7 * Second.
Proof.
  unfold build_duration, Second. pose proof (Z.mod_pos_bound (fnv32a sha) 5). lia.
Qed.
