(* ===== verification/Agent.v ===== *)
(** * cmd/worker-agent: the process on a worker

    [agentState] and its methods are mutex-guarded: each is one atomic step.
    The process has a goroutine receiving the scheduler's replies, the
    heartbeat sender, and one goroutine per started job (runAssignment).  A
    goroutine is a [thread], a tree of commands; [proc_step] interleaves the
    goroutines command by command, with any replies of the scheduler, any
    outcome of the executor and any loss of the stream.  [spec_step] is what
    the agent promises: it runs one build at a time, accepts none while
    draining, and its drain flag follows the scheduler's replies. *)
From S2P Require Import Prelude GoStrings Database WorkerStore Redis Effects Stores GrpcServer.
From S2P Require Import Executor.
Local Open Scope Z_scope.

(** ** agentState *)
Record agentState := mkAgentState {
  a_status : Z; a_currentJobID : string; a_availableCapacity : Z; a_draining : bool }.

Definition snapshot (a : agentState) : Z * string * Z :=
  (a_status a, a_currentJobID a, a_availableCapacity a).

Definition startJob (jobID : string) (a : agentState) : agentState :=
  mkAgentState WORKER_STATUS_BUSY jobID 0 (a_draining a).

Definition finishJob (capacitySlots : Z) (a : agentState) : agentState :=
  mkAgentState (if a_draining a then WORKER_STATUS_DRAINING else WORKER_STATUS_READY) ""
    capacitySlots (a_draining a).

Definition isBusy (a : agentState) : bool := negb (bool_decide (a_currentJobID a = "")).

Definition setDraining (a : agentState) : bool * agentState :=
  (negb (a_draining a),
   mkAgentState (if decide (a_currentJobID a = "") then WORKER_STATUS_DRAINING else a_status a)
     (a_currentJobID a) (a_availableCapacity a) true).

Definition isDraining (a : agentState) : bool := a_draining a.

Definition clearDraining (a : agentState) : bool * agentState :=
  (a_draining a,
   mkAgentState (if a_draining a && bool_decide (a_currentJobID a = "")
                 then WORKER_STATUS_READY else a_status a)
     (a_currentJobID a) (a_availableCapacity a) false).

(** ** Threads *)
Inductive cmd : Type -> Type :=
  | Locked {X} (f : agentState -> X * agentState) : cmd X   (** a mutex-guarded method *)
  | Go (a : JobAssignment) : cmd unit                       (** go runAssignment(ctx, d, a) *)
  | Execute (a : Assignment) : cmd Result
  | Report (r : ReportJobResultRequest) : cmd (option ReportJobResultResponse)
  | Send (r : HeartbeatRequest) : cmd unit.

Inductive thread :=
  | Done
  | Do {X : Type} (c : cmd X) (k : X -> thread).

Definition reading {X} (f : agentState -> X) : cmd X := Locked (fun a => (f a, a)).
Definition updating (f : agentState -> agentState) : cmd unit := Locked (fun a => (tt, f a)).

(** ** main: registration, defaults and the initial state *)
Record heartbeatDeps := mkHeartbeatDeps {
  d_workerID : string; d_epoch : Z; d_interval : Z; d_capacitySlots : Z }.

Definition heartbeat_interval (resp : RegisterWorkerResponse) : Z :=
  let i := int64 (rs_heartbeat_interval_seconds resp * Second) in
  if i <=? 0 then 5 * Second else i.

Definition clamp_slots (configured : Z) : Z :=
  let capacitySlots := int32 configured in if capacitySlots <=? 0 then 1 else capacitySlots.

Definition agent_deps (resp : RegisterWorkerResponse) (configuredSlots : Z) : heartbeatDeps :=
  mkHeartbeatDeps (rs_worker_id resp) (rs_epoch resp) (heartbeat_interval resp)
    (clamp_slots configuredSlots).

Definition initial_state (d : heartbeatDeps) : agentState :=
  mkAgentState WORKER_STATUS_READY "" (d_capacitySlots d) false.

(** What the process does when streamHeartbeats returned an error ([failed])
    or nil, with the context ended by a signal ([signalled]) or not. *)
Inductive exit := Fatal | Shutdown.
Definition main_exit (failed signalled : bool) : exit :=
  if failed && negb signalled then Fatal else Shutdown.

Section agent.
Context (d : heartbeatDeps).

(** ** runAssignment *)
Definition executor_assignment (a : JobAssignment) : Assignment :=
  mkAssignment (ja_job_id a) (ja_repository a) (ja_branch a) (ja_commit_sha a).

Definition report_request (a : JobAssignment) (result : Result) : ReportJobResultRequest :=
  mkReportJobResultRequest (ja_job_id a) (ja_assignment_epoch a)
    (if re_Success result then JOB_STATUS_SUCCESS else JOB_STATUS_FAILED)
    (re_ExitCode result) (re_LogRef result) (re_ErrorMessage result).

(** The reply is only logged: finishJob runs whatever it was. *)
Definition runAssignment (a : JobAssignment) : thread :=
  Do (Execute (executor_assignment a)) (fun result =>
  Do (Report (report_request a result)) (fun _ =>
  Do (updating (finishJob (d_capacitySlots d))) (fun _ => Done))).

(** ** streamHeartbeats: one reply handled by the receiving goroutine *)
Definition handle_drain (resp : HeartbeatResponse) : thread :=
  if hr_drain_requested resp then Do (Locked setDraining) (fun _ => Done)
  else Do (Locked clearDraining) (fun _ => Done).

Definition receive (resp : HeartbeatResponse) : thread :=
  match hr_assignment resp with
  | None => handle_drain resp
  | Some a =>
      Do (reading isBusy) (fun busy =>
      if busy then handle_drain resp
      else Do (reading isDraining) (fun draining =>
      if draining then handle_drain resp
      else Do (updating (startJob (ja_job_id a))) (fun _ =>
           Do (Go a) (fun _ => handle_drain resp))))
  end.

(** ** streamHeartbeats: one tick of the sender *)
Definition heartbeat_request (s : Z * string * Z) : HeartbeatRequest :=
  let '(workerStatus, currentJobID, capacity) := s in
  mkHeartbeatRequest (d_workerID d) (d_epoch d) workerStatus (ptr_of_string currentJobID) capacity.

Definition send_tick : thread :=
  Do (reading snapshot) (fun s => Do (Send (heartbeat_request s)) (fun _ => Done)).

(** ** The process *)
Record agent := mkAgent {
  ag_state : agentState;
  ag_receiver : thread;
  ag_sender : thread;
  ag_runners : list thread }.

Inductive process := Running (g : agent) | Exited (e : exit).

Definition launch : process := Running (mkAgent (initial_state d) Done Done []).

Inductive label :=
  | Tau
  | Received (r : HeartbeatResponse)
  | Tick
  | Sent (r : HeartbeatRequest)
  | Started (a : JobAssignment)
  | Executed (a : Assignment) (r : Result)
  | Reported (r : ReportJobResultRequest) (reply : option ReportJobResultResponse)
  | Stopped.

Context `{Executor}.

(** One command of one goroutine: the label, the state and the rest of the
    goroutine after it, and the goroutines it spawns. *)
Definition cmd_step (st : agentState) {X} (c : cmd X) (l : label) (st' : agentState) (x : X)
    (spawned : list thread) : Prop :=
  match c in cmd X return X -> Prop with
  | Locked f => fun x => l = Tau /\ st' = (f st).2 /\ x = (f st).1 /\ spawned = []
  | Go a => fun _ => l = Started a /\ st' = st /\ spawned = [runAssignment a]
  | Execute a => fun r => Executes a r /\ l = Executed a r /\ st' = st /\ spawned = []
  | Report q => fun reply => l = Reported q reply /\ st' = st /\ spawned = []
  | Send q => fun _ => l = Sent q /\ st' = st /\ spawned = []
  end x.

Definition thread_step (st : agentState) (t : thread) (l : label) (st' : agentState) (t' : thread)
    (spawned : list thread) : Prop :=
  match t with
  | Done => False
  | Do c k => exists x, cmd_step st c l st' x spawned /\ t' = k x
  end.

Inductive proc_step : process -> label -> process -> Prop :=
  | p_receive st snd rs resp :
      proc_step (Running (mkAgent st Done snd rs)) (Received resp)
                (Running (mkAgent st (receive resp) snd rs))
  | p_tick st rcv rs :
      proc_step (Running (mkAgent st rcv Done rs)) Tick
                (Running (mkAgent st rcv send_tick rs))
  | p_receiver st rcv snd rs l st' rcv' new :
      thread_step st rcv l st' rcv' new ->
      proc_step (Running (mkAgent st rcv snd rs)) l (Running (mkAgent st' rcv' snd (rs ++ new)))
  | p_sender st rcv snd rs l st' snd' new :
      thread_step st snd l st' snd' new ->
      proc_step (Running (mkAgent st rcv snd rs)) l (Running (mkAgent st' rcv snd' (rs ++ new)))
  | p_runner st rcv snd rs1 t rs2 l st' t' new :
      thread_step st t l st' t' new ->
      proc_step (Running (mkAgent st rcv snd (rs1 ++ t :: rs2))) l
                (Running (mkAgent st' rcv snd (rs1 ++ t' :: rs2 ++ new)))
  | p_return st rcv snd rs1 rs2 :
      proc_step (Running (mkAgent st rcv snd (rs1 ++ Done :: rs2))) Tau
                (Running (mkAgent st rcv snd (rs1 ++ rs2)))
  | p_exit g failed signalled :
      proc_step (Running g) Stopped (Exited (main_exit failed signalled)).

Inductive steps : process -> list label -> process -> Prop :=
  | steps_nil p : steps p [] p
  | steps_cons p l p' ls p'' : proc_step p l p' -> steps p' ls p'' -> steps p (l :: ls) p''.
End agent.

(** ** What the agent promises

    A sequential automaton over the labels of the process: the current build
    and how far it got, the drain flag, the reply being handled (with whether
    its assignment was accepted or refused), and the heartbeat being sent. *)
Inductive build_phase := Accepted | Begun | Built (r : Result) | Told.

Record agent_spec := mkSpec {
  sp_job : option (JobAssignment * build_phase);
  sp_draining : bool;
  sp_reply : option (HeartbeatResponse * bool);
  sp_beat : option HeartbeatRequest }.

Definition spec_init : agent_spec := mkSpec None false None None.

(** The state the agent shows for a specification state. *)
Definition render (slots : Z) (s : agent_spec) : agentState :=
  match sp_job s with
  | Some (a, _) => mkAgentState WORKER_STATUS_BUSY (ja_job_id a) 0 (sp_draining s)
  | None => mkAgentState (if sp_draining s then WORKER_STATUS_DRAINING else WORKER_STATUS_READY)
              "" slots (sp_draining s)
  end.

Section spec.
Context (d : heartbeatDeps) `{Executor}.

(** An assignment is accepted exactly when the agent is idle and not draining,
    and refused only when it is busy or draining.  The drain flag changes only
    at the end of handling a reply, to what that reply says.  A build is
    started, executed and reported, in this order, before the next one. *)
Inductive spec_step : agent_spec -> label -> agent_spec -> Prop :=
  | spec_receive j b q resp :
      spec_step (mkSpec j b None q) (Received resp) (mkSpec j b (Some (resp, false)) q)
  | spec_accept a resp q : hr_assignment resp = Some a ->
      spec_step (mkSpec None false (Some (resp, false)) q) Tau
                (mkSpec (Some (a, Accepted)) false (Some (resp, true)) q)
  | spec_refuse j b resp q : is_Some j \/ b = true ->
      spec_step (mkSpec j b (Some (resp, false)) q) Tau (mkSpec j b (Some (resp, true)) q)
  | spec_drain j b resp decided q :
      hr_assignment resp = None \/ decided = true -> (forall a, j <> Some (a, Accepted)) ->
      spec_step (mkSpec j b (Some (resp, decided)) q) Tau
                (mkSpec j (hr_drain_requested resp) None q)
  | spec_start a b r q :
      spec_step (mkSpec (Some (a, Accepted)) b r q) (Started a) (mkSpec (Some (a, Begun)) b r q)
  | spec_execute a b r q x : Executes (executor_assignment a) x ->
      spec_step (mkSpec (Some (a, Begun)) b r q) (Executed (executor_assignment a) x)
                (mkSpec (Some (a, Built x)) b r q)
  | spec_report a b r q x reply :
      spec_step (mkSpec (Some (a, Built x)) b r q) (Reported (report_request a x) reply)
                (mkSpec (Some (a, Told)) b r q)
  | spec_finish a b r q : spec_step (mkSpec (Some (a, Told)) b r q) Tau (mkSpec None b r q)
  | spec_snapshot j b r : let s := mkSpec j b r None in
      spec_step s Tau
        (mkSpec j b r (Some (heartbeat_request d (snapshot (render (d_capacitySlots d) s)))))
  | spec_send j b r q : spec_step (mkSpec j b r (Some q)) (Sent q) (mkSpec j b r None).

(** A trace of the specification: one step per label, except that the agent
    may also do nothing at a silent one. *)
Definition silent (l : label) : Prop := l = Tau \/ l = Tick.

Inductive spec_trace : agent_spec -> list label -> agent_spec -> Prop :=
  | trace_end s : spec_trace s [] s
  | trace_step s l s' ls s'' : spec_step s l s' -> spec_trace s' ls s'' -> spec_trace s (l :: ls) s''
  | trace_silent s l ls s'' : silent l -> spec_trace s ls s'' -> spec_trace s (l :: ls) s''.

(** The build goroutines that are live in a specification state. *)
Definition build_threads (s : agent_spec) : list thread :=
  match sp_job s with
  | None | Some (_, Accepted) => []
  | Some (a, Begun) => [runAssignment d a]
  | Some (a, Built r) =>
      [Do (Report (report_request a r)) (fun _ =>
       Do (updating (finishJob (d_capacitySlots d))) (fun _ => Done))]
  | Some (_, Told) => [Do (updating (finishJob (d_capacitySlots d))) (fun _ => Done)]
  end.
End spec.
