(* ===== verification/AgentSim.v ===== *)
(** * The worker agent's goroutines simulate its specification

    Where each goroutine can be in each state of [agent_spec], that every step
    of every interleaving is matched by a step of the specification with the
    same label, and what follows from the specification: builds are serial,
    only received assignments are started, heartbeats show a consistent
    state. *)
From Stdlib Require Import SpecFloat.
From S2P Require Import Prelude GoStrings Database WorkerStore Redis Effects Stores GrpcServer.
From S2P Require Import Executor Agent.
Local Open Scope Z_scope.

(** Assignments name a job (the scheduler sends ids of job rows). *)
Definition named (l : label) : Prop :=
  match l with
  | Received resp => forall a, hr_assignment resp = Some a -> ja_job_id a <> ""
  | _ => True
  end.

(** ** Builds in sequence

    The starts, executions and reports of a trace, read by an automaton that
    accepts only: start a job, execute it, report that result. *)
Inductive build := BIdle | BStarted (a : JobAssignment) | BExecuted (a : JobAssignment) (r : Result).

#[global] Instance JobAssignment_eq_dec : EqDecision JobAssignment.
Proof. solve_decision. Defined.
#[global] Instance Assignment_eq_dec : EqDecision Assignment.
Proof. solve_decision. Defined.
#[global] Instance Result_eq_dec : EqDecision Result.
Proof. solve_decision. Defined.
#[global] Instance ReportJobResultRequest_eq_dec : EqDecision ReportJobResultRequest.
Proof. solve_decision. Defined.

Definition build_step (b : build) (l : label) : option build :=
  match l with
  | Started a => match b with BIdle => Some (BStarted a) | _ => None end
  | Executed x r =>
      match b with
      | BStarted a => if decide (x = executor_assignment a) then Some (BExecuted a r) else None
      | _ => None
      end
  | Reported q _ =>
      match b with
      | BExecuted a r => if decide (q = report_request a r) then Some BIdle else None
      | _ => None
      end
  | _ => Some b
  end.

Fixpoint builds (b : build) (ls : list label) : option build :=
  match ls with
  | [] => Some b
  | l :: ls' => match build_step b l with Some b' => builds b' ls' | None => None end
  end.

Lemma builds_app b ls1 ls2 :
  builds b (ls1 ++ ls2) = match builds b ls1 with Some b' => builds b' ls2 | None => None end.
Proof. revert b. induction ls1 as [|l ls1 IH]; intros b; simpl; [done|]. by case_match. Qed.

Definition is_done (t : thread) : bool := match t with Done => true | _ => false end.
Definition live (rs : list thread) : list thread := filter (fun t => is_done t = false) rs.

Lemma live_app rs1 rs2 : live (rs1 ++ rs2) = live rs1 ++ live rs2.
Proof. apply list.filter_app. Qed.
Lemma live_done rs : live (Done :: rs) = live rs.
Proof. done. Qed.

Section agent_props.
Context (d : heartbeatDeps) `{Executor}.
Abbreviation slots := (d_capacitySlots d).

(** ** Where each goroutine can be *)
Definition unaccepted (s : agent_spec) : Prop := forall a, sp_job s <> Some (a, Accepted).

Inductive receiver_at (s : agent_spec) : thread -> Prop :=
  | recv_done : sp_reply s = None -> unaccepted s -> receiver_at s Done
  | recv_start resp : sp_reply s = Some (resp, false) -> unaccepted s -> receiver_at s (receive resp)
  | recv_idle resp a : sp_reply s = Some (resp, false) -> hr_assignment resp = Some a -> sp_job s = None ->
      receiver_at s
        (Do (reading isDraining) (fun draining =>
         if draining then handle_drain resp
         else Do (updating (startJob (ja_job_id a))) (fun _ =>
              Do (Go a) (fun _ => handle_drain resp))))
  | recv_mark resp a : sp_reply s = Some (resp, false) -> hr_assignment resp = Some a ->
      sp_job s = None -> sp_draining s = false ->
      receiver_at s
        (Do (updating (startJob (ja_job_id a))) (fun _ => Do (Go a) (fun _ => handle_drain resp)))
  | recv_go resp a : sp_reply s = Some (resp, true) -> sp_job s = Some (a, Accepted) ->
      receiver_at s (Do (Go a) (fun _ => handle_drain resp))
  | recv_drain resp : sp_reply s = Some (resp, true) -> unaccepted s -> receiver_at s (handle_drain resp).

Definition sender_at (s : agent_spec) (t : thread) : Prop :=
  match sp_beat s with
  | None => t = Done \/ t = send_tick d
  | Some q => t = Do (Send q) (fun _ => Done)
  end.

Definition shows (g : agent) (s : agent_spec) : Prop :=
  ag_state g = render slots s /\ receiver_at s (ag_receiver g) /\ sender_at s (ag_sender g) /\
  live (ag_runners g) = build_threads d s.

(** Assignments have job ids, which is how the state tells idle from busy. *)
Definition spec_named (s : agent_spec) : Prop :=
  (forall a ph, sp_job s = Some (a, ph) -> ja_job_id a <> "") /\
  (forall resp decided, sp_reply s = Some (resp, decided) -> named (Received resp)).

Definition simulates (g : agent) (s : agent_spec) : Prop := shows g s /\ spec_named s.

Lemma spec_step_named s l s' : spec_step d s l s' -> named l -> spec_named s -> spec_named s'.
Proof.
  intros Hs Hl [Hj Hr]. destruct Hs; split; simpl in *; intros; simplify_eq;
    first [by eapply Hj | by eapply Hr | done | idtac].
  - by apply Hl.
Qed.

(** ** Every step is matched *)
Definition spec_moves (s : agent_spec) (l : label) (s' : agent_spec) : Prop :=
  spec_step d s l s' \/ (silent l /\ s' = s).

Definition matched (s : agent_spec) (l : label) (g' : agent) : Prop :=
  exists s', spec_moves s l s' /\ shows g' s'.

Lemma matched_silent s l g' : silent l -> shows g' s -> matched s l g'.
Proof. intros. exists s. split; [by right|done]. Qed.

Lemma setDraining_render s r q : spec_named s ->
  (setDraining (render slots s)).2 = render slots (mkSpec (sp_job s) true r q).
Proof.
  intros [Hn _]. destruct s as [[[a ph]|] b ? ?]; unfold setDraining; simpl; [|done].
  by rewrite decide_False by (by eapply Hn).
Qed.

Lemma clearDraining_render s r q : spec_named s ->
  (clearDraining (render slots s)).2 = render slots (mkSpec (sp_job s) false r q).
Proof.
  intros [Hn _]. destruct s as [[[a ph]|] b ? ?]; unfold clearDraining; simpl; [|by destruct b].
  rewrite bool_decide_false by (by eapply Hn). by rewrite andb_false_r.
Qed.

Lemma isBusy_render s : spec_named s -> isBusy (render slots s) = bool_decide (is_Some (sp_job s)).
Proof.
  intros [Hn _]. destruct s as [[[a ph]|] b ? ?]; unfold isBusy; simpl; [|done].
  by rewrite bool_decide_eq_false_2 by (by eapply Hn).
Qed.

Lemma handle_drain_step s resp decided snd rs l st' t' new :
  spec_named s -> sp_reply s = Some (resp, decided) -> hr_assignment resp = None \/ decided = true ->
  unaccepted s -> sender_at s snd -> live rs = build_threads d s ->
  thread_step d (render slots s) (handle_drain resp) l st' t' new ->
  matched s l (mkAgent st' t' snd (rs ++ new)).
Proof.
  intros Hn Hr Hd Hu Hs Hl Ht.
  assert (st' = render slots (mkSpec (sp_job s) (hr_drain_requested resp) None (sp_beat s)) /\
    t' = Done /\ new = [] /\ l = Tau) as (-> & -> & -> & ->).
  { unfold handle_drain in Ht. destruct (hr_drain_requested resp); destruct Ht as (x & (-> & -> & _ & ->) & ->);
      rewrite <- ?setDraining_render, <- ?clearDraining_render; done. }
  destruct s as [j b r q]. simpl in *. subst r. rewrite app_nil_r. eexists. split; [left; by apply spec_drain|].
  split; [done|]. split; [by constructor|]. by split.
Qed.

Lemma receiver_step s snd rs rcv l st' t' new :
  spec_named s -> receiver_at s rcv -> sender_at s snd -> live rs = build_threads d s ->
  thread_step d (render slots s) rcv l st' t' new ->
  matched s l (mkAgent st' t' snd (rs ++ new)).
Proof.
  intros Hn Hrcv Hs Hl Ht.
  destruct Hrcv as [|resp Hr Hu|resp a Hr Ha Hj|resp a Hr Ha Hj Hd|resp a Hr Hj|resp Hr Hu]; [done|..].
  - unfold receive in Ht. destruct (hr_assignment resp) as [a|] eqn:Ea;
      [|eapply handle_drain_step; by eauto].
    destruct Ht as (x & (-> & -> & -> & ->) & ->). simpl. rewrite isBusy_render, app_nil_r by done.
    destruct s as [j b r q]. simpl in *. subst r. case_bool_decide as Hb.
    + eexists. split; [left; apply spec_refuse; by left|]. split; [done|]. split; [by constructor|by split].
    + apply matched_silent; [by left|]. split; [done|]. split; [|by split].
      constructor; [done..|]. by apply eq_None_not_Some.
  - destruct Ht as (x & (-> & -> & -> & ->) & ->). destruct s as [j b r q]. simpl in *. subst.
    rewrite app_nil_r. destruct b; simpl.
    + eexists. split; [left; apply spec_refuse; by right|]. split; [done|]. split; [by constructor|by split].
    + apply matched_silent; [by left|]. split; [done|]. split; [by constructor|by split].
  - destruct Ht as (x & (-> & -> & -> & ->) & ->). destruct s as [j b r q]. simpl in *. subst.
    rewrite app_nil_r. eexists. split; [left; by apply spec_accept|].
    split; [done|]. split; [by econstructor|by split].
  - destruct Ht as (x & (-> & -> & ->) & ->). destruct s as [j b r q]. simpl in *. subst.
    eexists. split; [left; apply spec_start|]. split; [done|]. split; [by constructor|].
    split; [done|]. simpl. by rewrite live_app, Hl.
  - eapply handle_drain_step; eauto.
Qed.

(** The sender only reads. *)
Lemma sender_step s rcv snd rs l st' t' new :
  receiver_at s rcv -> sender_at s snd -> live rs = build_threads d s ->
  thread_step d (render slots s) snd l st' t' new ->
  matched s l (mkAgent st' rcv t' (rs ++ new)).
Proof.
  intros Hrcv Hs Hl Ht. destruct s as [j b r [q|]]; unfold sender_at in Hs; simpl in Hs.
  - subst snd. destruct Ht as (x & (-> & -> & ->) & ->). rewrite app_nil_r.
    eexists. split; [left; apply spec_send|]. split; [done|]. split; [|by split; [left|]].
    destruct Hrcv; by econstructor.
  - destruct Hs as [->| ->]; [done|]. destruct Ht as (x & (-> & -> & -> & ->) & ->). rewrite app_nil_r.
    eexists. split; [left; apply spec_snapshot|]. split; [done|]. split; [|by split].
    destruct Hrcv; by econstructor.
Qed.

(** ** Runners *)
Lemma live_middle rs1 t rs2 l :
  is_done t = false -> live (rs1 ++ t :: rs2) = l -> (length l <= 1)%nat ->
  l = [t] /\ live rs1 = [] /\ live rs2 = [].
Proof.
  intros Hd <-. rewrite live_app. unfold live at 2 4. rewrite filter_cons_True by done. fold (live rs2).
  rewrite length_app. simpl. intros Hn. destruct (live rs1), (live rs2); simpl in *; try lia. done.
Qed.

Lemma live_replaced rs1 t rs2 :
  live rs1 = [] -> live rs2 = [] -> live (rs1 ++ t :: rs2 ++ []) = live [t].
Proof.
  intros H1 H2. rewrite app_nil_r, live_app, H1. unfold live in *. simpl.
  rewrite !filter_cons, filter_nil. by rewrite H2.
Qed.

Lemma build_threads_one s : (length (build_threads d s) <= 1)%nat.
Proof. unfold build_threads. destruct (sp_job s) as [[a []]|]; simpl; lia. Qed.

Lemma runner_step s rcv snd rs1 t rs2 l st' t' new :
  receiver_at s rcv -> sender_at s snd -> live (rs1 ++ t :: rs2) = build_threads d s ->
  thread_step d (render slots s) t l st' t' new ->
  matched s l (mkAgent st' rcv snd (rs1 ++ t' :: rs2 ++ new)).
Proof.
  intros Hrcv Hs Hl Ht. assert (Hd : is_done t = false) by (by destruct t).
  destruct (live_middle _ _ _ _ Hd Hl (build_threads_one s)) as (E & H1 & H2). clear Hl.
  destruct s as [[[a []]|] b r q]; unfold build_threads in E; simpl in E; inversion E; subst t; clear E Hd.
  - destruct Ht as (x & (Hx & -> & -> & ->) & ->). eexists. split; [left; by apply spec_execute|].
    split; [done|]. split; [destruct Hrcv; by econstructor|]. split; [done|]. cbn [ag_runners]. by rewrite live_replaced.
  - destruct Ht as (x & (-> & -> & ->) & ->). eexists. split; [left; by apply spec_report|].
    split; [done|]. split; [destruct Hrcv; by econstructor|]. split; [done|]. cbn [ag_runners]. by rewrite live_replaced.
  - destruct Ht as (x & (-> & -> & _ & ->) & ->). eexists. split; [left; by apply spec_finish|].
    split; [done|]. split; [destruct Hrcv; by econstructor|]. split; [done|]. cbn [ag_runners]. by rewrite live_replaced.
Qed.

(** ** Simulation *)
Lemma receiver_done s : receiver_at s Done -> sp_reply s = None /\ unaccepted s.
Proof.
  intros Hr. remember Done as t eqn:E.
  destruct Hr as [|resp|? ?|? ?|? ?|resp]; try done; exfalso; revert E; unfold receive, handle_drain;
    by repeat case_match.
Qed.

Lemma proc_step_matched g l g' s :
  simulates g s -> named l -> proc_step d (Running g) l (Running g') ->
  exists s', spec_moves s l s' /\ simulates g' s'.
Proof.
  intros [(Hst & Hrcv & Hsnd & Hrs) Hn] Hl Hp.
  assert (Hm : matched s l g').
  { inversion Hp as [st snd rs resp|st rcv rs|st rcv snd rs l' st' rcv' new Ht|st rcv snd rs l' st' snd' new Ht
      |st rcv snd rs1 t rs2 l' st' t' new Ht|st rcv snd rs1 rs2|]; subst; simpl in *; subst.
    - apply receiver_done in Hrcv as [Hr Hu]. destruct s as [j b r q]. simpl in *. subst r.
      eexists. split; [left; apply spec_receive|]. split; [done|]. split; [by constructor|by split].
    - apply matched_silent; [by right|]. split; [done|]. split; [done|]. split; [|done].
      unfold sender_at in *. destruct (sp_beat s); [done|by right].
    - by eapply receiver_step.
    - by eapply sender_step.
    - by eapply runner_step.
    - apply matched_silent; [by left|]. split; [done|]. split; [done|]. split; [done|].
      simpl. by rewrite live_app in *. }
  destruct Hm as (s' & Hm & Hs'). exists s'. split; [done|]. split; [done|].
  destruct Hm as [Hm|[_ ->]]; [|done]. by eapply spec_step_named.
Qed.

Lemma launch_simulates : simulates (mkAgent (initial_state d) Done Done []) spec_init.
Proof. split; [|done]. split; [done|]. split; [by constructor|]. split; [by left|done]. Qed.

Lemma steps_exited e ls p : steps d (Exited e) ls p -> p = Exited e /\ ls = [].
Proof. inversion 1 as [|? ? ? ? ? Hp]; subst; [done|inversion Hp]. Qed.

Lemma steps_simulated g ls g' s :
  simulates g s -> Forall named ls -> steps d (Running g) ls (Running g') ->
  exists s', spec_trace d s ls s' /\ simulates g' s'.
Proof.
  revert g s. induction ls as [|l ls IH]; intros g s Hsim Hn Hs.
  - inversion Hs; subst. exists s. split; [constructor|done].
  - inversion Hs as [|? ? p ? ? Hp Hrest]; subst. apply list.Forall_cons in Hn as [Hl Hn].
    destruct p as [g1|e]; [|by apply steps_exited in Hrest as [? _]].
    destruct (proc_step_matched _ _ _ _ Hsim Hl Hp) as (s1 & Hstep & Hsim1).
    destruct (IH _ _ Hsim1 Hn Hrest) as (s2 & Hr & Hsim2). exists s2. split; [|done].
    destruct Hstep as [Hstep|[Hsl ->]]; [by eapply trace_step|by apply trace_silent].
Qed.

Lemma exit_is_last g ls e :
  steps d (Running g) ls (Exited e) ->
  exists ls' g', ls = ls' ++ [Stopped] /\ steps d (Running g) ls' (Running g').
Proof.
  revert g. induction ls as [|l ls IH]; intros g Hs; inversion Hs as [|? ? p1 ? ? Hp Hrest]; subst.
  destruct p1 as [g1|e1].
  - destruct (IH _ Hrest) as (ls' & g' & -> & Hs'). exists (l :: ls'), g'.
    split; [done|]. by econstructor.
  - apply steps_exited in Hrest as [_ ->]. exists [], g. split; [|constructor].
    by inversion Hp.
Qed.

(** The trace of any execution from launch, its end cut off. *)
Lemma steps_traced ls p :
  Forall named ls -> steps d (launch d) ls p ->
  exists ls' s, spec_trace d spec_init ls' s /\ Forall named ls' /\ (ls = ls' \/ ls = ls' ++ [Stopped]).
Proof.
  intros Hn Hs. destruct p as [g|e].
  - destruct (steps_simulated _ _ _ _ launch_simulates Hn Hs) as (s & Ht & _). exists ls, s. auto.
  - destruct (exit_is_last _ _ _ Hs) as (ls' & g & -> & Hs'). apply Forall_app in Hn as [Hn _].
    destruct (steps_simulated _ _ _ _ launch_simulates Hn Hs') as (s & Ht & _). exists ls', s. auto.
Qed.

(** ** What the specification shows: builds in sequence *)
Definition build_of (s : agent_spec) : build :=
  match sp_job s with
  | Some (a, Begun) => BStarted a
  | Some (a, Built r) => BExecuted a r
  | _ => BIdle
  end.

Lemma spec_builds s ls s' : spec_trace d s ls s' -> builds (build_of s) ls = Some (build_of s').
Proof.
  induction 1 as [s|s l s1 ls s2 Hs _ IH|s l ls s2 Hl _ IH]; [done|..]; simpl.
  - assert (E : build_step (build_of s) l = Some (build_of s1)); [|by rewrite E].
    destruct Hs; simpl; rewrite ?decide_True by done; done.
  - destruct Hl as [-> | ->]; done.
Qed.

(** ** Heartbeats are snapshots *)
Definition rendered (q : HeartbeatRequest) : Prop :=
  exists s, spec_named s /\ q = heartbeat_request d (snapshot (render slots s)).

Lemma spec_sends s ls s' q :
  spec_trace d s ls s' -> Forall named ls -> spec_named s ->
  (forall q', sp_beat s = Some q' -> rendered q') -> Sent q ∈ ls -> rendered q.
Proof.
  induction 1 as [s|s l s1 ls s2 Hs _ IH|s l ls s2 Hl _ IH]; intros Hn Hs0 Hb Hq.
  - by apply not_elem_of_nil in Hq.
  - apply list.Forall_cons in Hn as [Hl Hn]. apply elem_of_cons in Hq as [<-|Hq].
    + inversion Hs; subst. by apply Hb.
    + apply IH; [done|by eapply spec_step_named| |done]. intros q' E.
      destruct Hs; simpl in *; simplify_eq; try (by apply Hb). by eexists.
  - apply list.Forall_cons in Hn as [_ Hn]. apply elem_of_cons in Hq as [<-|Hq]; [by destruct Hl|]. auto.
Qed.

(** ** Which jobs are started *)
Definition replies (ls : list label) : list HeartbeatResponse :=
  omap (fun l => match l with Received resp => Some resp | _ => None end) ls.

Definition last_drain (seen : list HeartbeatResponse) : bool :=
  match list.last seen with Some resp => hr_drain_requested resp | None => false end.

Lemma last_drain_snoc seen resp : last_drain (seen ++ [resp]) = hr_drain_requested resp.
Proof. unfold last_drain. by rewrite last_snoc. Qed.

(** [a] may be started after the replies [seen]: the last one carries it and
    the one before did not ask to drain. *)
Definition startable (seen : list HeartbeatResponse) (a : JobAssignment) : Prop :=
  exists before resp, seen = before ++ [resp] /\ hr_assignment resp = Some a /\
    last_drain before = false.

(** The drain flag is that of the last reply handled. *)
Definition follows (seen : list HeartbeatResponse) (s : agent_spec) : Prop :=
  (forall a, sp_job s = Some (a, Accepted) -> startable seen a) /\
  match sp_reply s with
  | None => sp_draining s = last_drain seen /\ unaccepted s
  | Some (resp, _) => exists before, seen = before ++ [resp] /\ sp_draining s = last_drain before
  end.

Lemma spec_step_follows seen s l s' :
  spec_step d s l s' -> follows seen s ->
  follows (seen ++ replies [l]) s' /\ forall a, l = Started a -> startable seen a.
Proof.
  intros Hs [Ha Hr]. destruct Hs; simpl in *; rewrite ?app_nil_r; (split; [split; simpl|]); try done;
    try (intros; by simplify_eq); try (by destruct r as [[]|]; [|destruct Hr]).
  - intros a E. by destruct Hr as [_ Hu]; destruct (Hu a).
  - destruct Hr as [-> _]. by exists seen.
  - intros a' E. simplify_eq. destruct Hr as (before & -> & E'). by exists before, resp.
  - destruct Hr as (before & -> & _). by rewrite last_drain_snoc.
  - intros a' E. simplify_eq. by apply Ha.
Qed.

Lemma spec_started s ls1 a ls2 s' seen :
  spec_trace d s (ls1 ++ Started a :: ls2) s' -> follows seen s -> startable (seen ++ replies ls1) a.
Proof.
  revert s seen. induction ls1 as [|l ls1 IH]; intros s seen Ht Hf; simpl in Ht;
    inversion Ht as [|? ? s1 ? ? Hs Hrest|? ? ? ? Hl Hrest]; subst.
  - rewrite app_nil_r. by eapply spec_step_follows.
  - by destruct Hl.
  - change (l :: ls1) with ([l] ++ ls1). unfold replies. rewrite omap_app, app_assoc.
    eapply IH; [done|]. by eapply spec_step_follows.
  - replace (replies (l :: ls1)) with (replies ls1) by (by destruct Hl as [-> | ->]). by eapply IH.
Qed.
End agent_props.
