(* ===== verification/AgentProps.v ===== *)
(** * The worker agent keeps its promises

    Over every interleaving of its goroutines, every answer of the scheduler
    and every outcome of the executor: the agent refines the automaton
    [spec_step], its heartbeats are well formed, builds run one after the other
    with one report attempt each under the epoch they were assigned, and left
    alone it comes to rest after a bounded number of steps. *)
From Stdlib Require Import SpecFloat.
From S2P Require Import Prelude GoStrings Database WorkerStore Redis Effects Stores GrpcServer.
From S2P Require Import Executor Agent AgentSim.
Local Open Scope Z_scope.

(** ** Termination

    [weighs n t]: the goroutine [t] needs at most [n] steps, a spawn counting
    for the four steps of the goroutine it starts as well. *)
Definition cost {X} (c : cmd X) : nat := match c with Go _ => 5 | _ => 1 end.

Fixpoint weighs (n : nat) (t : thread) : Prop :=
  match t with
  | Done => True
  | Do c k => (cost c <= n)%nat /\ forall x, weighs (n - cost c) (k x)
  end.

(** Steps the agent takes by itself: all but the arrival of a reply, the next
    tick of the heartbeat timer and the end of the process. *)
Definition internal (l : label) : Prop :=
  match l with Received _ | Tick | Stopped => False | _ => True end.

Definition budget (nr ns : nat) (ws : list nat) : nat := (nr + ns + sum_list ws + length ws)%nat.

Definition within (n : nat) (g : agent) : Prop :=
  exists nr ns ws, weighs nr (ag_receiver g) /\ weighs ns (ag_sender g) /\
    Forall2 weighs ws (ag_runners g) /\ (budget nr ns ws <= n)%nat.

Section agent_props.
Context (d : heartbeatDeps) `{Executor}.

Lemma weighs_runAssignment a : weighs 3 (runAssignment d a).
Proof. simpl. repeat first [split | progress intros | lia | done]. Qed.

Lemma weighs_handle_drain n resp : (1 <= n)%nat -> weighs n (handle_drain resp).
Proof. intros. unfold handle_drain. case_match; simpl; auto. Qed.

Lemma weighs_receive resp : weighs 9 (receive resp).
Proof.
  unfold receive. case_match; [|apply weighs_handle_drain; lia].
  repeat first [apply weighs_handle_drain; simpl; lia | split; [simpl; lia|] | intros [|] | intros [] ].
Qed.

(** A step of a goroutine pays for itself and for what it spawns. *)
Lemma thread_step_pays n st t l st' t' new :
  weighs n t -> thread_step d st t l st' t' new ->
  exists n' ws, weighs n' t' /\ Forall2 weighs ws new /\
    (n' + sum_list ws + length ws < n)%nat.
Proof.
  destruct t as [|X c k]; [done|]. intros [Hc Hk] (x & Hx & ->). exists (n - cost c)%nat.
  destruct c; simpl in *; destruct_and?; simplify_eq.
  2: exists [3%nat]; split; [done|]; split; [|simpl; lia];
     constructor; [apply weighs_runAssignment|constructor].
  all: exists []; split; [done|]; split; [constructor|simpl; lia].
Qed.

Lemma sum_list_app' (l1 l2 : list nat) : sum_list (l1 ++ l2) = (sum_list l1 + sum_list l2)%nat.
Proof. induction l1 as [|x l1 IH]; simpl; [done|]. rewrite IH. lia. Qed.

Lemma internal_step_pays n g l g' :
  within n g -> internal l -> proc_step d (Running g) l (Running g') ->
  exists n', (n' < n)%nat /\ within n' g'.
Proof.
  intros (nr & ns & ws & Hr & Hs & Hw & Hb) Hi Hp. unfold budget in Hb.
  inversion Hp as [st snd rs resp|st rcv rs|st rcv snd rs l' st' rcv' new Ht|st rcv snd rs l' st' snd' new Ht
    |st rcv snd rs1 t rs2 l' st' t' new Ht|st rcv snd rs1 rs2|]; subst; simpl in *; try done.
  - destruct (thread_step_pays _ _ _ _ _ _ _ Hr Ht) as (n' & ws' & Hr' & Hw' & Hlt).
    exists (n - 1)%nat. split; [lia|]. exists n', ns, (ws ++ ws'). split; [done|]. split; [done|].
    split; [by apply Forall2_app|]. unfold budget. rewrite sum_list_app', length_app. lia.
  - destruct (thread_step_pays _ _ _ _ _ _ _ Hs Ht) as (n' & ws' & Hr' & Hw' & Hlt).
    exists (n - 1)%nat. split; [lia|]. exists nr, n', (ws ++ ws'). split; [done|]. split; [done|].
    split; [by apply Forall2_app|]. unfold budget. rewrite sum_list_app', length_app. lia.
  - apply Forall2_app_inv_r in Hw as (w1 & w2 & H1 & H2 & ->).
    apply Forall2_cons_inv_r in H2 as (w & w2' & Hw & H2 & ->).
    destruct (thread_step_pays _ _ _ _ _ _ _ Hw Ht) as (n' & ws' & Hr' & Hw' & Hlt).
    rewrite sum_list_app', length_app in Hb. simpl in Hb.
    exists (n - 1)%nat. split; [lia|]. exists nr, ns, (w1 ++ n' :: w2' ++ ws').
    split; [done|]. split; [done|]. split; [apply Forall2_app; [done|]; constructor; [done|];
      by apply Forall2_app|].
    unfold budget. rewrite !sum_list_app', !length_app. simpl. rewrite sum_list_app', length_app. lia.
  - apply Forall2_app_inv_r in Hw as (w1 & w2 & H1 & H2 & ->).
    apply Forall2_cons_inv_r in H2 as (w & w2' & Hw & H2 & ->).
    rewrite sum_list_app', length_app in Hb. simpl in Hb.
    exists (n - 1)%nat. split; [lia|]. exists nr, ns, (w1 ++ w2').
    split; [done|]. split; [done|]. split; [by apply Forall2_app|].
    unfold budget. rewrite sum_list_app', length_app. lia.
Qed.

Lemma weighs_mono n m t : (n <= m)%nat -> weighs n t -> weighs m t.
Proof.
  revert n m. induction t as [|X c k IH]; intros n m Hnm; simpl; [done|].
  intros [Hc Hk]. split; [lia|]. intros x. eapply IH; [|apply Hk]. lia.
Qed.

Lemma receiver_weighs s t : receiver_at s t -> weighs 9 t.
Proof.
  destruct 1; try apply weighs_receive; try (apply weighs_handle_drain; lia); [done|..];
    repeat first [apply weighs_handle_drain; simpl; lia | split; [simpl; lia|] | intros [|] | intros [] ].
Qed.

Lemma sender_weighs s t : sender_at d s t -> weighs 2 t.
Proof.
  unfold sender_at. destruct (sp_beat s); [intros ->|intros [-> | ->]]; simpl;
    repeat first [split | progress intros | lia | done].
Qed.

Lemma runner_weighs s : Forall (weighs 3) (build_threads d s).
Proof.
  unfold build_threads. destruct (sp_job s) as [[a []]|]; repeat constructor; simpl;
    repeat first [split | progress intros | lia | done].
Qed.

Lemma runners_weigh rs :
  Forall (weighs 3) (live rs) ->
  exists ws, Forall2 weighs ws rs /\ sum_list ws = (3 * length (live rs))%nat.
Proof.
  induction rs as [|t rs IH]; intros Hl; [by exists []|].
  unfold live in *. rewrite filter_cons in *. case_decide as Ht.
  - apply list.Forall_cons in Hl as [H3 Hl]. destruct (IH Hl) as (ws & Hw & E).
    exists (3%nat :: ws). split; [by constructor|]. simpl. lia.
  - destruct (IH Hl) as (ws & Hw & E). exists (0%nat :: ws). split; [|done].
    constructor; [by destruct t|done].
Qed.

Lemma simulates_within g s : simulates d g s -> within (14 + length (ag_runners g)) g.
Proof.
  intros [(_ & Hrcv & Hs & Hrs) _]. pose proof (runner_weighs s) as Hl. rewrite <- Hrs in Hl.
  pose proof (build_threads_one d s) as Hlen. rewrite <- Hrs in Hlen.
  destruct (runners_weigh _ Hl) as (ws & Hw & E).
  exists 9%nat, 2%nat, ws. split; [by eapply receiver_weighs|]. split; [by eapply sender_weighs|].
  split; [done|]. unfold budget. apply Forall2_length in Hw. lia.
Qed.

Lemma internal_run_bounded n g ls g' :
  within n g -> Forall internal ls -> steps d (Running g) ls (Running g') ->
  (length ls <= n)%nat.
Proof.
  revert n g. induction ls as [|l ls IH]; intros n g Hw Hi Hs; simpl; [lia|].
  inversion Hs as [|? ? p1 ? ? Hp Hrest]; subst. apply list.Forall_cons in Hi as [Hl Hi].
  destruct p1 as [g1|e]; [|by apply steps_exited in Hrest as [? _]].
  destruct (internal_step_pays _ _ _ _ Hw Hl Hp) as (n' & Hlt & Hw').
  specialize (IH n' g1 Hw' Hi Hrest). lia.
Qed.

(** ** Progress *)
Definition at_rest (g : agent) : Prop :=
  ag_receiver g = Done /\ ag_sender g = Done /\ ag_runners g = [].

Context `{!ExecutorLaws}.

Lemma thread_progress st t : t <> Done ->
  exists l st' t' new, internal l /\ thread_step d st t l st' t' new.
Proof.
  destruct t as [|X c k]; [done|]. intros _. destruct c as [X f|a|a|q|q].
  - exists Tau, (f st).2, (k (f st).1), []. split; [done|]. by exists (f st).1.
  - exists (Started a), st, (k tt), [runAssignment d a]. split; [done|]. by exists tt.
  - destruct (executes_total a) as [r Hr].
    exists (Executed a r), st, (k r), []. split; [done|]. by exists r.
  - exists (Reported q None), st, (k None), []. split; [done|]. by exists None.
  - exists (Sent q), st, (k tt), []. split; [done|]. by exists tt.
Qed.

Lemma thread_done_dec (t : thread) : t = Done \/ t <> Done.
Proof. destruct t; [by left|by right]. Qed.

Lemma rest_or_step g :
  at_rest g \/ exists l g', internal l /\ proc_step d (Running g) l (Running g').
Proof.
  destruct g as [st rcv snd rs].
  destruct (thread_done_dec rcv) as [->|Hr].
  2: { destruct (thread_progress st rcv Hr) as (l & st' & t' & new & Hi & Ht). right.
       exists l. eexists. split; [done|]. by apply p_receiver. }
  destruct (thread_done_dec snd) as [->|Hs].
  2: { destruct (thread_progress st snd Hs) as (l & st' & t' & new & Hi & Ht). right.
       exists l. eexists. split; [done|]. by apply p_sender. }
  destruct rs as [|t rs]; [by left|]. right.
  destruct (thread_done_dec t) as [->|Ht].
  - exists Tau. eexists. split; [done|]. apply (p_return d st Done Done [] rs).
  - destruct (thread_progress st t Ht) as (l & st' & t' & new & Hi & Hstep).
    exists l. eexists. split; [done|]. by apply (p_runner d st Done Done [] t rs).
Qed.

Lemma reaches_rest n g : within n g ->
  exists ls g', Forall internal ls /\ steps d (Running g) ls (Running g') /\ at_rest g'.
Proof.
  revert g. induction n as [n IH] using lt_wf_ind. intros g Hw.
  destruct (rest_or_step g) as [Hrest|(l & g1 & Hi & Hp)].
  - exists [], g. split; [constructor|]. split; [constructor|done].
  - destruct (internal_step_pays _ _ _ _ Hw Hi Hp) as (n' & Hlt & Hw').
    destruct (IH n' Hlt g1 Hw') as (ls & g' & Hls & Hs & Hr).
    exists (l :: ls), g'. split; [by constructor|]. split; [by econstructor|done].
Qed.

Lemma internal_named l : internal l -> named l.
Proof. by destruct l. Qed.

Lemma rest_is_idle g s : simulates d g s -> at_rest g ->
  build_of s = BIdle /\ a_currentJobID (ag_state g) = "" /\
  a_availableCapacity (ag_state g) = d_capacitySlots d.
Proof.
  intros [(Hst & Hrcv & _ & Hrs) _] (H1 & _ & H3). rewrite H1 in Hrcv. rewrite H3 in Hrs.
  apply receiver_done in Hrcv as [_ Hu]. rewrite Hst. unfold build_threads, build_of, render in *.
  destruct (sp_job s) as [[a []]|] eqn:E; try done. by destruct (Hu a).
Qed.

(** ** The theorems *)

(** C26: the agent implements its specification.  Every execution from launch,
    of any interleaving of its goroutines with any replies of the scheduler
    and any outcome of the builds, is a trace of the sequential automaton
    [spec_step]: each step of a goroutine is one step of the automaton with
    the same label, or is silent and changes nothing.  So an assignment is
    accepted only while idle and not draining and refused only while busy or
    draining, the drain flag is what the last handled reply said, and builds
    are started, executed and reported one at a time.  The state the process
    shares is the one the automaton's state shows, and the live build
    goroutine is the one the automaton is in. *)
Theorem agent_refines_spec (ls : list label) (g : agent) :
  Forall named ls -> steps d (launch d) ls (Running g) ->
  exists s, spec_trace d spec_init ls s /\ ag_state g = render (d_capacitySlots d) s /\
    live (ag_runners g) = build_threads d s.
Proof.
  intros Hn Hs. destruct (steps_simulated d _ _ _ _ (launch_simulates d) Hn Hs)
    as (s & Ht & (Hst & _ & _ & Hrs) & _). by exists s.
Qed.

(** C32: builds never overlap.  In every execution the starts, runs and reports
    form a sequence of complete rounds, the last possibly cut: start an
    assignment, execute exactly it, attempt exactly one report, of that result
    under that assignment's job id and epoch, and never another one whatever
    the reply was.  An assignment is started only as part of handling the
    reply that carries it, and only if the reply before that one did not ask
    to drain. *)
Theorem builds_are_serial (ls : list label) (p : process) :
  Forall named ls -> steps d (launch d) ls p ->
  is_Some (builds BIdle ls) /\
  (forall ls1 a ls2, ls = ls1 ++ Started a :: ls2 ->
     exists before resp, replies ls1 = before ++ [resp] /\ hr_assignment resp = Some a /\
       last_drain before = false).
Proof.
  intros Hn Hs. destruct (steps_traced d ls p Hn Hs) as (ls' & s & Ht & _ & Hls). split.
  - pose proof (spec_builds d _ _ _ Ht) as Hb. change (build_of spec_init) with BIdle in Hb.
    destruct Hls as [->| ->]; [by eexists|]. rewrite builds_app, Hb. by eexists.
  - intros ls1 a ls2 E. assert (Ht' : exists ls2', ls' = ls1 ++ Started a :: ls2').
    { destruct Hls as [->| ->]; [by eexists|]. destruct ls2 as [|l ls2 _] using rev_ind.
      - by apply app_inj_2 in E as [_ [=]].
      - exists ls2. rewrite app_comm_cons, app_assoc in E. by apply app_inj_2 in E as [-> _]. }
    destruct Ht' as [ls2' ->]. by eapply (spec_started d _ _ _ _ _ []).
Qed.

(** C33: left alone, the agent comes to rest.  From any reachable state every
    sequence of its own steps (no new reply, no new heartbeat tick) has at
    most 14 more steps than there are build goroutines, can be continued to a
    state where nothing is left to do, and there the agent is idle with all
    its slots free and the last build it started has been reported. *)
Theorem agent_comes_to_rest (ls ls' : list label) (g g' : agent) :
  Forall named ls -> steps d (launch d) ls (Running g) ->
  Forall internal ls' -> steps d (Running g) ls' (Running g') ->
  (length ls' <= 14 + length (ag_runners g))%nat /\
  exists ls2 g2, Forall internal ls2 /\ steps d (Running g') ls2 (Running g2) /\ at_rest g2 /\
    a_currentJobID (ag_state g2) = "" /\
    a_availableCapacity (ag_state g2) = d_capacitySlots d /\
    builds BIdle (ls ++ ls' ++ ls2) = Some BIdle.
Proof.
  intros Hn Hs Hi Hs'.
  destruct (steps_simulated d _ _ _ _ (launch_simulates d) Hn Hs) as (s & Ht & Hsim).
  split; [eapply internal_run_bounded; [by eapply simulates_within|done|exact Hs']|].
  assert (Hni : forall l, Forall internal l -> Forall named l)
    by (intros l; apply Forall_impl, internal_named).
  destruct (steps_simulated d _ _ _ _ Hsim (Hni _ Hi) Hs') as (s1 & Ht1 & Hsim1).
  destruct (reaches_rest _ g' (simulates_within _ _ Hsim1)) as (ls2 & g2 & Hi2 & Hs2 & Hr).
  destruct (steps_simulated d _ _ _ _ Hsim1 (Hni _ Hi2) Hs2) as (s2 & Ht2 & Hsim2).
  destruct (rest_is_idle _ _ Hsim2 Hr) as (Hb & Hj & Hc). exists ls2, g2. do 5 (split; [done|]).
  rewrite builds_app, (spec_builds d _ _ _ Ht : builds BIdle ls = _). simpl.
  by rewrite builds_app, (spec_builds d _ _ _ Ht1), (spec_builds d _ _ _ Ht2), Hb.
Qed.
End agent_props.

(** ** Heartbeats *)
Lemma clamp_slots_range n : 1 <= clamp_slots n <= max_int32.
Proof.
  unfold clamp_slots, max_int32. pose proof (wrap_range 32 n ltac:(lia)) as Hw.
  change (2 ^ (32 - 1)) with 2147483648 in Hw. fold (int32 n) in Hw.
  destruct (Z.leb_spec (int32 n) 0); lia.
Qed.

(** C34: every heartbeat an agent sends is well formed: it carries the id and
    epoch of the registration; it is BUSY with a job id and no capacity, or
    READY or DRAINING with no job and all the slots, between 1 and the largest
    int32, whatever number of slots was configured. *)
Theorem heartbeats_are_well_formed `{Executor} (resp : RegisterWorkerResponse) (configured : Z)
    (ls : list label) (p : process) (q : HeartbeatRequest) :
  let d := agent_deps resp configured in
  Forall named ls -> steps d (launch d) ls p -> Sent q ∈ ls ->
  hb_worker_id q = rs_worker_id resp /\ hb_epoch q = rs_epoch resp /\
  ((hb_status q = WORKER_STATUS_BUSY /\ hb_available_capacity q = 0 /\
    exists j, hb_current_job_id q = Some j /\ j <> "") \/
   ((hb_status q = WORKER_STATUS_READY \/ hb_status q = WORKER_STATUS_DRAINING) /\
    hb_current_job_id q = None /\ hb_available_capacity q = d_capacitySlots d /\
    1 <= hb_available_capacity q <= max_int32)).
Proof.
  intros d Hn Hs Hq. destruct (steps_traced d ls p Hn Hs) as (ls' & s0 & Ht & Hn' & Hls).
  assert (Hq' : Sent q ∈ ls').
  { destruct Hls as [->| ->]; [done|]. apply elem_of_app in Hq as [|Hq]; [done|].
    by apply list_elem_of_singleton in Hq. }
  destruct (spec_sends d _ _ _ q Ht Hn') as ([[[a ph]|] dr ? ?] & [Ha _] & ->); try done.
  - split; [done|]. split; [done|]. left. split; [done|]. split; [done|].
    exists (ja_job_id a). specialize (Ha a ph eq_refl). split; [|done].
    simpl. unfold ptr_of_string. by rewrite decide_False.
  - split; [done|]. split; [done|]. right. simpl. split; [destruct dr; auto|].
    split; [done|]. split; [done|]. apply clamp_slots_range.
Qed.

(** ** A concrete execution: a job arrives with a drain request, is built,
    reported, and the agent sends a DRAINING heartbeat *)
Definition demo_resp : RegisterWorkerResponse := mkRegisterWorkerResponse "w-a" 1 5 20.
Definition demo_deps : heartbeatDeps := agent_deps demo_resp 2.
Definition demo_job : JobAssignment := mkJobAssignment "j-1" 1 "repo" "main" "abc123".
Definition demo_result : Result := mkResult true 0 "local://simulated/j-1" "".
Definition demo_executor : Executor := SimulatedExecutor (S754_zero false).
Definition demo_start : list label :=
  [Received (mkHeartbeatResponse true (Some demo_job) true); Tau; Tau; Tau; Started demo_job].
Definition demo_build : list label :=
  [Tau; Executed (executor_assignment demo_job) demo_result;
   Reported (report_request demo_job demo_result) (Some (mkReportJobResultResponse true false));
   Tau; Tau].
Definition demo_heartbeat : HeartbeatRequest :=
  mkHeartbeatRequest "w-a" 1 WORKER_STATUS_DRAINING None 2.

Definition demo_running : agent :=
  mkAgent (mkAgentState WORKER_STATUS_BUSY "j-1" 0 false)
    (handle_drain (mkHeartbeatResponse true (Some demo_job) true)) Done
    [runAssignment demo_deps demo_job].
Definition demo_rest : agent :=
  mkAgent (mkAgentState WORKER_STATUS_DRAINING "" 2 true) Done Done [].

#[local] Existing Instance demo_executor.

Ltac one_cmd := first [exists tt; split; [|reflexivity]; done | by eexists].
Ltac by_receiver := eapply steps_cons; [apply p_receiver; one_cmd|].
Ltac by_runner :=
  eapply steps_cons; [apply (p_runner demo_deps _ _ _ [] _ []); eexists; split; [|reflexivity]|].

Lemma demo_starts : steps demo_deps (launch demo_deps) demo_start (Running demo_running).
Proof.
  unfold demo_start, launch. eapply steps_cons; [apply p_receive|].
  do 4 by_receiver. apply steps_nil.
Qed.

Lemma demo_finishes : steps demo_deps (Running demo_running) demo_build (Running demo_rest).
Proof.
  unfold demo_build, demo_running. by_receiver. simpl.
  by_runner; [split; [by exists (fun _ => false), (S754_zero false)|done]|].
  by_runner; [done|]. by_runner; [done|].
  eapply steps_cons; [apply (p_return demo_deps _ _ _ [] [])|]. apply steps_nil.
Qed.

Lemma steps_app d `{Executor} p1 ls1 p2 ls2 p3 :
  steps d p1 ls1 p2 -> steps d p2 ls2 p3 -> steps d p1 (ls1 ++ ls2) p3.
Proof. induction 1; simpl; intros; [done|]. econstructor; eauto. Qed.

Definition demo_send : list label := [Tick; Tau; Sent demo_heartbeat].
Lemma demo_sends : steps demo_deps (Running demo_rest) demo_send (Running demo_rest).
Proof.
  unfold demo_send, demo_rest. eapply steps_cons; [apply p_tick|].
  do 2 (eapply steps_cons; [apply p_sender; one_cmd|]). apply steps_nil.
Qed.

Definition demo_all : list label := (demo_start ++ demo_build) ++ demo_send.
Lemma demo_runs : steps demo_deps (launch demo_deps) demo_all (Running demo_rest).
Proof. eapply steps_app; [|exact demo_sends]. eapply steps_app; [exact demo_starts|exact demo_finishes]. Qed.

Lemma demo_named_start : Forall named demo_start.
Proof. repeat constructor. simpl. intros a E. by simplify_eq. Qed.
Lemma demo_named : Forall named demo_all.
Proof. apply Forall_app; split; [apply Forall_app; split; [apply demo_named_start|]|]; by repeat constructor. Qed.

Lemma agent_refines_spec_witness : exists s,
  spec_trace demo_deps spec_init demo_start s /\
  ag_state demo_running = render (d_capacitySlots demo_deps) s /\
  live (ag_runners demo_running) = build_threads demo_deps s.
Proof. apply (agent_refines_spec demo_deps demo_start); [apply demo_named_start|exact demo_starts]. Defined.

Lemma builds_are_serial_witness :
  is_Some (builds BIdle demo_all) /\
  (forall ls1 a ls2, demo_all = ls1 ++ Started a :: ls2 ->
     exists before resp, replies ls1 = before ++ [resp] /\ hr_assignment resp = Some a /\
       last_drain before = false).
Proof. apply (builds_are_serial demo_deps demo_all (Running demo_rest)); [apply demo_named|exact demo_runs]. Defined.

Lemma agent_comes_to_rest_witness :
  (length demo_build <= 14 + length (ag_runners demo_running))%nat /\
  exists ls2 g2, Forall internal ls2 /\ steps demo_deps (Running demo_rest) ls2 (Running g2) /\
    at_rest g2 /\ a_currentJobID (ag_state g2) = "" /\
    a_availableCapacity (ag_state g2) = d_capacitySlots demo_deps /\
    builds BIdle (demo_start ++ demo_build ++ ls2) = Some BIdle.
Proof.
  unshelve eapply (agent_comes_to_rest demo_deps demo_start demo_build demo_running demo_rest).
  - apply SimulatedExecutor_laws.
  - apply demo_named_start.
  - exact demo_starts.
  - by repeat constructor.
  - exact demo_finishes.
Defined.

Lemma heartbeats_are_well_formed_witness :
  let q := demo_heartbeat in
  hb_worker_id q = "w-a" /\ hb_epoch q = 1 /\
  ((hb_status q = WORKER_STATUS_BUSY /\ hb_available_capacity q = 0 /\
    exists j, hb_current_job_id q = Some j /\ j <> "") \/
   ((hb_status q = WORKER_STATUS_READY \/ hb_status q = WORKER_STATUS_DRAINING) /\
    hb_current_job_id q = None /\ hb_available_capacity q = d_capacitySlots demo_deps /\
    1 <= hb_available_capacity q <= max_int32)).
Proof.
  apply (heartbeats_are_well_formed demo_resp 2 demo_all (Running demo_rest) demo_heartbeat).
  - apply demo_named.
  - exact demo_runs.
  - unfold demo_all, demo_send. apply elem_of_app. right. right. right. left.
Defined.
