(* ===== verification/Handshake.v ===== *)
(** * The agent and the scheduler together

    The agent's receive loop run against the replies handleHeartbeat computes:
    an assigned job is handed over, started, marked RUNNING and settled by the
    agent's report.  Then two executions of the pair that lose a drain request
    and a job. *)
From Stdlib Require Import SpecFloat.
From S2P Require Import Prelude GoStrings Database WorkerStore JobStore Lifecycle Invariant.
From S2P Require Import StoreSound Redis Effects Stores CacheProps Loop Reaper RetryPoller GrpcServer.
From S2P Require Import Autoscaler Api System Scenario SchedulerProps GrpcProps Executor Agent AgentSim.
Local Open Scope Z_scope.
#[local] Arguments run : simpl never.

(** ** A goroutine that is not interleaved

    Run a thread's mutex-guarded methods and spawns in one go: the final state
    and the assignments it starts. *)
Fixpoint settle (t : thread) (st : agentState) : agentState * list JobAssignment :=
  match t with
  | Done => (st, [])
  | Do c k =>
      match c in cmd X return (X -> agentState -> agentState * list JobAssignment) ->
                              agentState * list JobAssignment with
      | Locked f => fun k => k (f st).1 (f st).2
      | Go a => fun k => let '(st', l) := k tt st in (st', a :: l)
      | _ => fun _ => (st, [])
      end (fun x => settle (k x))
  end.

(** The agent after one reply, and the job it started. *)
Definition on_reply (resp : HeartbeatResponse) (st : agentState) : agentState * list JobAssignment :=
  settle (receive resp) st.

(** The commands [settle] interprets. *)
Fixpoint local_only (t : thread) : Prop :=
  match t with
  | Done => True
  | Do c k => match c with Locked _ | Go _ => True | _ => False end /\ forall x, local_only (k x)
  end.

Lemma receive_local resp : local_only (receive resp).
Proof.
  assert (Hd : local_only (handle_drain resp)) by (unfold handle_drain; case_match; simpl; auto).
  unfold receive. case_match; [|done]. simpl. split; [done|]. intros [|]; [done|].
  split; [done|]. intros [|]; [done|]. by repeat split.
Qed.

(** [settle] is an execution of the process. *)
Lemma settle_steps d `{Executor} t st snd rs :
  local_only t ->
  exists ls, steps d (Running (mkAgent st t snd rs)) ls
    (Running (mkAgent (settle t st).1 Done snd (rs ++ map (runAssignment d) (settle t st).2))).
Proof.
  revert st rs. induction t as [|X c k IH]; intros st rs Hl.
  - exists []. simpl. rewrite app_nil_r. constructor.
  - destruct Hl as [Hc Hk]. destruct c as [X f|a|a|q|q]; try done.
    + destruct (IH (f st).1 (f st).2 rs (Hk _)) as [ls Hs]. exists (Tau :: ls).
      econstructor; [apply p_receiver; by eexists|]. by rewrite app_nil_r.
    + destruct (IH tt st (rs ++ [runAssignment d a]) (Hk _)) as [ls Hs]. exists (Started a :: ls).
      econstructor; [apply p_receiver; exists tt; by split|]. simpl in *.
      destruct (settle (k tt) st) as [st' l]. simpl in *. by rewrite <- app_assoc in Hs.
Qed.

(** ** One heartbeat that hits the cache *)

Lemma decode_written s h :
  - 2 ^ 63 <= ws_Epoch s < 2 ^ 63 ->
  let st := decode_state (hash_write (state_fields s) h) in
  ws_Epoch st = ws_Epoch s /\ ws_Status st = ws_Status s /\ ws_CurrentJobID st = ws_CurrentJobID s /\
  ws_DrainRequested st = strconv.ParseBool (field h "drain_requested").
Proof.
  intros He. unfold decode_state, field. simpl. rewrite !hash_write_lookup. simpl. simplify_map_eq.
  by rewrite strconv.ParseInt_Itoa.
Qed.

Section heartbeat.
Context `{RedisHashLaws}.

(** The cache knows the worker under [key] as [st]. *)
Definition cached_as (key : string) (w : world) (st : WorkerState) : Prop :=
  read_state (hgetall (stateKey key) (w_redis w)) = Ok (Some st).

Lemma heartbeat_hit s req o w cached :
  redis_fault (o 0%nat) = NoFault -> hb_worker_id req <> "" ->
  cached_as (hb_worker_id req) w cached -> ws_Epoch cached = hb_epoch req ->
  run (handleHeartbeat s req) o w =
  run (heartbeat_accepted s req true cached (ws_DrainRequested cached)) (later o 1) w.
Proof.
  intros Ho Hid Hc He. unfold handleHeartbeat. rewrite decide_False by done.
  unfold GetState, rdc, trigger. cbn [bind]. rewrite run_rd by done. cbn [exec_rd fst snd].
  fold (read_state (hgetall (stateKey (hb_worker_id req)) (w_redis w))). rewrite Hc. simpl.
  rewrite decide_False by (intros Hn; by apply Hn). destruct w. rewrite He. done.
Qed.

(** Calls that leave the jobs and Redis alone. *)
Definition keeps_jobs {X} (c : call X) : Prop :=
  match c with
  | Pg c => match c with PgSelectJobCreatedAt _ | PgUpdateHeartbeatRow _ _ _ _ => True | _ => False end
  | TimeNow => True
  | _ => False
  end.

Lemma flush_keeps_jobs w f c k n j : all_calls (@keeps_jobs) (flush_heartbeat w f c k n j).
Proof.
  unfold flush_heartbeat, UpdateHeartbeat. apply all_calls_bind; [by destruct f|]. intros due.
  case_match; [|done]. apply all_calls_bind; [|intros [|]; simpl; auto].
  destruct (ptr_of_string j); simpl; [|auto]. split; [done|]. intros [t|]; simpl; auto.
Qed.

Lemma run_keeps_jobs {A} (p : prog A) o w :
  all_calls (@keeps_jobs) p ->
  jobs (w_db (run p o w).2) = jobs (w_db w) /\ w_redis (run p o w).2 = w_redis w.
Proof.
  intros Hp. apply (run_preserves (@keeps_jobs)
    (fun w' => jobs (w_db w') = jobs (w_db w) /\ w_redis w' = w_redis w) p o w Hp); [|done].
  intros X c e w' Hc [<- <-]. destruct c as [B c| | | |]; try done.
  split; [|simpl; by destruct (with_fault _ _ _)].
  destruct (handle_pg_db c e w') as [-> | ->]; [done|].
  destruct c; try done; simpl.
  - unfold SelectJobCreatedAt. by case_match.
  - match goal with |- context [UpdateHeartbeatRow ?a ?b ?s ?cj e ?d1] =>
      destruct (UpdateHeartbeatRow_cases a b s cj e d1) as [(r & -> & _)|(st & w1 & _ & Hw & He & _ & ->)] end; done.
Qed.

(** The end of the handler: flush, write the cache, answer. *)
Lemma heartbeat_end s key f c ep st j cap a drain o w :
  redis_reliable o -> - 2 ^ 63 <= ep < 2 ^ 63 ->
  let r := run (let! lastFlush := flush_heartbeat key f c ep st j in
     SetState key (mkWorkerState ep st j cap lastFlush false) >>
     SetAlive key (s_heartbeatTimeoutSeconds s * Second) >>
     Ret (Reply (mkHeartbeatResponse true a drain))) o w in
  r.1 = Reply (mkHeartbeatResponse true a drain) /\
  jobs (w_db r.2) = jobs (w_db w) /\
  exists c', cached_as key r.2 c' /\ ws_Epoch c' = ep /\ ws_Status c' = st /\
    ws_CurrentJobID c' = j /\
    ws_DrainRequested c' = strconv.ParseBool (field (hgetall (stateKey key) (w_redis w)) "drain_requested").
Proof.
  intros Ho He r. subst r. match goal with |- context [run (bind ?p ?k) o w] =>
    destruct (events_bind p k o w) as (n & -> & _);
    destruct (run_keeps_jobs p o w (flush_keeps_jobs _ _ _ _ _ _)) as [Hj Hr];
    destruct (run p o w) as [last w1] end.
  simpl in Hj, Hr. unfold SetState, SetAlive, rdc, trigger. cbn [bind fst snd].
  rewrite !run_rd by apply Ho. cbn [exec_rd fst snd]. unfold run. cbn [fst snd w_db w_redis].
  split; [done|]. split; [done|].
  set (ws := mkWorkerState ep st j cap last false). set (h := hgetall (stateKey key) (w_redis w)).
  destruct (decode_written ws h He) as (E1 & E2 & E3 & E4).
  eexists. split; [|by split_and!].
  unfold cached_as, read_state. cbn [w_redis].
  rewrite hgetall_set_px by (intros E; by apply (stateKey_aliveKey key key)).
  rewrite hgetall_hset, Hr, decide_False by by apply hash_write_nonempty. done.
Qed.
End heartbeat.

(** ** From an assigned job to its result *)

(** The assignment handed over for the job row [j] at key [k]. *)
Definition handed_over (k : string) (epoch : Z) (j : job_row) : JobAssignment :=
  mkJobAssignment k epoch (j_repository j) (j_branch j) (j_commit_sha j).

(** The heartbeat of an agent in state [st]. *)
Definition beat (d : heartbeatDeps) (st : agentState) : HeartbeatRequest :=
  heartbeat_request d (snapshot st).

Section delivery.
Context `{RedisHashLaws} (s : Server) (d : heartbeatDeps).
Abbreviation key := (d_workerID d).
Context (Hkey : key <> "") (Hep : - 2 ^ 63 <= d_epoch d < 2 ^ 63).

Lemma GetJobRow_found k e db j : jobs db !! k = Some j -> GetJobRow k e db = (Ok (scanJobRow j), db).
Proof. intros Hj. unfold GetJobRow. by rewrite Hj. Qed.

Lemma idle_heartbeat_delivers o w cached k j :
  wf_db (w_db w) -> pg_reliable o -> redis_reliable o ->
  cached_as key w cached -> ws_Epoch cached = d_epoch d -> ws_Status cached = "BUSY" ->
  ws_CurrentJobID cached = k -> k <> "" -> jobs (w_db w) !! k = Some j -> j_status j = ASSIGNED ->
  let r := run (handleHeartbeat s (beat d (initial_state d))) o w in
  r.1 = Reply (mkHeartbeatResponse true (Some (handed_over k (d_epoch d) j)) (ws_DrainRequested cached)) /\
  jobs (w_db r.2) = jobs (w_db w) /\
  exists c', cached_as key r.2 c' /\ ws_Epoch c' = d_epoch d.
Proof.
  intros Hwf Hpg Hrd Hc He Hb <- Hk Hj Hs r. subst r.
  rewrite (heartbeat_hit s (beat d (initial_state d)) o w cached (Hrd 0%nat) Hkey Hc He).
  unfold heartbeat_accepted, pending_assignment. rewrite Hb.
  rewrite (bool_decide_eq_false_2 (ws_CurrentJobID cached = "")) by done. simpl.
  unfold pgc, trigger. cbn [bind]. rewrite run_pg by apply Hpg. cbn [exec_pg].
  rewrite !(GetJobRow_found _ _ _ _ Hj). simpl. rewrite Hs. simpl.
  unfold string_of_ptr, ptr_of_string. simpl.
  match goal with |- context [run ?p ?o1 ?w1] => set (o' := o1); set (w' := w1) end.
  assert (Hid : j_id j = ws_CurrentJobID cached) by by destruct (wf_jobs _ Hwf _ _ Hj).
  rewrite Hid. fold (handed_over (ws_CurrentJobID cached) (d_epoch d) j).
  destruct (heartbeat_end s key true cached (d_epoch d) (workerStatusToDB WORKER_STATUS_READY) ""
    (d_capacitySlots d) (Some (handed_over (ws_CurrentJobID cached) (d_epoch d) j))
    (ws_DrainRequested cached) o' w') as (E1 & E2 & c' & Hc' & Ec & _); [|done|].
  { intros n. apply Hrd. }
  split; [exact E1|]. split; [exact E2|]. eauto.
Qed.

(** A heartbeat naming its assigned job starts it. *)
Lemma busy_heartbeat_starts o w cached k j draining :
  pg_reliable o -> redis_reliable o ->
  cached_as key w cached -> ws_Epoch cached = d_epoch d -> k <> "" ->
  jobs (w_db w) !! k = Some j -> j_status j = ASSIGNED ->
  j_assignment_epoch j = Some (d_epoch d) ->
  let r := run (handleHeartbeat s (beat d (mkAgentState WORKER_STATUS_BUSY k 0 draining))) o w in
  jobs (w_db r.2) !! k =
    Some (j_set_started_at (Some (pg_now (o 1%nat))) (j_set_status RUNNING j)).
Proof.
  intros Hpg Hrd Hc He Hk Hj Hs Hje r. subst r.
  rewrite (heartbeat_hit s (beat d _) o w cached (Hrd 0%nat) Hkey Hc He).
  unfold heartbeat_accepted, pending_assignment. cbn [beat heartbeat_request snapshot hb_current_job_id
    a_currentJobID hb_status a_status hb_epoch hb_worker_id hb_available_capacity].
  rewrite string_of_ptr_of_string. rewrite (bool_decide_eq_false_2 (k = "")) by done.
  rewrite andb_false_r. cbn [bind]. change (workerStatusToDB WORKER_STATUS_BUSY) with "BUSY".
  rewrite bool_decide_eq_true_2 by done. cbn [andb negb]. unfold pgc, trigger. cbn [bind].
  rewrite run_pg by apply Hpg. cbn [exec_pg].
  destruct (MarkRunning_cases k (d_epoch d) (later o 1 0%nat) (w_db w)) as [E|(j' & Hj' & _ & _ & E)].
  { exfalso. unfold MarkRunning in E. revert E. run_stmt. unfold update_job, update_where.
    rewrite Hj, Hje, Hs. rewrite !bool_decide_eq_true_2 by done. done. }
  rewrite !E. cbn [fst snd].
  match goal with |- context [run ?p ?o1 ?w1] => set (o' := o1); set (w' := w1) end.
  destruct (heartbeat_end s key true cached (d_epoch d) "BUSY" k 0 None (ws_DrainRequested cached) o' w')
    as (_ & E2 & _); [by intros n; apply Hrd|done|].
  etransitivity; [exact (f_equal (lookup k) E2)|]. subst w'. simplify_eq. apply lookup_insert_eq.
Qed.

(** The agent takes the job it is handed, whether or not a drain comes along. *)
Lemma idle_agent_starts a drain :
  on_reply (mkHeartbeatResponse true (Some a) drain) (initial_state d) =
  (if drain then (setDraining (startJob (ja_job_id a) (initial_state d))).2
   else (clearDraining (startJob (ja_job_id a) (initial_state d))).2, [a]).
Proof. by destruct drain. Qed.

Lemma started_is_busy a (drain : bool) : ja_job_id a <> "" ->
  (if drain then (setDraining (startJob (ja_job_id a) (initial_state d))).2
   else (clearDraining (startJob (ja_job_id a) (initial_state d))).2) =
  mkAgentState WORKER_STATUS_BUSY (ja_job_id a) 0 drain.
Proof.
  intros Ha. destruct drain; unfold setDraining, clearDraining; simpl; [|done].
  by rewrite decide_False.
Qed.

(** The status a build's result gives a job. *)
Definition settled_status (j : job_row) (success : bool) : job_status :=
  if success then SUCCESS
  else if int32 (j_retries j + 1) <=? j_max_retries j then RETRYING else FAILED.

Lemma report_settles o w k j t a result :
  wf_db (w_db w) -> pg_reliable o -> k <> "" -> ja_job_id a = k ->
  j_assignment_epoch j = Some (ja_assignment_epoch a) ->
  jobs (w_db w) !! k = Some (j_set_started_at (Some t) (j_set_status RUNNING j)) ->
  let r := run (ReportJobResult (report_request a result)) o w in
  r.1 = Reply (mkReportJobResultResponse true false) /\
  exists j', jobs (w_db r.2) !! k = Some j' /\ j_status j' = settled_status j (re_Success result).
Proof.
  intros Hwf Ho Hk <- Hje Hj r. subst r.
  pose proof (ReportJobResult_outcome (report_request a result) o w _ Hwf Ho Hk Hj) as Hr.
  unfold report_outcome in Hr. destruct (run _ o w) as [r w'].
  rewrite (proj2 (report_guard_spec _ _ _)) in Hr.
  2: { split; [done|]. split; [by simpl|done]. }
  destruct Hr as (-> & Hjs & _). split; [done|]. cbn [snd]. rewrite Hjs, lookup_insert_eq.
  eexists. split; [done|]. unfold reported_row, settled_status. simpl.
  destruct (re_Success result); simpl; [done|]. unfold after_failure. simpl. by case_match.
Qed.
End delivery.

Lemma run_wf `{Redis} {A} (p : prog A) o w : prog_ok p -> wf_db (w_db w) -> wf_db (w_db (run p o w).2).
Proof.
  intros Hp Hw. apply (run_preserves (@call_ok) (fun w => wf_db (w_db w)) p o w Hp); [|done].
  intros X c e w' Hc Hw'. by apply handle_sound.
Qed.

(** The agent [d] idle, its worker given the job [j] at key [k]: its next
    heartbeat is answered with that job; the agent starts exactly it; its
    heartbeat after that makes the job RUNNING; and the report runAssignment
    sends for the build's [result] is accepted and settles the job. *)
Definition run_and_settled `{Redis} (s : Server) (d : heartbeatDeps) (o1 o2 o3 : oracle) (w : world)
    (k : string) (j : job_row) (result : Result) : Prop :=
  let a := handed_over k (d_epoch d) j in
  let '(r1, w1) := run (handleHeartbeat s (beat d (initial_state d))) o1 w in
  exists resp, r1 = Reply resp /\ hr_assignment resp = Some a /\
  let '(st1, started) := on_reply resp (initial_state d) in
  started = [a] /\
  let w2 := (run (handleHeartbeat s (beat d st1)) o2 w1).2 in
  (exists j2, jobs (w_db w2) !! k = Some j2 /\ j_status j2 = RUNNING) /\
  let '(r3, w3) := run (ReportJobResult (report_request a result)) o3 w2 in
  r3 = Reply (mkReportJobResultResponse true false) /\
  exists j3, jobs (w_db w3) !! k = Some j3 /\ j_status j3 = settled_status j (re_Success result).

(** Whatever reachable state Postgres is in, if the cache shows an idle
    agent's worker BUSY with a job that is ASSIGNED under its epoch, then
    (while both stores answer) the job reaches the agent and comes back
    settled, also when a drain comes with the reply. *)
Lemma assigned_job_is_run_and_settled `{RedisHashLaws} s d o1 o2 o3 w cached k j result :
  wf_db (w_db w) -> pg_reliable o1 -> pg_reliable o2 -> pg_reliable o3 ->
  redis_reliable o1 -> redis_reliable o2 ->
  d_workerID d <> "" -> - 2 ^ 63 <= d_epoch d < 2 ^ 63 ->
  cached_as (d_workerID d) w cached -> ws_Epoch cached = d_epoch d -> ws_Status cached = "BUSY" ->
  ws_CurrentJobID cached = k -> k <> "" ->
  jobs (w_db w) !! k = Some j -> j_status j = ASSIGNED -> j_assignment_epoch j = Some (d_epoch d) ->
  run_and_settled s d o1 o2 o3 w k j result.
Proof.
  intros Hwf Hp1 Hp2 Hp3 Hr1 Hr2 Hkey Hep Hc He Hb Hcj Hk Hj Hs Hje. unfold run_and_settled.
  set (a := handed_over k (d_epoch d) j).
  destruct (idle_heartbeat_delivers s d Hkey Hep o1 w cached k j Hwf Hp1 Hr1 Hc He Hb Hcj Hk Hj Hs)
    as (E1 & Ej & c' & Hc' & He').
  pose proof (run_wf (handleHeartbeat s (beat d (initial_state d))) o1 w
                (handleHeartbeat_ok _ _) Hwf) as Hwf1.
  destruct (run (handleHeartbeat s (beat d (initial_state d))) o1 w) as [r1 w1]. simpl in *. subst r1.
  eexists. split; [done|]. split; [done|]. rewrite idle_agent_starts, started_is_busy by done.
  split; [done|]. rewrite <- Ej in Hj. cbn [ja_job_id handed_over].
  pose proof (busy_heartbeat_starts s d Hkey Hep o2 w1 c' k j (ws_DrainRequested cached)
    Hp2 Hr2 Hc' He' Hk Hj Hs Hje) as Hrun. cbn zeta in Hrun.
  pose proof (run_wf (handleHeartbeat s (beat d (mkAgentState WORKER_STATUS_BUSY k 0
    (ws_DrainRequested cached)))) o2 w1 (handleHeartbeat_ok _ _) Hwf1) as Hwf2.
  split; [eexists; by split|].
  destruct (report_settles o3 _ k j _ a result Hwf2 Hp3 Hk eq_refl Hje Hrun) as (E3 & j3 & Hj3 & Es).
  destruct (run (ReportJobResult _) o3 _) as [r3 w3]. simpl in *. split; [done|]. eauto.
Qed.

(** ** Concrete executions of the pair *)
Definition agent_a : heartbeatDeps := agent_deps (mkRegisterWorkerResponse "w-a" 1 10 30) 2.

Definition cached_of (key : string) (w : world) : WorkerState :=
  match read_state (hgetall (stateKey key) (w_redis w)) with
  | Ok (Some st) => st | _ => zero_state
  end.

(** One heartbeat and the agent's handling of the reply, [t] seconds in. *)
Definition beat_round (t : Z) (sw : agentState * world) : agentState * world :=
  let '(r, w') := run (handleHeartbeat server (beat agent_a sw.1)) (calm t "unused") sw.2 in
  (match r with Reply resp => (on_reply resp sw.1).1 | Status _ _ => sw.1 end, w').

Lemma run_ignore `{Redis} {A} (p : prog A) o w : (run (ignore p) o w).2 = (run p o w).2.
Proof. unfold ignore. by destruct (events_bind p (fun _ => Ret tt) o w) as (n & -> & _). Qed.

Lemma beat_round_reachable t sw :
  reachable ([], sw.2) -> reachable ([], (beat_round t sw).2).
Proof.
  intros (c0 & Hi & Hr). exists c0. split; [done|]. etransitivity; [exact Hr|].
  unfold beat_round.
  pose proof (request_steps _ (calm t "unused") sw.2 (ReqHeartbeat server (beat agent_a sw.1))) as Hs.
  rewrite run_ignore in Hs. by destruct (run (handleHeartbeat _ _) _ _).
Qed.

(** Redis loses its contents. *)
Definition wipe (w : world) : world :=
  mkWorld MemRedis (w_db w) mem_empty (w_counters w) (w_observations w).

Lemma wipe_reachable w : reachable ([], w) -> reachable ([], wipe w).
Proof. intros (c0 & Hi & Hr). exists c0. split; [done|]. eapply rtc_r; [exact Hr|]. apply sys_redis. Qed.

(** The operator drains the idle worker; two heartbeats later it is DRAINING. *)
Definition drained : agentState * world :=
  beat_round 14 (beat_round 9 (initial_state agent_a,
    play [(ignore (DrainWorker "w-a"), calm 8 "unused")] idle_world)).
(** Redis is wiped; three more heartbeats follow. *)
Definition undrained : agentState * world :=
  beat_round 29 (beat_round 24 (beat_round 19 (drained.1, wipe drained.2))).

Lemma undrained_reachable : reachable ([], undrained.2).
Proof.
  do 3 apply beat_round_reachable. apply wipe_reachable. do 2 apply beat_round_reachable.
  apply play_reachable; [|exact idle_reachable]. repeat constructor.
Qed.

Definition worker_view (w : world) : option (worker_status * bool) :=
  (fun r => (w_status r, w_drain_requested r)) <$> workers (w_db w) !! "w-a".

(** A loss of Redis's contents undoes a drain.  handleHeartbeat answers the
    drain flag from Postgres only on a cache miss, and that heartbeat's
    SetState creates a cache entry without the flag; from the next heartbeat on
    the scheduler answers "not draining", and the agent obeys.  In a reachable
    state the worker is READY and a scheduling candidate again, with the drain
    still requested in Postgres and the agent accepting work. *)
Theorem redis_loss_undoes_drain :
  reachable ([], undrained.2) /\
  (drained.1, worker_view drained.2) =
    (mkAgentState WORKER_STATUS_DRAINING "" 2 true, Some (DRAINING, true)) /\
  (undrained.1, worker_view undrained.2) =
    (mkAgentState WORKER_STATUS_READY "" 2 false, Some (READY, true)) /\
  match (ListReadyCandidates None (env_at 0 "") (w_db undrained.2)).1 with
  | Ok l => map c_ID l = ["w-a"]
  | Err _ => False
  end.
Proof. split; [exact undrained_reachable|]. vm_compute. repeat split; reflexivity. Qed.

(** A second job is scheduled on the two-slot worker between the heartbeat
    that handed over the first one and the next. *)
Definition do_submit2 : prog unit * oracle :=
  (ignore (SubmitJob no_time_format (Some (mkSubmitJobRequest (Some 3) "repo" "main" "def456" None
     (Some ["docker"]) 2 "key-2"))), calm 5 "j-2").
Definition delivered1 : agentState * world := beat_round 4 (initial_state agent_a, assigned_world).
Definition double_booked : agentState * world :=
  beat_round 9 (delivered1.1, play [do_submit2; (run_turn true, calm 6 "unused")] delivered1.2).
(** The first build ends; the agent is idle again; the scheduler keeps going. *)
Definition idle_again : agentState * world :=
  beat_round 14 (finishJob 2 double_booked.1,
    play [(ignore (ReportJobResult (report_request (handed_over "j-1" 1 (job_of assigned_world))
             (mkResult true 0 "log" ""))), calm 10 "unused")] double_booked.2).
Definition stranded2 : agentState * world :=
  beat_round 24 (idle_again.1,
    play [(run_turn true, calm 15 "unused"); (poller_tick true, calm 16 "unused");
          (reaper_tick true 30, calm 17 "unused")] idle_again.2).

Lemma stranded2_reachable : reachable ([], stranded2.2).
Proof.
  apply beat_round_reachable. apply play_reachable; [repeat constructor|].
  apply beat_round_reachable. apply play_reachable; [repeat constructor|].
  apply beat_round_reachable. apply play_reachable; [repeat constructor|].
  apply beat_round_reachable. exact assigned_reachable.
Qed.

Definition job_view (w : world) (k : string) : option job_status := j_status <$> jobs (w_db w) !! k.

(** A job placed on a second slot is never delivered.  The agent runs one
    build at a time whatever capacity_slots it registered with, and the
    scheduler pushes an assignment only while the agent reports no job, from a
    cache entry the agent's BUSY heartbeat overwrites.  In a reachable state
    the first job is done, the worker READY and its agent idle, and the second
    job is still ASSIGNED to it after a scheduling turn, a retry poll, a reaper
    sweep and another heartbeat. *)
Theorem second_slot_strands_job :
  reachable ([], stranded2.2) /\
  (job_view double_booked.2 "j-1", job_view double_booked.2 "j-2") = (Some RUNNING, Some ASSIGNED) /\
  double_booked.1 = mkAgentState WORKER_STATUS_BUSY "j-1" 0 false /\
  (job_view stranded2.2 "j-1", job_view stranded2.2 "j-2") = (Some SUCCESS, Some ASSIGNED) /\
  worker_view stranded2.2 = Some (READY, false) /\
  stranded2.1 = mkAgentState WORKER_STATUS_READY "" 2 false.
Proof. split; [exact stranded2_reachable|]. vm_compute. repeat split; reflexivity. Qed.
