(* ===== verification/Leader.v ===== *)
(** * internal/scheduler/leader.go: leader election over an advisory lock

    Postgres keeps one session-scoped advisory lock ([advisory]); sessions are
    numbered in the order they are opened and end at any time, which frees
    their lock.  A replica's elector has a connection pool and, while it is
    leader, one connection taken out of it.  tryAcquireOrVerify and release
    run under the elector's mutex and interact with the lock in at most one
    statement, so each is one step; pings, statements and the pool's answers
    are decided by the environment [le_env]. *)
From S2P Require Import Prelude Database Effects.
Local Open Scope Z_scope.

Abbreviation session := nat (only parsing).

(** ** The lock in Postgres *)
Record advisory := mkAdvisory {
  ad_alive : gset session;                  (** sessions the server knows *)
  ad_holder : option (session * nat);       (** holder and how often it locked *)
  ad_next : session }.

Definition no_sessions : advisory := mkAdvisory ∅ None 0%nat.

Definition open_session (ad : advisory) : session * advisory :=
  (ad_next ad, mkAdvisory ({[ad_next ad]} ∪ ad_alive ad) (ad_holder ad) (S (ad_next ad))).

(** A session that ends, for whatever reason, loses its lock. *)
Definition end_session (s : session) (ad : advisory) : advisory :=
  mkAdvisory (ad_alive ad ∖ {[s]})
    (match ad_holder ad with
     | Some (s', n) => if decide (s' = s) then None else Some (s', n)
     | None => None
     end) (ad_next ad).

(** SELECT pg_try_advisory_lock(leaderLockKey): session locks nest. *)
Definition pg_try_advisory_lock (s : session) (ad : advisory) : result bool * advisory :=
  if decide (s ∈ ad_alive ad) then
    match ad_holder ad with
    | None => (Ok true, mkAdvisory (ad_alive ad) (Some (s, 1%nat)) (ad_next ad))
    | Some (s', n) =>
        if decide (s' = s) then (Ok true, mkAdvisory (ad_alive ad) (Some (s, S n)) (ad_next ad))
        else (Ok false, ad)
    end
  else (Err ErrDriver, ad).

(** SELECT pg_advisory_unlock(leaderLockKey) *)
Definition pg_advisory_unlock (s : session) (ad : advisory) : result bool * advisory :=
  if decide (s ∈ ad_alive ad) then
    match ad_holder ad with
    | Some (s', n) =>
        if decide (s' = s)
        then (Ok true, mkAdvisory (ad_alive ad)
                (match n with S (S m) => Some (s, S m) | _ => None end) (ad_next ad))
        else (Ok false, ad)
    | None => (Ok false, ad)
    end
  else (Err ErrDriver, ad).

(** ** The environment of one call *)
Inductive acquire := AcquireFails | AcquireIdle (i : nat) | AcquireOpens.

Record le_env := mkLeEnv {
  le_ping_ok : bool;          (** no timeout or network failure of the ping *)
  le_acquire : acquire;       (** what pool.Acquire does *)
  le_fault : fault;           (** of the statement *)
  le_keep : bool -> bool }.   (** does conn.Release keep a (broken?) connection *)

(** pgx closes a connection on which a call failed, and the pool drops closed
    connections when they are released. *)
Definition pool_drops_broken (e : le_env) : Prop := le_keep e true = false.

(** ** LeaderElector *)
Record LeaderElector := mkLeaderElector {
  le_pool : list session;     (** the pool's idle connections *)
  le_conn : option session;
  le_isLeader : bool }.

Definition NewLeaderElector : LeaderElector := mkLeaderElector [] None false.

Definition IsLeader (le : LeaderElector) : bool := le_isLeader le.

Definition pool_Acquire (e : le_env) (pool : list session) (ad : advisory)
    : option session * list session * advisory :=
  match le_acquire e with
  | AcquireFails => (None, pool, ad)
  | AcquireIdle i => match pool !! i with
                     | Some s => (Some s, delete i pool, ad)
                     | None => (None, pool, ad)
                     end
  | AcquireOpens => let '(s, ad') := open_session ad in (Some s, pool, ad')
  end.

Definition conn_Release (e : le_env) (broken : bool) (s : session) (pool : list session)
    : list session :=
  if le_keep e broken then pool ++ [s] else pool.

Definition conn_Ping (e : le_env) (s : session) (ad : advisory) : bool :=
  le_ping_ok e && bool_decide (s ∈ ad_alive ad).

(** The second half of tryAcquireOrVerify: no connection, isLeader as it is. *)
Definition try_acquire (e : le_env) (pool : list session) (isLeader : bool) (ad : advisory)
    : LeaderElector * advisory :=
  let '(conn, pool1, ad1) := pool_Acquire e pool ad in
  match conn with
  | None => (mkLeaderElector pool1 None isLeader, ad1)
  | Some s =>
      let '(r, ad2) := with_fault (le_fault e) (pg_try_advisory_lock s) ad1 in
      match r with
      | Err _ => (mkLeaderElector (conn_Release e true s pool1) None isLeader, ad2)
      | Ok false => (mkLeaderElector (conn_Release e false s pool1) None isLeader, ad2)
      | Ok true => (mkLeaderElector pool1 (Some s) true, ad2)
      end
  end.

Definition tryAcquireOrVerify (e : le_env) (le : LeaderElector) (ad : advisory)
    : LeaderElector * advisory :=
  match le_conn le with
  | Some s =>
      if conn_Ping e s ad then (le, ad)
      else try_acquire e (conn_Release e true s (le_pool le)) false ad
  | None => try_acquire e (le_pool le) (le_isLeader le) ad
  end.

(** release: the result of the unlock statement is ignored. *)
Definition release (e : le_env) (le : LeaderElector) (ad : advisory) : LeaderElector * advisory :=
  match le_conn le with
  | None => (le, ad)
  | Some s =>
      let '(r, ad') := with_fault (le_fault e) (pg_advisory_unlock s) ad in
      (mkLeaderElector (conn_Release e (negb (is_ok r)) s (le_pool le)) None false, ad')
  end.

(** ** Replicas *)
Definition cluster : Type := gmap nat LeaderElector * advisory.

Inductive cluster_step : cluster -> cluster -> Prop :=
  | cl_start i rs ad : rs !! i = None ->
      cluster_step (rs, ad) (<[i := NewLeaderElector]> rs, ad)
  | cl_check i le e rs ad : rs !! i = Some le -> pool_drops_broken e ->
      cluster_step (rs, ad)
        (<[i := (tryAcquireOrVerify e le ad).1]> rs, (tryAcquireOrVerify e le ad).2)
  | cl_release i le e rs ad : rs !! i = Some le -> pool_drops_broken e ->
      cluster_step (rs, ad) (<[i := (release e le ad).1]> rs, (release e le ad).2)
  | cl_connect i le rs ad : rs !! i = Some le ->           (* another user of the pool *)
      cluster_step (rs, ad)
        (<[i := mkLeaderElector (le_pool le ++ [ad_next ad]) (le_conn le) (le_isLeader le)]> rs,
         (open_session ad).2)
  | cl_crash i rs ad : cluster_step (rs, ad) (delete i rs, ad)
  | cl_end s rs ad : cluster_step (rs, ad) (rs, end_session s ad).

Definition cluster_reachable (c : cluster) : Prop := rtc cluster_step (∅, no_sessions) c.
