(* ===== verification/LeaderProps.v ===== *)
(** * Leader election: who may believe to be leader

    The invariant of the replicas and the lock, kept by every check, release,
    crash, lost session and lost message; at most one leader with a live
    session; what a check establishes; how a standby takes over. *)
From S2P Require Import Prelude Database Effects Leader.
Local Open Scope Z_scope.

(** The sessions an elector's process has connections to. *)
Definition owned (le : LeaderElector) : list session := option_list (le_conn le) ++ le_pool le.

(** The lock as one elector sees it. *)
Record elector_ok (ad : advisory) (le : LeaderElector) : Prop := {
  ok_belief : le_isLeader le = true <-> is_Some (le_conn le);
  ok_nodup : NoDup (owned le);
  ok_opened : forall s, s ∈ owned le -> (s < ad_next ad)%nat;
  ok_holds : forall s, le_conn le = Some s -> s ∈ ad_alive ad -> ad_holder ad = Some (s, 1%nat);
  ok_idle : forall s n, s ∈ le_pool le -> ad_holder ad <> Some (s, n) }.

Record lock_ok (ad : advisory) : Prop := {
  ok_alive : forall s, s ∈ ad_alive ad -> (s < ad_next ad)%nat;
  ok_holder : forall s n, ad_holder ad = Some (s, n) -> s ∈ ad_alive ad /\ n = 1%nat }.

Definition cluster_ok (c : cluster) : Prop :=
  lock_ok c.2 /\
  (forall i le, c.1 !! i = Some le -> elector_ok c.2 le) /\
  (forall i j le le' s, c.1 !! i = Some le -> c.1 !! j = Some le' ->
     s ∈ owned le -> s ∈ owned le' -> i = j).

(** What an operation of one elector may do to the lock: leave it, free it
    from one of its own sessions, or take it when it is free. *)
Record lock_moves (le le' : LeaderElector) (ad ad' : advisory) : Prop := {
  mv_next : (ad_next ad <= ad_next ad')%nat;
  mv_owned : forall s, s ∈ owned le' -> s ∈ owned le \/ (ad_next ad <= s)%nat;
  mv_alive : forall s, (s < ad_next ad)%nat -> (s ∈ ad_alive ad' <-> s ∈ ad_alive ad);
  mv_lock : ad_holder ad' = ad_holder ad \/
    (exists s n, ad_holder ad = Some (s, n) /\ s ∈ owned le /\ ad_holder ad' = None) \/
    (exists s, ad_holder ad = None /\ ad_holder ad' = Some (s, 1%nat) /\
       (s ∈ owned le \/ (ad_next ad <= s)%nat)) }.

(** ** Other electors are not disturbed *)
Lemma elector_ok_frame le le' ad ad' other :
  lock_moves le le' ad ad' -> (forall s, s ∈ owned le -> s ∈ owned other -> False) ->
  elector_ok ad other -> elector_ok ad' other.
Proof.
  intros [Hn Ho Hal Hl] Hdis [Hb Hnd Hop Hh Hi].
  assert (Hold : forall s, s ∈ owned other -> (s < ad_next ad)%nat) by done.
  assert (Hc : forall s, le_conn other = Some s -> s ∈ owned other).
  { intros s E. unfold owned. rewrite E. left. }
  assert (Hp : forall s, s ∈ le_pool other -> s ∈ owned other).
  { intros s Hs. apply elem_of_app. by right. }
  split; [done|done|intros s Hs; specialize (Hold s Hs); lia|..].
  - intros s Hs Ha. apply Hal in Ha; [|auto]. specialize (Hh s Hs Ha).
    destruct Hl as [->|[(s' & n & E & Hin & _)|(s' & E & _)]]; [done| |congruence].
    exfalso. apply (Hdis s); [congruence|auto].
  - intros s n Hs E. destruct Hl as [E'|[(s' & m & _ & _ & E')|(s' & _ & E' & Hin)]].
    + apply (Hi s n Hs). congruence.
    + congruence.
    + assert (s' = s) as -> by congruence. destruct Hin as [Hin|Hge].
      * apply (Hdis s); auto.
      * specialize (Hold s (Hp s Hs)). lia.
Qed.

Lemma cluster_ok_update rs ad i le le' ad' :
  cluster_ok (rs, ad) -> rs !! i = Some le -> lock_moves le le' ad ad' ->
  lock_ok ad' -> elector_ok ad' le' -> cluster_ok (<[i := le']> rs, ad').
Proof.
  intros (Hlo & Hel & Hdis) Hi Hmv Hlo' Hel'. simpl in *. split; [done|]. split; simpl.
  - intros j other Hj. destruct (decide (i = j)) as [<-|Hne].
    + rewrite lookup_insert_eq in Hj. by simplify_eq.
    + rewrite lookup_insert_ne in Hj by done. eapply elector_ok_frame; [done| |by eauto].
      intros s Hs Hs'. apply Hne. eauto.
  - assert (Hother : forall j other s, i <> j -> rs !! j = Some other -> s ∈ owned le' ->
      s ∈ owned other -> False).
    { intros j other s Hne Hj Hs Hs'. destruct (mv_owned _ _ _ _ Hmv s Hs) as [Hs2|Hge].
      - apply Hne. eauto.
      - pose proof (ok_opened _ _ (Hel _ _ Hj) s Hs'). lia. }
    intros j k l1 l2 s Hj Hk H1 H2.
    destruct (decide (i = j)) as [<-|Hij], (decide (i = k)) as [<-|Hik]; [done|..].
    + rewrite lookup_insert_eq in Hj. rewrite lookup_insert_ne in Hk by done. simplify_eq.
      exfalso. eauto.
    + rewrite lookup_insert_eq in Hk. rewrite lookup_insert_ne in Hj by done. simplify_eq.
      exfalso. eauto.
    + rewrite !lookup_insert_ne in Hj, Hk by done. eauto.
Qed.

(** ** Opening and taking connections *)
Abbreviation idle_elector := (fun pool => mkLeaderElector pool None false).

Lemma open_session_ok ad : lock_ok ad -> lock_ok (open_session ad).2.
Proof.
  intros [Ha Hh]. split; simpl.
  - intros s [Hs%elem_of_singleton|Hs]%elem_of_union; [lia|]. specialize (Ha s Hs). lia.
  - intros s n E. destruct (Hh s n E) as [Hs ->]. split; [set_solver|done].
Qed.

Lemma open_session_moves le le' ad :
  lock_ok ad -> (forall s, s ∈ owned le' -> s ∈ owned le \/ s = ad_next ad) ->
  lock_moves le le' ad (open_session ad).2.
Proof.
  intros Hlo Ho. split; simpl.
  - lia.
  - intros s Hs. destruct (Ho s Hs) as [?| ->]; [by left|right; lia].
  - intros s Hs. rewrite elem_of_union, elem_of_singleton. split; [intros [->|?]; [lia|done]|auto].
  - by left.
Qed.

Lemma lock_moves_refl le le' ad :
  (forall s, s ∈ owned le' -> s ∈ owned le) -> lock_moves le le' ad ad.
Proof. intros Ho. split; auto. Qed.

(** A connection taken from the pool: it is nobody else's and holds nothing. *)
Record taken (pool pool1 : list session) (s : session) (ad ad1 : advisory) : Prop := {
  tk_lock : lock_ok ad1;
  tk_holder : ad_holder ad1 = ad_holder ad;
  tk_next : (ad_next ad <= ad_next ad1)%nat;
  tk_alive : forall x, (x < ad_next ad)%nat -> (x ∈ ad_alive ad1 <-> x ∈ ad_alive ad);
  tk_nodup : NoDup (s :: pool1);
  tk_from : s ∈ pool \/ s = ad_next ad;
  tk_pool : forall x, x ∈ pool1 -> x ∈ pool;
  tk_opened : (s < ad_next ad1)%nat;
  tk_free : forall n, ad_holder ad1 <> Some (s, n) }.

Lemma pool_Acquire_taken e pool ad s pool1 ad1 :
  lock_ok ad -> elector_ok ad (idle_elector pool) ->
  pool_Acquire e pool ad = (Some s, pool1, ad1) -> taken pool pool1 s ad ad1.
Proof.
  intros Hlo [_ Hnd Hop _ Hi] E. unfold owned in *. simpl in *. unfold pool_Acquire in E.
  destruct (le_acquire e) as [|i|]; [done|..].
  - destruct (pool !! i) as [s'|] eqn:Hp; simplify_eq.
    assert (Hin : s ∈ pool) by by eapply list_elem_of_lookup_2.
    pose proof (delete_Permutation pool i s Hp) as Hperm.
    split; auto.
    + rewrite <- Hperm. done.
    + intros x Hx. rewrite Hperm. by right.
  - unfold open_session in E. simplify_eq. split; simpl.
    + by apply (open_session_ok ad).
    + done.
    + lia.
    + intros x Hx. rewrite elem_of_union, elem_of_singleton. split; [intros [->|?]; [lia|done]|auto].
    + constructor; [|done]. intros Hs. specialize (Hop _ Hs). lia.
    + by right.
    + done.
    + lia.
    + intros n En. destruct (ok_holder _ Hlo _ _ En) as [Ha _].
      specialize (ok_alive _ Hlo _ Ha). lia.
Qed.

Lemma pool_Acquire_fails e pool ad pool1 ad1 :
  pool_Acquire e pool ad = (None, pool1, ad1) -> pool1 = pool /\ ad1 = ad.
Proof. unfold pool_Acquire. intros E. destruct (le_acquire e); [|case_match|]; by simplify_eq. Qed.

(** The statement on a session that does not hold the lock: no change, or the
    lock goes from free to that session. *)
Lemma try_lock_cases f s ad :
  (forall n, ad_holder ad <> Some (s, n)) ->
  let '(r, ad') := with_fault f (pg_try_advisory_lock s) ad in
  (ad' = ad /\ r <> Ok true) \/
  (s ∈ ad_alive ad /\ ad_holder ad = None /\
   ad' = mkAdvisory (ad_alive ad) (Some (s, 1%nat)) (ad_next ad) /\ r <> Ok false).
Proof.
  intros Hn. destruct f; simpl; unfold pg_try_advisory_lock; repeat case_match; simplify_eq/=; auto;
    try (by exfalso; eapply Hn); auto 10.
Qed.

Lemma NoDup_snoc (s : session) pool : NoDup (s :: pool) -> NoDup (pool ++ [s]).
Proof. intros Hs. by rewrite (Permutation_app_comm pool [s]). Qed.

(** ** Every operation keeps the invariant *)
Lemma idle_ok ad pool :
  NoDup pool -> (forall s, s ∈ pool -> (s < ad_next ad)%nat) ->
  (forall s n, s ∈ pool -> ad_holder ad <> Some (s, n)) -> elector_ok ad (idle_elector pool).
Proof. intros Hnd Hop Hi. split; simpl; auto; [|done]. split; [done|]. by intros [? ?]. Qed.

(** An operation that is safe for its elector, the lock and everybody else. *)
Definition safe_move (le : LeaderElector) (ad : advisory) (r : LeaderElector * advisory) : Prop :=
  lock_ok r.2 /\ elector_ok r.2 r.1 /\ lock_moves le r.1 ad r.2.

Section after_taking.
Context (pool pool1 : list session) (s : session) (ad ad1 : advisory).
Context (T : taken pool pool1 s ad ad1).
Context (Hok : elector_ok ad (idle_elector pool)).

Lemma taken_pool_old x : x ∈ pool1 -> (x < ad_next ad1)%nat.
Proof.
  intros Hx. pose proof (ok_opened _ _ Hok x (tk_pool _ _ _ _ _ T x Hx)).
  pose proof (tk_next _ _ _ _ _ T). lia.
Qed.

Lemma taken_pool_free x n : x ∈ pool1 -> ad_holder ad1 <> Some (x, n).
Proof. intros Hx. rewrite (tk_holder _ _ _ _ _ T). apply (ok_idle _ _ Hok), (tk_pool _ _ _ _ _ T), Hx. Qed.

Lemma taken_owned x : x ∈ s :: pool1 -> x ∈ owned (idle_elector pool) \/ (ad_next ad <= x)%nat.
Proof.
  intros [->|Hx]%elem_of_cons.
  - destruct (tk_from _ _ _ _ _ T) as [?| ->]; [by left|by right].
  - left. by apply (tk_pool _ _ _ _ _ T).
Qed.

(** Given back without the lock. *)
Lemma given_back_ok pool' :
  pool' = pool1 \/ pool' = pool1 ++ [s] -> safe_move (idle_elector pool) ad (idle_elector pool', ad1).
Proof.
  intros Hp. pose proof (tk_nodup _ _ _ _ _ T) as Hnd.
  assert (Hin : forall x, x ∈ pool' -> x ∈ s :: pool1).
  { intros x Hx. destruct Hp as [->| ->]; [by right|].
    apply elem_of_app in Hx as [?|Hx]; [by right|]. apply list_elem_of_singleton in Hx as ->. left. }
  split; [apply (tk_lock _ _ _ _ _ T)|]. split; simpl.
  - apply idle_ok.
    + destruct Hp as [->| ->]; [by inversion Hnd|by apply NoDup_snoc].
    + intros x Hx%Hin; apply elem_of_cons in Hx as [->|Hx]; [apply (tk_opened _ _ _ _ _ T)|by apply taken_pool_old].
    + intros x n Hx%Hin; apply elem_of_cons in Hx as [->|Hx]; [apply (tk_free _ _ _ _ _ T)|by apply taken_pool_free].
  - split; simpl.
    + apply (tk_next _ _ _ _ _ T).
    + intros x Hx. by apply taken_owned, Hin.
    + apply (tk_alive _ _ _ _ _ T).
    + left. apply (tk_holder _ _ _ _ _ T).
Qed.

(** The lock was free and is now the session's; the connection is either kept
    by the elector or lost (its answer never came). *)
Lemma locked_ok le' :
  s ∈ ad_alive ad1 -> ad_holder ad1 = None ->
  le' = mkLeaderElector pool1 (Some s) true \/ le' = idle_elector pool1 ->
  safe_move (idle_elector pool) ad
    (le', mkAdvisory (ad_alive ad1) (Some (s, 1%nat)) (ad_next ad1)).
Proof.
  intros Ha Hh Hle. pose proof (tk_nodup _ _ _ _ _ T) as Hnd.
  assert (Hs : s ∉ pool1) by (by inversion Hnd).
  assert (Hlo : lock_ok (mkAdvisory (ad_alive ad1) (Some (s, 1%nat)) (ad_next ad1))).
  { split; simpl; [apply (ok_alive _ (tk_lock _ _ _ _ _ T))|]. intros x n E. by simplify_eq. }
  split; [done|]. split; simpl.
  - destruct Hle as [->| ->].
    + split; simpl; try done.
      * intros x [->|Hx]%elem_of_cons; [apply (tk_opened _ _ _ _ _ T)|by apply taken_pool_old].
      * intros x E _. by simplify_eq.
      * intros x n Hx E. by simplify_eq.
    + apply idle_ok; simpl; [by inversion Hnd|by apply taken_pool_old|].
      intros x n Hx E. by simplify_eq.
  - split; simpl.
    + apply (tk_next _ _ _ _ _ T).
    + intros x Hx. apply taken_owned. destruct Hle as [->| ->]; [done|by right].
    + apply (tk_alive _ _ _ _ _ T).
    + right. right. exists s. rewrite <- (tk_holder _ _ _ _ _ T), Hh. split; [done|]. split; [done|].
      apply taken_owned. left.
Qed.
End after_taking.

Lemma try_acquire_ok e pool ad :
  pool_drops_broken e -> lock_ok ad -> elector_ok ad (idle_elector pool) ->
  safe_move (idle_elector pool) ad (try_acquire e pool false ad).
Proof.
  intros Hd Hlo Hok. unfold try_acquire.
  destruct (pool_Acquire e pool ad) as [[[s|] pool1] ad1] eqn:E.
  - pose proof (pool_Acquire_taken _ _ _ _ _ _ Hlo Hok E) as T.
    pose proof (try_lock_cases (le_fault e) s ad1 (tk_free _ _ _ _ _ T)) as Hc.
    unfold conn_Release. rewrite Hd.
    destruct (with_fault _ _ _) as [r ad2].
    destruct Hc as [[-> Hr]|(Ha & Hh & -> & Hr)]; destruct r as [[|]|]; try done.
    + apply (given_back_ok pool pool1 s); [done..|]. case_match; auto.
    + apply (given_back_ok pool pool1 s); auto.
    + by apply (locked_ok pool pool1 s); auto.
    + by apply (locked_ok pool pool1 s); auto.
  - apply pool_Acquire_fails in E as [-> ->]. split; [done|]. split; [done|].
    by apply lock_moves_refl.
Qed.

(** Giving up the connection leaves an elector without one. *)
Lemma idle_of_ok ad le : elector_ok ad le -> elector_ok ad (idle_elector (le_pool le)).
Proof.
  intros [_ Hnd Hop _ Hi]. unfold owned in *. apply idle_ok; [|intros; apply Hop, elem_of_app; auto|done].
  by apply list.NoDup_app in Hnd as (_ & _ & ?).
Qed.

Lemma safe_move_sub le le0 ad r :
  (forall s, s ∈ owned le0 -> s ∈ owned le) -> safe_move le0 ad r -> safe_move le ad r.
Proof.
  intros Hsub (H1 & H2 & [Hn Ho Ha Hl]). split; [done|]. split; [done|]. split; auto.
  - intros s Hs. destruct (Ho s Hs); auto.
  - destruct Hl as [?|[(s & n & ? & ? & ?)|(s & ? & ? & [?|?])]]; eauto 10.
Qed.

Lemma tryAcquireOrVerify_ok e le ad :
  pool_drops_broken e -> lock_ok ad -> elector_ok ad le ->
  safe_move le ad (tryAcquireOrVerify e le ad).
Proof.
  intros Hd Hlo Hok. unfold tryAcquireOrVerify. destruct (le_conn le) as [s|] eqn:Hc.
  - case_match.
    + split; [done|]. split; [done|]. by apply lock_moves_refl.
    + unfold conn_Release. rewrite Hd. eapply safe_move_sub; [|by apply try_acquire_ok, idle_of_ok].
      intros x Hx. apply elem_of_app. by right.
  - destruct le as [pool c b]. simpl in *. subst c.
    assert (b = false) as ->.
    { destruct b; [|done]. destruct (ok_belief _ _ Hok) as [Hb _]. by destruct (Hb eq_refl). }
    by apply try_acquire_ok.
Qed.

Lemma unlock_cases f s ad :
  lock_ok ad ->
  let '(r, ad') := with_fault f (pg_advisory_unlock s) ad in
  ad_alive ad' = ad_alive ad /\ ad_next ad' = ad_next ad /\
  (ad_holder ad' = ad_holder ad /\ (is_ok r = true -> forall n, ad_holder ad <> Some (s, n)) \/
   exists n, ad_holder ad = Some (s, n) /\ ad_holder ad' = None).
Proof.
  intros [_ Hh]. destruct f; simpl; unfold pg_advisory_unlock;
    destruct (decide (s ∈ ad_alive ad)); simpl; auto 10;
    destruct (ad_holder ad) as [[s' n]|] eqn:E; simpl; auto 10;
    destruct (Hh _ _ eq_refl) as [_ ->]; destruct (decide (s' = s)) as [->|]; simpl; eauto 10;
    (split; [done|]); (split; [done|]); left; (split; [congruence|]); intros; congruence.
Qed.

Lemma release_ok e le ad :
  pool_drops_broken e -> lock_ok ad -> elector_ok ad le -> safe_move le ad (release e le ad).
Proof.
  intros Hd Hlo Hok. unfold release. destruct (le_conn le) as [s|] eqn:Hc.
  2: { split; [done|]. split; [done|]. by apply lock_moves_refl. }
  pose proof (unlock_cases (le_fault e) s ad Hlo) as Hu.
  destruct (with_fault _ _ _) as [r ad']. destruct Hu as (Ea & En & Hl).
  assert (Hown : owned le = s :: le_pool le) by (unfold owned; by rewrite Hc).
  destruct Hok as [_ Hnd Hop Hh Hi]. rewrite Hown in Hnd, Hop.
  assert (Hin : forall x, x ∈ conn_Release e (negb (is_ok r)) s (le_pool le) -> x ∈ s :: le_pool le).
  { unfold conn_Release. intros x Hx. case_match; [|by right].
    apply elem_of_app in Hx as [?|Hx]; [by right|]. apply list_elem_of_singleton in Hx as ->. left. }
  split; [|split; simpl].
  - destruct Hlo as [Ha Hho]. split; simpl; rewrite ?Ea, ?En; [done|]. intros x n E.
    destruct Hl as [[E' _]|(m & _ & E')]; [|congruence]. apply Hho. congruence.
  - apply idle_ok.
    + unfold conn_Release. case_match; [by apply NoDup_snoc|by inversion Hnd].
    + intros x Hx%Hin. rewrite En. auto.
    + intros x n Hx E. destruct Hl as [[E' Hf]|(m & _ & E')]; [|congruence].
      unfold conn_Release in Hx. destruct (is_ok r) eqn:Er; simpl in Hx.
      * assert (Hx' : x ∈ s :: le_pool le) by (apply Hin; exact Hx).
        apply elem_of_cons in Hx' as [->|Hx']; [apply (Hf eq_refl n)|apply (Hi x n Hx')]; congruence.
      * rewrite Hd in Hx. apply (Hi x n Hx). congruence.
  - split; simpl; rewrite ?Ea, ?En; [lia| |done|].
    + intros x Hx%Hin. rewrite Hown. by left.
    + destruct Hl as [[E' _]|(m & E & E')]; [by left|]. right. left. exists s, m.
      split; [done|]. split; [|done]. rewrite Hown. left.
Qed.

(** The end of a session. *)
Lemma end_session_lock_ok s ad : lock_ok ad -> lock_ok (end_session s ad).
Proof.
  intros [Ha Hh]. split; simpl.
  - intros x Hx. apply Ha. set_solver.
  - intros x n E. repeat case_match; simplify_eq. destruct (Hh _ _ eq_refl) as [? ->]. set_solver.
Qed.

Lemma end_session_elector_ok s ad le : elector_ok ad le -> elector_ok (end_session s ad) le.
Proof.
  intros [Hb Hnd Hop Hh Hi]. split; simpl; auto.
  - intros x E [Hx Hne%not_elem_of_singleton]%elem_of_difference. rewrite (Hh x E Hx).
    by rewrite decide_False.
  - intros x n Hx E. repeat case_match; simplify_eq. by apply (Hi x n Hx).
Qed.

Lemma cluster_step_ok c c' : cluster_step c c' -> cluster_ok c -> cluster_ok c'.
Proof.
  intros Hs Hc. destruct Hs as [i rs ad Hi|i le e rs ad Hi Hd|i le e rs ad Hi Hd|i le rs ad Hi|i rs ad|s rs ad].
  - destruct Hc as (Hlo & Hel & Hdis). simpl in *. split; [done|]. split; simpl.
    + intros j le Hj. destruct (decide (i = j)) as [<-|Hne].
      * rewrite lookup_insert_eq in Hj. simplify_eq. apply idle_ok; [constructor|..]; set_solver.
      * rewrite lookup_insert_ne in Hj by done. eauto.
    + intros j k l1 l2 s Hj Hk H1 H2.
      apply lookup_insert_Some in Hj as [[_ <-]|[_ Hj]]; [set_solver|].
      apply lookup_insert_Some in Hk as [[_ <-]|[_ Hk]]; [set_solver|]. eauto.
  - pose proof Hc as (Hlo & Hel & _).
    destruct (tryAcquireOrVerify_ok e le ad Hd Hlo (Hel _ _ Hi)) as (H1 & H2 & H3).
    by eapply cluster_ok_update.
  - pose proof Hc as (Hlo & Hel & _).
    destruct (release_ok e le ad Hd Hlo (Hel _ _ Hi)) as (H1 & H2 & H3).
    by eapply cluster_ok_update.
  - pose proof Hc as (Hlo & Hel & _). pose proof (Hel _ _ Hi) as [Hb Hnd Hop Hh Hp]. simpl in *.
    assert (Hnew : ad_next ad ∉ owned le) by (intros Hn; specialize (Hop _ Hn); lia).
    eapply cluster_ok_update; [done|done| |by apply open_session_ok|].
    + apply open_session_moves; [done|]. unfold owned. simpl. set_solver.
    + unfold owned in Hnd, Hop, Hnew. split; unfold owned; simpl.
      * done.
      * rewrite app_assoc. apply list.NoDup_app. split; [done|]. split; [set_solver|].
        apply list.NoDup_singleton.
      * intros x Hx. rewrite app_assoc in Hx. apply elem_of_app in Hx as [Hx|Hx].
        -- specialize (Hop x Hx). lia.
        -- apply list_elem_of_singleton in Hx as ->. lia.
      * intros x Hx [E%elem_of_singleton|Ha]%elem_of_union; [|by apply Hh].
        subst x. exfalso. apply Hnew. rewrite Hx. left.
      * intros x n [Hx|Hx]%elem_of_app; [by apply Hp|]. apply list_elem_of_singleton in Hx as ->.
        intros E. destruct (ok_holder _ Hlo _ _ E) as [Ha _]. specialize (ok_alive _ Hlo _ Ha). lia.
  - destruct Hc as (Hlo & Hel & Hdis). simpl in *. split; [done|]. split; simpl.
    + intros j le [_ Hj]%lookup_delete_Some. eauto.
    + intros j k l1 l2 s [_ Hj]%lookup_delete_Some [_ Hk]%lookup_delete_Some. eauto.
  - destruct Hc as (Hlo & Hel & Hdis). split; [by apply end_session_lock_ok|]. split; [|done].
    intros j le Hj. by apply end_session_elector_ok, (Hel j).
Qed.

Lemma no_cluster_ok : cluster_ok (∅, no_sessions).
Proof.
  split; [split; simpl; [set_solver|done]|]. split; simpl; intros; by rewrite lookup_empty in *.
Qed.

Lemma cluster_reachable_ok c : cluster_reachable c -> cluster_ok c.
Proof.
  unfold cluster_reachable. generalize no_cluster_ok. generalize (∅ : gmap nat LeaderElector, no_sessions).
  intros c0 H0 Hr. induction Hr as [|c1 c2 c3 Hs _ IH]; [done|]. apply IH. by eapply cluster_step_ok.
Qed.

(** ** The theorems *)

(** A replica that believes it is leader, on a session Postgres still has. *)
Definition live_leader (c : cluster) (i : nat) : Prop :=
  exists le s, c.1 !! i = Some le /\ IsLeader le = true /\ le_conn le = Some s /\ s ∈ ad_alive c.2.

Lemma live_leader_holds c i le s :
  cluster_ok c -> c.1 !! i = Some le -> le_conn le = Some s -> s ∈ ad_alive c.2 ->
  ad_holder c.2 = Some (s, 1%nat).
Proof. intros (_ & Hel & _) Hi. by apply (ok_holds _ _ (Hel _ _ Hi)). Qed.

Lemma live_leaders_agree c i j : cluster_ok c -> live_leader c i -> live_leader c j -> i = j.
Proof.
  intros Hc (le & s & Hi & _ & Es & Ha) (le' & s' & Hj & _ & Es' & Ha').
  pose proof (live_leader_holds c i le s Hc Hi Es Ha) as H1.
  pose proof (live_leader_holds c j le' s' Hc Hj Es' Ha') as H2.
  assert (s' = s) as -> by congruence. destruct Hc as (_ & _ & Hdis).
  eapply (Hdis i j le le' s); [done..| |]; unfold owned; rewrite ?Es, ?Es'; left.
Qed.

(** C27: at most one live leader.  In every state the replicas can reach,
    through any checks, releases, crashes, lost sessions and lost messages, two
    replicas that believe they are leader and whose sessions are both alive
    are the same replica; a replica believes so exactly while it keeps the
    connection it locked on, and as long as that session is alive it holds the
    lock, exactly once.  A false belief is thus always that of a replica whose
    session has already ended. *)
Theorem one_live_leader (c : cluster) :
  cluster_reachable c ->
  (forall i j, live_leader c i -> live_leader c j -> i = j) /\
  (forall i le, c.1 !! i = Some le -> IsLeader le = true <-> is_Some (le_conn le)) /\
  (forall i le s, c.1 !! i = Some le -> le_conn le = Some s -> s ∈ ad_alive c.2 ->
     ad_holder c.2 = Some (s, 1%nat)).
Proof.
  intros Hc%cluster_reachable_ok. split; [intros i j; by apply live_leaders_agree|]. split.
  - intros i le Hi. destruct Hc as (_ & Hel & _). apply (ok_belief _ _ (Hel _ _ Hi)).
  - intros i le s. by apply live_leader_holds.
Qed.

Lemma try_acquire_truthful e pool ad le' ad' :
  try_acquire e pool false ad = (le', ad') -> IsLeader le' = true ->
  exists s, le_conn le' = Some s /\ s ∈ ad_alive ad'.
Proof.
  unfold try_acquire. intros E Hl. destruct (pool_Acquire e pool ad) as [[[s|] pool1] ad1];
    [|by simplify_eq].
  destruct (le_fault e); simpl in E; unfold pg_try_advisory_lock in E; repeat case_match; simplify_eq/=;
    try done; eauto.
Qed.

(** C28: a check settles the belief.  When tryAcquireOrVerify returns in any
    reachable state, the replica believes it is leader only if its session is
    alive and holds the lock, so no other replica is a live leader; and when
    the lock is free and the pool and the statement work, the check makes a
    replica without a connection leader: a standby takes over at its first
    check after the old session ended. *)
Theorem check_settles_leadership (rs : gmap nat LeaderElector) ad i le e :
  cluster_reachable (rs, ad) -> rs !! i = Some le -> pool_drops_broken e ->
  let '(le', ad') := tryAcquireOrVerify e le ad in
  (IsLeader le' = true ->
   live_leader (<[i := le']> rs, ad') i /\
   (exists s, le_conn le' = Some s /\ ad_holder ad' = Some (s, 1%nat)) /\
   forall j, j <> i -> ~ live_leader (<[i := le']> rs, ad') j) /\
  (le_conn le = None -> ad_holder ad = None -> le_acquire e = AcquireOpens ->
   le_fault e = NoFault -> IsLeader le' = true).
Proof.
  intros Hr Hi Hd. pose proof (cluster_reachable_ok _ Hr) as Hc.
  assert (Hc' : cluster_ok (<[i := (tryAcquireOrVerify e le ad).1]> rs, (tryAcquireOrVerify e le ad).2))
    by (eapply cluster_step_ok; [by apply cl_check|done]).
  destruct (tryAcquireOrVerify e le ad) as [le' ad'] eqn:E. simpl in Hc'. split.
  - intros Hl. assert (Hs : exists s, le_conn le' = Some s /\ s ∈ ad_alive ad').
    { unfold tryAcquireOrVerify in E. destruct (le_conn le) as [s|] eqn:Hconn.
      - destruct (conn_Ping e s ad) eqn:Hp.
        + simplify_eq. exists s. split; [done|]. unfold conn_Ping in Hp.
          by apply andb_true_iff in Hp as [_ ?%bool_decide_eq_true].
        + by eapply try_acquire_truthful.
      - destruct Hc as (_ & Hel & _). destruct (ok_belief _ _ (Hel _ _ Hi)) as [Hb _].
        destruct (le_isLeader le); [rewrite Hconn in Hb; by destruct (Hb eq_refl)|].
        by eapply try_acquire_truthful. }
    destruct Hs as (s & Es & Ha).
    assert (Hlive : live_leader (<[i := le']> rs, ad') i).
    { exists le', s. simpl. by rewrite lookup_insert_eq. }
    split; [done|]. split.
    + exists s. split; [done|]. apply (live_leader_holds _ i le' s Hc'); [|done..].
      simpl. by rewrite lookup_insert_eq.
    + intros j Hne Hj. apply Hne. by eapply live_leaders_agree.
  - intros Hconn Hfree Hacq Hf. unfold tryAcquireOrVerify in E. rewrite Hconn in E.
    unfold try_acquire, pool_Acquire in E. rewrite Hacq, Hf in E. simpl in E.
    unfold pg_try_advisory_lock in E. simpl in E. rewrite decide_True in E by set_solver.
    rewrite Hfree in E. by simplify_eq.
Qed.

(** the lock is never lost.  In every reachable state the lock is free, or
    held by the connection of a replica that knows it is leader, or by a
    session no running replica has a connection to any more; in the last case
    the end of that session frees it.  In particular no pooled connection
    holds it, so it cannot be handed to an unrelated query. *)
Theorem lock_is_never_stranded (rs : gmap nat LeaderElector) ad s n :
  cluster_reachable (rs, ad) -> ad_holder ad = Some (s, n) ->
  s ∈ ad_alive ad /\
  ((exists i le, rs !! i = Some le /\ le_conn le = Some s /\ IsLeader le = true) \/
   (forall i le, rs !! i = Some le -> s ∉ owned le)) /\
  ad_holder (end_session s ad) = None.
Proof.
  intros (Hlo & Hel & Hdis)%cluster_reachable_ok Hh. simpl in *.
  destruct (ok_holder _ Hlo _ _ Hh) as [Ha _]. split; [done|]. split.
  - destruct (decide (map_Exists (fun _ le => le_conn le = Some s) rs)) as [Hex|Hno].
    + left. destruct Hex as (i & le & Hi & Es). exists i, le. split; [done|]. split; [done|].
      apply (ok_belief _ _ (Hel _ _ Hi)). by rewrite Es.
    + right. intros i le Hi Hs. apply elem_of_app in Hs as [Hs|Hs].
      * apply Hno. exists i, le. split; [done|]. destruct (le_conn le); [|by apply not_elem_of_nil in Hs].
        by apply list_elem_of_singleton in Hs as ->.
      * by apply (ok_idle _ _ (Hel _ _ Hi) s n Hs).
  - simpl. rewrite Hh. by rewrite decide_True.
Qed.

(** ** A concrete failover: replica 0 leads on session 0, the session ends,
    replica 1 takes over on session 1 *)
Definition le_calm : le_env := mkLeEnv true AcquireOpens NoFault negb.
Definition leader0 : LeaderElector := mkLeaderElector [] (Some 0%nat) true.
Definition leader1 : LeaderElector := mkLeaderElector [] (Some 1%nat) true.
Definition led_by_0 : cluster :=
  (<[0%nat := leader0]> (<[1%nat := NewLeaderElector]> (<[0%nat := NewLeaderElector]> ∅)),
   mkAdvisory {[0%nat]} (Some (0%nat, 1%nat)) 1%nat).
Definition lost_0 : cluster := (led_by_0.1, end_session 0%nat led_by_0.2).
Definition split_brain : cluster :=
  (<[1%nat := leader1]> lost_0.1,
   mkAdvisory ({[1%nat]} ∪ ad_alive lost_0.2) (Some (1%nat, 1%nat)) 2%nat).

Lemma led_by_0_reachable : cluster_reachable led_by_0.
Proof.
  unfold cluster_reachable.
  eapply rtc_l; [apply (cl_start 0%nat); apply lookup_empty|].
  eapply rtc_l; [apply (cl_start 1%nat); vm_compute; reflexivity|].
  apply rtc_once.
  pose proof (cl_check 0%nat NewLeaderElector le_calm
    (<[1%nat := NewLeaderElector]> (<[0%nat := NewLeaderElector]> ∅)) no_sessions eq_refl eq_refl) as Hs.
  exact Hs.
Qed.

Lemma lost_0_reachable : cluster_reachable lost_0.
Proof. eapply rtc_r; [exact led_by_0_reachable|]. apply (cl_end 0%nat). Qed.

Lemma split_brain_reachable : cluster_reachable split_brain.
Proof.
  eapply rtc_r; [exact lost_0_reachable|].
  pose proof (cl_check 1%nat NewLeaderElector le_calm lost_0.1 lost_0.2 eq_refl eq_refl) as Hs.
  exact Hs.
Qed.

Lemma one_live_leader_witness :
  (forall i j, live_leader split_brain i -> live_leader split_brain j -> i = j) /\
  (forall i le, split_brain.1 !! i = Some le -> IsLeader le = true <-> is_Some (le_conn le)) /\
  (forall i le s, split_brain.1 !! i = Some le -> le_conn le = Some s -> s ∈ ad_alive split_brain.2 ->
     ad_holder split_brain.2 = Some (s, 1%nat)).
Proof. exact (one_live_leader split_brain split_brain_reachable). Defined.

Lemma check_settles_leadership_witness :
  le_conn NewLeaderElector = None /\
  IsLeader (tryAcquireOrVerify le_calm NewLeaderElector lost_0.2).1 = true.
Proof.
  split; [reflexivity|].
  pose proof (check_settles_leadership lost_0.1 lost_0.2 1%nat NewLeaderElector le_calm
    lost_0_reachable eq_refl eq_refl) as Hc.
  destruct (tryAcquireOrVerify le_calm NewLeaderElector lost_0.2) as [le' ad'].
  apply (proj2 Hc); reflexivity.
Defined.

Lemma lock_is_never_stranded_witness :
  0%nat ∈ ad_alive led_by_0.2 /\
  ((exists i le, led_by_0.1 !! i = Some le /\ le_conn le = Some 0%nat /\ IsLeader le = true) \/
   (forall i le, led_by_0.1 !! i = Some le -> 0%nat ∉ owned le)) /\
  ad_holder (end_session 0%nat led_by_0.2) = None.
Proof.
  apply (lock_is_never_stranded led_by_0.1 led_by_0.2 0%nat 1%nat); [exact led_by_0_reachable|reflexivity].
Defined.

(** two replicas can believe they are leader at once.  Leadership is
    re-verified only by the periodic check (every 2 s), and the loops ask
    IsLeader, a stored flag, although docs/06 12 says the lock is re-verified
    before every assignment.  In a reachable state replica 0, whose session has
    ended, and replica 1, which took over, both answer IsLeader; replica 0's
    next check ends its belief. *)
Theorem two_replicas_believe :
  cluster_reachable split_brain /\
  (exists le0 le1, split_brain.1 !! 0%nat = Some le0 /\ split_brain.1 !! 1%nat = Some le1 /\
     IsLeader le0 = true /\ IsLeader le1 = true /\
     IsLeader (tryAcquireOrVerify le_calm le0 split_brain.2).1 = false).
Proof.
  split; [exact split_brain_reachable|]. exists leader0, leader1.
  repeat split; vm_compute; reflexivity.
Qed.
