(* ===== verification/Crypto.v ===== *)
(** * The parts of Go's crypto and encoding packages that internal/auth uses

    crypto/sha256, crypto/hmac (RFC 2104) and encoding/base64's
    RawURLEncoding.  Byte slices are [string]s; 32-bit words are [Z] values
    reduced modulo 2^32. *)
From Stdlib Require Import Ascii.
From S2P Require Import Prelude GoStrings.
Local Open Scope Z_scope.

Definition byte_val (c : ascii) : Z := Z.of_N (N_of_ascii c).
Definition byte_of (z : Z) : ascii := ascii_of_N (Z.to_N z).

Fixpoint bytes_of (s : string) : list Z :=
  match s with "" => [] | String c s' => byte_val c :: bytes_of s' end.
Fixpoint string_of (l : list Z) : string :=
  match l with [] => "" | z :: l' => String (byte_of z) (string_of l') end.

Lemma byte_val_range c : 0 <= byte_val c < 256.
Proof. unfold byte_val. pose proof (N_ascii_bounded c). lia. Qed.

Lemma byte_of_val c : byte_of (byte_val c) = c.
Proof. unfold byte_of, byte_val. by rewrite N2Z.id, ascii_N_embedding. Qed.

Lemma byte_val_of z : 0 <= z < 256 -> byte_val (byte_of z) = z.
Proof. intros Hz. unfold byte_of, byte_val. rewrite N_ascii_embedding; lia. Qed.

(** ** SHA-256 (FIPS 180-4) *)
Module sha256.

Definition word (z : Z) : Z := z mod 2 ^ 32.
Definition rotr (n x : Z) : Z := Z.lor (Z.shiftr x n) (word (Z.shiftl x (32 - n))).
Definition lnot (x : Z) : Z := Z.lxor x (2 ^ 32 - 1).

Definition ch (x y z : Z) : Z := Z.lxor (Z.land x y) (Z.land (lnot x) z).
Definition maj (x y z : Z) : Z := Z.lxor (Z.lxor (Z.land x y) (Z.land x z)) (Z.land y z).
Definition bsig0 (x : Z) : Z := Z.lxor (Z.lxor (rotr 2 x) (rotr 13 x)) (rotr 22 x).
Definition bsig1 (x : Z) : Z := Z.lxor (Z.lxor (rotr 6 x) (rotr 11 x)) (rotr 25 x).
Definition ssig0 (x : Z) : Z := Z.lxor (Z.lxor (rotr 7 x) (rotr 18 x)) (Z.shiftr x 3).
Definition ssig1 (x : Z) : Z := Z.lxor (Z.lxor (rotr 17 x) (rotr 19 x)) (Z.shiftr x 10).

(** The constants as the standard defines them: the first 32 bits of the
    fractional parts of the cube roots of the first 64 primes, and of the square
    roots of the first 8. *)
Definition is_prime (n : nat) : bool :=
  (2 <=? n)%nat && forallb (fun k => negb (n mod k =? 0)%nat) (seq 2 (n - 2)).
Definition primes : list Z := map Z.of_nat (List.filter is_prime (seq 0 312)).

(** The largest [r] below [2 ^ n] with [r ^ 3 <= v], bit by bit. *)
Fixpoint cbrt_bits (n : nat) (v r : Z) : Z :=
  match n with
  | O => r
  | S m => let r' := r + 2 ^ Z.of_nat m in
           cbrt_bits m v (if r' ^ 3 <=? v then r' else r)
  end.

Definition K : list Z :=
  Eval vm_compute in map (fun p => word (cbrt_bits 36 (p * 2 ^ 96) 0)) primes.
Definition H0 : list Z :=
  Eval vm_compute in map (fun p => word (Z.sqrt (p * 2 ^ 64))) (take 8 primes).

Example primes_64 : length primes = 64%nat.
Proof. vm_compute. reflexivity. Qed.

(** [cbrt_bits] is the integer cube root of what fits in its bits. *)
Lemma cbrt_bits_spec n v r :
  0 <= r -> r ^ 3 <= v < (r + 2 ^ Z.of_nat n) ^ 3 ->
  let c := cbrt_bits n v r in c ^ 3 <= v < (c + 1) ^ 3.
Proof.
  revert r. induction n as [|n IH]; intros r Hr Hv; [done|]. cbn [cbrt_bits].
  assert (E : 2 ^ Z.of_nat (S n) = 2 ^ Z.of_nat n + 2 ^ Z.of_nat n).
  { rewrite Nat2Z.inj_succ, Z.pow_succ_r by lia. lia. }
  pose proof (Z.pow_pos_nonneg 2 (Z.of_nat n) ltac:(lia) ltac:(lia)).
  rewrite E, Z.add_assoc in Hv. destruct (Z.leb_spec ((r + 2 ^ Z.of_nat n) ^ 3) v); apply IH; lia.
Qed.

(** The message with 0x80, zeros and the length in bits, a multiple of 64 bytes. *)
Definition be_bytes (n : nat) (z : Z) : list Z :=
  map (fun i => Z.land (Z.shiftr z (8 * Z.of_nat i)) 255) (rev (seq 0 n)).

Definition pad (m : list Z) : list Z :=
  let len := Z.of_nat (length m) in
  m ++ [0x80] ++ repeat 0 (Z.to_nat ((55 - len) mod 64)) ++ be_bytes 8 (8 * len).

Fixpoint words (l : list Z) : list Z :=
  match l with
  | a :: b :: c :: d :: l' => (a * 2 ^ 24 + b * 2 ^ 16 + c * 2 ^ 8 + d) :: words l'
  | _ => []
  end.

(** The message schedule, kept newest first. *)
Fixpoint extend (n : nat) (w : list Z) : list Z :=
  match n with
  | O => w
  | S n' =>
      extend n' (word (ssig1 (nth 1 w 0) + nth 6 w 0 + ssig0 (nth 14 w 0) + nth 15 w 0) :: w)
  end.
Definition schedule (block : list Z) : list Z := rev (extend 48 (rev block)).

Definition round (s : list Z) (kw : Z * Z) : list Z :=
  match s with
  | [a; b; c; d; e; f; g; h] =>
      let t1 := h + bsig1 e + ch e f g + kw.1 + kw.2 in
      let t2 := bsig0 a + maj a b c in
      [word (t1 + t2); a; b; c; word (d + t1); e; f; g]
  | _ => s
  end.

Definition compress (h block : list Z) : list Z :=
  zip_with (fun x y => word (x + y)) h (foldl round h (zip K (schedule block))).

(** One 16-word block at a time. *)
Fixpoint blocks (fuel : nat) (h l : list Z) : list Z :=
  match fuel with
  | O => h
  | S n => match l with [] => h | _ => blocks n (compress h (take 16 l)) (drop 16 l) end
  end.

(** One unit of fuel per word is enough: more changes nothing. *)
Lemma blocks_fuel n m h l :
  (length l <= n)%nat -> (length l <= m)%nat -> blocks n h l = blocks m h l.
Proof.
  revert m h l. induction n as [|n IH]; intros [|m] h [|x l] Hn Hm; simpl in Hn, Hm; try lia; try done.
  cbn [blocks]. apply IH; rewrite length_drop; simpl; lia.
Qed.

Definition digest (m : list Z) : list Z :=
  let w := words (pad m) in
  flat_map (be_bytes 4) (blocks (length w) H0 w).

End sha256.

(** ** hmac.New(sha256.New, key); Write(msg); Sum(nil) *)
Definition hmac_sha256 (key msg : string) : string :=
  let k := bytes_of key in
  let k0 := if (64 <? length k)%nat then sha256.digest k else k in
  let k1 := k0 ++ repeat 0 (64 - length k0) in
  string_of (sha256.digest (map (Z.lxor 0x5c) k1 ++
               sha256.digest (map (Z.lxor 0x36) k1 ++ bytes_of msg))).

Fixpoint hex (l : list Z) : string :=
  let digit n := byte_of (if n <? 10 then 48 + n else 87 + n) in
  match l with
  | [] => ""
  | z :: l' => String (digit (z / 16)) (String (digit (z mod 16)) (hex l'))
  end.

(** The published vectors: FIPS 180-4 "abc", the empty message, a two-block
    message, and RFC 4231 test cases 1 and 2. *)
Example sha256_vectors :
  hex (sha256.digest (bytes_of "abc")) =
    "ba7816bf8f01cfea414140de5dae2223b00361a396177a9cb410ff61f20015ad" /\
  hex (sha256.digest []) =
    "e3b0c44298fc1c149afbf4c8996fb92427ae41e4649b934ca495991b7852b855" /\
  hex (sha256.digest (bytes_of "abcdbcdecdefdefgefghfghighijhijkijkljklmklmnlmnomnopnopq")) =
    "248d6a61d20638b8e5c026930c3e6039a33ce45964ff2167f6ecedd419db06c1".
Proof. vm_compute. repeat split; reflexivity. Qed.

Example hmac_vectors :
  hex (bytes_of (hmac_sha256 (string_of (repeat 11 20)) "Hi There")) =
    "b0344c61d8db38535ca8afceaf0bf12b881dc200c9833da726e9376c2e32cff7" /\
  hex (bytes_of (hmac_sha256 "Jefe" "what do ya want for nothing?")) =
    "5bdcc146bf60754e6a042426089575c75a003f089d2739839dec58b964ec3843".
Proof. vm_compute. repeat split; reflexivity. Qed.

(** ** base64.RawURLEncoding *)
Module base64.

(** The character of a 6-bit value and back. *)
Definition symbol (n : Z) : ascii :=
  byte_of (if n <? 26 then 65 + n else if n <? 52 then 71 + n else if n <? 62 then n - 4
           else if n =? 62 then 45 else 95).

Definition sextet (c : ascii) : option Z :=
  let b := byte_val c in
  if (65 <=? b) && (b <=? 90) then Some (b - 65)
  else if (97 <=? b) && (b <=? 122) then Some (b - 71)
  else if (48 <=? b) && (b <=? 57) then Some (b + 4)
  else if b =? 45 then Some 62
  else if b =? 95 then Some 63
  else None.

(** Three bytes to four sextets; one or two left over give two or three. *)
Fixpoint encode6 (l : list Z) : list Z :=
  match l with
  | a :: b :: c :: l' =>
      a / 4 :: (a mod 4) * 16 + b / 16 :: (b mod 16) * 4 + c / 64 :: c mod 64 :: encode6 l'
  | [a; b] => [a / 4; (a mod 4) * 16 + b / 16; (b mod 16) * 4]
  | [a] => [a / 4; (a mod 4) * 16]
  | [] => []
  end.

(** Back; the unused low bits of the last sextet are ignored, a single
    sextet left over is an error. *)
Fixpoint decode6 (l : list Z) : option (list Z) :=
  match l with
  | a :: b :: c :: d :: l' =>
      match decode6 l' with
      | Some r => Some (a * 4 + b / 16 :: (b mod 16) * 16 + c / 4 :: (c mod 4) * 64 + d :: r)
      | None => None
      end
  | [a; b; c] => Some [a * 4 + b / 16; (b mod 16) * 16 + c / 4]
  | [a; b] => Some [a * 4 + b / 16]
  | [_] => None
  | [] => Some []
  end.

Fixpoint symbols (l : list Z) : string :=
  match l with [] => "" | n :: l' => String (symbol n) (symbols l') end.

(** The sextets of a text; line breaks are skipped, other characters outside
    the alphabet are an error. *)
Fixpoint sextets (s : string) : option (list Z) :=
  match s with
  | "" => Some []
  | String c s' =>
      if (byte_val c =? 10) || (byte_val c =? 13) then sextets s'
      else match sextet c, sextets s' with
           | Some n, Some l => Some (n :: l)
           | _, _ => None
           end
  end.

Definition EncodeToString (b : string) : string := symbols (encode6 (bytes_of b)).
Definition DecodeString (s : string) : option string :=
  match sextets s with
  | Some l => option_map string_of (decode6 l)
  | None => None
  end.

Example vectors :
  EncodeToString "" = "" /\ EncodeToString "f" = "Zg" /\ EncodeToString "fo" = "Zm8" /\
  EncodeToString "foobar" = "Zm9vYmFy" /\ EncodeToString (string_of [251; 255]) = "-_8" /\
  DecodeString "Zm9=" = None /\ DecodeString "Z" = None /\ DecodeString "Zh" = Some "f".
Proof. vm_compute. repeat split; reflexivity. Qed.

(** ** Round trip *)
Definition is_sextet (n : Z) : Prop := 0 <= n < 64.
Definition is_byte (n : Z) : Prop := 0 <= n < 256.

(** Facts about all 64 symbols, by enumeration. *)
Lemma sextet_cases (P : Z -> bool) n :
  is_sextet n -> forallb (fun i => P (Z.of_nat i)) (seq 0 64) = true -> P n = true.
Proof.
  intros Hn HP. rewrite forallb_forall in HP. specialize (HP (Z.to_nat n)).
  rewrite Z2Nat.id in HP by (destruct Hn; done). apply HP. apply in_seq. unfold is_sextet in Hn. lia.
Qed.

Lemma symbol_props n : is_sextet n ->
  sextet (symbol n) = Some n /\ (byte_val (symbol n) =? 10) || (byte_val (symbol n) =? 13) = false /\
  symbol n <> "."%char.
Proof.
  intros Hn.
  pose proof (sextet_cases (fun n => bool_decide (sextet (symbol n) = Some n) &&
    negb ((byte_val (symbol n) =? 10) || (byte_val (symbol n) =? 13)) &&
    negb (Ascii.eqb (symbol n) ".")) n Hn eq_refl) as HP.
  apply andb_true_iff in HP as [[H1%bool_decide_eq_true H2%negb_true_iff]%andb_true_iff H3%negb_true_iff].
  split; [done|]. split; [done|]. by apply Ascii.eqb_neq.
Qed.

Lemma sextets_symbols l : Forall is_sextet l -> sextets (symbols l) = Some l.
Proof.
  induction l as [|n l IH]; [done|]. intros [Hn Hl]%list.Forall_cons. cbn [symbols sextets].
  destruct (symbol_props n Hn) as (-> & -> & _). by rewrite (IH Hl).
Qed.

(** Induction on lists three elements at a time. *)
Lemma list_ind3 {A} (P : list A -> Prop) :
  P [] -> (forall a, P [a]) -> (forall a b, P [a; b]) ->
  (forall a b c l, P l -> P (a :: b :: c :: l)) -> forall l, P l.
Proof.
  intros H0 H1 H2 H3. fix IH 1. intros [|a [|b [|c l]]]; [done|done|done|]. apply H3, IH.
Qed.

#[local] Ltac Zify.zify_post_hook ::= Z.div_mod_to_equations.

Lemma encode6_sextets l : Forall is_byte l -> Forall is_sextet (encode6 l).
Proof.
  induction l as [|a|a b|a b c l IH] using list_ind3; cbn [encode6]; intros Hl;
    repeat (apply list.Forall_cons in Hl as [? Hl]); unfold is_byte, is_sextet in *;
    repeat (constructor; [lia|]); auto.
Qed.

Lemma decode6_encode6 l : Forall is_byte l -> decode6 (encode6 l) = Some l.
Proof.
  induction l as [|a|a b|a b c l IH] using list_ind3; cbn [encode6 decode6]; intros Hl;
    repeat (apply list.Forall_cons in Hl as [? Hl]); unfold is_byte in *.
  - done.
  - repeat f_equal; lia.
  - repeat f_equal; lia.
  - rewrite IH by done. repeat f_equal; lia.
Qed.

Lemma bytes_of_range s : Forall is_byte (bytes_of s).
Proof. induction s; constructor; [apply byte_val_range|done]. Qed.

Lemma string_of_bytes s : string_of (bytes_of s) = s.
Proof. induction s as [|c s IH]; cbn [bytes_of string_of]; [done|]. by rewrite byte_of_val, IH. Qed.

(** Decoding an encoded byte string gives it back. *)
Lemma DecodeString_EncodeToString b : DecodeString (EncodeToString b) = Some b.
Proof.
  unfold DecodeString, EncodeToString. pose proof (bytes_of_range b) as Hb.
  rewrite sextets_symbols by by apply encode6_sextets. rewrite decode6_encode6 by done.
  simpl. by rewrite string_of_bytes.
Qed.

(** An encoding has no dot. *)
Lemma symbols_no_dot l : Forall is_sextet l -> gostrings.contains_byte "." (symbols l) = false.
Proof.
  induction l as [|n l IH]; [done|]. intros [Hn Hl]%list.Forall_cons. cbn [symbols gostrings.contains_byte].
  destruct (symbol_props n Hn) as (_ & _ & Hd). rewrite IH by done.
  assert (Ascii.eqb "." (symbol n) = false) as -> by (apply Ascii.eqb_neq; congruence). done.
Qed.

Lemma EncodeToString_no_dot b : gostrings.contains_byte "." (EncodeToString b) = false.
Proof. apply symbols_no_dot, encode6_sextets, bytes_of_range. Qed.

End base64.
