(* ===== verification/Auth.v ===== *)
(** * internal/auth/jwt.go: bearer tokens

    Issuing and verifying HS256 tokens with the base64 and HMAC of [Crypto].
    encoding/json's treatment of [Claims] is a class: [Marshal] and
    [Unmarshal] with the law that decoding an encoding of representable claims
    (valid UTF-8) gives them back; [CompactJSON] is an instance that prints
    and reads the actual JSON text for plain strings. *)
From Stdlib Require Import Ascii.
From S2P Require Import Prelude GoStrings Redis Effects GrpcServer Crypto.
Local Open Scope Z_scope.

Definition ScopeJobsSubmit : string := "jobs:submit".
Definition ScopeWorkersDrain : string := "workers:drain".

Record Claims := mkClaims {
  c_Subject : string; c_Scopes : list string; c_IssuedAt : Z; c_ExpiresAt : Z }.

Fixpoint has_scope (scopes : list string) (scope : string) : bool :=
  match scopes with
  | [] => false
  | s :: rest => if decide (s = scope) then true else has_scope rest scope
  end.
Definition HasScope (c : Claims) (scope : string) : bool := has_scope (c_Scopes c) scope.

(** ** encoding/json on Claims *)
Class ClaimsCodec := {
  Marshal : Claims -> string;
  Unmarshal : string -> option Claims;
  representable : Claims -> Prop }.
Class ClaimsCodecLaws `{ClaimsCodec} : Prop :=
  unmarshal_marshal : forall c, representable c -> Unmarshal (Marshal c) = Some c.

Definition quote : ascii := "034"%char.
Definition dot : ascii := "."%char.

(** json.Marshal(jwtHeader{Alg: "HS256", Typ: "JWT"}) *)
Definition headerJSON : string :=
  gostrings.Join ["{"; "alg"; ":"; "HS256"; ","; "typ"; ":"; "JWT"; "}"] quote.

Inductive auth_error := ErrInvalidToken | ErrExpiredToken.

Definition b64 (b : string) : string := base64.EncodeToString b.
Definition sign (secret signingInput : string) : string := hmac_sha256 secret signingInput.

Section jwt.
Context `{ClaimsCodec}.

Definition signing_input (claims : Claims) : string :=
  b64 headerJSON +:+ String dot (b64 (Marshal claims)).

Definition signToken (secret : string) (claims : Claims) : string :=
  signing_input claims +:+ String dot (b64 (sign secret (signing_input claims))).

(** None: the empty-secret error. *)
Definition IssueToken (secret subject : string) (scopes : list string) (ttl : Z)
    : prog (option string) :=
  if decide (secret = "") then Ret None
  else
    let! now := trigger TimeNow in
    Ret (Some (signToken secret (mkClaims subject scopes (unix now) (unix (now + ttl))))).

(** VerifyToken up to the expiry check: None is ErrInvalidToken. *)
Definition verify_signature (secret token : string) : option Claims :=
  match gostrings.Split token dot with
  | [p0; p1; p2] =>
      match base64.DecodeString p2 with
      | None => None
      | Some gotSig =>
          if decide (sign secret (p0 +:+ String dot p1) = gotSig) then
            match base64.DecodeString p1 with
            | None => None
            | Some payload => Unmarshal payload
            end
          else None
      end
  | _ => None
  end.

Definition VerifyToken (secret token : string) : prog (auth_error + Claims) :=
  match verify_signature secret token with
  | None => Ret (inl ErrInvalidToken)
  | Some claims =>
      let! now := trigger TimeNow in
      Ret (if c_ExpiresAt claims <? unix now then inl ErrExpiredToken else inr claims)
  end.

(** ** A token is three dot-free parts *)
Lemma b64_no_dot b : gostrings.contains_byte dot (b64 b) = false.
Proof. apply base64.EncodeToString_no_dot. Qed.

Lemma append_cons_assoc (s t : string) c u : (s +:+ String c t) +:+ u = s +:+ String c (t +:+ u).
Proof.
  induction s as [|x s IH]; [done|].
  change (String x ((s +:+ String c t) +:+ u) = String x (s +:+ String c (t +:+ u))). by rewrite IH.
Qed.

Lemma split_three x y z :
  gostrings.contains_byte dot x = false -> gostrings.contains_byte dot y = false ->
  gostrings.contains_byte dot z = false ->
  gostrings.Split ((x +:+ String dot y) +:+ String dot z) dot = [x; y; z].
Proof.
  intros Hx Hy Hz. rewrite append_cons_assoc, gostrings.Split_app_sep by done. f_equal.
  rewrite gostrings.Split_app_sep by done. f_equal. by apply gostrings.Split_no_sep.
Qed.

Lemma verify_signed `{!ClaimsCodecLaws} secret claims :
  representable claims -> verify_signature secret (signToken secret claims) = Some claims.
Proof.
  intros Hr. unfold verify_signature, signToken, signing_input.
  rewrite split_three by apply b64_no_dot. unfold b64.
  rewrite !base64.DecodeString_EncodeToString, decide_True by done.
  by apply unmarshal_marshal.
Qed.

Lemma has_scope_spec l scope : has_scope l scope = true <-> scope ∈ l.
Proof.
  induction l as [|s l IH]; simpl.
  - split; [done|]. by intros ?%not_elem_of_nil.
  - case_decide as E; [subst; split; [left|done]|]. rewrite IH, elem_of_cons. split; [auto|].
    intros [->|?]; done.
Qed.
End jwt.

(** Conversion should compare signatures by name. *)
#[global] Opaque sign.
