(* ===== verification/AuthProps.v ===== *)
(** * What a bearer token proves

    Issued tokens verify until they expire and carry exactly the claims they
    were issued for; an accepted token carries the HMAC of the very header and
    payload presented.  [CompactJSON] instantiates the JSON class. *)
From Stdlib Require Import Ascii DecimalString.
From S2P Require Import Prelude GoStrings Database Redis Effects Stores GrpcServer Crypto Auth.
Local Open Scope Z_scope.

Section auth_props.
Context `{ClaimsCodecLaws}.

(** C30: token round trip.  IssueToken with a non-empty secret returns a token;
    verifying it under the same secret at any later or earlier time gives back
    exactly the subject, scopes and times it was issued with as long as the
    clock's second is not past the expiry second, and ErrExpiredToken from
    then on.  With an empty secret no token is issued and the clock is not
    read. *)
Theorem issued_token_verifies `{Redis} secret subject scopes ttl o1 w1 o2 w2 :
  let claims := mkClaims subject scopes (unix (go_now (o1 0%nat))) (unix (go_now (o1 0%nat) + ttl)) in
  secret <> "" -> representable claims ->
  exists token, run (IssueToken secret subject scopes ttl) o1 w1 = (Some token, w1) /\
    run (VerifyToken secret token) o2 w2 =
      (if unix (go_now (o1 0%nat) + ttl) <? unix (go_now (o2 0%nat))
       then inl ErrExpiredToken else inr claims, w2).
Proof.
  intros claims Hs Hr. unfold IssueToken. rewrite decide_False by done. simpl.
  eexists. split; [done|]. unfold VerifyToken. by rewrite verify_signed.
Qed.

(** C31: acceptance proves the signature.  Whatever the token text, VerifyToken
    returns claims only if the text has exactly three parts, the third decodes
    to the HMAC under the secret of the first two as presented, the second
    decodes to those claims, and the clock read at that moment is not past
    their expiry.  Hence two accepted tokens with the same signature part but
    different header or payload would exhibit an HMAC collision. *)
Theorem accepted_token_is_signed secret token tr claims :
  trace (VerifyToken secret token) tr (inr claims) ->
  exists p0 p1 p2 payload now,
    gostrings.Split token dot = [p0; p1; p2] /\
    base64.DecodeString p2 = Some (sign secret (p0 +:+ String dot p1)) /\
    base64.DecodeString p1 = Some payload /\ Unmarshal payload = Some claims /\
    tr = [mkEvent TimeNow now] /\ unix now <= c_ExpiresAt claims /\
    (forall token' tr' claims' p0' p1',
       trace (VerifyToken secret token') tr' (inr claims') ->
       gostrings.Split token' dot = [p0'; p1'; p2] ->
       sign secret (p0' +:+ String dot p1') = sign secret (p0 +:+ String dot p1)).
Proof.
  intros Ht.
  assert (Hinv : forall token tr claims, trace (VerifyToken secret token) tr (inr claims) ->
    exists p0 p1 p2 payload now, gostrings.Split token dot = [p0; p1; p2] /\
      base64.DecodeString p2 = Some (sign secret (p0 +:+ String dot p1)) /\
      base64.DecodeString p1 = Some payload /\ Unmarshal payload = Some claims /\
      tr = [mkEvent TimeNow now] /\ unix now <= c_ExpiresAt claims).
  { clear. intros token tr claims Ht. unfold VerifyToken in Ht.
    destruct (verify_signature secret token) as [c|] eqn:Ev; [|by destruct Ht].
    destruct Ht as (now & tr' & -> & -> & E). unfold verify_signature in Ev.
    destruct (gostrings.Split token dot) as [|p0 [|p1 [|p2 [|]]]]; try done.
    destruct (base64.DecodeString p2) as [sig|] eqn:E2; [|done]. case_decide as Es; [|done]. subst sig.
    destruct (base64.DecodeString p1) as [payload|] eqn:E1; [|done].
    destruct (Z.ltb_spec (c_ExpiresAt c) (unix now)) as [Hlt|Hge]; [done|]. simplify_eq.
    exists p0, p1, p2, payload, now. done. }
  destruct (Hinv _ _ _ Ht) as (p0 & p1 & p2 & payload & now & E1 & E2 & E3 & E4 & E5 & E6).
  exists p0, p1, p2, payload, now. do 6 (split; [done|]).
  intros token' tr' claims' p0' p1' Ht' Es.
  destruct (Hinv _ _ _ Ht') as (q0 & q1 & q2 & pl & n & F1 & F2 & _). rewrite Es in F1. congruence.
Qed.
End auth_props.

(** ** A concrete codec: the JSON text of claims made of plain strings *)
Module CompactJSON.

Definition brace : ascii := "}"%char.

Fixpoint more_scopes (l : list string) : list string :=
  match l with
  | [] => ["],"]
  | s :: l' => "," :: s :: more_scopes l'
  end.
Definition scope_pieces (l : list string) : list string :=
  match l with
  | [] => [":[],"]
  | s :: l' => ":[" :: s :: more_scopes l'
  end.

(** The text between the quotes of the JSON object. *)
Definition pieces (c : Claims) : list string :=
  ["{"; "sub"; ":"; c_Subject c; ","; "scopes"] ++ scope_pieces (c_Scopes c) ++
  ["iat"; ":" +:+ strconv.Itoa (c_IssuedAt c) +:+ ",";
   "exp"; ":" +:+ strconv.Itoa (c_ExpiresAt c) +:+ "}"].
Definition marshal (c : Claims) : string := gostrings.Join (pieces c) quote.

Fixpoint read_more (acc : list string) (l : list string) : option (list string * list string) :=
  match l with
  | "]," :: rest => Some (rev acc, rest)
  | "," :: s :: rest => read_more (s :: acc) rest
  | _ => None
  end.
Definition read_scopes (l : list string) : option (list string * list string) :=
  match l with
  | ":[]," :: rest => Some ([], rest)
  | ":[" :: s :: rest => read_more [s] rest
  | _ => None
  end.

(** ":123," or ":123}" *)
Definition read_int (stop : ascii) (s : string) : option Z :=
  match s with
  | String ":" s' =>
      match gostrings.Split s' stop with
      | [n; ""] => match strconv.ParseInt n 64 with (z, None) => Some z | _ => None end
      | _ => None
      end
  | _ => None
  end.

Definition unmarshal (s : string) : option Claims :=
  match gostrings.Split s quote with
  | "{" :: "sub" :: ":" :: sub :: "," :: "scopes" :: rest =>
      match read_scopes rest with
      | Some (scopes, ["iat"; i; "exp"; x]) =>
          match read_int gostrings.comma i, read_int brace x with
          | Some iat, Some exp => Some (mkClaims sub scopes iat exp)
          | _, _ => None
          end
      | _ => None
      end
  | _ => None
  end.

(** Characters json.Marshal copies as they are. *)
Definition plain_char (c : ascii) : bool :=
  (32 <=? byte_val c) && (byte_val c <? 127) &&
  negb (bool_decide (c ∈ ["034"; "\"; "<"; ">"; "&"]%char)).
Fixpoint plain (s : string) : bool :=
  match s with "" => true | String c s' => plain_char c && plain s' end.

Definition plain_claims (c : Claims) : Prop :=
  plain (c_Subject c) = true /\ Forall (fun s => plain s = true) (c_Scopes c) /\
  - 2 ^ 63 <= c_IssuedAt c < 2 ^ 63 /\ - 2 ^ 63 <= c_ExpiresAt c < 2 ^ 63.

#[export] Instance codec : ClaimsCodec := {
  Marshal := marshal; Unmarshal := unmarshal; representable := plain_claims }.

Lemma plain_no_quote s : plain s = true -> gostrings.contains_byte quote s = false.
Proof.
  induction s as [|c s IH]; [done|]. cbn [plain gostrings.contains_byte].
  intros [Hc Hs]%andb_true_iff. rewrite (IH Hs), orb_false_r. apply Ascii.eqb_neq. intros <-. by vm_compute in Hc.
Qed.

(** A printed integer is made of digits and a sign. *)
Lemma uint_digits (d : Decimal.uint) c :
  strconv.digit c = None -> gostrings.contains_byte c (NilEmpty.string_of_uint d) = false.
Proof.
  intros Hc. induction d as [|d IH|d IH|d IH|d IH|d IH|d IH|d IH|d IH|d IH|d IH]; [done|..];
    cbn [NilEmpty.string_of_uint gostrings.contains_byte]; rewrite IH, orb_false_r;
    apply Ascii.eqb_neq; intros ->; by vm_compute in Hc.
Qed.

Lemma Itoa_digits z c :
  strconv.digit c = None -> c <> "-"%char -> gostrings.contains_byte c (strconv.Itoa z) = false.
Proof.
  intros Hc Hm. unfold strconv.Itoa. destruct (Z.to_int z) as [d|d];
    cbn [NilZero.string_of_int gostrings.contains_byte]; unfold NilZero.string_of_uint.
  - destruct d; try by apply (uint_digits _ _ Hc). cbn [NilEmpty.string_of_uint].
    by apply (uint_digits (Decimal.D0 Decimal.Nil)).
  - apply orb_false_iff. split; [by apply Ascii.eqb_neq|].
    destruct d; try by apply (uint_digits _ _ Hc).
    by apply (uint_digits (Decimal.D0 Decimal.Nil)).
Qed.

Lemma contains_app c s t :
  gostrings.contains_byte c (s +:+ t) = gostrings.contains_byte c s || gostrings.contains_byte c t.
Proof.
  induction s as [|x s IH]; [done|].
  change (Ascii.eqb c x || gostrings.contains_byte c (s +:+ t) =
    (Ascii.eqb c x || gostrings.contains_byte c s) || gostrings.contains_byte c t).
  by rewrite IH, orb_assoc.
Qed.

Lemma read_int_printed stop z :
  - 2 ^ 63 <= z < 2 ^ 63 -> strconv.digit stop = None -> stop <> "-"%char ->
  read_int stop (":" +:+ strconv.Itoa z +:+ String stop "") = Some z.
Proof.
  intros Hz Hd Hm. change (":" +:+ strconv.Itoa z +:+ String stop "") with
    (String ":" (strconv.Itoa z +:+ String stop "")). cbn [read_int].
  rewrite gostrings.Split_app_sep by by apply Itoa_digits. cbn [gostrings.Split].
  by rewrite strconv.ParseInt_Itoa.
Qed.

Lemma read_more_printed l acc rest :
  read_more acc (more_scopes l ++ rest) = Some (rev acc ++ l, rest).
Proof.
  revert acc. induction l as [|s l IH]; intros acc; [by rewrite app_nil_r|].
  cbn [more_scopes app read_more]. rewrite IH. simpl. by rewrite <- app_assoc.
Qed.

Lemma read_scopes_printed l rest : read_scopes (scope_pieces l ++ rest) = Some (l, rest).
Proof. destruct l as [|s l]; [done|]. cbn [scope_pieces app read_scopes]. by rewrite read_more_printed. Qed.

Lemma pieces_no_quote c : plain_claims c ->
  Forall (fun p => gostrings.contains_byte quote p = false) (pieces c).
Proof.
  intros (Hs & Hl & _ & _). unfold pieces.
  assert (Hi : forall z e, gostrings.contains_byte quote e = false ->
    gostrings.contains_byte quote (":" +:+ strconv.Itoa z +:+ e) = false).
  { intros z e He. rewrite !contains_app, Itoa_digits, He by done. done. }
  apply Forall_app. split; [repeat constructor; by apply plain_no_quote|].
  apply Forall_app. split; [|repeat constructor; by apply Hi].
  assert (Hm : forall l, Forall (fun s => plain s = true) l ->
    Forall (fun p => gostrings.contains_byte quote p = false) (more_scopes l)).
  { induction l as [|s l IH]; [by repeat constructor|]. intros [? ?]%list.Forall_cons.
    repeat constructor; [by apply plain_no_quote|auto]. }
  destruct (c_Scopes c) as [|s l]; [by repeat constructor|]. apply list.Forall_cons in Hl as [? ?].
  repeat constructor; [by apply plain_no_quote|auto].
Qed.

#[export] Instance codec_laws : ClaimsCodecLaws.
Proof.
  intros c Hc. simpl. unfold unmarshal, marshal.
  rewrite gostrings.Split_Join.
  - destruct Hc as (_ & _ & Hi & Hx). unfold pieces. cbn [app]. rewrite read_scopes_printed.
    rewrite !read_int_printed by done. by destruct c.
  - done.
  - intros p Hp. pose proof (pieces_no_quote c Hc) as Hq. rewrite list.Forall_forall in Hq. by apply Hq.
Qed.

End CompactJSON.

(** ** Concrete tokens *)
Import CompactJSON.
Definition at_second (t : Z) : oracle := fun _ => env_at (t * Second) "".
Definition demo_world : world := mkWorld MemRedis empty_db mem_empty ∅ [].
Definition demo_claims : Claims := mkClaims "ci" [ScopeJobsSubmit; "x"] 100 3700.
Definition demo_token : string := signToken "s3cret" demo_claims.

Example demo_json : bytes_of (Marshal demo_claims) = bytes_of (gostrings.Join
  ["{"; "sub"; ":"; "ci"; ","; "scopes"; ":["; "jobs:submit"; ","; "x"; "],"; "iat"; ":100,";
   "exp"; ":3700}"] quote).
Proof. vm_compute. reflexivity. Qed.

Lemma demo_representable : representable demo_claims.
Proof.
  split; [reflexivity|]. split; [by repeat constructor|]. split; vm_compute; split; congruence.
Qed.

Lemma issued_token_verifies_witness :
  exists token, run (IssueToken "s3cret" "ci" [ScopeJobsSubmit; "x"] (3600 * Second)) (at_second 100)
      demo_world = (Some token, demo_world) /\
    run (VerifyToken "s3cret" token) (at_second 3700) demo_world = (inr demo_claims, demo_world).
Proof.
  apply (issued_token_verifies "s3cret" "ci" [ScopeJobsSubmit; "x"] (3600 * Second)
           (at_second 100) demo_world (at_second 3700) demo_world).
  - discriminate.
  - exact demo_representable.
Defined.

Lemma accepted_token_is_signed_witness :
  exists p0 p1 p2 payload now,
    gostrings.Split demo_token dot = [p0; p1; p2] /\
    base64.DecodeString p2 = Some (sign "s3cret" (p0 +:+ String dot p1)) /\
    base64.DecodeString p1 = Some payload /\ Unmarshal payload = Some demo_claims /\
    [mkEvent TimeNow 0] = [mkEvent TimeNow now] /\ unix now <= c_ExpiresAt demo_claims /\
    (forall token' tr' claims' p0' p1',
       trace (VerifyToken "s3cret" token') tr' (inr claims') ->
       gostrings.Split token' dot = [p0'; p1'; p2] ->
       sign "s3cret" (p0' +:+ String dot p1') = sign "s3cret" (p0 +:+ String dot p1)).
Proof.
  apply (accepted_token_is_signed "s3cret" demo_token [mkEvent TimeNow 0] demo_claims).
  unfold VerifyToken, demo_token.
  rewrite (verify_signed "s3cret" demo_claims demo_representable).
  exists 0, []. split; [reflexivity|]. split; reflexivity.
Defined.

(** A changed payload or another secret is refused. *)
Example forgeries_refused :
  verify_signature "other" demo_token = None /\
  verify_signature "s3cret" (b64 headerJSON +:+ String dot (b64 (Marshal (mkClaims "ci" ["workers:drain"] 100 3700))
    +:+ String dot (b64 (sign "s3cret" (signing_input demo_claims))))) = None /\
  verify_signature "s3cret" "a.b" = None.
Proof. vm_compute. repeat split; reflexivity. Qed.
