(* ===== verification/GoText.v ===== *)
(** * More of Go's [strings] and [strconv]: CutPrefix, Cut, TrimSpace, Atoi

    Used by the bearer-token middleware, the configuration and the command
    line tool. *)
From Stdlib Require Import Ascii.
From S2P Require Import Prelude GoStrings Crypto.
Local Open Scope Z_scope.

(** strings.CutPrefix: the rest after the prefix, None when it is absent. *)
Fixpoint CutPrefix (s prefix : string) {struct prefix} : option string :=
  match prefix, s with
  | "", _ => Some s
  | String p prefix', String c s' => if Ascii.eqb p c then CutPrefix s' prefix' else None
  | String _ _, "" => None
  end.

(** strings.Cut around a one-byte separator; None when it does not occur. *)
Fixpoint Cut (s : string) (sep : ascii) : option (string * string) :=
  match s with
  | "" => None
  | String c s' =>
      if Ascii.eqb c sep then Some ("", s')
      else match Cut s' sep with
           | Some (before, after) => Some (String c before, after)
           | None => None
           end
  end.

(** strconv.Atoi on a 64-bit platform; None is an error. *)
Definition Atoi (s : string) : option Z :=
  match strconv.ParseInt s 64 with
  | (z, None) => Some z
  | _ => None
  end.

(** ** strings.TrimSpace: unicode.IsSpace on the UTF-8 encoding *)
Definition space1 (a : Z) : bool := (9 <=? a) && (a <=? 13) || (a =? 32).
(** U+0085, U+00A0 *)
Definition space2 (a b : Z) : bool := (a =? 0xC2) && ((b =? 0x85) || (b =? 0xA0)).
(** U+1680, U+2000-200A, U+2028, U+2029, U+202F, U+205F, U+3000 *)
Definition space3 (a b c : Z) : bool :=
  (a =? 0xE1) && (b =? 0x9A) && (c =? 0x80) ||
  (a =? 0xE2) && (b =? 0x80) && ((0x80 <=? c) && (c <=? 0x8A) || (c =? 0xA8) || (c =? 0xA9) || (c =? 0xAF)) ||
  (a =? 0xE2) && (b =? 0x81) && (c =? 0x9F) ||
  (a =? 0xE3) && (b =? 0x80) && (c =? 0x80).

Section trim.
Context (two : Z -> Z -> bool) (three : Z -> Z -> Z -> bool).

(** The number of bytes of the space a byte list starts with, 0 for none. *)
Definition leading_space (l : list Z) : nat :=
  match l with
  | a :: l1 =>
      if space1 a then 1
      else match l1 with
           | b :: l2 =>
               if two a b then 2
               else match l2 with
                    | c :: _ => if three a b c then 3 else 0
                    | [] => 0
                    end
           | [] => 0
           end
  | [] => 0
  end.

(** Drop spaces from the front, at most [fuel] of them. *)
Fixpoint trim (fuel : nat) (l : list Z) : list Z :=
  match fuel with
  | O => l
  | S n => match leading_space l with O => l | S k => trim n (drop (S k) l) end
  end.
End trim.

Definition trim_left (l : list Z) : list Z := trim space2 space3 (length l) l.
(** From the end, on the reversed list: the encodings are read backwards. *)
Definition trim_right (l : list Z) : list Z :=
  rev (trim (fun a b => space2 b a) (fun a b c => space3 c b a) (length l) (rev l)).

Definition TrimSpace (s : string) : string :=
  string_of (trim_right (trim_left (bytes_of s))).

Example trim_examples :
  TrimSpace "  a b  " = "a b" /\ TrimSpace "" = "" /\ TrimSpace "   " = "" /\
  TrimSpace (string_of [0xC2; 0xA0; 65; 0xE2; 0x80; 0x83; 10]) = "A".
Proof. vm_compute. repeat split; reflexivity. Qed.

Lemma CutPrefix_Some s p r : CutPrefix s p = Some r <-> s = p +:+ r.
Proof.
  revert s. induction p as [|x p IH]; intros s; [simpl; split; [by intros [= ->]|by intros ->]|].
  destruct s as [|c s]; [done|]. cbn [CutPrefix].
  change (String x p +:+ r) with (String x (p +:+ r)).
  destruct (Ascii.eqb_spec x c) as [->|Hne]; [|split; [done|]; by intros [= -> _]].
  rewrite IH. split; [by intros ->|by intros [= ->]].
Qed.

Lemma Cut_app k v sep :
  gostrings.contains_byte sep k = false -> Cut (k +:+ String sep v) sep = Some (k, v).
Proof.
  induction k as [|c k IH]; cbn [gostrings.contains_byte].
  - intros _. change ("" +:+ String sep v) with (String sep v). cbn [Cut]. by rewrite Ascii.eqb_refl.
  - intros [Hc Hk]%orb_false_iff. change (String c k +:+ String sep v) with (String c (k +:+ String sep v)).
    cbn [Cut]. rewrite (IH Hk). apply Ascii.eqb_neq in Hc.
    by rewrite (proj2 (Ascii.eqb_neq c sep)) by congruence.
Qed.

(** A string without space at either end. *)
Definition trimmed (s : string) : Prop := TrimSpace s = s.

(** ** What TrimSpace returns *)
Section trim_props.
Context (two : Z -> Z -> bool) (three : Z -> Z -> Z -> bool).
Abbreviation lead := (leading_space two three).

Lemma leading_space_length l : (lead l <= length l)%nat.
Proof. unfold leading_space. repeat case_match; simpl; lia. Qed.

(** The length is enough fuel: nothing is left to trim. *)
Lemma trim_done n l : (length l <= n)%nat -> lead (trim two three n l) = 0%nat.
Proof.
  revert l. induction n as [|n IH]; intros l Hl; simpl.
  - destruct l; [done|simpl in Hl; lia].
  - destruct (lead l) as [|k] eqn:E; [done|]. apply IH.
    pose proof (leading_space_length l). rewrite length_drop. lia.
Qed.

Lemma trim_none n l : lead l = 0%nat -> trim two three n l = l.
Proof. destruct n; simpl; [done|]. by intros ->. Qed.

Lemma trim_suffix n l : exists k, trim two three n l = drop k l.
Proof.
  revert l. induction n as [|n IH]; intros l; simpl; [by exists 0%nat|].
  destruct (lead l) as [|k]; [by exists 0%nat|]. destruct (IH (drop (S k) l)) as [m ->].
  rewrite drop_drop. eauto.
Qed.

(** Cutting the end off does not make a space at the front. *)
Lemma leading_space_take k l : lead l = 0%nat -> lead (take k l) = 0%nat.
Proof.
  destruct l as [|a [|b [|c l]]], k as [|[|[|k]]]; simpl; try done; repeat case_match; done.
Qed.
End trim_props.

Lemma trim_right_take l : exists k, trim_right l = take k l.
Proof.
  unfold trim_right. destruct (trim_suffix (fun a b => space2 b a) (fun a b c => space3 c b a)
    (length l) (rev l)) as [k ->].
  exists (length l - k)%nat. by rewrite skipn_rev, rev_involutive.
Qed.

Lemma Forall_take_drop (P : Z -> Prop) k m l : Forall P l -> Forall P (take k (drop m l)).
Proof. intros. by apply Forall_take, Forall_drop. Qed.

Lemma bytes_of_string_of l : Forall base64.is_byte l -> bytes_of (string_of l) = l.
Proof.
  induction l as [|z l IH]; [done|]. intros [Hz Hl]%list.Forall_cons. cbn [string_of bytes_of].
  by rewrite byte_val_of, IH.
Qed.

(** The bytes of a trimmed string: part of the original, no space in front,
    none at the end. *)
Lemma TrimSpace_bytes s :
  bytes_of (TrimSpace s) = trim_right (trim_left (bytes_of s)).
Proof.
  unfold TrimSpace. destruct (trim_right_take (trim_left (bytes_of s))) as [k ->].
  unfold trim_left. destruct (trim_suffix space2 space3 (length (bytes_of s)) (bytes_of s)) as [m ->].
  apply bytes_of_string_of, Forall_take_drop, base64.bytes_of_range.
Qed.

Lemma TrimSpace_trimmed s : trimmed (TrimSpace s).
Proof.
  unfold trimmed. rewrite <- (base64.string_of_bytes (TrimSpace (TrimSpace s))).
  rewrite <- (base64.string_of_bytes (TrimSpace s)) at 2. f_equal.
  rewrite (TrimSpace_bytes (TrimSpace s)), (TrimSpace_bytes s).
  set (l := trim_left (bytes_of s)).
  assert (Hl : leading_space space2 space3 l = 0%nat) by (by apply trim_done).
  assert (Hr : trim_left (trim_right l) = trim_right l).
  { unfold trim_left. apply trim_none. destruct (trim_right_take l) as [k ->].
    by apply leading_space_take. }
  rewrite Hr. unfold trim_right at 1. rewrite trim_none; [by rewrite rev_involutive|].
  unfold trim_right. rewrite rev_involutive. apply trim_done. by rewrite length_rev.
Qed.
