(* ===== verification/Router.v ===== *)
(** * internal/api/router.go and middleware_auth.go: routes and authorization

    A request is its method, path, Authorization header, query and decoded
    body.  [route] is NewRouter's table; [serve] runs the handler, behind
    RequireScope for the write endpoints when a JWT secret is configured.  A chi
    parameter matches up to the next slash and, at the end of a path, is not
    empty.  What chi answers to an unknown path or method, and the text of
    /metrics, are outside the model. *)
From Stdlib Require Import Ascii.
From S2P Require Import Prelude GoStrings Database WorkerStore JobStore Redis Effects Stores.
From S2P Require Import GrpcServer Api Crypto Auth AuthProps GoText.
Local Open Scope Z_scope.

Definition StatusUnauthorized : Z := 401.
Definition StatusForbidden : Z := 403.
Definition StatusServiceUnavailable : Z := 503.

Record http_request := mkHttpRequest {
  hq_Method : string;
  hq_Path : string;
  hq_Authorization : string;                  (** "" when absent *)
  hq_Query : string -> string;                (** r.URL.Query().Get *)
  hq_Body : option submitJobRequest }.

Inductive endpoint :=
  | EListWorkers | EDrainWorker (workerId : string) | EResumeWorker (workerId : string)
  | ESubmitJob | EListJobs | EGetJob (jobId : string)
  | EMetrics | EHealthz | EReadyz.

Definition route (method path : string) : option endpoint :=
  match method, gostrings.Split path "/"%char with
  | "GET", [""; "v1"; "workers"] => Some EListWorkers
  | "POST", [""; "v1"; "workers"; w; "drain"] => Some (EDrainWorker w)
  | "POST", [""; "v1"; "workers"; w; "resume"] => Some (EResumeWorker w)
  | "POST", [""; "v1"; "jobs"] => Some ESubmitJob
  | "GET", [""; "v1"; "jobs"] => Some EListJobs
  | "GET", [""; "v1"; "jobs"; j] => if decide (j = "") then None else Some (EGetJob j)
  | "GET", [""; "metrics"] => Some EMetrics
  | "GET", [""; "healthz"] => Some EHealthz
  | "GET", [""; "readyz"] => Some EReadyz
  | _, _ => None
  end.

(** The scope an endpoint is registered with. *)
Definition required_scope (ep : endpoint) : option string :=
  match ep with
  | EDrainWorker _ | EResumeWorker _ => Some ScopeWorkersDrain
  | ESubmitJob => Some ScopeJobsSubmit
  | _ => None
  end.

Inductive reply :=
  | RApi (r : response)
  | RHealthy                                         (** 200, no body *)
  | RReady (status : Z) (postgres redis is_leader : bool)
  | RMetrics
  | RUnrouted.

(** The endpoints that change state, and the scope the documentation asks for
    each. *)
Definition is_write_endpoint (ep : endpoint) : bool :=
  match ep with EDrainWorker _ | EResumeWorker _ | ESubmitJob => true | _ => false end.
Definition documented_scope (ep : endpoint) : string :=
  match ep with ESubmitJob => "jobs:submit" | _ => "workers:drain" end.

Section router.
Context (format_time : Z -> string).
Context `{Backend} `{ClaimsCodec}.

(** isReady's answer: Postgres reachable, Redis reachable, leader. *)
Context (ready : bool * bool * bool).

Definition readyz : reply :=
  let '(pgOK, redisOK, leader) := ready in
  RReady (if pgOK then StatusOK else StatusServiceUnavailable) pgOK redisOK leader.

Definition respond (p : prog response) : prog reply := let! r := p in Ret (RApi r).

Definition handler (ep : endpoint) (req : http_request) : prog reply :=
  match ep with
  | EListWorkers => respond (ListWorkers format_time (hq_Query req "status"))
  | EDrainWorker w => respond (DrainWorker w)
  | EResumeWorker w => respond (ResumeWorker w)
  | ESubmitJob => respond (SubmitJob format_time (hq_Body req))
  | EListJobs => respond (ListJobs format_time (hq_Query req "status") (hq_Query req "repository")
                            (hq_Query req "worker_id"))
  | EGetJob j => respond (GetJob format_time j)
  | EMetrics => Ret RMetrics
  | EHealthz => Ret RHealthy
  | EReadyz => Ret readyz
  end.

Definition RequireScope (secret scope : string) (req : http_request) (next : prog reply)
    : prog reply :=
  let unauthorized m := Ret (RApi (writeError StatusUnauthorized "unauthorized" m)) in
  match CutPrefix (hq_Authorization req) "Bearer " with
  | None | Some "" => unauthorized "missing bearer token"
  | Some token =>
      let! r := VerifyToken secret token in
      match r with
      | inl _ => unauthorized "invalid or expired token"
      | inr claims =>
          if HasScope claims scope then next
          else Ret (RApi (writeError StatusForbidden "forbidden"
                            ("token missing required scope: " +:+ scope)))
      end
  end.

Definition serve_endpoint (jwtSecret : string) (ep : endpoint) (req : http_request) : prog reply :=
  match required_scope ep with
  | Some scope =>
      if decide (jwtSecret = "") then handler ep req
      else RequireScope jwtSecret scope req (handler ep req)
  | None => handler ep req
  end.

Definition serve (jwtSecret : string) (req : http_request) : prog reply :=
  match route (hq_Method req) (hq_Path req) with
  | None => Ret RUnrouted
  | Some ep => serve_endpoint jwtSecret ep req
  end.

(** ** Authorization *)

(** Reading the clock is the only call that is not to a store. *)
Definition store_call (ev : event) : bool :=
  match ev_call ev with Pg _ | Rd _ => true | _ => false end.

(** The request carries a token that verifies, at time [now], to claims with
    the scope. *)
Definition authorized (secret scope : string) (req : http_request) (now : Z) : Prop :=
  exists token claims, hq_Authorization req = "Bearer " +:+ token /\ token <> "" /\
    verify_signature secret token = Some claims /\ unix now <= c_ExpiresAt claims /\
    scope ∈ c_Scopes claims.

Definition refused (r : reply) : Prop :=
  exists code m, r = RApi (writeError code (if decide (code = StatusForbidden) then "forbidden" else "unauthorized") m) /\
    (code = StatusUnauthorized \/ code = StatusForbidden).

(** What the middleware does: refuse without touching a store, or run the
    handler for an authorized request. *)
Lemma RequireScope_cases secret scope req next tr r :
  trace (RequireScope secret scope req next) tr r ->
  (refused r /\ existsb store_call tr = false) \/
  (exists now tr', authorized secret scope req now /\ tr = mkEvent TimeNow now :: tr' /\
     trace next tr' r).
Proof.
  unfold RequireScope. intros Ht.
  assert (Hu : forall m, refused (RApi (writeError StatusUnauthorized "unauthorized" m))).
  { intros m. exists StatusUnauthorized, m. auto. }
  destruct (CutPrefix (hq_Authorization req) "Bearer ") as [[|c token]|] eqn:Ec.
  - destruct Ht as [-> ->]. left. auto.
  - apply CutPrefix_Some in Ec.
    apply trace_bind in Ht as (tr1 & tr2 & v & -> & Hv & Ht). unfold VerifyToken in Hv.
    destruct (verify_signature secret (String c token)) as [claims|] eqn:Ev.
    + destruct Hv as (now & tr' & -> & -> & ->).
      destruct (Z.ltb_spec (c_ExpiresAt claims) (unix now)) as [Hlt|Hge].
      * destruct Ht as [-> ->]. left. auto.
      * destruct (HasScope claims scope) eqn:Es.
        -- right. exists now, tr2. split; [|by split]. exists (String c token), claims.
           split_and!; [done|done|done|done|]. by apply has_scope_spec.
        -- destruct Ht as [-> ->]. left. split; [|done]. exists StatusForbidden. eauto.
    + destruct Hv as [-> ->]. destruct Ht as [-> ->]. left. auto.
  - destruct Ht as [-> ->]. left. auto.
Qed.

(** C29: write endpoints need the scope.  With a JWT secret configured, and for
    all replies of the stores, a request to submit a job or to drain or resume a
    worker either is refused with 401 or 403 without any call to Postgres or
    Redis, or carries a bearer token whose signature verifies under the secret,
    that has not expired at the time read, and that lists exactly the scope for
    that endpoint (jobs:submit to submit, workers:drain to drain and resume);
    then the rest is the handler's own behaviour. *)
Theorem writes_need_scope (secret : string) (req : http_request) (ep : endpoint) tr r :
  secret <> "" -> route (hq_Method req) (hq_Path req) = Some ep -> is_write_endpoint ep = true ->
  trace (serve secret req) tr r ->
  (refused r /\ existsb store_call tr = false) \/
  (exists now tr', authorized secret (documented_scope ep) req now /\
     tr = mkEvent TimeNow now :: tr' /\ trace (handler ep req) tr' r).
Proof.
  intros Hs Hr Hw. unfold serve, serve_endpoint. rewrite Hr.
  assert (Hsc : required_scope ep = Some (documented_scope ep)) by (by destruct ep).
  rewrite Hsc, decide_False by done. apply RequireScope_cases.
Qed.

(** what stays open.  A GET endpoint is served the same whatever the secret
    and the Authorization header; with no secret so is every endpoint; only the
    three POST endpoints carry a scope; and /readyz answers 503 exactly when
    Postgres is unreachable, whatever Redis and leadership say, reporting all
    three. *)
Theorem open_endpoints (secret : string) (req : http_request) (ep : endpoint) :
  (required_scope ep = None <-> is_write_endpoint ep = false) /\
  (route (hq_Method req) (hq_Path req) = Some ep ->
   (hq_Method req = "GET" \/ secret = "" -> serve secret req = handler ep req) /\
   (is_write_endpoint ep = true -> hq_Method req = "POST")) /\
  (handler EReadyz req =
   let '(pgOK, redisOK, leader) := ready in
   Ret (RReady (if pgOK then 200 else 503) pgOK redisOK leader)).
Proof.
  split; [by destruct ep|]. split; [|unfold handler, readyz; by destruct ready as [[[] ?] ?]].
  intros Hr. assert (Hm : required_scope ep <> None -> hq_Method req = "POST").
  { unfold route in Hr. intros Hsc. repeat case_match; simplify_eq; done. }
  split.
  - intros Hor. unfold serve. rewrite Hr. unfold serve_endpoint.
    destruct (required_scope ep) as [scope|]; [|done]. case_decide as Hd; [done|].
    destruct Hor as [Hg|?]; [|done]. specialize (Hm ltac:(done)). congruence.
  - intros Hw. apply Hm. by destruct ep.
Qed.
End router.

(** ** A concrete request: POST /v1/jobs with a token for jobs:submit *)
Import CompactJSON.

Definition demo_request : http_request :=
  mkHttpRequest "POST" "/v1/jobs" ("Bearer " +:+ demo_token) (fun _ => "") None.

Example demo_routes :
  route "POST" "/v1/jobs" = Some ESubmitJob /\ route "GET" "/v1/jobs/j-1" = Some (EGetJob "j-1") /\
  route "POST" "/v1/workers/w-a/drain" = Some (EDrainWorker "w-a") /\ route "GET" "/v1/jobs/a/b" = None /\
  route "PUT" "/v1/jobs" = None.
Proof. vm_compute. repeat split; reflexivity. Qed.

Definition bad_body : reply :=
  RApi (writeError StatusBadRequest "invalid_request" "malformed JSON body").

Lemma demo_served :
  trace (serve strconv.Itoa (true, true, true) "s3cret" demo_request) [mkEvent TimeNow 0] bad_body.
Proof.
  assert (Hr : route (hq_Method demo_request) (hq_Path demo_request) = Some ESubmitJob) by reflexivity.
  unfold serve. rewrite Hr.
  unfold serve_endpoint, RequireScope. cbn [required_scope]. rewrite decide_False by done.
  rewrite (proj2 (CutPrefix_Some (hq_Authorization demo_request) "Bearer " demo_token) eq_refl).
  assert (Hc : exists c t, demo_token = String c t) by (eexists _, _; reflexivity).
  destruct Hc as (c & t & E). rewrite E. rewrite <- E.
  unfold VerifyToken. unfold demo_token at 1.
  rewrite (verify_signed "s3cret" demo_claims demo_representable). cbn [bind trigger].
  exists 0, []. split; [reflexivity|].
  replace (HasScope demo_claims ScopeJobsSubmit) with true by reflexivity.
  split; reflexivity.
Qed.

Lemma writes_need_scope_witness :
  (refused bad_body /\ existsb store_call [mkEvent TimeNow 0] = false) \/
  (exists now tr', authorized "s3cret" ScopeJobsSubmit demo_request now /\
     [mkEvent TimeNow 0] = mkEvent TimeNow now :: tr' /\
     trace (handler strconv.Itoa (true, true, true) ESubmitJob demo_request) tr' bad_body).
Proof.
  apply (writes_need_scope strconv.Itoa (true, true, true) "s3cret" demo_request
           ESubmitJob [mkEvent TimeNow 0] bad_body).
  - discriminate.
  - reflexivity.
  - reflexivity.
  - exact demo_served.
Defined.

Lemma open_endpoints_witness :
  serve strconv.Itoa (true, false, false) "s3cret" (mkHttpRequest "GET" "/readyz" "" (fun _ => "") None) =
  handler strconv.Itoa (true, false, false) EReadyz (mkHttpRequest "GET" "/readyz" "" (fun _ => "") None).
Proof.
  apply (proj1 (proj1 (proj2 (open_endpoints strconv.Itoa (true, false, false) "s3cret"
    (mkHttpRequest "GET" "/readyz" "" (fun _ => "") None) EReadyz)) eq_refl)).
  left. reflexivity.
Defined.
