(* ===== verification/Config.v ===== *)
(** * internal/config and the configuration-dependent parts of the mains

    The environment is a function from names to values ("" when unset), as
    os.Getenv presents it.  A loader returns an error or the configuration.
    strconv.ParseFloat is a parameter: the loaded failure rate is passed on
    unread. *)
From Stdlib Require Import Ascii SpecFloat.
From S2P Require Import Prelude GoStrings Database WorkerStore Redis Effects Stores GrpcServer.
From S2P Require Import Crypto GoText Executor Agent.
Local Open Scope Z_scope.

Inductive config_error :=
  | Required (key : string)
  | InvalidInteger (key : string)
  | NotPositive (key : string)
  | InvalidFloat (key : string).

Definition environ : Type := string -> string.

Definition getEnvDefault (env : environ) (key def : string) : string :=
  if decide (env key = "") then def else env key.

Definition getEnvIntDefault (env : environ) (key : string) (def : Z) : config_error + Z :=
  if decide (env key = "") then inr def
  else match Atoi (env key) with
       | Some n => inr n
       | None => inl (InvalidInteger key)
       end.

Definition equals : ascii := "="%char.

(** out[k] = v for every pair of the loop, in order. *)
Definition parse_pair (out : gmap string string) (pair : string) : gmap string string :=
  match Cut pair equals with
  | None => out
  | Some (k, v) => if decide (k = "") then out else <[TrimSpace k := TrimSpace v]> out
  end.

Definition parseLabels (raw : string) : option (gmap string string) :=
  if decide (raw = "") then None
  else Some (foldl parse_pair ∅ (gostrings.Split raw gostrings.comma)).

Definition nonempty_trimmed (parts : list string) : list string :=
  filter (fun p => p <> "") (map TrimSpace parts).

Definition parseList (raw : string) : option (list string) :=
  if decide (raw = "") then None
  else Some (nonempty_trimmed (gostrings.Split raw gostrings.comma)).

(** ** SchedulerConfig *)
Record SchedulerConfig := mkSchedulerConfig {
  sc_DatabaseURL : string; sc_RedisAddr : string; sc_GRPCAddr : string; sc_HTTPAddr : string;
  sc_HeartbeatIntervalSeconds : Z; sc_HeartbeatTimeoutSeconds : Z; sc_JWTSecret : string;
  sc_TLSCertFile : string; sc_TLSKeyFile : string; sc_TLSCAFile : string }.

Definition LoadSchedulerConfig (env : environ) : config_error + SchedulerConfig :=
  if decide (env "FLEETFORGE_DATABASE_URL" = "") then inl (Required "FLEETFORGE_DATABASE_URL")
  else match getEnvIntDefault env "FLEETFORGE_HEARTBEAT_INTERVAL_SECONDS" 5 with
  | inl e => inl e
  | inr interval =>
      match getEnvIntDefault env "FLEETFORGE_HEARTBEAT_TIMEOUT_SECONDS" 20 with
      | inl e => inl e
      | inr timeout =>
          inr (mkSchedulerConfig (env "FLEETFORGE_DATABASE_URL")
                 (getEnvDefault env "FLEETFORGE_REDIS_ADDR" "localhost:6379")
                 (getEnvDefault env "FLEETFORGE_GRPC_ADDR" ":9090")
                 (getEnvDefault env "FLEETFORGE_HTTP_ADDR" ":8080")
                 interval timeout (env "FLEETFORGE_JWT_SECRET")
                 (env "FLEETFORGE_TLS_CERT_FILE") (env "FLEETFORGE_TLS_KEY_FILE")
                 (env "FLEETFORGE_TLS_CA_FILE"))
      end
  end.

(** ** WorkerAgentConfig *)
Record WorkerAgentConfig := mkWorkerAgentConfig {
  wc_SchedulerGRPCAddr : string; wc_InstanceID : string; wc_Hostname : string; wc_OS : string;
  wc_CPUCores : Z; wc_MemoryMB : Z; wc_Version : string; wc_CapacitySlots : Z;
  wc_Labels : option (gmap string string); wc_Capabilities : option (list string);
  wc_SimulatedFailureRate : spec_float;
  wc_TLSCertFile : string; wc_TLSKeyFile : string; wc_TLSCAFile : string }.

(** The float64 nearest to 0.15. *)
Definition default_failure_rate : spec_float := S754_finite false 5404319552844595 (-55).

Example default_failure_rate_is_015 :
  default_failure_rate = SFdiv 53 1024 (binary_normalize 53 1024 15 0 false)
                           (binary_normalize 53 1024 100 0 false).
Proof. vm_compute. reflexivity. Qed.

Section agent_config.
Context (ParseFloat : string -> option spec_float).

(** The failure rate: the default, or the variable's value. *)
Definition failure_rate (env : environ) : config_error + spec_float :=
  let raw := env "FLEETFORGE_SIMULATED_FAILURE_RATE" in
  if decide (raw = "") then inr default_failure_rate
  else match ParseFloat raw with
       | Some rate => inr rate
       | None => inl (InvalidFloat "FLEETFORGE_SIMULATED_FAILURE_RATE")
       end.

Definition positive_int (env : environ) (key : string) : config_error + Z :=
  match getEnvIntDefault env key 0 with
  | inl e => inl e
  | inr n => if n <=? 0 then inl (NotPositive key) else inr n
  end.

(** [hostname]: os.Hostname(), None on error. *)
Definition LoadWorkerAgentConfig (env : environ) (hostname : option string)
    : config_error + WorkerAgentConfig :=
  if decide (env "FLEETFORGE_INSTANCE_ID" = "") then inl (Required "FLEETFORGE_INSTANCE_ID")
  else match positive_int env "FLEETFORGE_CPU_CORES" with
  | inl e => inl e
  | inr cpu =>
  match positive_int env "FLEETFORGE_MEMORY_MB" with
  | inl e => inl e
  | inr mem =>
  match getEnvIntDefault env "FLEETFORGE_CAPACITY_SLOTS" 1 with
  | inl e => inl e
  | inr slots =>
  match failure_rate env with
  | inl e => inl e
  | inr rate =>
      inr (mkWorkerAgentConfig
             (getEnvDefault env "FLEETFORGE_SCHEDULER_ADDR" "localhost:9090")
             (env "FLEETFORGE_INSTANCE_ID")
             (getEnvDefault env "FLEETFORGE_HOSTNAME" (default "unknown-host" hostname))
             (getEnvDefault env "FLEETFORGE_OS" "linux/amd64")
             cpu mem (getEnvDefault env "FLEETFORGE_AGENT_VERSION" "0.1.0") slots
             (parseLabels (env "FLEETFORGE_LABELS")) (parseList (env "FLEETFORGE_CAPABILITIES"))
             rate (env "FLEETFORGE_TLS_CERT_FILE") (env "FLEETFORGE_TLS_KEY_FILE")
             (env "FLEETFORGE_TLS_CA_FILE"))
  end end end end.
End agent_config.

(** ** Uses in the mains *)

(** cmd/worker-agent main: the registration sent for a configuration. *)
Definition register_request (cfg : WorkerAgentConfig) : RegisterWorkerRequest :=
  mkRegisterWorkerRequest (wc_Hostname cfg) (wc_InstanceID cfg) (wc_OS cfg)
    (int32 (wc_CPUCores cfg)) (int32 (wc_MemoryMB cfg)) (wc_Labels cfg) (wc_Capabilities cfg)
    (wc_Version cfg) (int32 (wc_CapacitySlots cfg)).

(** cmd/scheduler main: the settings of the gRPC server. *)
Definition grpc_server (cfg : SchedulerConfig) : Server :=
  mkServer (int32 (sc_HeartbeatIntervalSeconds cfg)) (int32 (sc_HeartbeatTimeoutSeconds cfg)).
