(* ===== verification/ConfigProps.v ===== *)
(** * What the configuration guarantees

    Lists and labels survive their textual form; an accepted agent
    configuration makes a registration the scheduler accepts, with the same
    number of slots on both sides. *)
From Stdlib Require Import Ascii SpecFloat.
From S2P Require Import Prelude GoStrings Database WorkerStore Redis Effects Stores GrpcServer.
From S2P Require Import Crypto GoText Executor Agent Config.
Local Open Scope Z_scope.

(** ** Lists and labels *)
Lemma nonempty_trimmed_id l :
  (forall s, s ∈ l -> trimmed s /\ s <> "") -> nonempty_trimmed l = l.
Proof.
  unfold nonempty_trimmed. induction l as [|s l IH]; intros Hl; simpl; [done|].
  destruct (Hl s) as [Ht Hn]; [left|]. rewrite Ht, filter_cons_True by done. f_equal.
  apply IH. intros x Hx. apply Hl. by right.
Qed.

(** The text of one label. *)
Definition print_label (kv : string * string) : string := kv.1 +:+ String equals kv.2.
Definition label_ok (kv : string * string) : Prop :=
  kv.1 <> "" /\ trimmed kv.1 /\ trimmed kv.2 /\
  gostrings.contains_byte equals kv.1 = false /\
  gostrings.contains_byte gostrings.comma kv.1 = false /\
  gostrings.contains_byte gostrings.comma kv.2 = false.

Lemma contains_byte_app c s t :
  gostrings.contains_byte c (s +:+ t) = gostrings.contains_byte c s || gostrings.contains_byte c t.
Proof.
  induction s as [|x s IH]; [done|].
  change (Ascii.eqb c x || gostrings.contains_byte c (s +:+ t) =
    (Ascii.eqb c x || gostrings.contains_byte c s) || gostrings.contains_byte c t).
  by rewrite IH, orb_assoc.
Qed.

Lemma print_label_no_comma kv :
  label_ok kv -> gostrings.contains_byte gostrings.comma (print_label kv) = false.
Proof.
  intros (_ & _ & _ & _ & Hk & Hv). unfold print_label. rewrite contains_byte_app, Hk. simpl. exact Hv.
Qed.

Lemma parse_printed_label out kv : label_ok kv -> parse_pair out (print_label kv) = <[kv.1 := kv.2]> out.
Proof.
  intros (Hn & Hk & Hv & He & _). unfold parse_pair, print_label. rewrite Cut_app by done.
  rewrite decide_False by done. by rewrite Hk, Hv.
Qed.

Lemma parse_printed_labels kvs out :
  (forall kv, kv ∈ kvs -> label_ok kv) ->
  foldl parse_pair out (map print_label kvs) = foldl (fun m kv => <[kv.1 := kv.2]> m) out kvs.
Proof.
  revert out. induction kvs as [|kv kvs IH]; intros out Hl; simpl; [done|].
  rewrite parse_printed_label by (apply Hl; left). apply IH. intros x Hx. apply Hl. by right.
Qed.

Lemma Join_not_empty l sep : l <> [] -> (forall s, s ∈ l -> s <> "") -> gostrings.Join l sep <> "".
Proof.
  intros Hl Hn E%gostrings.Join_nonempty. destruct E as [->| ->]; [done|]. by apply (Hn ""); [left|].
Qed.

(** Lists and labels survive the environment.  A comma-joined list of
    non-empty, trimmed, comma-free items is read back as that list; printed
    key=value pairs with trimmed parts, non-empty keys and no separators inside
    are read back as the map of those pairs, later ones winning; and whatever
    the text, every item parseList returns is non-empty and has no space at
    either end. *)
Theorem list_and_labels_roundtrip (l : list string) (kvs : list (string * string)) (raw : string) :
  (l <> [] -> (forall s, s ∈ l -> trimmed s /\ s <> "" /\ gostrings.contains_byte gostrings.comma s = false) ->
   parseList (gostrings.Join l gostrings.comma) = Some l) /\
  (kvs <> [] -> (forall kv, kv ∈ kvs -> label_ok kv) ->
   parseLabels (gostrings.Join (map print_label kvs) gostrings.comma) =
   Some (foldl (fun m kv => <[kv.1 := kv.2]> m) ∅ kvs)) /\
  (forall items, parseList raw = Some items -> Forall (fun s => s <> "" /\ trimmed s) items).
Proof.
  split_and!.
  - intros Hne Hl. unfold parseList.
    rewrite decide_False by (apply Join_not_empty; [done|]; intros s Hs; apply (Hl s Hs)).
    rewrite gostrings.Split_Join; [|done|intros s Hs; apply (Hl s Hs)]. f_equal.
    apply nonempty_trimmed_id. intros s Hs. destruct (Hl s Hs) as (? & ? & _). done.
  - intros Hne Hl. unfold parseLabels.
    assert (Hp : forall s, s ∈ map print_label kvs ->
      s <> "" /\ gostrings.contains_byte gostrings.comma s = false).
    { intros s (kv & -> & Hkv)%list_elem_of_fmap. split; [|by apply print_label_no_comma, Hl].
      destruct (Hl _ Hkv) as [Hk _]. unfold print_label. destruct kv as [[|c k] v]; done. }
    rewrite decide_False.
    2: { apply Join_not_empty; [by destruct kvs|]. intros s Hs. apply (Hp s Hs). }
    rewrite gostrings.Split_Join; [|by destruct kvs|intros s Hs; apply (Hp s Hs)].
    f_equal. by apply parse_printed_labels.
  - intros items E. unfold parseList in E. case_decide; simplify_eq. unfold nonempty_trimmed.
    apply list.Forall_forall. intros s [Hs (x & -> & _)%list_elem_of_fmap]%list_elem_of_filter.
    split; [done|apply TrimSpace_trimmed].
Qed.

Lemma list_and_labels_roundtrip_witness :
  parseList "docker,go" = Some ["docker"; "go"] /\
  parseLabels "region=us-east-1,arch=amd64" =
    Some (<["arch" := "amd64"]> (<["region" := "us-east-1"]> ∅)).
Proof.
  destruct (list_and_labels_roundtrip ["docker"; "go"] [("region", "us-east-1"); ("arch", "amd64")] "")
    as (Hl & Hk & _).
  split.
  - apply Hl; [discriminate|]. intros s Hs.
    repeat (apply elem_of_cons in Hs as [->|Hs]; [split; [vm_compute; reflexivity|split; [discriminate|reflexivity]]|]).
    by apply not_elem_of_nil in Hs.
  - apply Hk; [discriminate|]. intros kv Hkv.
    repeat (apply elem_of_cons in Hkv as [->|Hkv];
      [split; [discriminate|]; repeat split; vm_compute; reflexivity|]).
    by apply not_elem_of_nil in Hkv.
Defined.

(** A blank key is not skipped: the test for an empty key precedes the trim. *)
Example blank_label_key : parseLabels " =x" = Some {["" := "x"]}.
Proof. vm_compute. reflexivity. Qed.

(** ** The agent's configuration *)
Section agent_config.
Context (ParseFloat : string -> option spec_float).

Lemma positive_int_inr env key n : positive_int env key = inr n -> 0 < n /\ env key <> "" /\ Atoi (env key) = Some n.
Proof.
  unfold positive_int, getEnvIntDefault. intros E.
  case_decide; [done|]. destruct (Atoi (env key)) as [m|]; [|done].
  destruct (Z.leb_spec m 0); simplify_eq. done.
Qed.

Lemma getEnvDefault_nonempty env key def : def <> "" -> getEnvDefault env key def <> "".
Proof. intros. unfold getEnvDefault. by case_decide. Qed.

Lemma clamp_slots_server n : clamp_slots n = capacity_slots_default (int32 n).
Proof. reflexivity. Qed.

(** An accepted agent configuration can register.  When the loader accepts
    the environment (and the machine has a host name or none can be read), the
    registration main sends passes the scheduler's validation whenever the core
    and memory counts fit in an int32; it carries the configured instance id;
    and the slots the agent counts locally are the slots the scheduler
    records. *)
Theorem configured_agent_can_register (env : environ) hostname cfg :
  LoadWorkerAgentConfig ParseFloat env hostname = inr cfg -> hostname <> Some "" ->
  wc_CPUCores cfg <= max_int32 -> wc_MemoryMB cfg <= max_int32 ->
  let req := register_request cfg in
  validateRegisterRequest req = None /\
  rq_instance_id req = env "FLEETFORGE_INSTANCE_ID" /\
  clamp_slots (wc_CapacitySlots cfg) = capacity_slots_default (rq_capacity_slots req).
Proof.
  intros E Hh Hc Hm req. unfold LoadWorkerAgentConfig in E.
  case_decide as Hi; [done|].
  destruct (positive_int env "FLEETFORGE_CPU_CORES") as [|cpu] eqn:Ec; [done|].
  destruct (positive_int env "FLEETFORGE_MEMORY_MB") as [|mem] eqn:Em; [done|].
  destruct (getEnvIntDefault env "FLEETFORGE_CAPACITY_SLOTS" 1) as [|slots]; [done|].
  destruct (failure_rate ParseFloat env) as [|rate]; [done|]. simplify_eq/=.
  apply positive_int_inr in Ec as [Hcpu _]. apply positive_int_inr in Em as [Hmem _].
  split; [|split; [done|apply clamp_slots_server]].
  unfold validateRegisterRequest, req, register_request. cbn.
  rewrite !int32_id by (unfold max_int32 in *; lia).
  rewrite !decide_False; try (apply getEnvDefault_nonempty); try done.
  - rewrite !(proj2 (Z.leb_gt _ _)) by lia. done.
  - destruct hostname as [h|]; simpl; [congruence|done].
Qed.
End agent_config.

(** ** Witness *)
Definition demo_env : environ := fun k =>
  if decide (k = "FLEETFORGE_INSTANCE_ID") then "instance-a"
  else if decide (k = "FLEETFORGE_CPU_CORES") then "4"
  else if decide (k = "FLEETFORGE_MEMORY_MB") then "8192"
  else if decide (k = "FLEETFORGE_CAPACITY_SLOTS") then "2"
  else "".
Definition demo_config : WorkerAgentConfig :=
  mkWorkerAgentConfig "localhost:9090" "instance-a" "host-a" "linux/amd64" 4 8192 "0.1.0" 2
    None None default_failure_rate "" "" "".

Lemma configured_agent_can_register_witness :
  validateRegisterRequest (register_request demo_config) = None /\
  rq_instance_id (register_request demo_config) = "instance-a" /\
  clamp_slots (wc_CapacitySlots demo_config) = 2.
Proof.
  apply (configured_agent_can_register (fun _ => None) demo_env (Some "host-a") demo_config).
  - vm_compute. reflexivity.
  - discriminate.
  - vm_compute. discriminate.
  - vm_compute. discriminate.
Defined.

(** Beyond int32 the truncation shows: 2^32 cores pass the loader's check and
    are sent as 0, which the scheduler rejects. *)
Example cores_truncated :
  let env k := if decide (k = "FLEETFORGE_CPU_CORES") then "4294967296" else demo_env k in
  match LoadWorkerAgentConfig (fun _ => None) env (Some "h") with
  | inr cfg => validateRegisterRequest (register_request cfg) = Some "cpu_cores must be a positive integer"
  | inl _ => False
  end.
Proof. vm_compute. reflexivity. Qed.
