(* ===== verification/MetricsProps.v ===== *)
(** * The gauges show the database

    After a refresh every priority and every status shows its exact count,
    zero included; a failed query leaves its own gauges as they were and does
    not keep the other ones from being refreshed. *)
From S2P Require Import Prelude GoStrings Database WorkerStore JobStore Redis Effects Stores.
From S2P Require Import Loop Reaper RetryPoller GrpcServer Autoscaler Api System Scenario.
From S2P Require Import SchedulerProps Metrics.
Local Open Scope Z_scope.
#[local] Arguments run : simpl never.

Section grouped.
Context {K L : Type} `{Countable L} (h : K -> L) `{!Inj (=) (=) h} (f : K -> Z).

(** A GROUP BY result: one entry per key with a positive count. *)
Definition group_map (ks : list K) : gmap L Z :=
  list_to_map (map (fun kc => (h kc.1, kc.2)) (filter (fun kc => 0 < kc.2) (map (fun k => (k, f k)) ks))).

(** Reading it with 0 for a missing key gives the count back. *)
Lemma group_map_default ks k : k ∈ ks -> 0 <= f k -> default 0 (group_map ks !! h k) = f k.
Proof.
  intros Hk Hf. unfold group_map.
  assert (Hin : forall k' v ks, list_to_map (M := gmap L Z) (map (fun kc => (h kc.1, kc.2))
      (filter (fun kc : K * Z => 0 < kc.2) (map (fun k => (k, f k)) ks))) !! h k' = Some v ->
      v = f k').
  { clear Hk Hf k ks. intros k' v ks E. apply elem_of_list_to_map_2 in E.
    apply list_elem_of_fmap in E as ((k2 & v2) & E & Hin). simpl in E. injection E as E ->.
    apply (inj h) in E as ->. apply list_elem_of_filter in Hin as [_ Hin].
    apply list_elem_of_fmap in Hin as (k3 & E3 & _). by simplify_eq. }
  destruct (_ !! h k) as [v|] eqn:E; simpl; [by eapply Hin|].
  apply not_elem_of_list_to_map_2 in E. destruct (decide (0 < f k)) as [Hp|]; [|lia].
  exfalso. apply E. rewrite <- list_fmap_compose. apply list_elem_of_fmap. exists (k, f k). split; [done|].
  apply list_elem_of_filter. split; [done|]. apply list_elem_of_fmap. eauto.
Qed.
End grouped.

(** ** The two queries *)
Definition countable_db (d : database) : Prop :=
  Z.of_nat (size (jobs d)) <= max_int32 /\ Z.of_nat (size (workers d)) <= max_int32.

Lemma filter_map_length {A} (P : A -> Prop) `{!forall x, Decision (P x)} (t : gmap string A) :
  Z.of_nat (length (filter P (map snd (map_to_list t)))) <= Z.of_nat (size t).
Proof.
  rewrite <- (length_map_to_list t), <- (length_fmap snd (map_to_list t)).
  apply inj_le, length_filter.
Qed.

Lemma counts_scan {A} (l : list A) (f : A -> Z) :
  (forall a, 0 <= f a <= max_int32) ->
  forallb (fun ac : A * Z => is_ok (scan_int32 ac.2)) (filter (fun ac => 0 < ac.2) (map (fun a => (a, f a)) l)) = true.
Proof.
  intros Hf. apply forallb_forall. intros [a v] Hin%list_elem_of_In.
  apply list_elem_of_filter in Hin as [_ (a' & E & _)%list_elem_of_fmap]. simplify_eq. simpl.
  specialize (Hf a'). unfold scan_int32.
  rewrite (proj2 (Z.leb_le (-2147483648) (f a'))), (proj2 (Z.leb_le (f a') max_int32)) by lia. done.
Qed.

Lemma CountQueued_exact e d : countable_db d ->
  exists m, CountQueuedByPriority e d = (Ok m, d) /\
    forall p, p ∈ seqZ 0 10 -> default 0 (m !! p) = count_queued p (jobs d).
Proof.
  intros [Hj _]. unfold CountQueuedByPriority.
  assert (Hr : forall p, 0 <= count_queued p (jobs d) <= max_int32).
  { intros p. unfold count_queued. split; [lia|]. etransitivity; [apply filter_map_length|done]. }
  rewrite (counts_scan (seqZ 0 10) (fun p => count_queued p (jobs d)) Hr). eexists. split; [done|].
  intros p Hp.
  pose proof (group_map_default (fun p : Z => p) (fun p => count_queued p (jobs d)) (seqZ 0 10) p Hp
    (proj1 (Hr p))) as E. unfold group_map in E. simpl in E.
  rewrite <- E. do 2 f_equal. f_equal.
  rewrite <- (list_fmap_id (filter _ _)) at 1. apply list_fmap_ext. by intros i [].
Qed.

Lemma CountWorkers_exact e d : countable_db d ->
  exists m, CountByStatus e d = (Ok m, d) /\
    forall s, default 0 (m !! worker_status_text s) = count_workers s (workers d).
Proof.
  intros [_ Hw]. unfold CountByStatus.
  assert (Hr : forall s, 0 <= count_workers s (workers d) <= max_int32).
  { intros s. unfold count_workers. split; [lia|]. etransitivity; [apply filter_map_length|done]. }
  rewrite (counts_scan all_worker_status (fun s => count_workers s (workers d)) Hr).
  eexists. split; [done|]. intros s.
  apply (group_map_default worker_status_text (fun s => count_workers s (workers d)) all_worker_status s).
  - destruct s; set_solver.
  - apply Hr.
Qed.

(** ** The gauges *)
Section refresh.
Context {X : Type} (name : string) (lab : X -> string) `{!Inj (=) (=) lab} (v : X -> Z).
Abbreviation refresh := (foldl (fun (g : gauges) x => set_gauge name (lab x) (v x) g)).

Lemma refresh_set (l : list X) g x : x ∈ l -> refresh g l !! (name, lab x) = Some (v x).
Proof.
  induction l as [|y l IH] using rev_ind; intros Hx; [by apply not_elem_of_nil in Hx|].
  rewrite foldl_app. change (<[(name, lab y) := v y]> (refresh g l) !! (name, lab x) = Some (v x)).
  destruct (decide (lab y = lab x)) as [E|Hne].
  - apply (inj lab) in E as ->. apply lookup_insert_eq.
  - rewrite lookup_insert_ne by congruence. apply IH.
    apply elem_of_app in Hx as [?|Hx]; [done|]. apply list_elem_of_singleton in Hx as ->. done.
Qed.

Lemma refresh_other (l : list X) g k : (forall x, k <> (name, lab x)) -> refresh g l !! k = g !! k.
Proof.
  intros Hk. revert g. induction l as [|y l IH]; intros g; simpl; [done|].
  rewrite IH. unfold set_gauge. by apply lookup_insert_ne.
Qed.
End refresh.

Lemma set_workers_gauge_eq m g :
  set_workers_gauge m g =
  foldl (fun g s => set_gauge WorkersByStatus (worker_status_text s)
                      (default 0 (m !! worker_status_text s)) g) g all_worker_status.
Proof. reflexivity. Qed.

(** Gauges agree with the jobs, resp. the workers, of a database. *)
Definition shows_jobs (g : gauges) (d : database) : Prop :=
  forall p, 0 <= p <= 9 -> g !! (JobsQueued, strconv.Itoa p) = Some (count_queued p (jobs d)).
Definition shows_workers (g : gauges) (d : database) : Prop :=
  forall s, g !! (WorkersByStatus, worker_status_text s) = Some (count_workers s (workers d)).

Lemma jobs_then_workers m g p :
  set_workers_gauge m g !! (JobsQueued, strconv.Itoa p) = g !! (JobsQueued, strconv.Itoa p).
Proof. rewrite set_workers_gauge_eq. by apply refresh_other. Qed.

Lemma set_queued_shows m g d :
  (forall p, p ∈ seqZ 0 10 -> default 0 (m !! p) = count_queued p (jobs d)) ->
  shows_jobs (set_queued m g) d.
Proof.
  intros Hm p Hp. assert (Hin : p ∈ seqZ 0 10) by (apply elem_of_seqZ; lia).
  unfold set_queued. rewrite (refresh_set JobsQueued strconv.Itoa _ (seqZ 0 10) g p Hin). by rewrite Hm.
Qed.

Lemma set_workers_shows m g d :
  (forall s, default 0 (m !! worker_status_text s) = count_workers s (workers d)) ->
  shows_workers (set_workers_gauge m g) d.
Proof.
  intros Hm s. rewrite set_workers_gauge_eq.
  rewrite (refresh_set WorkersByStatus worker_status_text _ all_worker_status g s); [by rewrite Hm|].
  destruct s; set_solver.
Qed.

Definition answered (f : fault) : bool := match f with NoFault => true | _ => false end.

(** A counting query under any fault: it answers exactly or fails. *)
Lemma run_query `{Redis} {A B} (c : pg A) (k : result A -> prog B) m o w :
  exec_pg c (o 0%nat) (w_db w) = (Ok m, w_db w) ->
  run (Call (Pg c) k) o w =
  run (k (if answered (env_fault (o 0%nat)) then Ok m else Err ErrDriver)) (later o 1) w.
Proof.
  intros E. unfold run at 1. fold @run. simpl. unfold with_fault.
  destruct (env_fault (o 0%nat)) eqn:Ef; simpl; rewrite ?E; by destruct w.
Qed.

(** C36: a refresh shows the database.  As long as the tables have at most
    2^31-1 rows, one run of collect changes nothing in the stores; if the first
    query is answered, every priority 0 to 9 shows exactly its number of QUEUED
    jobs, else the queue gauges keep their values; if the second is answered,
    every worker status shows exactly its number of workers, else those keep
    theirs.  A count that dropped to zero is shown as zero, and one query's
    failure does not stop the other refresh. *)
Theorem collect_shows_database `{Redis} (g : gauges) (o : oracle) (w : world) :
  countable_db (w_db w) ->
  let '(g', w') := run (collect g) o w in
  w' = w /\
  (if answered (env_fault (o 0%nat)) then shows_jobs g' (w_db w)
   else forall p, g' !! (JobsQueued, strconv.Itoa p) = g !! (JobsQueued, strconv.Itoa p)) /\
  (if answered (env_fault (o 1%nat)) then shows_workers g' (w_db w)
   else forall s, g' !! (WorkersByStatus, worker_status_text s) =
                  g !! (WorkersByStatus, worker_status_text s)).
Proof.
  intros Hd. destruct (CountQueued_exact (o 0%nat) (w_db w) Hd) as (mq & Eq & Hq).
  destruct (CountWorkers_exact (o 1%nat) (w_db w) Hd) as (mw & Ew & Hw).
  unfold collect, pgc, trigger. cbn [bind].
  rewrite (run_query PgCountQueuedByPriority _ mq o w Eq).
  rewrite (run_query PgCountByStatus _ mw (later o 1) w Ew).
  change (later o 1 0%nat) with (o 1%nat). unfold run. split; [done|].
  assert (Ho : forall m g s, set_queued m g !! (WorkersByStatus, worker_status_text s) =
    g !! (WorkersByStatus, worker_status_text s)) by (intros; by apply refresh_other).
  split.
  - destruct (answered (env_fault (o 0%nat))).
    + intros p Hp. case_match; rewrite ?jobs_then_workers; by apply set_queued_shows.
    + intros p. case_match; by rewrite ?jobs_then_workers.
  - destruct (answered (env_fault (o 1%nat))).
    + by apply set_workers_shows.
    + intros s. case_match; by rewrite ?Ho.
Qed.

Lemma collect_shows_database_witness :
  let '(g', w') := run (collect ∅) (calm 4 "") ready_world in
  w' = ready_world /\ shows_jobs g' (w_db ready_world) /\ shows_workers g' (w_db ready_world).
Proof.
  apply (collect_shows_database ∅ (calm 4 "") ready_world).
  split; vm_compute; discriminate.
Defined.
