(* ===== verification/Registry.v ===== *)
(** * Every recorded series belongs to a registered collector

    client_golang panics on a duplicate registration and on a series with the
    wrong number of labels, and every distinct label value is a new series.
    So: registration succeeds on a fresh registry, and the counters of every
    execution are series of the registered counters with one of the label
    values their help texts list. *)
From S2P Require Import Prelude GoStrings Database WorkerStore JobStore Lifecycle Invariant StoreSound.
From S2P Require Import Redis Effects Stores Loop Reaper RetryPoller GrpcServer Autoscaler Api Metrics.
From S2P Require Import System Scenario GrpcProps.
Local Open Scope Z_scope.

Definition collectors : list metric :=
  [JobsQueuedVec; WorkersByStatusVec; JobsAssignedTotal; JobsCompletedTotal; JobDurationSeconds;
   AutoscalerDecisionsTotal].

(** ** Registration *)
Lemma register_all_fresh `{RegistererLaws} ms r :
  NoDup (map me_Name ms) ->
  (forall m, m ∈ ms -> me_Name m ∉ map me_Name (registered r)) ->
  exists r', register_all ms r = Some r' /\ registered r' = registered r ++ ms.
Proof.
  revert r. induction ms as [|m ms IH]; intros r Hnd Hf; [exists r; by rewrite app_nil_r|].
  cbn [map] in Hnd. apply list.NoDup_cons in Hnd as [Hm Hnd]. simpl.
  destruct (register_new m r) as (r1 & -> & E1); [apply Hf; left|].
  destruct (IH r1 Hnd) as (r2 & -> & E2).
  { intros m' Hm'. rewrite E1, map_app, elem_of_app. intros [Hin|Hin].
    - by apply (Hf m'); [right|].
    - apply list_elem_of_singleton in Hin. apply Hm. rewrite <- Hin. by apply list_elem_of_fmap_2. }
  exists r2. split; [done|]. by rewrite E2, E1, <- app_assoc.
Qed.

(** ** The series of an execution *)

(** The counter series: a plain counter has one, a vector one per documented
    label value. *)
Definition known_series : list (string * string) :=
  (me_Name JobsAssignedTotal, "") ::
  map (pair (me_Name JobsCompletedTotal)) ["SUCCESS"; "FAILED"; "CANCELLED"; "RETRYING"] ++
  map (pair (me_Name AutoscalerDecisionsTotal)) ["scale_up"; "scale_down"; "hold"].

Lemma known_series_registered nl : nl ∈ known_series ->
  exists m, m ∈ collectors /\ me_Name m = nl.1 /\ me_kind m = KCounter /\ (nl.2 = "" <-> me_labels m = []).
Proof.
  unfold known_series. simpl. intros Hin.
  apply elem_of_cons in Hin as [->|Hin]; [exists JobsAssignedTotal; set_solver|].
  repeat (apply elem_of_cons in Hin as [->|Hin]; [exists JobsCompletedTotal + exists AutoscalerDecisionsTotal;
    split; [set_solver|]; split; [done|]; by split|]).
  by apply not_elem_of_nil in Hin.
Qed.

(** What a reply can be, and the metric calls allowed. *)
Definition may_reply {X} (c : call X) : X -> Prop :=
  match c in call X return X -> Prop with
  | Pg c => match c in pg A return result A -> Prop with
            | PgRetryOrFail _ _ _ _ _ _ => fun r =>
                forall s, r = Ok (s, true) -> s = "RETRYING" \/ s = "FAILED"
            | _ => fun _ => True
            end
  | _ => fun _ => True
  end.

Definition metric_call_ok {X} (c : call X) : Prop :=
  match c with
  | MetricInc n l => (n, l) ∈ known_series
  | MetricObserve n _ => n = me_Name JobDurationSeconds
  | _ => True
  end.

(** Every metric call a program can reach with replies that can occur. *)
Fixpoint counts_known {A} (p : prog A) : Prop :=
  match p with
  | Ret _ => True
  | Call c k => metric_call_ok c /\ forall x, may_reply c x -> counts_known (k x)
  end.

Definition no_metric {X} (c : call X) : Prop :=
  match c with MetricInc _ _ | MetricObserve _ _ => False | _ => True end.

Lemma no_metric_counts {A} (p : prog A) : all_calls (@no_metric) p -> counts_known p.
Proof. induction p as [|X c k IH]; simpl; [done|]. intros [Hc Hk]. split; [by destruct c|]. auto. Qed.

(** A bind whose first part answers [Q]. *)
Fixpoint counts_with {A} (Q : A -> Prop) (p : prog A) : Prop :=
  match p with
  | Ret a => Q a
  | Call c k => metric_call_ok c /\ forall x, may_reply c x -> counts_with Q (k x)
  end.

Lemma counts_bind {A B} (Q : A -> Prop) (p : prog A) (f : A -> prog B) :
  counts_with Q p -> (forall a, Q a -> counts_known (f a)) -> counts_known (bind p f).
Proof. induction p as [a|X c k IH]; simpl; [auto|]. intros [Hc Hk] Hf. auto. Qed.

Lemma counts_known_with {A} (p : prog A) : counts_known p -> counts_with (fun _ => True) p.
Proof. induction p as [a|X c k IH]; simpl; [done|]. intros [Hc Hk]. auto. Qed.

Lemma counts_known_bind {A B} (p : prog A) (f : A -> prog B) :
  counts_known p -> (forall a, counts_known (f a)) -> counts_known (bind p f).
Proof. intros Hp Hf. eapply counts_bind; [by apply counts_known_with|]. auto. Qed.

Lemma counts_known_for_each {A} (l : list A) body :
  (forall a, counts_known (body a)) -> counts_known (for_each l body).
Proof. induction l; simpl; intros; [done|]. apply counts_known_bind; auto. Qed.

Ltac solve_no_metric :=
  apply no_metric_counts;
  repeat first [ progress simpl | apply all_calls_bind | apply all_calls_for_each | split | done
               | progress intros | progress auto | case_match ].

(** ** The programs that count *)
Lemma record_result_counts job req :
  counts_with (fun r => forall s, r = Ok (true, s) ->
    (me_Name JobsCompletedTotal, s) ∈ known_series) (record_result job req).
Proof.
  unfold record_result. case_decide as Hf; simpl.
  - split; [done|]. intros [[s b]|] Hr s' E; [|done]. simplify_eq.
    destruct (Hr s' eq_refl) as [-> | ->]; set_solver.
  - split; [done|]. intros [b|] _ s E; [|done]. simplify_eq.
    destruct (jobStatusToDB_final (rr_status req) Hf) as [-> | ->]; set_solver.
Qed.

Lemma ReportJobResult_counts req : counts_known (ReportJobResult req).
Proof.
  unfold ReportJobResult. case_decide; [done|]. simpl. split; [done|]. intros [job|] _; [|done].
  eapply counts_bind; [apply record_result_counts|]. intros [[[] s]|] Hs; [|done..].
  unfold finish_report. apply counts_known_bind.
  { case_match; [|done]. unfold free_worker. solve_no_metric. }
  intros _. simpl. split; [by apply Hs|]. intros _ _. repeat case_match; simpl; auto.
Qed.

Lemma processMessage_counts s m : counts_known (processMessage s m).
Proof.
  unfold processMessage, ack. case_decide; [solve_no_metric|]. simpl. split; [done|].
  intros [job|x] _; [|destruct x; solve_no_metric]. case_decide; [solve_no_metric|]. simpl.
  split; [done|]. intros [cs|] _; [|done]. case_match; [|done]. simpl. split; [done|].
  intros [[]|] _; simpl; auto. split; [done|]. intros _ _. split; [set_solver|]. auto.
Qed.

Lemma run_turn_counts l : counts_known (run_turn l).
Proof.
  destruct l; [|done]. assert (Hr : forall ks id, counts_known (readAndProcess ks id)).
  { intros ks id. simpl. split; [done|]. intros [ss|] _; [|done].
    apply counts_known_for_each. intros [k ms]. apply counts_known_for_each. apply processMessage_counts. }
  apply counts_known_bind; auto.
Qed.

Lemma autoscale_tick_counts cfg a : counts_known (autoscale_tick cfg a).
Proof.
  simpl. split; [done|]. intros [q|] _; [|done]. simpl. split; [done|]. intros [m|] _; [|done].
  simpl. split; [done|]. intros now _.
  match goal with |- context [decide_action ?c ?a ?q ?r ?f ?n] => destruct (decide_action c a q r f n) end.
  - by split; [apply (bool_decide_unpack _); vm_compute|].
  - by split; [apply (bool_decide_unpack _); vm_compute|].
  - split; [apply (bool_decide_unpack _); vm_compute; done|]. intros _ _. unfold doScaleDown. solve_no_metric.
Qed.

Lemma handleHeartbeat_no_metric s req : all_calls (@no_metric) (handleHeartbeat s req).
Proof.
  unfold handleHeartbeat, known_epoch, pending_assignment, flush_heartbeat, UpdateHeartbeat.
  repeat first [ progress simpl | apply all_calls_bind | split | done
               | progress intros | progress auto | case_match ].
Qed.

Lemma request_counts p : request p -> counts_known p.
Proof.
  destruct 1; unfold ignore; try (apply counts_known_bind; [|done]).
  - unfold RegisterWorker. solve_no_metric.
  - apply no_metric_counts, handleHeartbeat_no_metric.
  - apply no_metric_counts, all_calls_Heartbeat, handleHeartbeat_no_metric.
  - apply ReportJobResult_counts.
  - destruct r as [req|]; [|done]. unfold SubmitJob, Create. solve_no_metric.
  - solve_no_metric.
  - solve_no_metric.
  - solve_no_metric.
  - unfold DrainWorker, drain_reply. solve_no_metric.
  - unfold ResumeWorker, drain_reply. solve_no_metric.
  - apply run_turn_counts.
  - destruct leader; [|done]. unfold reaper_tick, sweep, reap_one. solve_no_metric.
  - destruct leader; [|done]. unfold poller_tick, poll, requeue_due. solve_no_metric.
  - apply autoscale_tick_counts.
  - solve_no_metric.
Qed.

(** ** Executions *)
Lemma after_failure_status e logRef j :
  job_status_text (j_status (after_failure e logRef j)) = "RETRYING" \/
  job_status_text (j_status (after_failure e logRef j)) = "FAILED".
Proof. unfold after_failure. case_match; auto. Qed.

Section executions.
Context `{Redis}.

Lemma handle_may_reply {X} (c : call X) e w : may_reply c (handle c e w).1.
Proof.
  destruct c as [A c|A c| | |]; try done. destruct c; try done. simpl. intros s.
  unfold with_fault. destruct (env_fault e); simpl; [|done..].
  destruct (RetryOrFail_cases jobID jobCreatedAt epoch workerID errorMessage logRef e (w_db w))
    as [(r & -> & Hr)|(j & _ & _ & _ & ->)]; simpl; intros E; [by destruct (Hr s)|].
  simplify_eq. apply after_failure_status.
Qed.

(** The series of [w] are known, or were there to begin with. *)
Definition series_ok (w0 w : world) : Prop :=
  (forall nl, is_Some (w_counters w !! nl) -> is_Some (w_counters w0 !! nl) \/ nl ∈ known_series) /\
  (forall nv, nv ∈ w_observations w -> nv ∈ w_observations w0 \/ nv.1 = me_Name JobDurationSeconds).

Lemma handle_series {X} (c : call X) e w0 w :
  metric_call_ok c -> series_ok w0 w -> series_ok w0 (handle c e w).2.
Proof.
  intros Hc [H1 H2]. destruct c as [A c|A c| |n l|n v]; simpl in *.
  - by destruct (with_fault _ _ _).
  - by destruct (with_fault _ _ _).
  - done.
  - split; simpl; [|done]. intros nl Hnl. destruct (decide ((n, l) = nl)) as [<-|Hne]; [by right|].
    rewrite lookup_insert_ne in Hnl by done. auto.
  - split; simpl; [done|]. intros nv [Hnv|Hnv]%elem_of_app; [auto|].
    apply list_elem_of_singleton in Hnv as ->. by right.
Qed.

Lemma sys_step_series w0 c c' :
  sys_step c c' -> Forall counts_known c.1 -> series_ok w0 c.2 ->
  Forall counts_known c'.1 /\ series_ok w0 c'.2.
Proof.
  intros Hs Hp Hw. destruct Hs as [ps w p Hr|c c' Hs|ps1 p ps2 w|ps w r]; simpl in *.
  - split; [|done]. apply Forall_app. split; [done|]. constructor; [by apply request_counts|constructor].
  - destruct Hs as [ps1 ps2 X c k e w]. simpl in *. apply Forall_app in Hp as [Hp1 Hp2].
    apply list.Forall_cons in Hp2 as [[Hc Hk] Hp2]. split; [|by apply handle_series].
    apply Forall_app. split; [done|]. constructor; [apply Hk, handle_may_reply|done].
  - split; [|done]. apply Forall_app in Hp as [Hp1 Hp2]. apply Forall_app.
    split; [done|]. by apply list.Forall_cons in Hp2 as [_ ?].
  - split; [done|]. by destruct Hw.
Qed.

(** C38: the metrics are well-formed.  Registering the six collectors on a
    registry that has none of their names does not panic, and doing it again
    does.  Whatever requests and ticks run, interleaved in any way under any
    faults, every counter series that appears is one of the eight of the
    registered counters: the plain one without a label, the vectors with a
    status or decision their help text lists; and only the registered histogram
    is observed. *)
Theorem metrics_well_formed `{RegistererLaws} (reg : registry) (w0 : world) (c : config) :
  (forall m, m ∈ collectors -> me_Name m ∉ map me_Name (registered reg)) ->
  rtc sys_step ([], w0) c ->
  (exists reg', MustRegister reg = Some reg' /\ registered reg' = registered reg ++ collectors /\
     MustRegister reg' = None) /\
  (forall n l, is_Some (w_counters c.2 !! (n, l)) -> is_Some (w_counters w0 !! (n, l)) \/
     exists m, m ∈ collectors /\ me_Name m = n /\ me_kind m = KCounter /\
       (l = "" <-> me_labels m = []) /\ (n, l) ∈ known_series) /\
  (forall n v, (n, v) ∈ w_observations c.2 -> (n, v) ∈ w_observations w0 \/
     n = me_Name JobDurationSeconds).
Proof.
  intros Hfresh Hr.
  assert (Hs : Forall counts_known c.1 /\ series_ok w0 c.2).
  { revert c Hr. apply (rtc_ind_r (R := sys_step)); [split; [constructor|split; auto]|].
    intros c1 c2 _ Hs [Hp Hw]. by apply (sys_step_series w0 c1 c2). }
  destruct Hs as (_ & Hc & Ho). split; [|split].
  - destruct (register_all_fresh collectors reg) as (reg' & E & Er).
    { apply (bool_decide_unpack _). by vm_compute. }
    { done. }
    exists reg'. split; [done|]. split; [done|]. unfold MustRegister. cbn [register_all].
    rewrite register_taken; [done|]. rewrite Er, map_app. apply elem_of_app. right. left.
  - intros n l Hnl. destruct (Hc (n, l) Hnl) as [?|Hk]; [by left|]. right.
    destruct (known_series_registered _ Hk) as (m & Hm & En & Ek & Hl). eauto 10.
  - intros n v Hnv. destruct (Ho (n, v) Hnv); auto.
Qed.
End executions.

(** ** A registry that is a list *)
#[local] Instance ListRegisterer : Registerer := {
  registry := list metric;
  registered r := r;
  Register_metric m r := if bool_decide (me_Name m ∈ map me_Name r) then None else Some (r ++ [m]) }.

#[local] Instance ListRegisterer_laws : RegistererLaws.
Proof.
  split; simpl; intros m r Hm.
  - by rewrite bool_decide_true.
  - rewrite bool_decide_false by done. eauto.
Qed.

Definition empty_registry : registry := ([] : list metric).

(** The scenario up to the failed build: one assignment, one RETRYING result. *)
Definition counted_world : world :=
  play [do_register; do_submit; do_tick; do_busy; do_fail] start_world.

Lemma counted_steps : rtc sys_step ([], start_world) ([], counted_world).
Proof. apply (play_steps [do_register; do_submit; do_tick; do_busy; do_fail]). repeat constructor. Qed.

Lemma counted_retrying :
  is_Some (w_counters counted_world !! ("fleetforge_jobs_completed_total", "RETRYING")).
Proof. vm_compute. eauto. Qed.

#[global] Opaque counted_world.

Lemma metrics_well_formed_witness :
  (exists reg', MustRegister empty_registry = Some reg' /\ registered reg' = collectors /\
     MustRegister reg' = None) /\
  is_Some (w_counters counted_world !! ("fleetforge_jobs_completed_total", "RETRYING")) /\
  (forall n l, is_Some (w_counters counted_world !! (n, l)) ->
     is_Some (w_counters start_world !! (n, l)) \/
     exists m, m ∈ collectors /\ me_Name m = n /\ me_kind m = KCounter /\
       (l = "" <-> me_labels m = []) /\ (n, l) ∈ known_series).
Proof.
  destruct (metrics_well_formed empty_registry start_world ([], counted_world)) as (H1 & H2 & _).
  - intros m _ Hin. by apply not_elem_of_nil in Hin.
  - exact counted_steps.
  - cbn [snd] in H2. split; [exact H1|]. split; [exact counted_retrying|exact H2].
Defined.
