(* ===== verification/Ctl.v ===== *)
(** * cmd/fleetforgectl: the operator's command line

    mint-token, drain, resume and list as functions of the flags, the
    environment and what the HTTP client returns; the command tree is in
    CtlMain, the tabwriter's column padding is outside the model.  The theorem at the end
    connects the tool to the router: a minted token opens the endpoints of its
    scopes. *)
From Stdlib Require Import Ascii.
From S2P Require Import Prelude GoStrings Database WorkerStore JobStore Redis Effects Stores.
From S2P Require Import GrpcServer Api Crypto Auth AuthProps GoText Router Executor Agent Config.
Local Open Scope Z_scope.

Inductive ctl_error :=
  | NoSecret
  | ScopesRequired
  | MintFailed
  | BuildRequest
  | RequestFailed
  | ReadResponse
  | UnexpectedStatus (code : Z) (body : string)
  | DecodeResponse.

(** ** auth mint-token *)
Section mint.
Context `{ClaimsCodec}.

Definition effective_secret (env : environ) (flag : string) : string :=
  if decide (flag = "") then env "FLEETFORGE_JWT_SECRET" else flag.

Definition mint_token (env : environ) (secretFlag subject scopesRaw : string) (ttl : Z)
    : prog (ctl_error + string) :=
  let secret := effective_secret env secretFlag in
  if decide (secret = "") then Ret (inl NoSecret)
  else
    let scopes := nonempty_trimmed (gostrings.Split scopesRaw gostrings.comma) in
    match scopes with
    | [] => Ret (inl ScopesRequired)
    | _ =>
        let! token := IssueToken secret subject scopes ttl in
        Ret (match token with Some t => inr t | None => inl MintFailed end)
    end.
End mint.

(** ** workers drain / resume *)
Definition resolveToken (env : environ) (flagValue : string) : string :=
  if decide (flagValue = "") then env "FLEETFORGE_TOKEN" else flagValue.

(** An outgoing request; headers are those the tool sets. *)
Record client_request := mkClientRequest {
  cq_Method : string; cq_URL : string; cq_Headers : list (string * string) }.

(** http.DefaultClient.Do: no answer, an answer whose body cannot be read, or
    a status and a body. *)
Inductive http_outcome :=
  | NoResponse
  | BodyUnreadable
  | Response (code : Z) (body : string).

Definition action_path (workerID action : string) : string :=
  "/v1/workers/" +:+ workerID +:+ "/" +:+ action.

Definition action_request (apiAddr token workerID action : string) : client_request :=
  mkClientRequest "POST" (apiAddr +:+ action_path workerID action)
    (("Content-Type", "application/json") ::
     (if decide (token = "") then [] else [("Authorization", "Bearer " +:+ token)])).

(** [do]: the HTTP client; None when the URL cannot be parsed.  The result is
    the text printed. *)
Definition postWorkerAction (do : client_request -> option http_outcome)
    (apiAddr token workerID action : string) : ctl_error + string :=
  match do (action_request apiAddr token workerID action) with
  | None => inl BuildRequest
  | Some NoResponse => inl RequestFailed
  | Some BodyUnreadable => inl ReadResponse
  | Some (Response code body) =>
      if code =? StatusOK then inr body else inl (UnexpectedStatus code body)
  end.

(** ** workers list *)
Record ctl_worker := mkCtlWorker {
  cw_ID : string; cw_Hostname : string; cw_Status : string; cw_Version : string;
  cw_AvailableCapacity : Z; cw_Epoch : Z; cw_RegisteredAt : string }.

Definition list_request (apiAddr statusFilter : string) : client_request :=
  mkClientRequest "GET"
    (apiAddr +:+ "/v1/workers" +:+ (if decide (statusFilter = "") then "" else "?status=" +:+ statusFilter))
    [].

Definition list_header : list string :=
  ["ID"; "HOSTNAME"; "STATUS"; "CAPACITY"; "EPOCH"; "VERSION"; "REGISTERED"].
Definition list_cells (w : ctl_worker) : list string :=
  [cw_ID w; cw_Hostname w; cw_Status w; strconv.Itoa (cw_AvailableCapacity w);
   strconv.Itoa (cw_Epoch w); cw_Version w; cw_RegisteredAt w].

(** [decode]: json.Unmarshal of the body; the result is the table's rows. *)
Definition listWorkers (do : client_request -> option http_outcome)
    (decode : string -> option (list ctl_worker)) (apiAddr statusFilter : string)
    : ctl_error + list (list string) :=
  match do (list_request apiAddr statusFilter) with
  | None => inl BuildRequest
  | Some NoResponse => inl RequestFailed
  | Some BodyUnreadable => inl ReadResponse
  | Some (Response code body) =>
      if code =? StatusOK then
        match decode body with
        | None => inl DecodeResponse
        | Some items => inr (list_header :: map list_cells items)
        end
      else inl (UnexpectedStatus code body)
  end.

(** ** The tool and the router *)

(** What the server receives of the tool's request. *)
Definition received (q : client_request) (path : string) : http_request :=
  mkHttpRequest (cq_Method q) path
    (default "" (snd <$> head (filter (fun h => h.1 = "Authorization") (cq_Headers q))))
    (fun _ => "") None.

Lemma action_routes workerID action :
  gostrings.contains_byte "/" workerID = false ->
  (action = "drain" -> route "POST" (action_path workerID action) = Some (EDrainWorker workerID)) /\
  (action = "resume" -> route "POST" (action_path workerID action) = Some (EResumeWorker workerID)).
Proof.
  intros Hw. assert (Hs : forall a, gostrings.contains_byte "/" a = false ->
    gostrings.Split (action_path workerID a) "/" = [""; "v1"; "workers"; workerID; a]).
  { intros a Ha. unfold action_path.
    change ("/v1/workers/" +:+ workerID +:+ "/" +:+ a)
      with ("" +:+ String "/" ("v1" +:+ String "/" ("workers" +:+ String "/" (workerID +:+ String "/" a)))).
    rewrite !gostrings.Split_app_sep by done. by rewrite (gostrings.Split_no_sep a). }
  split; intros ->; unfold route; by rewrite Hs.
Qed.

Section minted.
Context `{ClaimsCodecLaws} `{Redis}.

(** A minted token opens the door it was minted for.  If mint-token
    succeeds, the scopes in the token are exactly the non-empty trimmed items
    of --scopes; a drain (or resume) the tool then sends with that token, for a
    worker id without a slash, reaches the drain (resume) endpoint of that
    worker, and if workers:drain is among the scopes and the token has not
    expired it is authorized by a scheduler with the same secret. *)
Theorem minted_token_is_authorized env secretFlag subject scopesRaw ttl (o : oracle) (w : world)
    token w' :
  let secret := effective_secret env secretFlag in
  let scopes := nonempty_trimmed (gostrings.Split scopesRaw gostrings.comma) in
  let issued := go_now (o 0%nat) in
  representable (mkClaims subject scopes (unix issued) (unix (issued + ttl))) ->
  run (mint_token env secretFlag subject scopesRaw ttl) o w = (inr token, w') ->
  secret <> "" /\ scopes <> [] /\
  (forall apiAddr workerID now,
     gostrings.contains_byte "/" workerID = false ->
     ScopeWorkersDrain ∈ scopes -> unix now <= unix (issued + ttl) ->
     let req := received (action_request apiAddr token workerID "drain") (action_path workerID "drain") in
     route (hq_Method req) (hq_Path req) = Some (EDrainWorker workerID) /\
     authorized secret ScopeWorkersDrain req now).
Proof.
  intros secret scopes issued Hrep Hrun. unfold mint_token in Hrun. fold secret scopes in Hrun.
  case_decide as Hs; [done|]. destruct scopes as [|s0 rest] eqn:Esc; [done|]. fold scopes in Esc.
  unfold IssueToken in Hrun. rewrite decide_False in Hrun by done. simpl in Hrun. simplify_eq.
  split; [done|]. split; [done|]. intros apiAddr workerID now Hw Hin Hexp req. split.
  - by apply (proj1 (action_routes workerID "drain" Hw)).
  - set (claims := mkClaims subject (s0 :: rest) (unix issued) (unix (issued + ttl))).
    exists (signToken secret claims), claims.
    assert (Hne : signToken secret claims <> "").
    { unfold signToken, signing_input. intros E. apply (f_equal String.length) in E. done. }
    split; [|split; [done|split; [by apply verify_signed|done]]].
    unfold req, received, action_request. cbn [cq_Headers hq_Authorization].
    rewrite decide_False by done. done.
Qed.
End minted.

(** mint-token's errors. *)
Lemma mint_token_errors `{ClaimsCodec} env secretFlag subject scopesRaw ttl tr e :
  trace (mint_token env secretFlag subject scopesRaw ttl) tr (inl e) ->
  (e = NoSecret /\ effective_secret env secretFlag = "") \/
  (e = ScopesRequired /\ nonempty_trimmed (gostrings.Split scopesRaw gostrings.comma) = []).
Proof.
  unfold mint_token. case_decide as Hs; [intros [_ E]; simplify_eq; by left|].
  destruct (nonempty_trimmed _) as [|s l]; [intros [_ E]; simplify_eq; by right|].
  unfold IssueToken. rewrite decide_False by done. simpl. intros (x & tr' & _ & _ & E). done.
Qed.

Import CompactJSON.

Lemma minted_token_is_authorized_witness :
  exists token w',
  run (mint_token (fun _ => "") "s3cret" "ops" " workers:drain , x" (3600 * Second)) (at_second 100)
    demo_world = (inr token, w') /\
  authorized "s3cret" ScopeWorkersDrain
    (received (action_request "http://localhost:8080" token "w-a" "drain") (action_path "w-a" "drain"))
    (200 * Second).
Proof.
  eexists _, _. split; [reflexivity|].
  assert (Hsc : nonempty_trimmed (gostrings.Split " workers:drain , x" gostrings.comma) =
    ["workers:drain"; "x"]) by (vm_compute; reflexivity).
  edestruct (minted_token_is_authorized (fun _ => "") "s3cret" "ops" " workers:drain , x" (3600 * Second)
    (at_second 100) demo_world) as (_ & _ & Ha).
  - rewrite Hsc. split; [reflexivity|]. split; [by repeat constructor|]. split; vm_compute; split; congruence.
  - reflexivity.
  - apply (Ha "http://localhost:8080" "w-a" (200 * Second)).
    + reflexivity.
    + rewrite Hsc. left.
    + vm_compute. discriminate.
Defined.
