(* ===== verification/CtlMain.v ===== *)
(** * cmd/fleetforgectl: the command tree and main

    The tree newRootCmd builds, with its flags and defaults, and main's exit
    status.  Finding the command, parsing flags and checking the number of
    arguments is cobra's work ([Cobra]); what its documentation promises of it
    is [CobraLaws]. *)
From Stdlib Require Import Ascii.
From S2P Require Import Prelude GoStrings Database WorkerStore JobStore Redis Effects Stores.
From S2P Require Import GrpcServer Api Crypto Auth AuthProps GoText Router Executor Agent Config Ctl.
Local Open Scope Z_scope.

(** A flag's value; a declaration is a name and its default. *)
Inductive flag_value := FString (s : string) | FDuration (d : Z).
Abbreviation flag_decl := (string * flag_value)%type.

(** The RunE functions. *)
Inductive action := MintToken | ListWorkersAction | DrainAction | ResumeAction.

(** cobra.Command; [cm_Args] is ExactArgs. *)
Inductive command := mkCommand {
  cm_Use : string;
  cm_PersistentFlags : list flag_decl;
  cm_Flags : list flag_decl;
  cm_Args : option nat;
  cm_RunE : option action;
  cm_Commands : list command }.

Definition newAuthCmd : command :=
  mkCommand "auth" [] [] None None
    [mkCommand "mint-token" []
       [("secret", FString ""); ("subject", FString "fleetforgectl"); ("scopes", FString "");
        ("ttl", FDuration (3600 * Second))] None (Some MintToken) []].

Definition newWorkersCmd : command :=
  mkCommand "workers" [] [] None None
    [mkCommand "list" [] [("status", FString "")] None (Some ListWorkersAction) [];
     mkCommand "drain" [] [] (Some 1%nat) (Some DrainAction) [];
     mkCommand "resume" [] [] (Some 1%nat) (Some ResumeAction) []].

Definition newRootCmd : command :=
  mkCommand "fleetforgectl" [("api", FString "http://localhost:8080"); ("token", FString "")] []
    None None [newWorkersCmd; newAuthCmd].

(** ** cobra *)
Inductive cobra_outcome :=
  | UsageError                     (** returned as an error *)
  | HelpShown
  | Invoked (a : action) (flags : gmap string flag_value) (args : list string).

Class Cobra := Execute : command -> list string -> cobra_outcome.

(** The commands of a tree with the flags they see. *)
Fixpoint visible (inherited : list flag_decl) (c : command) : list (command * list flag_decl) :=
  let below := inherited ++ cm_PersistentFlags c in
  (c, below ++ cm_Flags c) :: flat_map (visible below) (cm_Commands c).

Definition same_type (v w : flag_value) : Prop :=
  match v, w with FString _, FString _ | FDuration _, FDuration _ => True | _, _ => False end.

(** The command run is one of the tree's; its argument check passed; every flag
    it sees has a value of its type. *)
Class CobraLaws `{Cobra} : Prop :=
  execute_sound root argv a flags args : Execute root argv = Invoked a flags args ->
    exists c fs, (c, fs) ∈ visible [] root /\ cm_RunE c = Some a /\
      (forall n, cm_Args c = Some n -> length args = n) /\
      (forall f d, (f, d) ∈ fs -> exists v, flags !! f = Some v /\ same_type d v).

(** ** The RunE functions and main *)
Section main.
Context `{ClaimsCodec} `{Cobra}.
Context (env : environ) (do : client_request -> option http_outcome)
  (decode : string -> option (list ctl_worker)).

Definition string_flag (flags : gmap string flag_value) (f : string) : string :=
  match flags !! f with Some (FString s) => s | _ => "" end.
Definition duration_flag (flags : gmap string flag_value) (f : string) : Z :=
  match flags !! f with Some (FDuration d) => d | _ => 0 end.

Definition one_line (r : ctl_error + string) : ctl_error + list (list string) :=
  match r with inl e => inl e | inr s => inr [[s]] end.

(** None: args[0] is out of range. *)
Definition run_action (a : action) (flags : gmap string flag_value) (args : list string)
    : prog (option (ctl_error + list (list string))) :=
  let worker_action verb :=
    match args with
    | [] => Ret None
    | id :: _ => Ret (Some (one_line (postWorkerAction do (string_flag flags "api")
                   (resolveToken env (string_flag flags "token")) id verb)))
    end in
  match a with
  | MintToken =>
      let! r := mint_token env (string_flag flags "secret") (string_flag flags "subject")
                  (string_flag flags "scopes") (duration_flag flags "ttl") in
      Ret (Some (one_line r))
  | ListWorkersAction =>
      Ret (Some (listWorkers do decode (string_flag flags "api") (string_flag flags "status")))
  | DrainAction => worker_action "drain"
  | ResumeAction => worker_action "resume"
  end.

(** The exit status and what is printed to stdout; None is a panic. *)
Definition ctl_main (argv : list string) : prog (option (Z * list (list string))) :=
  match Execute newRootCmd argv with
  | UsageError => Ret (Some (1, []))
  | HelpShown => Ret (Some (0, []))
  | Invoked a flags args =>
      let! r := run_action a flags args in
      Ret (match r with
           | None => None
           | Some (inl _) => Some (1, [])
           | Some (inr out) => Some (0, out)
           end)
  end.

(** The verb of a worker action. *)
Definition verb_of (a : action) : option string :=
  match a with DrainAction => Some "drain" | ResumeAction => Some "resume" | _ => None end.

Context `{!CobraLaws}.

(** A worker action is run with exactly one argument and the root's flags. *)
Lemma worker_action_invoked argv a verb flags args :
  Execute newRootCmd argv = Invoked a flags args -> verb_of a = Some verb ->
  exists id api token, args = [id] /\ flags !! "api" = Some (FString api) /\
    flags !! "token" = Some (FString token).
Proof.
  intros E Hv. destruct (execute_sound _ _ _ _ _ E) as (c & fs & Hin & Hr & Ha & Hf).
  assert (Hc : cm_Args c = Some 1%nat /\ ("api", FString "http://localhost:8080") ∈ fs /\
    ("token", FString "") ∈ fs).
  { cbn in Hin. repeat (apply elem_of_cons in Hin as [Hin|Hin];
      [apply pair_eq in Hin as [-> ->]; cbn in Hr;
       first [discriminate Hr | injection Hr as <-;
              first [discriminate Hv | split; [done|split; set_solver]]]|]).
    by apply not_elem_of_nil in Hin. }
  destruct Hc as (Hn & Hapi & Htok). specialize (Ha _ Hn). destruct args as [|id []]; try done.
  destruct (Hf "api" (FString "http://localhost:8080")) as (v1 & Hv1 & Ht1); [done|].
  destruct (Hf "token" (FString "")) as (v2 & Hv2 & Ht2); [done|].
  destruct v1 as [api|]; [|done]. destruct v2 as [token|]; [|done]. eauto 10.
Qed.

(** The tool's exit status.  Whatever cobra makes of the command line, main
    ends with status 0 or 1 and never by indexing a missing argument; a drain
    or resume exits 0 exactly when the server at --api answered 200 to the
    request for the named worker with the effective token, and then prints
    that answer. *)
Theorem ctl_exit_status argv tr r :
  trace (ctl_main argv) tr r ->
  exists code out, r = Some (code, out) /\ (code = 0 \/ code = 1) /\
  forall a verb flags args, Execute newRootCmd argv = Invoked a flags args -> verb_of a = Some verb ->
    exists id api token, args = [id] /\ flags !! "api" = Some (FString api) /\
      flags !! "token" = Some (FString token) /\
      (code = 0 <-> exists body, out = [[body]] /\
         do (action_request api (resolveToken env token) id verb) = Some (Response StatusOK body)).
Proof.
  unfold ctl_main. destruct (Execute newRootCmd argv) as [| |a flags args] eqn:E.
  - intros [_ ->]. exists 1, []. by split_and!; [|right|].
  - intros [_ ->]. exists 0, []. by split_and!; [|left|].
  - destruct (verb_of a) as [verb|] eqn:Hv.
    + destruct (worker_action_invoked argv a verb flags args E Hv) as (id & api & token & -> & Hapi & Htok).
      assert (Hrun : run_action a flags [id] = Ret (Some (one_line (postWorkerAction do api
        (resolveToken env token) id verb)))).
      { destruct a; simplify_eq/=; unfold string_flag; by rewrite Hapi, Htok. }
      rewrite Hrun. cbn [bind]. intros [_ ->]. unfold postWorkerAction.
      destruct (do (action_request api (resolveToken env token) id verb)) as [[| |code body]|] eqn:Ed;
        cbn [one_line]; [..|destruct (Z.eqb_spec code StatusOK) as [->|Hc]|]; cbn [one_line];
        (eexists _, _; split; [done|]; split; [auto|]);
        intros a' verb' flags' args' E' Hv'; simplify_eq; exists id, api, token;
        (split; [done|]; split; [done|]; split; [done|]); (split; [|intros (b & Hb & Eb)]); try done; try congruence.
      intros _. eauto.
    + intros (tr1 & tr2 & x & -> & Hx & [-> ->])%trace_bind.
      assert (Hs : is_Some x).
      { destruct a; try done; cbn [run_action] in Hx.
        - apply trace_bind in Hx as (? & ? & ? & _ & _ & [_ ->]). eauto.
        - destruct Hx as [_ ->]. eauto. }
      destruct Hs as [[e|out] ->]; eexists _, _; (split; [done|]; split; [auto|]);
        intros a' verb' flags' args' E' Hv'; simplify_eq.
Qed.
End main.

(** ** A parser without flags

    Words select subcommands, flags keep their defaults, the rest are
    arguments. *)
Fixpoint bare_execute (inherited : list flag_decl) (c : command) (argv : list string) : cobra_outcome :=
  let below := inherited ++ cm_PersistentFlags c in
  let here :=
    let fs := below ++ cm_Flags c in
    match cm_RunE c with
    | None => match argv with [] => HelpShown | _ => UsageError end
    | Some a =>
        if bool_decide (NoDup (map fst fs)) && match cm_Args c with
                                               | Some n => bool_decide (length argv = n)
                                               | None => true
                                               end
        then Invoked a (list_to_map fs) argv else UsageError
    end in
  match argv with
  | [] => here
  | word :: rest => match list_find (fun s => cm_Use s = word) (cm_Commands c) with
                    | Some (_, sub) => bare_execute below sub rest
                    | None => here
                    end
  end.
#[local] Instance BareCobra : Cobra := bare_execute [].

Lemma visible_sub inherited c sub cf :
  sub ∈ cm_Commands c -> cf ∈ visible (inherited ++ cm_PersistentFlags c) sub -> cf ∈ visible inherited c.
Proof.
  intros Hs Hcf. destruct c as [u pf fs ar ra subs]. simpl in *. right.
  apply list_elem_of_In, in_flat_map. exists sub. by rewrite <- !list_elem_of_In.
Qed.

Lemma bare_execute_sound inherited c argv a flags args :
  bare_execute inherited c argv = Invoked a flags args ->
  exists c' fs, (c', fs) ∈ visible inherited c /\ cm_RunE c' = Some a /\
    (forall n, cm_Args c' = Some n -> length args = n) /\
    (forall f d, (f, d) ∈ fs -> exists v, flags !! f = Some v /\ same_type d v).
Proof.
  assert (Hhere : forall inherited c argv,
    (match cm_RunE c with
     | None => match argv with [] => HelpShown | _ => UsageError end
     | Some a =>
         if bool_decide (NoDup (map fst ((inherited ++ cm_PersistentFlags c) ++ cm_Flags c))) &&
            match cm_Args c with Some n => bool_decide (length argv = n) | None => true end
         then Invoked a (list_to_map ((inherited ++ cm_PersistentFlags c) ++ cm_Flags c)) argv
         else UsageError
     end) = Invoked a flags args ->
    exists c' fs, (c', fs) ∈ visible inherited c /\ cm_RunE c' = Some a /\
      (forall n, cm_Args c' = Some n -> length args = n) /\
      (forall f d, (f, d) ∈ fs -> exists v, flags !! f = Some v /\ same_type d v)).
  { clear. intros inherited c argv E. destruct (cm_RunE c) as [a'|] eqn:Er; [|by destruct argv].
    case_match eqn:Eb; [|done]. apply andb_true_iff in Eb as [Hnd Ha]. apply bool_decide_eq_true in Hnd.
    injection E as -> <- <-. exists c, ((inherited ++ cm_PersistentFlags c) ++ cm_Flags c).
    split; [destruct c; left|]. split; [done|]. split.
    - intros n Hn. rewrite Hn in Ha. by apply bool_decide_eq_true in Ha.
    - intros f d Hd. exists d. split; [by apply elem_of_list_to_map_1|by destruct d]. }
  revert inherited c. induction argv as [|word rest IH]; intros inherited c E; [by apply (Hhere inherited c [])|].
  simpl in E. destruct (list_find _ (cm_Commands c)) as [[i sub]|] eqn:Ef; [|by apply (Hhere inherited c (word :: rest))].
  apply list_find_Some in Ef as (Hi & _ & _). destruct (IH _ _ E) as (c' & fs & Hin & Hrest).
  exists c', fs. split; [|done]. eapply visible_sub; [by eapply list_elem_of_lookup_2|done].
Qed.

#[local] Instance BareCobra_laws : CobraLaws.
Proof. intros root argv a flags args E. by eapply (bare_execute_sound []), E. Qed.

Import CompactJSON.

(** A server that knows one worker and one token. *)
Definition demo_server (q : client_request) : option http_outcome :=
  if decide (cq_URL q = "http://localhost:8080/v1/workers/w-a/drain" /\
             cq_Headers q = [("Content-Type", "application/json"); ("Authorization", "Bearer t0k")])
  then Some (Response StatusOK "{}") else Some (Response StatusNotFound "").

Lemma ctl_exit_status_witness :
  exists code out, Some (0, [["{}"]]) = Some (code, out) /\ (code = 0 \/ code = 1) /\
  forall a verb flags args,
    Execute newRootCmd ["workers"; "drain"; "w-a"] = Invoked a flags args -> verb_of a = Some verb ->
    exists id api token, args = [id] /\ flags !! "api" = Some (FString api) /\
      flags !! "token" = Some (FString token) /\
      (code = 0 <-> exists body, out = [[body]] /\
         demo_server (action_request api (resolveToken (fun _ => "t0k") token) id verb) =
           Some (Response StatusOK body)).
Proof.
  apply (ctl_exit_status (fun _ => "t0k") demo_server (fun _ => None) ["workers"; "drain"; "w-a"] []).
  split; [reflexivity|]. vm_compute. reflexivity.
Defined.
