(* ===== verification/Startup.v ===== *)
(** * cmd/scheduler: starting the process

    The order of the checks in main, up to the point where it serves, with the
    connection helpers it calls (postgres.NewPool, redis.NewClient, the TLS
    loaders).  What the network and the file system answer is [boot]; creating
    the consumer groups is the queue's own program.  Starting the goroutines
    and listeners has no result; their loops are modelled in their own files. *)
From Stdlib Require Import SpecFloat.
From S2P Require Import Prelude GoStrings Database WorkerStore JobStore Redis Effects Stores.
From S2P Require Import GrpcServer Autoscaler Api Crypto GoText Executor Agent Config Leader.
Local Open Scope Z_scope.

Inductive start_error :=
  | InvalidConfig (e : config_error)
  | ParseDatabaseURL | CreatePool | PingPostgres
  | PingRedis
  | ConsumerGroups
  | LoadKeypair | ReadCA | NoCertificates
  | BindGRPC.

(** What the outside answers at startup. *)
Record boot := mkBoot {
  bo_url_ok : string -> bool;          (** pgxpool.ParseConfig *)
  bo_pool_ok : bool;                   (** pgxpool.NewWithConfig *)
  bo_pg_ping : bool;
  bo_redis_ping : string -> bool;
  bo_keypair : string -> string -> bool;
  bo_read : string -> option string;   (** os.ReadFile *)
  bo_pem_ok : string -> bool;          (** AppendCertsFromPEM *)
  bo_listen : string -> bool }.

(** postgres.NewPool: the URL's settings with two of them overridden. *)
Record pool_config := mkPoolConfig {
  pc_url : string; pc_MaxConns : Z; pc_MaxConnLifetime : Z }.

Definition NewPool (b : boot) (databaseURL : string) : start_error + pool_config :=
  if bo_url_ok b databaseURL then
    if bo_pool_ok b then
      if bo_pg_ping b then inr (mkPoolConfig databaseURL 20 (30 * 60 * Second))
      else inl PingPostgres
    else inl CreatePool
  else inl ParseDatabaseURL.

(** redis.NewClient: the address the client talks to. *)
Definition NewClient (b : boot) (addr : string) : start_error + string :=
  if bo_redis_ping b addr then inr addr else inl PingRedis.

(** ** internal/auth/mtls.go *)

(** A tls.Config: the own key pair, the pools (as the PEM text they were read
    from) that verify clients and servers, whether a client certificate is
    required and verified, and the least TLS version. *)
Record tls_config := mkTlsConfig {
  tc_certificate : string * string;
  tc_ClientCAs : option string;
  tc_RootCAs : option string;
  tc_RequireAndVerifyClientCert : bool;
  tc_MinVersion : Z }.

Definition VersionTLS12 : Z := 0x303.

Definition loadCAPool (b : boot) (caFile : string) : start_error + string :=
  match bo_read b caFile with
  | None => inl ReadCA
  | Some pem => if bo_pem_ok b pem then inr pem else inl NoCertificates
  end.

Definition ServerTLSConfig (b : boot) (certFile keyFile caFile : string)
    : start_error + tls_config :=
  if bo_keypair b certFile keyFile then
    match loadCAPool b caFile with
    | inl e => inl e
    | inr caPool => inr (mkTlsConfig (certFile, keyFile) (Some caPool) None true VersionTLS12)
    end
  else inl LoadKeypair.

Definition ClientTLSConfig (b : boot) (certFile keyFile caFile : string)
    : start_error + tls_config :=
  if bo_keypair b certFile keyFile then
    match loadCAPool b caFile with
    | inl e => inl e
    | inr caPool => inr (mkTlsConfig (certFile, keyFile) None (Some caPool) false VersionTLS12)
    end
  else inl LoadKeypair.

(** mTLS needs all three files; None is the insecure transport. *)
Definition choose_transport (load : string -> string -> string -> start_error + tls_config)
    (certFile keyFile caFile : string) : start_error + option tls_config :=
  if decide (certFile <> "" /\ keyFile <> "" /\ caFile <> "") then
    match load certFile keyFile caFile with
    | inl e => inl e
    | inr c => inr (Some c)
    end
  else inr None.

(** The transport of the gRPC server, and of the agent's connection. *)
Definition grpc_transport (b : boot) (cfg : SchedulerConfig) : start_error + option tls_config :=
  choose_transport (ServerTLSConfig b) (sc_TLSCertFile cfg) (sc_TLSKeyFile cfg) (sc_TLSCAFile cfg).

Definition agent_transport (b : boot) (cfg : WorkerAgentConfig) : start_error + option tls_config :=
  choose_transport (ClientTLSConfig b) (wc_TLSCertFile cfg) (wc_TLSKeyFile cfg) (wc_TLSCAFile cfg).

(** A serving scheduler: what its parts were configured with. *)
Record serving := mkServing {
  sv_pool : pool_config;
  sv_redis_addr : string;
  sv_transport : option tls_config;
  sv_grpc : Server;
  sv_leader_check : Z;
  sv_reaper_interval : Z; sv_reaper_timeout : Z;
  sv_retry_interval : Z;
  sv_metrics_interval : Z;
  sv_autoscaler : AutoscalerConfig; sv_autoscaler_interval : Z;
  sv_consumer : string;
  sv_grpc_addr : string; sv_http_addr : string;
  sv_jwt_secret : string }.

Definition assembled (cfg : SchedulerConfig) (pool : pool_config) (redis : string)
    (t : option tls_config) : serving :=
  mkServing pool redis t (grpc_server cfg) (2 * Second) (5 * Second)
    (sc_HeartbeatTimeoutSeconds cfg) (2 * Second) (10 * Second) DefaultAutoscalerConfig
    (15 * Second) "scheduler-leader" (sc_GRPCAddr cfg) (sc_HTTPAddr cfg) (sc_JWTSecret cfg).

Definition scheduler_main (env : environ) (b : boot) : prog (start_error + serving) :=
  match LoadSchedulerConfig env with
  | inl e => Ret (inl (InvalidConfig e))
  | inr cfg =>
  match NewPool b (sc_DatabaseURL cfg) with
  | inl e => Ret (inl e)
  | inr pool =>
  match NewClient b (sc_RedisAddr cfg) with
  | inl e => Ret (inl e)
  | inr redis =>
      let! groups := EnsureConsumerGroups in
      Ret (match groups with
           | Err _ => inl ConsumerGroups
           | Ok _ =>
               match grpc_transport b cfg with
               | inl e => inl e
               | inr t => if bo_listen b (sc_GRPCAddr cfg) then inr (assembled cfg pool redis t)
                          else inl BindGRPC
               end
           end)
  end end end.

(** isReady, for /readyz: what the two pings returned and the elector's flag. *)
Definition isReady (pg_ping redis_ping : result unit) (leaderElector : LeaderElector)
    : bool * bool * bool :=
  (is_ok pg_ping, is_ok redis_ping, IsLeader leaderElector).

(** ** What a serving scheduler has checked *)

(** The Redis calls of a run that failed. *)
Definition failed_call (ev : event) : bool :=
  match ev_call ev in call X return X -> bool with
  | Rd c => fun r => match r with Err _ => true | Ok _ => false end
  | _ => fun _ => false
  end (ev_reply ev).

Lemma create_groups_trace ps tr r :
  trace (create_groups ps) tr r -> is_ok r = negb (existsb failed_call tr).
Proof.
  revert tr. induction ps as [|p ps IH]; intros tr; [by intros [-> ->]|].
  cbn [create_groups]. unfold rdc, trigger. cbn [bind]. intros (x & tr' & -> & Ht).
  destruct x as [u|x]; [simpl; by apply IH|]. destruct Ht as [-> ->]. done.
Qed.

Lemma NewPool_ok b url : (exists p, NewPool b url = inr p) <->
  bo_url_ok b url = true /\ bo_pool_ok b = true /\ bo_pg_ping b = true.
Proof. unfold NewPool. split; [intros [p Hp]|intros (-> & -> & ->)]; repeat case_match; simplify_eq; eauto. Qed.

Lemma choose_transport_ok load cert key ca t : choose_transport load cert key ca = inr t ->
  (t <> None <-> cert <> "" /\ key <> "" /\ ca <> "") /\
  (forall c, t = Some c -> load cert key ca = inr c).
Proof. unfold choose_transport. intros Ht. case_decide; repeat case_match; naive_solver. Qed.

Lemma ServerTLSConfig_ok b cert key ca c : ServerTLSConfig b cert key ca = inr c ->
  tc_RequireAndVerifyClientCert c = true /\ tc_ClientCAs c = bo_read b ca /\ tc_ClientCAs c <> None.
Proof. unfold ServerTLSConfig, loadCAPool. intros. repeat case_match; by simplify_eq. Qed.

Lemma LoadSchedulerConfig_secret env cfg : LoadSchedulerConfig env = inr cfg ->
  sc_JWTSecret cfg = env "FLEETFORGE_JWT_SECRET".
Proof. unfold LoadSchedulerConfig. intros. repeat case_match; by simplify_eq. Qed.

(** main by cases: which check decided. *)
Lemma scheduler_main_cases env b tr r :
  trace (scheduler_main env b) tr r ->
  (exists e, LoadSchedulerConfig env = inl e /\ r = inl (InvalidConfig e)) \/
  exists cfg, LoadSchedulerConfig env = inr cfg /\
  ((exists e, NewPool b (sc_DatabaseURL cfg) = inl e /\ r = inl e) \/
   exists pool, NewPool b (sc_DatabaseURL cfg) = inr pool /\
   ((bo_redis_ping b (sc_RedisAddr cfg) = false /\ r = inl PingRedis) \/
    bo_redis_ping b (sc_RedisAddr cfg) = true /\
    ((existsb failed_call tr = true /\ r = inl ConsumerGroups) \/
     existsb failed_call tr = false /\
     ((exists e, grpc_transport b cfg = inl e /\ r = inl e) \/
      exists t, grpc_transport b cfg = inr t /\
      ((bo_listen b (sc_GRPCAddr cfg) = false /\ r = inl BindGRPC) \/
       bo_listen b (sc_GRPCAddr cfg) = true /\
       r = inr (assembled cfg pool (sc_RedisAddr cfg) t)))))).
Proof.
  unfold scheduler_main. intros Ht.
  destruct (LoadSchedulerConfig env) as [e|cfg]; [destruct Ht as [-> ->]; eauto|]. right.
  exists cfg. split; [done|].
  destruct (NewPool b (sc_DatabaseURL cfg)) as [e|pool]; [destruct Ht as [-> ->]; eauto|]. right.
  exists pool. split; [done|]. unfold NewClient in Ht.
  destruct (bo_redis_ping b (sc_RedisAddr cfg)); [|destruct Ht as [-> ->]; eauto]. right.
  split; [done|]. apply trace_bind in Ht as (tr1 & tr2 & g & -> & Hg & [-> ->]).
  rewrite app_nil_r. pose proof (create_groups_trace _ _ _ Hg) as Hf.
  destruct g; simpl in Hf; symmetry in Hf;
    [apply negb_true_iff in Hf; right|apply negb_false_iff in Hf; by left].
  split; [done|]. destruct (grpc_transport b cfg) as [e|t]; [eauto|]. right.
  exists t. split; [done|]. destruct (bo_listen b (sc_GRPCAddr cfg)); auto.
Qed.

(** A serving scheduler passed every check. *)
Lemma scheduler_main_serves env b tr s :
  trace (scheduler_main env b) tr (inr s) ->
  exists cfg pool t, LoadSchedulerConfig env = inr cfg /\
    NewPool b (sc_DatabaseURL cfg) = inr pool /\ bo_redis_ping b (sc_RedisAddr cfg) = true /\
    existsb failed_call tr = false /\ grpc_transport b cfg = inr t /\
    bo_listen b (sc_GRPCAddr cfg) = true /\ s = assembled cfg pool (sc_RedisAddr cfg) t.
Proof.
  intros [(e & _ & E)|(cfg & Hc & [(e & _ & E)|(pool & Hp & [[_ E]|[Hr [[_ E]|[Hf
    [(e & _ & E)|(t & Hg & [[_ E]|[Hl E]])]]]]])])]%scheduler_main_cases; try discriminate.
  injection E as ->. exists cfg, pool, t. done.
Qed.

(** C39: when the scheduler serves.  main reaches the point of serving exactly
    when the configuration is valid, Postgres and Redis both answer, every
    consumer group could be created or existed, the TLS files load if all three
    are configured, and the gRPC address can be bound.  It then uses TLS exactly
    when all three files are configured, and with TLS it requires a client
    certificate signed by the configured CA; the REST secret is the configured
    one.  So an unreachable Redis stops the scheduler from starting, although
    config.go says that it does not. *)
Theorem scheduler_starts_iff (env : environ) (b : boot) tr r :
  trace (scheduler_main env b) tr r ->
  ((exists s, r = inr s) <->
   exists cfg, LoadSchedulerConfig env = inr cfg /\
     (bo_url_ok b (sc_DatabaseURL cfg) = true /\ bo_pool_ok b = true /\ bo_pg_ping b = true) /\
     bo_redis_ping b (sc_RedisAddr cfg) = true /\ existsb failed_call tr = false /\
     (exists t, grpc_transport b cfg = inr t) /\ bo_listen b (sc_GRPCAddr cfg) = true) /\
  (forall cfg s, LoadSchedulerConfig env = inr cfg -> r = inr s ->
     (sv_transport s <> None <->
      sc_TLSCertFile cfg <> "" /\ sc_TLSKeyFile cfg <> "" /\ sc_TLSCAFile cfg <> "") /\
     (forall t, sv_transport s = Some t -> tc_RequireAndVerifyClientCert t = true /\
        tc_ClientCAs t = bo_read b (sc_TLSCAFile cfg) /\ tc_ClientCAs t <> None) /\
     sv_jwt_secret s = env "FLEETFORGE_JWT_SECRET") /\
  (forall cfg, LoadSchedulerConfig env = inr cfg -> bo_redis_ping b (sc_RedisAddr cfg) = false ->
     exists e, r = inl e).
Proof.
  intros Ht. split; [|split].
  - setoid_rewrite <- NewPool_ok. split.
    + intros [s ->]. apply scheduler_main_serves in Ht as (cfg & pool & t & Hall).
      exists cfg. destruct_and! Hall. eauto 10.
    + intros (cfg & Hc & [pool Hp] & Hr & Hf & [t Hg] & Hl).
      apply scheduler_main_cases in Ht. naive_solver congruence.
  - intros cfg s Hc ->. apply scheduler_main_serves in Ht as (cfg' & pool & t & Hall).
    destruct_and! Hall. assert (cfg' = cfg) as -> by congruence. subst s.
    destruct (choose_transport_ok (ServerTLSConfig b) (sc_TLSCertFile cfg) (sc_TLSKeyFile cfg)
      (sc_TLSCAFile cfg) t) as [Hiff Hload]; [done|].
    split; [done|]. split; [|by apply LoadSchedulerConfig_secret].
    intros c Hs. by eapply ServerTLSConfig_ok, Hload.
  - intros cfg Hc Hr. destruct r as [e|s]; [by exists e|].
    apply scheduler_main_serves in Ht as (cfg' & pool & t & Hall). destruct_and! Hall. congruence.
Qed.

(** ** cmd/worker-agent: main up to the heartbeat stream *)
Inductive agent_start_error :=
  | AgentConfig (e : config_error)
  | AgentTLS (e : start_error)
  | Dial
  | RegistrationFailed.

(** [register]: the RegisterWorker call, None on an error. *)
Definition worker_agent_main (ParseFloat : string -> option spec_float) (env : environ)
    (hostname : option string) (b : boot) (dial : string -> option tls_config -> bool)
    (register : RegisterWorkerRequest -> option RegisterWorkerResponse)
    : agent_start_error + heartbeatDeps :=
  match LoadWorkerAgentConfig ParseFloat env hostname with
  | inl e => inl (AgentConfig e)
  | inr cfg =>
  match agent_transport b cfg with
  | inl e => inl (AgentTLS e)
  | inr t =>
  if dial (wc_SchedulerGRPCAddr cfg) t then
    match register (register_request cfg) with
    | None => inl RegistrationFailed
    | Some resp => inr (agent_deps resp (wc_CapacitySlots cfg))
    end
  else inl Dial
  end end.

(** An agent that reaches its heartbeat loop has registered exactly once, with
    the configuration it read, and heartbeats under the identity and epoch of
    that registration at a positive interval and capacity. *)
Lemma worker_agent_main_ok ParseFloat env hostname b dial register d :
  worker_agent_main ParseFloat env hostname b dial register = inr d ->
  exists cfg resp, LoadWorkerAgentConfig ParseFloat env hostname = inr cfg /\
    register (register_request cfg) = Some resp /\
    d_workerID d = rs_worker_id resp /\ d_epoch d = rs_epoch resp /\
    0 < d_interval d /\ 0 < d_capacitySlots d.
Proof.
  unfold worker_agent_main. intros H. repeat case_match; simplify_eq.
  eexists _, _. split_and!; [done..| |]; cbn [d_interval d_capacitySlots agent_deps].
  - unfold heartbeat_interval, Second. case_match; lia.
  - unfold clamp_slots. case_match; lia.
Qed.

(** ** Witness: a local environment with everything reachable *)
Definition local_env : environ := fun k =>
  if decide (k = "FLEETFORGE_DATABASE_URL") then "postgres://localhost/fleetforge" else "".
Definition all_up : boot :=
  mkBoot (fun _ => true) true true (fun _ => true) (fun _ _ => true) (fun _ => Some "pem")
    (fun _ => true) (fun _ => true).
Definition start_oracle : oracle := fun _ => env_at 0 "".
Definition empty_world : world := mkWorld MemRedis empty_db mem_empty ∅ [].

Lemma scheduler_starts_iff_witness :
  exists s, (run (scheduler_main local_env all_up) start_oracle empty_world).1 = inr s.
Proof.
  apply (scheduler_starts_iff local_env all_up
    (events (scheduler_main local_env all_up) start_oracle empty_world)
    (run (scheduler_main local_env all_up) start_oracle empty_world).1).
  - apply events_trace.
  - eexists. split; [vm_compute; reflexivity|]. split; [done|]. split; [reflexivity|].
    split; [vm_compute; reflexivity|]. split; [eexists; reflexivity|reflexivity].
Defined.
