(* ===== verification/Races.v ===== *)
(** * Interleavings of concurrent requests

    A schedule is a list of moves: start a request, or let one of the requests
    in flight make its next calls.  [interleave] plays it; what it reaches is
    reachable in the system.  The theorems are executions in which two requests
    overlap: a worker is given more jobs than it has slots, and one
    idempotency key creates two jobs. *)
From S2P Require Import Prelude GoStrings Database WorkerStore JobStore Lifecycle Invariant.
From S2P Require Import StoreSound Redis Effects Stores Loop Reaper RetryPoller GrpcServer.
From S2P Require Import Autoscaler Api System Scenario Capacity.
Local Open Scope Z_scope.

(** ** Schedules *)
Inductive move :=
  | Start (p : prog unit)
  | Calls (i n : nat) (e : env).     (** program [i] makes up to [n] calls *)

Section interleave.
Context `{Redis} `{BackendLaws}.

Fixpoint calls_of (p : prog unit) (n : nat) (e : env) (w : world) : prog unit * world :=
  match n, p with
  | S m, Call c k => calls_of (k (handle c e w).1) m e (handle c e w).2
  | _, _ => (p, w)
  end.

Definition play_move (c : config) (m : move) : config :=
  match m with
  | Start p => (c.1 ++ [p], c.2)
  | Calls i n e =>
      match c.1 !! i with
      | Some p => let '(p', w') := calls_of p n e c.2 in (<[i := p']> c.1, w')
      | None => c
      end
  end.

Definition interleave (ms : list move) (c : config) : config := foldl play_move c ms.

Definition starts_request (m : move) : Prop :=
  match m with Start p => request p | Calls _ _ _ => True end.

Lemma calls_of_steps ps1 ps2 p n e w :
  rtc sys_step (ps1 ++ p :: ps2, w)
    (ps1 ++ (calls_of p n e w).1 :: ps2, (calls_of p n e w).2).
Proof.
  revert p w. induction n as [|n IH]; intros [a|X c k] w; simpl; try done.
  eapply rtc_l; [apply sys_call, pool_call|]. apply IH.
Qed.

Lemma play_move_steps c m : starts_request m -> rtc sys_step c (play_move c m).
Proof.
  destruct c as [ps w], m as [p|i n e]; simpl; intros Hm.
  - by apply rtc_once, sys_start.
  - destruct (ps !! i) as [p|] eqn:Hp; [|done]. rewrite <- (take_drop_middle ps i p Hp) at 1.
    destruct (calls_of p n e w) as [p' w'] eqn:E.
    pose proof (calls_of_steps (take i ps) (drop (S i) ps) p n e w) as Hs. rewrite E in Hs.
    rewrite insert_take_drop by (by apply lookup_lt_Some in Hp). exact Hs.
Qed.

Lemma interleave_reachable ms c :
  Forall starts_request ms -> reachable c -> reachable (interleave ms c).
Proof.
  revert c. induction ms as [|m ms IH]; intros c Hm Hc; [done|].
  apply list.Forall_cons in Hm as [Hs Hm]. apply IH; [done|].
  destruct Hc as (c0 & Hi & Hr). exists c0. split; [done|].
  etransitivity; [exact Hr|]. by apply play_move_steps.
Qed.
End interleave.

(** ** Freeing a worker that was reaped meanwhile *)

Definition at_time (t : Z) (uuid : string) : env := env_at (t * Second) uuid.

(** A worker with a single slot, and jobs submitted without a key. *)
Definition register_single : RegisterWorkerRequest :=
  mkRegisterWorkerRequest "host-a" "instance-a" "linux" 4 8192 None (Some ["docker"]) "1.0" 1.
Definition submit_plain (sha : string) : prog unit :=
  ignore (SubmitJob no_time_format
    (Some (mkSubmitJobRequest (Some 3) "repo" "main" sha None None 2 ""))).
Definition report_success : prog unit :=
  ignore (ReportJobResult (mkReportJobResultRequest "j-1" 1 JOB_STATUS_SUCCESS 0 "log-1" "")).
Definition ready_heartbeat : prog unit :=
  ignore (handleHeartbeat server (mkHeartbeatRequest "w-a" 1 WORKER_STATUS_READY None 1)).

(** The report has recorded its result and a heartbeat has passed its epoch
    check when the reaper's sweep marks the worker dead; then both go on. *)
Definition race : list move :=
  [Start (ignore (RegisterWorker server register_single)); Calls 0 99 (at_time 1 "w-a");
   Start (submit_plain "a"); Calls 1 99 (at_time 2 "j-1");
   Start (run_turn true); Calls 2 99 (at_time 3 "");
   Start report_success; Calls 3 2 (at_time 40 "");
   Start ready_heartbeat; Calls 4 3 (at_time 40 "");
   Start (reaper_tick true 30); Calls 5 99 (at_time 40 "");
   Calls 4 99 (at_time 41 "");
   Start (submit_plain "b"); Calls 6 99 (at_time 42 "j-2");
   Start (run_turn true); Calls 7 99 (at_time 43 "")].
Definition race_end : list move :=
  [Calls 3 99 (at_time 44 "");
   Start (submit_plain "c"); Calls 8 99 (at_time 45 "j-3");
   Start (run_turn true); Calls 9 99 (at_time 46 "")].

Definition raced : config := interleave race ([], start_world).
Definition overcommitted : config := interleave race_end raced.

Lemma start_requests_race : Forall starts_request race.
Proof. by repeat constructor. Qed.
Lemma start_requests_race_end : Forall starts_request race_end.
Proof. by repeat constructor. Qed.

Lemma raced_reachable : reachable raced.
Proof. apply interleave_reachable; [apply start_requests_race|apply start_reachable]. Qed.

Definition slots_of (c : config) : option (worker_status * Z * Z) :=
  (fun w => (w_status w, w_capacity_slots w, w_available_capacity w)) <$> workers (w_db c.2) !! "w-a".

(** A report and a heartbeat overlapping the reaper's sweep over-commit a
    worker.  A heartbeat that passed its epoch check before the sweep sets the
    row of the DEAD worker back to READY, and FreeWorker, which guards on the
    epoch only, adds a slot after MarkDeadAndRequeue has already given all
    slots back; FreeWorker's comment says the epoch is all it needs to check.
    In a reachable state a worker that registered one slot holds two jobs under
    its current epoch. *)
Theorem race_overcommits_worker :
  reachable overcommitted /\
  slots_of (interleave (take 12 race) ([], start_world)) = Some (DEAD, 1, 1) /\
  slots_of (interleave (take 13 race) ([], start_world)) = Some (READY, 1, 1) /\
  slots_of overcommitted = Some (BUSY, 1, 0) /\
  used_slots "w-a" 1 (jobs (w_db overcommitted.2)) = 2 /\
  map j_status (omap (fun k => jobs (w_db overcommitted.2) !! k) ["j-2"; "j-3"]) = [ASSIGNED; ASSIGNED].
Proof.
  split; [apply interleave_reachable; [apply start_requests_race_end|apply raced_reachable]|].
  vm_compute. repeat split; reflexivity.
Qed.

(** ** Two submissions with one key *)
Definition keyed_submission : prog unit := ignore (SubmitJob no_time_format (Some submit_build)).
Definition double_submit : list move :=
  [Start keyed_submission; Calls 0 1 (at_time 2 "");
   Start keyed_submission; Calls 1 99 (at_time 2 "j-1");
   Calls 0 99 (at_time 3 "j-2")].
Definition submitted_twice : config := interleave double_submit ([], start_world).

(** Overlapping submissions with one idempotency key create two jobs.
    Create looks the key up and inserts in two statements, and the unique index
    includes created_at, so it does not reject the second insert, although
    docs/06 9 relies on it.  In a reachable state two jobs with the same key
    are QUEUED, each with its own stream entry. *)
Theorem concurrent_submissions_duplicate :
  reachable submitted_twice /\
  map (fun j => (j_status j, j_idempotency_key j))
    (omap (fun k => jobs (w_db submitted_twice.2) !! k) ["j-1"; "j-2"]) =
  [(QUEUED, Some "key-1"); (QUEUED, Some "key-1")] /\
  omap (fun m => xm_Values m !! "job_id")
    (default [] (m_new (w_redis submitted_twice.2) !! "queue:jobs:p3")) = ["j-1"; "j-2"].
Proof.
  split; [apply interleave_reachable; [by repeat constructor|apply start_reachable]|].
  vm_compute. repeat split; reflexivity.
Qed.
