(* ===== verification/Outage.v ===== *)
(** * Outages of Redis and of Postgres (docs/06-failure-scenarios.md 4 and 5)

    The rule of that document is that Postgres transactions are the only place
    correctness lives.  For Redis it becomes a noninterference theorem: a
    program whose continuation never looks at a Redis reply returns the same
    result and leaves the same database whatever Redis contains and however it
    fails.  Heartbeats do read Redis; their behaviour without Redis, and
    without Postgres, is described separately. *)
From S2P Require Import Prelude GoStrings Database WorkerStore JobStore Lifecycle Invariant.
From S2P Require Import StoreSound Redis Effects Stores CacheProps Loop Reaper RetryPoller GrpcServer.
From S2P Require Import Autoscaler Api System Scenario StoreProps SchedulerProps GrpcProps Handshake.
Local Open Scope Z_scope.
#[local] Arguments run : simpl never.

(** ** Programs that ignore what Redis answers *)
Fixpoint oblivious {A} (p : prog A) : Prop :=
  match p with
  | Ret _ => True
  | @Call _ X c k =>
      match c in call X return (X -> prog A) -> Prop with
      | Rd _ => fun k => forall x y, k x = k y
      | _ => fun _ => True
      end k /\ forall x, oblivious (k x)
  end.

Lemma oblivious_bind {A B} (p : prog A) (f : A -> prog B) :
  oblivious p -> (forall a, oblivious (f a)) -> oblivious (bind p f).
Proof.
  intros Hp Hf. induction p as [a|X c k IH]; simpl; [done|]. destruct Hp as [Hc Hk].
  split; [|auto]. destruct c; try done. intros x y. by rewrite (Hc x y).
Qed.

Lemma oblivious_for_each {A} (l : list A) body :
  (forall a, oblivious (body a)) -> oblivious (for_each l body).
Proof. intros Hb. induction l; simpl; [done|]. by apply oblivious_bind. Qed.

(** An environment with another fault of Redis; no statement can tell. *)
Definition set_redis (f : fault) (e : env) : env :=
  mkEnv (pg_now e) (go_now e) (new_uuid e) (env_fault e) f (scan e) (scan_perm e).

Definition blind {A} (m : stmt A) : Prop := forall f e d, m (set_redis f e) d = m e d.

Lemma blind_bind {A B} (m : stmt A) (k : A -> stmt B) :
  blind m -> (forall a, blind (k a)) -> blind (sbind m k).
Proof. intros Hm Hk f e d. unfold sbind. rewrite Hm. repeat case_match; [apply Hk|done]. Qed.

Lemma blind_begin {A} (m : stmt A) : blind m -> blind (BeginFunc m).
Proof. intros Hm f e d. unfold BeginFunc. by rewrite Hm. Qed.

Lemma blind_iter {A} (m : A -> stmt unit) l : (forall a, blind (m a)) -> blind (siter m l).
Proof. intros Hm. induction l; [done|]. by apply blind_bind. Qed.

Ltac solve_blind :=
  repeat first [ solve [intros ? ? ?; reflexivity] | apply blind_bind | apply blind_begin
               | apply blind_iter | progress intros | case_match ].

Lemma exec_pg_blind {A} (c : pg A) : blind (exec_pg c).
Proof.
  destruct c; cbn [exec_pg]; try solve [intros ? ? ?; reflexivity].
  - unfold UpdateHeartbeatRow, check_current_job_fk. intros f e d. case_match; [|done].
    match goal with |- BeginFunc ?m _ _ = _ => apply (blind_begin m) end. solve_blind.
  - unfold MarkDeadAndRequeue, requeue_job. solve_blind.
  - intros f e d. unfold AssignJob. rewrite (blind_begin (assign_body _ _ _ _)); [done|].
    unfold assign_body, check_current_job_fk. solve_blind.
  - unfold FreeWorker. solve_blind.
  - unfold RequestDrain, drain_update. solve_blind.
  - unfold ResumeDrain, drain_update. solve_blind.
  - unfold RetryOrFail. solve_blind.
Qed.

(** The environments of [o] with Redis's faults replaced by [f]. *)
Definition with_redis (f : nat -> fault) (o : oracle) : oracle := fun n => set_redis (f n) (o n).

Section oblivious.
Context `{Redis}.

(** Worlds that agree on Postgres. *)
Definition same_db (w w' : world) : Prop := w_db w = w_db w'.

Lemma handle_same {X} (c : call X) f g o w w' :
  same_db w w' ->
  same_db (handle c (with_redis f o 0%nat) w).2 (handle c (with_redis g o 0%nat) w').2 /\
  match c in call X return X -> X -> Prop with
  | Rd _ => fun _ _ => True
  | _ => eq
  end (handle c (with_redis f o 0%nat) w).1 (handle c (with_redis g o 0%nat) w').1.
Proof.
  unfold same_db. intros Hd. destruct c as [B c|B c| | |]; simpl; try done.
  - rewrite Hd. unfold with_fault, with_redis. rewrite !exec_pg_blind. cbn [set_redis env_fault].
    by destruct (env_fault (o 0%nat)), (exec_pg c (o 0%nat) (w_db w')).
  - by repeat case_match.
Qed.

Lemma oblivious_run {A} (p : prog A) f g o w w' :
  oblivious p -> same_db w w' ->
  (run p (with_redis f o) w).1 = (run p (with_redis g o) w').1 /\
  same_db (run p (with_redis f o) w).2 (run p (with_redis g o) w').2.
Proof.
  revert f g o w w'. induction p as [a|X c k IH]; intros f g o w w' Hp Hd; [done|].
  destruct Hp as [Hc Hk]. rewrite !run_call.
  destruct (handle_same c f g o w w' Hd) as [Hd' Hx].
  destruct (handle c (with_redis f o 0%nat) w) as [x w1], (handle c (with_redis g o 0%nat) w') as [y w1'].
  simpl in Hd', Hx. assert (Hkxy : k x = k y) by (destruct c; solve [by subst|apply Hc]).
  cbn [fst snd]. rewrite <- Hkxy.
  exact (IH x (fun n => f (S n)) (fun n => g (S n)) (fun n => o (S n)) w1 w1' (Hk x) Hd').
Qed.
End oblivious.

(** ** The operations Postgres decides *)
Inductive decided_by_postgres : forall A, prog A -> Prop :=
  | dec_register s r : decided_by_postgres _ (RegisterWorker s r)
  | dec_report r : decided_by_postgres _ (ReportJobResult r)
  | dec_submit fmt r : decided_by_postgres _ (SubmitJob fmt r)
  | dec_get fmt k : decided_by_postgres _ (GetJob fmt k)
  | dec_list_jobs fmt s r w : decided_by_postgres _ (ListJobs fmt s r w)
  | dec_list_workers fmt s : decided_by_postgres _ (ListWorkers fmt s)
  | dec_drain w : decided_by_postgres _ (DrainWorker w)
  | dec_resume w : decided_by_postgres _ (ResumeWorker w)
  | dec_message k m : decided_by_postgres _ (processMessage k m)
  | dec_sweep t : decided_by_postgres _ (sweep t)
  | dec_poll : decided_by_postgres _ poll
  | dec_autoscale cfg a : decided_by_postgres _ (autoscale_tick cfg a).

Ltac solve_oblivious :=
  repeat first [ progress simpl | apply oblivious_bind | apply oblivious_for_each | split | done
               | progress intros | case_match ].

Lemma decided_oblivious {A} (p : prog A) : decided_by_postgres A p -> oblivious p.
Proof.
  destruct 1.
  - unfold RegisterWorker. solve_oblivious.
  - unfold ReportJobResult, finish_report, free_worker, record_result. solve_oblivious.
  - unfold SubmitJob, Create. solve_oblivious.
  - by simpl.
  - by simpl.
  - by simpl.
  - unfold DrainWorker, drain_reply, syncDrainToCache. solve_oblivious.
  - unfold ResumeWorker, drain_reply, syncDrainToCache. solve_oblivious.
  - unfold processMessage, ack. solve_oblivious.
  - unfold sweep, reap_one. solve_oblivious.
  - unfold poll, requeue_due. solve_oblivious.
  - unfold autoscale_tick, doScaleDown. solve_oblivious.
Qed.

(** C8: Redis cannot change an outcome.  Registering, reporting a result,
    submitting, reading, draining and resuming, scheduling a queue entry that
    has been read, reaping, polling retries and autoscaling return the same
    answer and leave the same rows in Postgres whatever Redis contains and
    whichever of its calls fail or lose their reply; Postgres's own faults,
    clocks, ids and scan orders are arbitrary and the same in both runs. *)
Theorem redis_cannot_change_outcome `{Redis} {A} (p : prog A) (f g : nat -> fault) (o : oracle)
    (w w' : world) :
  decided_by_postgres A p -> w_db w = w_db w' ->
  (run p (with_redis f o) w).1 = (run p (with_redis g o) w').1 /\
  w_db (run p (with_redis f o) w).2 = w_db (run p (with_redis g o) w').2.
Proof. intros Hp Hd. by apply oblivious_run; [apply decided_oblivious|]. Qed.

(** The result of the scenario's job reported with Redis up, and with Redis
    down after losing its contents. *)
Definition emptied (w : world) : world :=
  mkWorld MemRedis (w_db w) mem_empty (w_counters w) (w_observations w).

Lemma emptied_db w : w_db (emptied w) = w_db w.
Proof. done. Qed.

Lemma redis_cannot_change_outcome_witness :
  (run (ReportJobResult (report_failure 1)) (with_redis (fun _ => NoFault) (calm 5 "")) running_world).1 =
  (run (ReportJobResult (report_failure 1)) (with_redis (fun _ => LostRequest) (calm 5 ""))
     (emptied running_world)).1.
Proof.
  apply (redis_cannot_change_outcome (ReportJobResult (report_failure 1)) (fun _ => NoFault)
    (fun _ => LostRequest) (calm 5 "") running_world (emptied running_world)).
  - constructor.
  - symmetry. apply emptied_db.
Defined.

(** ** The heartbeat's write to Postgres *)
Section heartbeats.
Context `{Redis}.

Lemma run_rd_lost {A B} (c : rd A) (k : result A -> prog B) o w :
  redis_fault (o 0%nat) = LostRequest ->
  run (Call (Rd c) k) o w = run (k (Err ErrDriver)) (later o 1) w.
Proof. intros E. rewrite run_call. simpl. rewrite E. by destruct w. Qed.

Lemma run_pg_lost {A B} (c : pg A) (k : result A -> prog B) o w :
  env_fault (o 0%nat) = LostRequest ->
  run (Call (Pg c) k) o w = run (k (Err ErrDriver)) (later o 1) w.
Proof. intros E. rewrite run_call. simpl. rewrite E. by destruct w. Qed.

(** The row a heartbeat leaves. *)
Definition heartbeat_row (s : worker_status) (cj : option (string * Z)) (t : Z) (r : worker_row)
    : worker_row :=
  w_set_updated_at t (w_set_last_heartbeat (Some t) (w_set_current_job cj (w_set_status s r))).

(** The worker's row shows the heartbeat: its status and job, at time [t]. *)
Definition shows_heartbeat (k ns j : string) (r : worker_row) (w : world) : Prop :=
  exists s cj t, worker_status_of_text ns = Ok s /\ fst <$> cj = ptr_of_string j /\
    workers (w_db w) !! k = Some (heartbeat_row s cj t r).

Lemma workerStatusToDB_valid n : exists s, worker_status_of_text (workerStatusToDB n) = Ok s.
Proof. unfold workerStatusToDB. repeat case_match; by eexists. Qed.

Lemma UpdateHeartbeatRow_run k ep ns s cj e d r :
  worker_status_of_text ns = Ok s -> workers d !! k = Some r -> w_epoch r = ep ->
  (forall id t, cj = Some (id, t) -> exists j, jobs d !! id = Some j /\ j_created_at j = t) ->
  UpdateHeartbeatRow k ep ns cj e d =
    (Ok true, set_workers (<[k := heartbeat_row s cj (pg_now e) r]> (workers d)) d).
Proof.
  intros Hs Hr He Hcj. destruct (UpdateHeartbeatRow_cases k ep ns cj e d)
    as [(x & E & Hx)|(s' & r' & ? & ? & ? & _ & E)]; [|rewrite E; unfold heartbeat_row; congruence].
  exfalso. apply Hx. revert E. unfold UpdateHeartbeatRow. rewrite Hs. run_stmt.
  unfold update_worker, update_where. rewrite Hr, He, Z.eqb_refl. unfold check_current_job_fk.
  destruct cj as [[id t]|]; simpl; [|congruence].
  destruct (Hcj id t eq_refl) as (j & Hj & Ht). rewrite Hj, bool_decide_eq_true_2 by done. congruence.
Qed.

Lemma UpdateHeartbeat_writes k ep ns j o w r :
  pg_reliable o -> workers (w_db w) !! k = Some r -> w_epoch r = ep ->
  (exists s, worker_status_of_text ns = Ok s) -> (j = "" \/ is_Some (jobs (w_db w) !! j)) ->
  let res := run (UpdateHeartbeat k ep ns (ptr_of_string j)) o w in
  res.1 = Ok true /\ shows_heartbeat k ns j r res.2.
Proof.
  intros Ho Hr He [s Hs] Hj res. subst res. unfold UpdateHeartbeat, ptr_of_string.
  case_decide as Hd.
  - cbn [bind]. unfold pgc, trigger. rewrite run_pg by apply Ho. cbn [exec_pg].
    erewrite UpdateHeartbeatRow_run by done. split; [done|].
    exists s, None, (pg_now (o 0%nat)). split; [done|].
    split; [unfold ptr_of_string; by rewrite decide_True|]. apply lookup_insert_eq.
  - destruct Hj as [?|[jr Hj]]; [done|]. unfold pgc, trigger. cbn [bind].
    rewrite run_pg by apply Ho. cbn [exec_pg]. unfold SelectJobCreatedAt at 1 2 3 4.
    rewrite !Hj. cbn [fst snd bind]. rewrite run_pg by apply Ho. cbn [exec_pg w_db].
    erewrite UpdateHeartbeatRow_run; [|done..|intros ? ? ?; simplify_eq; eauto]. split; [done|].
    eexists s, _, _. split; [done|]. split; [|apply lookup_insert_eq].
    unfold ptr_of_string. by rewrite decide_False.
Qed.

(** Due for a flush: a miss, a status change, or the coalescing window is over. *)
Definition flush_due (f : bool) (c : WorkerState) (ns : string) (o : oracle) : Prop :=
  f = false \/ ns <> ws_Status c \/
  forall n, pgFlushCoalesceSeconds <= int64 (unix (go_now (o n)) - ws_LastPGFlushUnix c).

Lemma flush_writes k f c ep ns j o w r :
  pg_reliable o -> workers (w_db w) !! k = Some r -> w_epoch r = ep ->
  (exists s, worker_status_of_text ns = Ok s) -> (j = "" \/ is_Some (jobs (w_db w) !! j)) ->
  flush_due f c ns o ->
  shows_heartbeat k ns j r (run (flush_heartbeat k f c ep ns j) o w).2.
Proof.
  intros Ho Hr He Hs Hj Hdue. unfold flush_heartbeat.
  assert (Hup : forall o', pg_reliable o' -> shows_heartbeat k ns j r
    (run (let! r := UpdateHeartbeat k ep ns (ptr_of_string j) in
          match r with
          | Ok _ => let! now := trigger TimeNow in Ret (unix now)
          | Err _ => Ret (ws_LastPGFlushUnix c)
          end) o' w).2).
  { intros o' Ho'. destruct (events_bind (UpdateHeartbeat k ep ns (ptr_of_string j))
      (fun r => match r with Ok _ => let! now := trigger TimeNow in Ret (unix now)
                | Err _ => Ret (ws_LastPGFlushUnix c) end) o' w) as (n & -> & _).
    destruct (UpdateHeartbeat_writes k ep ns j o' w r Ho' Hr He Hs Hj) as [E Hsh].
    by rewrite E. }
  destruct f; [|simpl; by apply Hup]. cbn [andb]. unfold trigger at 1. cbn [bind].
  rewrite run_call. cbn [handle fst snd].
  case_match eqn:E; [apply Hup; auto with fleet|]. exfalso.
  apply orb_false_iff in E as [E1%negb_false_iff%bool_decide_eq_true E2%Z.leb_gt].
  destruct Hdue as [?|[?|Hw]]; [done|done|]. specialize (Hw 0%nat). lia.
Qed.
End heartbeats.

Definition redis_down (o : oracle) : Prop := forall n, redis_fault (o n) = LostRequest.
Definition postgres_down (o : oracle) : Prop := forall n, env_fault (o n) = LostRequest.

(** The MarkRunning call a heartbeat may make. *)
Definition mark_running (ns j : string) (ep : Z) : prog unit :=
  if bool_decide (ns = "BUSY") && negb (bool_decide (j = "")) then pgc (PgMarkRunning j ep) >> Ret tt
  else Ret tt.

Section redis_outage.
Context `{Redis}.

Lemma mark_running_keeps ns j ep o w :
  pg_reliable o ->
  let w' := (run (mark_running ns j ep) o w).2 in
  workers (w_db w') = workers (w_db w) /\
  (forall k, is_Some (jobs (w_db w) !! k) -> is_Some (jobs (w_db w') !! k)).
Proof.
  intros Ho w'. subst w'. unfold mark_running. case_match; [|done].
  unfold pgc, trigger. cbn [bind]. rewrite run_pg by apply Ho. cbn [exec_pg].
  destruct (MarkRunning_cases j ep (o 0%nat) (w_db w)) as [E|(j' & Hj & _ & _ & E)];
    rewrite !E; [done|]. split; [done|]. intros k Hk. simpl.
  rewrite lookup_insert_is_Some'. by right.
Qed.

Lemma heartbeat_miss s req o w r :
  redis_fault (o 0%nat) = LostRequest -> env_fault (o 1%nat) = NoFault -> hb_worker_id req <> "" ->
  workers (w_db w) !! hb_worker_id req = Some r -> worker_gone (w_status r) = false ->
  w_epoch r = hb_epoch req ->
  run (handleHeartbeat s req) o w =
  run (heartbeat_accepted s req false zero_state (w_drain_requested r)) (later o 2) w.
Proof.
  intros Hr Hp Hid Hw Hg He. unfold handleHeartbeat. rewrite decide_False by done.
  unfold GetState, rdc, trigger. cbn [bind]. rewrite run_rd_lost by done. cbn [bind cached_state].
  unfold known_epoch, pgc, trigger. cbn [bind]. rewrite run_pg by done. cbn [exec_pg].
  unfold GetEpochAndStatus. rewrite !Hw. cbn [fst snd bind].
  rewrite decide_False by (intros [E|E]; destruct (w_status r); done). cbn [bind].
  rewrite decide_False by (rewrite He; auto). rewrite He. by destruct w.
Qed.

Lemma accepted_without_redis s req o w r drain :
  redis_down o -> pg_reliable o ->
  workers (w_db w) !! hb_worker_id req = Some r -> w_epoch r = hb_epoch req ->
  (forall j, hb_current_job_id req = Some j -> j = "" \/ is_Some (jobs (w_db w) !! j)) ->
  let res := run (heartbeat_accepted s req false zero_state drain) o w in
  res.1 = Reply (mkHeartbeatResponse true None drain) /\
  shows_heartbeat (hb_worker_id req) (workerStatusToDB (hb_status req))
    (string_of_ptr (hb_current_job_id req)) r res.2.
Proof.
  intros Hrd Hpg Hw He Hj res. subst res. unfold heartbeat_accepted, pending_assignment.
  cbn [andb bind]. set (ns := workerStatusToDB (hb_status req)).
  set (j := string_of_ptr (hb_current_job_id req)). fold (mark_running ns j (hb_epoch req)).
  match goal with |- context [run (bind ?p ?k) o w] =>
    destruct (events_bind p k o w) as (n & -> & _) end.
  destruct (mark_running_keeps ns j (hb_epoch req) o w Hpg) as [Ew Ej].
  set (w1 := (run (mark_running ns j (hb_epoch req)) o w).2) in *.
  match goal with |- context [run (bind ?p ?k) ?o1 w1] =>
    destruct (events_bind p k o1 w1) as (m & -> & _) end.
  unfold SetState, SetAlive, rdc, trigger. cbn [bind]. rewrite !run_rd_lost by apply Hrd.
  split; [done|]. apply flush_writes; [auto with fleet|by rewrite Ew|done|
    apply workerStatusToDB_valid| |by left].
  subst j. destruct (hb_current_job_id req) as [jid|]; [|by left].
  destruct (Hj jid eq_refl); [by left|right; auto].
Qed.

(** Heartbeats without Redis.  While Redis answers nothing and Postgres
    works, a heartbeat of a live worker at its epoch is acknowledged with the
    drain flag from Postgres, and every such heartbeat is written to the
    worker's row at once, so the worker is not reaped; but no assignment is
    handed over, also for a job already ASSIGNED to the worker. *)
Theorem heartbeat_without_redis (s : Server) (req : HeartbeatRequest) (o : oracle) (w : world)
    (r : worker_row) :
  redis_down o -> pg_reliable o -> hb_worker_id req <> "" ->
  workers (w_db w) !! hb_worker_id req = Some r -> worker_gone (w_status r) = false ->
  w_epoch r = hb_epoch req ->
  (forall j, hb_current_job_id req = Some j -> j = "" \/ is_Some (jobs (w_db w) !! j)) ->
  let '(reply, w') := run (handleHeartbeat s req) o w in
  reply = Reply (mkHeartbeatResponse true None (w_drain_requested r)) /\
  shows_heartbeat (hb_worker_id req) (workerStatusToDB (hb_status req))
    (string_of_ptr (hb_current_job_id req)) r w'.
Proof.
  intros Hrd Hpg Hid Hw Hg He Hj. rewrite (heartbeat_miss s req o w r) by auto.
  pose proof (accepted_without_redis s req (later o 2) w r (w_drain_requested r)
    (fun n => Hrd _) (pg_reliable_later o 2 Hpg) Hw He Hj) as Hres. by destruct (run _ _ _).
Qed.
End redis_outage.

(** ** Postgres unreachable *)
Section postgres_outage.
Context `{RedisHashLaws}.

(** A program whose calls are all to Postgres. *)
Definition pg_or_clock {X} (c : call X) : Prop := match c with Pg _ | TimeNow => True | _ => False end.

Lemma run_without_postgres {A} (p : prog A) o w :
  all_calls (@pg_or_clock) p -> postgres_down o -> (run p o w).2 = w.
Proof.
  revert o. induction p as [a|X c k IH]; intros o Hp Ho; [done|]. destruct Hp as [Hc Hk].
  destruct c as [B c| | | |]; try done; [rewrite run_pg_lost by apply Ho|rewrite run_call];
    apply (IH _ (later o 1)); auto; intros n; apply Ho.
Qed.

Lemma flush_pg_or_clock k f c ep ns j : all_calls (@pg_or_clock) (flush_heartbeat k f c ep ns j).
Proof.
  unfold flush_heartbeat, UpdateHeartbeat. apply all_calls_bind; [by destruct f|]. intros due.
  case_match; [|done]. apply all_calls_bind; [|intros [|]; simpl; auto].
  destruct (ptr_of_string j); simpl; [|auto]. split; [done|]. intros [t|]; simpl; auto.
Qed.

Lemma flush_without_postgres k c ep ns j o w :
  postgres_down o -> (run (flush_heartbeat k true c ep ns j) o w).1 = ws_LastPGFlushUnix c.
Proof.
  intros Ho. unfold flush_heartbeat, trigger at 1. cbn [bind]. rewrite run_call. cbn [handle fst snd].
  case_match; [|done]. unfold UpdateHeartbeat, pgc, trigger.
  destruct (ptr_of_string j); cbn [bind]; by rewrite run_pg_lost by apply Ho.
Qed.

Lemma pending_without_postgres f c ep j o w :
  postgres_down o -> run (pending_assignment f c ep j) o w = (None, w).
Proof.
  intros Ho. unfold pending_assignment. case_match; [|done].
  unfold pgc, trigger. cbn [bind]. by rewrite run_pg_lost by apply Ho.
Qed.

Lemma cached_as_flag key w c :
  cached_as key w c ->
  ws_DrainRequested c = strconv.ParseBool (field (hgetall (stateKey key) (w_redis w)) "drain_requested").
Proof.
  unfold cached_as, read_state. case_decide; [done|]. intros E. by injection E as <-.
Qed.

Lemma accepted_without_postgres s req o w c :
  postgres_down o -> redis_reliable o -> cached_as (hb_worker_id req) w c ->
  let c' := mkWorkerState (hb_epoch req) (workerStatusToDB (hb_status req))
              (string_of_ptr (hb_current_job_id req)) (hb_available_capacity req)
              (ws_LastPGFlushUnix c) (ws_DrainRequested c) in
  state_in_range c' ->
  let res := run (heartbeat_accepted s req true c (ws_DrainRequested c)) o w in
  res.1 = Reply (mkHeartbeatResponse true None (ws_DrainRequested c)) /\
  w_db res.2 = w_db w /\ cached_as (hb_worker_id req) res.2 c'.
Proof.
  intros Hpg Hrd Hc c' Hrange res. subst res. unfold heartbeat_accepted.
  match goal with |- context [run (bind ?p ?k) o w] =>
    destruct (events_bind p k o w) as (n & -> & _) end.
  rewrite pending_without_postgres by done. cbn [fst snd].
  set (ns := workerStatusToDB (hb_status req)) in *.
  set (j := string_of_ptr (hb_current_job_id req)) in *. fold (mark_running ns j (hb_epoch req)).
  match goal with |- context [run (bind ?p ?k) ?o1 w] =>
    destruct (events_bind p k o1 w) as (n1 & -> & _) end.
  rewrite (run_without_postgres (mark_running ns j (hb_epoch req)));
    [|unfold mark_running; case_match; simpl; auto|intros m; apply Hpg].
  match goal with |- context [run (bind ?p ?k) ?o1 w] =>
    destruct (events_bind p k o1 w) as (n2 & -> & _) end.
  rewrite flush_without_postgres, (run_without_postgres (flush_heartbeat _ _ _ _ _ _))
    by (apply flush_pg_or_clock || (intros m; apply Hpg)).
  unfold SetState, SetAlive, rdc, trigger. cbn [bind]. rewrite !run_rd by (intros; apply Hrd).
  cbn [exec_rd fst snd w_db w_redis]. split; [done|]. split; [done|].
  unfold cached_as.
  change (w_redis (run (Ret ?r) ?o1 ?w1).2) with (w_redis w1). cbn [w_redis].
  rewrite hgetall_set_px by (intros E; by apply (stateKey_aliveKey (hb_worker_id req) (hb_worker_id req))).
  rewrite hgetall_hset.
  rewrite (read_state_write (mkWorkerState (hb_epoch req) ns j (hb_available_capacity req)
    (ws_LastPGFlushUnix c) false)) by done.
  subst c'. by rewrite (cached_as_flag _ _ _ Hc).
Qed.

(** ** Postgres back *)
Lemma pending_reads f c ep j o w : pg_reliable o -> w_db (run (pending_assignment f c ep j) o w).2 = w_db w.
Proof.
  intros Ho. unfold pending_assignment. case_match; [|done].
  unfold pgc, trigger. cbn [bind]. rewrite run_pg by apply Ho. cbn [exec_pg]. unfold GetJobRow.
  by destruct (jobs (w_db w) !! _).
Qed.

Lemma accepted_flushes s req o w c drain r :
  pg_reliable o -> redis_reliable o ->
  workers (w_db w) !! hb_worker_id req = Some r -> w_epoch r = hb_epoch req ->
  (forall j, hb_current_job_id req = Some j -> j = "" \/ is_Some (jobs (w_db w) !! j)) ->
  flush_due true c (workerStatusToDB (hb_status req)) o ->
  let res := run (heartbeat_accepted s req true c drain) o w in
  (exists a, res.1 = Reply (mkHeartbeatResponse true a drain)) /\
  shows_heartbeat (hb_worker_id req) (workerStatusToDB (hb_status req))
    (string_of_ptr (hb_current_job_id req)) r res.2.
Proof.
  intros Hpg Hrd Hw He Hj Hdue res. subst res. unfold heartbeat_accepted.
  match goal with |- context [run (bind ?p ?k) o w] =>
    destruct (events_bind p k o w) as (n & -> & _); pose proof (pending_reads true c
      (hb_epoch req) (string_of_ptr (hb_current_job_id req)) o w Hpg) as Ep;
    destruct (run p o w) as [a w0] end. cbn [fst snd] in *.
  set (ns := workerStatusToDB (hb_status req)).
  set (j := string_of_ptr (hb_current_job_id req)). fold (mark_running ns j (hb_epoch req)).
  match goal with |- context [run (bind ?p ?k) ?o1 w0] =>
    destruct (events_bind p k o1 w0) as (n1 & -> & _);
    destruct (mark_running_keeps ns j (hb_epoch req) o1 w0) as [Ew Ej]; [auto with fleet|];
    set (w1 := (run p o1 w0).2) in * end.
  match goal with |- context [run (bind ?p ?k) ?o1 w1] =>
    destruct (events_bind p k o1 w1) as (n2 & -> & _) end.
  unfold SetState, SetAlive, rdc, trigger. cbn [bind]. rewrite !run_rd by (intros; apply Hrd).
  split; [by eexists|]. apply flush_writes; [auto with fleet|by rewrite Ew, Ep|done|
    apply workerStatusToDB_valid| |].
  2: { destruct Hdue as [?|[?|Hw']]; [by left|by right; left|right; right; intros m; apply Hw']. }
  subst j. destruct (hb_current_job_id req) as [jid|]; [|by left].
  destruct (Hj jid eq_refl); [by left|right; rewrite <- Ep in *; auto].
Qed.

(** C18: heartbeats survive a Postgres outage.  While Postgres answers nothing
    and Redis works, the heartbeat of a worker the cache knows is still
    acknowledged, with the cached drain flag and no assignment; nothing reaches
    Postgres, the cache takes the new state and keeps the time of the last
    successful flush.  A heartbeat after Postgres is back writes the worker's
    current status and job to its row if the coalescing window since that flush
    is over, or if its status differs from that of the last heartbeat of the
    outage.  (Otherwise it does not: see [missed_transition_waits].) *)
Theorem heartbeats_survive_postgres_outage (s : Server) (req1 req2 : HeartbeatRequest)
    (o1 o2 : oracle) (w : world) (c : WorkerState) (r : worker_row) :
  postgres_down o1 -> redis_reliable o1 -> pg_reliable o2 -> redis_reliable o2 ->
  hb_worker_id req1 <> "" -> hb_worker_id req2 = hb_worker_id req1 -> hb_epoch req2 = hb_epoch req1 ->
  cached_as (hb_worker_id req1) w c -> ws_Epoch c = hb_epoch req1 -> state_in_range c ->
  - 2 ^ 31 <= hb_available_capacity req1 < 2 ^ 31 ->
  workers (w_db w) !! hb_worker_id req1 = Some r -> w_epoch r = hb_epoch req1 ->
  (forall j, hb_current_job_id req2 = Some j -> j = "" \/ is_Some (jobs (w_db w) !! j)) ->
  (workerStatusToDB (hb_status req2) <> workerStatusToDB (hb_status req1) \/
   forall n, pgFlushCoalesceSeconds <= int64 (unix (go_now (o2 n)) - ws_LastPGFlushUnix c)) ->
  let '(reply1, w1) := run (handleHeartbeat s req1) o1 w in
  reply1 = Reply (mkHeartbeatResponse true None (ws_DrainRequested c)) /\ w_db w1 = w_db w /\
  let '(reply2, w2) := run (handleHeartbeat s req2) o2 w1 in
  (exists a, reply2 = Reply (mkHeartbeatResponse true a (ws_DrainRequested c))) /\
  shows_heartbeat (hb_worker_id req2) (workerStatusToDB (hb_status req2))
    (string_of_ptr (hb_current_job_id req2)) r w2.
Proof.
  intros Hp1 Hr1 Hp2 Hr2 Hid Hk Hep Hc He (Hr & _ & Hf) Hcap Hw Hwe Hj Hdue.
  rewrite (heartbeat_hit s req1 o1 w c) by auto.
  destruct (accepted_without_postgres s req1 (later o1 1) w c) as (E1 & Ed & Hc'); [|intros n; apply Hr1|done|
    split; [simpl; by rewrite <- He|done]|]; [intros n; apply Hp1|].
  destruct (run (heartbeat_accepted s req1 true c _) _ w) as [reply1 w1]. cbn [fst snd] in *.
  split; [done|]. split; [done|]. rewrite <- Hk in Hid, Hc', Hw.
  rewrite (heartbeat_hit s req2 o2 w1 _ (Hr2 0%nat) Hid Hc' (eq_sym Hep)). cbn [ws_DrainRequested].
  match goal with |- context [heartbeat_accepted s req2 true ?c' _] =>
    destruct (accepted_flushes s req2 (later o2 1) w1 c' (ws_DrainRequested c) r) as [Ha Hs] end;
    [auto with fleet|intros n; apply Hr2|by rewrite Ed|congruence|by rewrite Ed| |].
  { destruct Hdue as [?|Hdue]; right; [by left|right; intros n; apply Hdue]. }
  by destruct (run _ _ w1).
Qed.

(** Submitting while Postgres is down: an error and nothing stored or
    enqueued.  The answer is 500, where docs/06 5 promises 503. *)
Lemma submit_without_postgres fmt req o w :
  postgres_down o -> (exists p, submit_priority (sj_Priority req) = Some p) ->
  sj_Repository req <> "" -> sj_Branch req <> "" -> sj_CommitSHA req <> "" ->
  run (SubmitJob fmt (Some req)) o w =
    (writeError StatusInternalServerError "internal_error" "failed to create job", w).
Proof.
  intros Ho [p Hp] H1 H2 H3. unfold SubmitJob. rewrite decide_False by naive_solver. rewrite Hp.
  unfold Create, pgc, trigger. case_decide; cbn [bind]; by rewrite run_pg_lost by apply Ho.
Qed.
End postgres_outage.

(** ** Witnesses: the scenario's worker during the two outages *)
Definition redis_out (t : Z) : oracle := with_redis (fun _ => LostRequest) (calm t "").
Definition postgres_out (t : Z) : oracle := fun _ =>
  mkEnv (t * Second) (t * Second) "" LostRequest NoFault (fun l => l) (fun l => reflexivity l).

Lemma heartbeat_without_redis_witness :
  let '(reply, w') := run (handleHeartbeat server (heartbeat_a 1 WORKER_STATUS_BUSY (Some "j-1")))
                        (redis_out 20) running_world in
  reply = Reply (mkHeartbeatResponse true None (w_drain_requested (worker_of running_world))) /\
  shows_heartbeat "w-a" "BUSY" "j-1" (worker_of running_world) w'.
Proof.
  apply (heartbeat_without_redis server (heartbeat_a 1 WORKER_STATUS_BUSY (Some "j-1")) (redis_out 20)
           running_world (worker_of running_world)).
  - intros n. reflexivity.
  - intros n. reflexivity.
  - discriminate.
  - vm_compute. reflexivity.
  - vm_compute. reflexivity.
  - vm_compute. reflexivity.
  - intros j E. injection E as <-. right. vm_compute. eexists. reflexivity.
Defined.

Lemma heartbeats_survive_postgres_outage_witness :
  let '(reply1, w1) := run (handleHeartbeat server (heartbeat_a 1 WORKER_STATUS_READY None))
                         (postgres_out 20) running_world in
  reply1 = Reply (mkHeartbeatResponse true None (ws_DrainRequested (cached_of "w-a" running_world))) /\
  w_db w1 = w_db running_world /\
  let '(reply2, w2) := run (handleHeartbeat server (heartbeat_a 1 WORKER_STATUS_READY None))
                         (calm 40 "") w1 in
  (exists a, reply2 = Reply (mkHeartbeatResponse true a
     (ws_DrainRequested (cached_of "w-a" running_world)))) /\
  shows_heartbeat "w-a" "READY" "" (worker_of running_world) w2.
Proof.
  apply (heartbeats_survive_postgres_outage server (heartbeat_a 1 WORKER_STATUS_READY None)
    (heartbeat_a 1 WORKER_STATUS_READY None) (postgres_out 20) (calm 40 "") running_world
    (cached_of "w-a" running_world) (worker_of running_world)).
  - intros n. reflexivity.
  - intros n. reflexivity.
  - intros n. reflexivity.
  - intros n. reflexivity.
  - discriminate.
  - reflexivity.
  - reflexivity.
  - vm_compute. reflexivity.
  - vm_compute. reflexivity.
  - vm_compute. repeat split; congruence.
  - vm_compute. split; congruence.
  - vm_compute. reflexivity.
  - vm_compute. reflexivity.
  - discriminate.
  - right. intros n. vm_compute. congruence.
Defined.

(** The worker finishes its job during a Postgres outage of one second and
    goes on sending READY. *)
Definition missed_transition : world :=
  let hb := handleHeartbeat server (heartbeat_a 1 WORKER_STATUS_READY None) in
  (run hb (calm 6 "") (run hb (postgres_out 5) running_world).2).2.

(** A status change whose flush failed is not written by the next heartbeat:
    the cache already shows the new status, so nothing has changed and the row
    stays BUSY until the coalescing window is over, although docs/05 5.2 has
    any change relative to the last flushed status written at once. *)
Theorem missed_transition_waits :
  w_status (worker_of running_world) = BUSY /\
  ws_Status (cached_of "w-a" missed_transition) = "READY" /\
  worker_of missed_transition = worker_of running_world /\
  w_status (worker_of (run (handleHeartbeat server (heartbeat_a 1 WORKER_STATUS_READY None))
              (calm 19 "") missed_transition).2) = READY.
Proof. vm_compute. repeat split; reflexivity. Qed.
