(* ===== verification/Ordering.v ===== *)
(** * Priorities

    Jobs wait in ten streams, one per priority.  readAndProcess asks for them
    in order of priority and handles the entries in the order of the reply.
    The theorem says what that order is worth: within one pass a worker goes to
    a job only if it could not have run a waiting job of higher priority, or of
    an earlier entry.  Across the two passes of a turn that is not so. *)
From S2P Require Import Prelude GoStrings Database WorkerStore JobStore Lifecycle Invariant.
From S2P Require Import StoreSound Algorithm Redis Effects Stores CacheProps Loop Reaper RetryPoller.
From S2P Require Import GrpcServer Autoscaler Api System Scenario StoreProps SchedulerProps Handshake.
Local Open Scope Z_scope.
#[local] Arguments run : simpl never.

Definition entry_job (msg : XMessage) : string := field (xm_Values msg) "job_id".

(** ** One entry *)
Definition msg_effect (msg : XMessage) (d d' : database) : Prop :=
  (d' = d /\ forall j, entry_job msg <> "" -> jobs d !! entry_job msg = Some j -> j_status j = QUEUED ->
     no_candidate msg d) \/
  exists e, assigns msg e d d'.

Lemma processMessage_effect `{Redis} streamKey msg o w :
  wf_db (w_db w) -> pg_reliable o ->
  msg_effect msg (w_db w) (w_db (run (processMessage streamKey msg) o w).2).
Proof.
  intros Hwf Ho. destruct (decide (entry_job msg = "")) as [Hid|Hid].
  { left. unfold processMessage. rewrite decide_True by done. split; [|done].
    by apply run_not_pg_db. }
  destruct (jobs (w_db w) !! entry_job msg) as [j|] eqn:Hj;
    [destruct (decide (j_status j = QUEUED)) as [Hq|Hq]|].
  - destruct (processMessage_queued streamKey msg o w j Hwf Ho Hid Hj Hq) as [[E Hno]|Ha]; [left|right; eauto].
    split; [done|]. intros. exact Hno.
  - left. split; [|intros; congruence]. unfold processMessage. rewrite decide_False by done.
    unfold pgc, trigger. cbn [bind]. rewrite run_pg by apply Ho. cbn [exec_pg]. unfold GetJobRow.
    fold (entry_job msg). rewrite Hj. cbn [fst snd].
    rewrite decide_True by (simpl; intros E; by apply Hq, (inj job_status_text _ QUEUED)).
    rewrite run_not_pg_db; [done|]. by simpl.
  - left. split; [|intros; congruence]. unfold processMessage. rewrite decide_False by done.
    unfold pgc, trigger. cbn [bind]. rewrite run_pg by apply Ho. cbn [exec_pg]. unfold GetJobRow.
    fold (entry_job msg). rewrite Hj. cbn [fst snd]. rewrite run_not_pg_db; [done|]. by simpl.
Qed.

(** ** A batch *)
Inductive processed : list XMessage -> database -> database -> Prop :=
  | processed_nil d : processed [] d d
  | processed_cons m ms d d1 d2 :
      msg_effect m d d1 -> processed ms d1 d2 -> processed (m :: ms) d d2.

Lemma processed_app ms1 ms2 d d' :
  processed (ms1 ++ ms2) d d' <-> exists d1, processed ms1 d d1 /\ processed ms2 d1 d'.
Proof.
  revert d. induction ms1 as [|m ms1 IH]; intros d; simpl.
  - split; [eauto using processed_nil|]. intros (d1 & H1 & H2). by inversion H1; subst.
  - split.
    + inversion 1 as [|? ? ? d1 ? Hm Hr]; subst. apply IH in Hr as (d2 & ? & ?).
      exists d2. split; [by econstructor|done].
    + intros (d2 & H1 & H2). inversion H1 as [|? ? ? d1 ? Hm Hr]; subst.
      econstructor; [done|]. apply IH. eauto.
Qed.

Section batch.
Context `{Redis}.

Lemma stream_processed k ms o w :
  wf_db (w_db w) -> pg_reliable o ->
  processed ms (w_db w) (w_db (run (for_each ms (fun m => processMessage k m)) o w).2) /\
  wf_db (w_db (run (for_each ms (fun m => processMessage k m)) o w).2).
Proof.
  revert o w. induction ms as [|m ms IH]; intros o w Hwf Ho; [split; [constructor|done]|].
  cbn [for_each]. match goal with |- context [run (bind ?p ?f) o w] =>
    destruct (events_bind p f o w) as (n & -> & _) end.
  pose proof (processMessage_effect k m o w Hwf Ho) as Hm.
  pose proof (run_wf _ o w (processMessage_ok k m) Hwf) as Hwf1.
  destruct (IH (later o n) (run (processMessage k m) o w).2 Hwf1 (pg_reliable_later o n Ho)) as [Hp Hw].
  split; [by econstructor|done].
Qed.

Lemma batch_processed streams o w :
  wf_db (w_db w) -> pg_reliable o ->
  processed (concat (map snd streams)) (w_db w)
    (w_db (run (for_each streams (fun sm => for_each sm.2 (fun m => processMessage sm.1 m))) o w).2).
Proof.
  revert o w. induction streams as [|[k ms] streams IH]; intros o w Hwf Ho; [constructor|].
  cbn [for_each map concat snd]. match goal with |- context [run (bind ?p ?f) o w] =>
    destruct (events_bind p f o w) as (n & -> & _) end.
  destruct (stream_processed k ms o w Hwf Ho) as [Hp Hw].
  apply processed_app. eexists. split; [exact Hp|]. apply IH; auto with fleet.
Qed.
End batch.

(** ** What a batch does to rows *)
Lemma assigns_rows m e d d' : assigns m e d d' ->
  exists j wid wc, jobs d !! entry_job m = Some j /\ workers d !! wid = Some wc /\
    ready_candidate (entry_capabilities m) wc = true /\
    workers d' = <[wid := assigned_worker e (entry_job m) (j_created_at j) wc]> (workers d) /\
    jobs d' = <[entry_job m := assigned_job wid (w_epoch wc) j]> (jobs d).
Proof.
  intros (j & wid & wc & _ & Hr & (Hw & Hj & _) & ->). exists j, wid, wc. by split_and!.
Qed.

(** A job still QUEUED afterwards was untouched. *)
Lemma processed_queued ms d d' i j :
  processed ms d d' -> jobs d' !! i = Some j -> j_status j = QUEUED -> jobs d !! i = Some j.
Proof.
  induction 1 as [|m ms d d1 d2 Hm _ IH]; [done|]. intros Hj Hq. specialize (IH Hj Hq).
  destruct Hm as [[-> _]|(e & (j0 & wid & wc & _ & _ & _ & _ & E)%assigns_rows)]; [done|].
  rewrite E in IH. apply lookup_insert_Some in IH as [[_ <-]|[_ ?]]; done.
Qed.

(** A worker still READY afterwards was untouched. *)
Lemma processed_ready ms d d' k wk :
  processed ms d d' -> workers d' !! k = Some wk -> w_status wk = READY -> workers d !! k = Some wk.
Proof.
  induction 1 as [|m ms d d1 d2 Hm _ IH]; [done|]. intros Hk Hr. specialize (IH Hk Hr).
  destruct Hm as [[-> _]|(e & (j0 & wid & wc & _ & _ & _ & E & _)%assigns_rows)]; [done|].
  rewrite E in IH. apply lookup_insert_Some in IH as [[_ <-]|[_ ?]]; done.
Qed.

(** Only the jobs of its entries change. *)
Lemma processed_other ms d d' i :
  processed ms d d' -> i ∉ map entry_job ms -> jobs d' !! i = jobs d !! i.
Proof.
  induction 1 as [|m ms d d1 d2 Hm _ IH]; [done|]. cbn [map]. intros [Hne Hi]%not_elem_of_cons.
  rewrite IH by done. destruct Hm as [[-> _]|(e & (j0 & wid & wc & _ & _ & _ & _ & E)%assigns_rows)];
    [done|]. by rewrite E, lookup_insert_ne.
Qed.

(** The core of the argument: [mi] before [mj] in a batch. *)
Lemma earlier_entry_had_no_use ms1 mi ms2 mj ms3 d d' ji jj jj' wid :
  processed (ms1 ++ mi :: ms2 ++ mj :: ms3) d d' ->
  NoDup (map entry_job (ms1 ++ mi :: ms2 ++ mj :: ms3)) -> entry_job mi <> "" ->
  jobs d' !! entry_job mi = Some ji -> j_status ji = QUEUED ->
  jobs d !! entry_job mj = Some jj -> j_status jj = QUEUED ->
  jobs d' !! entry_job mj = Some jj' -> j_status jj' = ASSIGNED -> j_worker_id jj' = Some wid ->
  exists wk, workers d !! wid = Some wk /\
    array_contains (w_capabilities wk) (entry_capabilities mi) = false.
Proof.
  intros (d1 & P1 & P2)%processed_app Hnd Hid Hi Hqi Hj Hqj Hj' Hs Hw.
  inversion P2 as [|? ? ? d2 ? Hmi P3]; subst.
  apply processed_app in P3 as (d3 & P3 & P4). inversion P4 as [|? ? ? d4 ? Hmj P5]; subst.
  rewrite !map_app in Hnd. cbn [map] in Hnd. rewrite map_app in Hnd. cbn [map] in Hnd.
  apply list.NoDup_app in Hnd as (_ & Hd1 & Hnd). apply list.NoDup_cons in Hnd as [Hij Hnd].
  apply list.NoDup_app in Hnd as (_ & Hd2 & [Hd3 _]%list.NoDup_cons).
  rewrite not_elem_of_app, not_elem_of_cons in Hij. destruct Hij as (_ & Hij & _).
  assert (Hi2 : jobs d2 !! entry_job mi = Some ji).
  { eapply processed_queued; [exact P3| |done]. eapply processed_queued; eauto. }
  assert (Hi1 : jobs d1 !! entry_job mi = Some ji).
  { eapply (processed_queued [mi]); eauto using processed. }
  destruct Hmi as [[-> Hno]|(e & (j0 & w0 & wc & _ & _ & _ & _ & E)%assigns_rows)].
  2: { rewrite E, lookup_insert_eq in Hi2. by injection Hi2 as <-. }
  specialize (Hno ji Hid Hi1 Hqi).
  rewrite (processed_other ms3 d4 d') in Hj' by done.
  assert (Hj3 : jobs d3 !! entry_job mj = Some jj).
  { rewrite (processed_other ms2 d1 d3); [|done|].
    - rewrite (processed_other ms1 d d1); [done|done|]. intros Hin. apply (Hd1 _ Hin).
      right. apply elem_of_app. right. left.
    - intros Hin. apply (Hd2 _ Hin). left. }
  destruct Hmj as [[-> _]|(e & (j0 & w0 & wc & _ & Hwc & Hrc & _ & E)%assigns_rows)]; [congruence|].
  rewrite E, lookup_insert_eq in Hj'. injection Hj' as <-. simpl in Hw. injection Hw as ->.
  unfold ready_candidate in Hrc. rewrite !andb_true_iff in Hrc. destruct Hrc as [[Hst Hc] _].
  pose proof Hst as Hst'%bool_decide_eq_true.
  assert (Hw1 : workers d1 !! wid = Some wc) by (eapply processed_ready; eauto).
  exists wc. split; [by eapply processed_ready|]. specialize (Hno wid wc Hw1).
  unfold ready_candidate in Hno. by rewrite Hst, Hc in Hno.
Qed.

(** ** Streams in order of priority *)

(** Redis answers with the requested streams that have entries, in the order
    of the request. *)
Definition in_request_order (keys : list string) (streams : list (string * list XMessage)) : Prop :=
  map fst streams `sublist_of` keys.

(** The streams of a reply, as priorities. *)
Lemma sublist_map_inv {A B} (f : A -> B) (l : list B) (k : list A) :
  l `sublist_of` map f k -> exists k', k' `sublist_of` k /\ l = map f k'.
Proof.
  revert l. induction k as [|x k IH]; intros l Hl; simpl in Hl.
  - apply sublist_nil_r in Hl as ->. by exists [].
  - apply sublist_cons_r in Hl as [Hl|(l' & -> & Hl)]; destruct (IH _ Hl) as (k' & Hk & ->).
    + exists k'. split; [by constructor|done].
    + exists (x :: k'). split; [by constructor|done].
Qed.

Lemma StreamKey_inj p q : 0 <= p < 10 -> 0 <= q < 10 -> StreamKey p = StreamKey q -> p = q.
Proof.
  intros Hp Hq E. unfold StreamKey in E.
  assert (Hi : strconv.Itoa p = strconv.Itoa q) by (by apply (inj (String.append "queue:jobs:p")) in E).
  pose proof (f_equal (fun t => (strconv.ParseInt t 64).1) Hi) as E2. simpl in E2.
  by rewrite !strconv.ParseInt_Itoa in E2 by lia.
Qed.

Lemma sublist_sorted (ps qs : list Z) : ps `sublist_of` qs -> StronglySorted Z.lt qs -> StronglySorted Z.lt ps.
Proof.
  induction 1 as [|x l k Hs IH|x l k Hs IH]; intros Hq; [done| |];
    apply StronglySorted_inv in Hq as [Hk Hx]; [|auto].
  constructor; [auto|]. rewrite list.Forall_forall in Hx |- *. intros y Hy. apply Hx.
  by eapply elem_of_submseteq, sublist_submseteq; eauto.
Qed.

Lemma priorities_sorted : StronglySorted Z.lt (seqZ 0 numPriorities).
Proof. change (StronglySorted Z.lt [0; 1; 2; 3; 4; 5; 6; 7; 8; 9]). repeat constructor; lia. Qed.

(** Entries of a more urgent stream come first in the flattened reply. *)
Lemma urgent_first streams p q msp msq mi mj :
  in_request_order streamKeys streams -> 0 <= p < q -> q < numPriorities ->
  (StreamKey p, msp) ∈ streams -> (StreamKey q, msq) ∈ streams -> mi ∈ msp -> mj ∈ msq ->
  exists ms1 ms2 ms3, concat (map snd streams) = ms1 ++ mi :: ms2 ++ mj :: ms3.
Proof.
  intros (ps & Hsub & Hkeys)%sublist_map_inv Hp Hq Hip Hiq Hmi Hmj. unfold numPriorities in Hq.
  pose proof (sublist_sorted _ _ Hsub priorities_sorted) as Hsort.
  assert (Hin : forall x, x ∈ ps -> 0 <= x < 10).
  { intros x Hx. assert (x ∈ seqZ 0 numPriorities) as ?%elem_of_seqZ; [|unfold numPriorities in *; lia].
    by eapply elem_of_submseteq, sublist_submseteq; eauto. }
  clear Hsub. revert ps Hkeys Hsort Hin.
  induction streams as [|[k ms] streams IH]; intros [|x ps] Hkeys Hsort Hin; try done;
    [by apply not_elem_of_nil in Hip|].
  cbn [map fst] in Hkeys. assert (k = StreamKey x /\ map fst streams = map StreamKey ps) as [-> Hkeys'] by (by inversion Hkeys).
  clear Hkeys. rename Hkeys' into Hkeys.
  apply StronglySorted_inv in Hsort as [Hsort Hx].
  apply elem_of_cons in Hip as [Hip|Hip]; apply elem_of_cons in Hiq as [Hiq|Hiq].
  - exfalso. apply pair_eq in Hip as [Ep _]. apply pair_eq in Hiq as [Eq _]. rewrite <- Eq in Ep.
    apply StreamKey_inj in Ep; lia.
  - apply pair_eq in Hip as [_ <-]. apply list_elem_of_split in Hmi as (a & b & ->).
    cbn [map concat snd]. assert (mj ∈ concat (map snd streams)) as (c & e & ->)%list_elem_of_split.
    { apply list_elem_of_In, in_concat. exists msq. split; apply list_elem_of_In; [|done].
      change msq with (snd (StreamKey q, msq)). by apply list_elem_of_fmap_2. }
    exists a, (b ++ c), e. by rewrite <- !app_assoc.
  - exfalso. apply pair_eq in Hiq as [Eq _]. assert (StreamKey p ∈ map StreamKey ps) as (y & Ey & Hy)%list_elem_of_fmap.
    { rewrite <- Hkeys. change (StreamKey p) with (fst (StreamKey p, msp)). by apply list_elem_of_fmap_2. }
    assert (Hin' := Hin y ltac:(by right)). assert (Hinx := Hin x ltac:(left)).
    apply StreamKey_inj in Ey; [|lia..]. apply StreamKey_inj in Eq; [|lia..]. subst.
    rewrite list.Forall_forall in Hx. specialize (Hx _ Hy). lia.
  - destruct (IH Hip Hiq ps Hkeys Hsort) as (a & b & c & E); [intros y Hy; apply Hin; by right|].
    exists (ms ++ a), b, c. cbn [map concat snd]. rewrite E. by rewrite <- app_assoc.
Qed.

(** An entry comes before another one of the reply: it is in a more urgent
    stream, or earlier in the same stream. *)
Definition ahead (p : Z) (msp : list XMessage) (mi : XMessage) (q : Z) (msq : list XMessage)
    (mj : XMessage) : Prop :=
  (p < q /\ mi ∈ msp /\ mj ∈ msq) \/ (p = q /\ exists a b c, msq = a ++ mi :: b ++ mj :: c).

Lemma ahead_first streams p q msp msq mi mj :
  in_request_order streamKeys streams -> 0 <= p -> q < numPriorities ->
  (StreamKey p, msp) ∈ streams -> (StreamKey q, msq) ∈ streams -> ahead p msp mi q msq mj ->
  exists ms1 ms2 ms3, concat (map snd streams) = ms1 ++ mi :: ms2 ++ mj :: ms3.
Proof.
  intros Hord Hp Hq Hip Hiq [(Hpq & Hmi & Hmj)|(-> & a & b & c & ->)]; [by eapply urgent_first|].
  apply list_elem_of_split in Hiq as (l1 & l2 & ->). rewrite map_app, concat_app. cbn [map concat snd].
  exists (concat (map snd l1) ++ a), b, (c ++ concat (map snd l2)). by repeat (rewrite <- !app_assoc; cbn [app]).
Qed.

(** C13: no priority inversion within a pass.  Let Redis answer the read of one
    pass with entries of different jobs, streams in the order asked, and let
    Postgres answer.  If after the pass the job of an entry is still QUEUED,
    while the job of an entry in a less urgent stream, or later in the same
    stream, was assigned to a worker in the pass, then that worker lacks a
    capability the job passed over requires.  (A turn makes two passes, new
    entries first: see [turn_can_invert_priorities].) *)
Theorem no_priority_inversion `{Redis} (id : string) (o : oracle) (w : world) (p q : Z)
    (msp msq : list XMessage) (mi mj : XMessage) (ji jj jj' : job_row) (wid : string) :
  let streams := (xreadgroup ConsumerGroup consumerName (map (fun k => (k, id)) streamKeys) 10
                    (w_redis w)).1 in
  let d' := w_db (run (readAndProcess streamKeys id) o w).2 in
  wf_db (w_db w) -> pg_reliable o -> redis_fault (o 0%nat) = NoFault ->
  in_request_order streamKeys streams -> NoDup (map entry_job (concat (map snd streams))) ->
  0 <= p -> q < numPriorities ->
  (StreamKey p, msp) ∈ streams -> (StreamKey q, msq) ∈ streams -> ahead p msp mi q msq mj ->
  entry_job mi <> "" ->
  jobs d' !! entry_job mi = Some ji -> j_status ji = QUEUED ->
  jobs (w_db w) !! entry_job mj = Some jj -> j_status jj = QUEUED ->
  jobs d' !! entry_job mj = Some jj' -> j_status jj' = ASSIGNED -> j_worker_id jj' = Some wid ->
  exists wk, workers (w_db w) !! wid = Some wk /\
    array_contains (w_capabilities wk) (entry_capabilities mi) = false.
Proof.
  intros streams d' Hwf Ho Hr Hord Hnd Hp Hq Hip Hiq Hah Hid.
  destruct (ahead_first streams p q msp msq mi mj) as (ms1 & ms2 & ms3 & E); try done.
  assert (Hproc : processed (concat (map snd streams)) (w_db w) d').
  { subst d'. unfold readAndProcess, rdc, trigger. cbn [bind]. rewrite run_rd by done.
    cbn [exec_rd]. fold streams.
    match goal with |- context [run _ (later o 1) ?w1] => change (w_db w) with (w_db w1) end.
    apply (batch_processed streams (later o 1)); [done|auto with fleet]. }
  rewrite E in Hnd, Hproc. intros. by eapply earlier_entry_had_no_use.
Qed.

(** ** A pass with an urgent job that needs a GPU *)
Definition submit_at (priority : Z) (caps : list string) : prog unit :=
  ignore (SubmitJob no_time_format
    (Some (mkSubmitJobRequest (Some priority) "repo" "main" "abc" None (Some caps) 2 ""))).
Definition two_queued : world :=
  play [(submit_at 1 ["gpu"], calm 2 "j-1"); (submit_at 4 ["docker"], calm 3 "j-2")] idle_world.
Definition after_pass : world := (run (readAndProcess streamKeys ">") (calm 4 "") two_queued).2.
Definition row_of (w : world) (k : string) : job_row := default (job_of w) (jobs (w_db w) !! k).
Definition read_entries : list (string * list XMessage) :=
  (xreadgroup ConsumerGroup consumerName (map (fun k => (k, ">")) streamKeys) 10 (w_redis two_queued)).1.
Definition entry_of (n : nat) : XMessage :=
  default full_stream_entry (concat (map snd read_entries) !! n).
Definition entries_of (p : Z) : list XMessage :=
  default [] (snd <$> List.find (fun sm => bool_decide (sm.1 = StreamKey p)) read_entries).

Lemma two_queued_reachable : reachable ([], two_queued).
Proof. scripted idle_reachable. Qed.

Lemma no_priority_inversion_witness :
  j_status (row_of after_pass "j-1") = QUEUED /\ j_status (row_of after_pass "j-2") = ASSIGNED /\
  exists wk, workers (w_db two_queued) !! "w-a" = Some wk /\
    array_contains (w_capabilities wk) (entry_capabilities (entry_of 0)) = false.
Proof.
  split; [vm_compute; reflexivity|]. split; [vm_compute; reflexivity|].
  apply (no_priority_inversion ">" (calm 4 "") two_queued 1 4 (entries_of 1) (entries_of 4)
    (entry_of 0) (entry_of 1) (row_of after_pass "j-1") (row_of two_queued "j-2")
    (row_of after_pass "j-2") "w-a").
  - apply (reachable_good ([], two_queued) two_queued_reachable).
  - intros n. reflexivity.
  - reflexivity.
  - assert (E : map fst read_entries = map StreamKey [1; 4]) by (vm_compute; reflexivity).
    unfold in_request_order. fold read_entries. rewrite E.
    change (map StreamKey [1; 4] `sublist_of` map StreamKey [0; 1; 2; 3; 4; 5; 6; 7; 8; 9]).
    repeat constructor.
  - apply (bool_decide_unpack _). vm_compute. exact I.
  - lia.
  - vm_compute. reflexivity.
  - apply (list_elem_of_lookup_2 _ 0%nat). vm_compute. reflexivity.
  - apply (list_elem_of_lookup_2 _ 1%nat). vm_compute. reflexivity.
  - left. split; [lia|]. split; apply (list_elem_of_lookup_2 _ 0%nat); vm_compute; reflexivity.
  - vm_compute. discriminate.
  - vm_compute. reflexivity.
  - vm_compute. reflexivity.
  - vm_compute. reflexivity.
  - vm_compute. reflexivity.
  - vm_compute. reflexivity.
  - vm_compute. reflexivity.
  - vm_compute. reflexivity.
Defined.

(** ** Two passes in one turn *)

(** An urgent job finds no worker and stays pending; then a worker registers
    and a job of the lowest priority is submitted. *)
Definition urgent_pending : world :=
  play [(submit_at 0 ["docker"], calm 1 "j-1"); (run_turn true, calm 2 "");
        (ignore (RegisterWorker server register_a), calm 3 "w-a");
        (submit_at 9 ["docker"], calm 4 "j-2")] start_world.
Definition after_turn : world := (run (run_turn true) (calm 5 "") urgent_pending).2.

Lemma urgent_pending_reachable : reachable ([], urgent_pending).
Proof. scripted start_reachable. Qed.

(** A turn reads new entries before it reads the pending ones again, so the
    worker, which could take either job, goes to the job of priority 9 and the
    pending job of priority 0 waits on, although docs/09 9.1 has the streams
    drained highest priority first. *)
Theorem turn_can_invert_priorities :
  reachable ([], urgent_pending) /\
  map (fun k => (j_priority (row_of urgent_pending k), j_required_capabilities (row_of urgent_pending k)))
    ["j-1"; "j-2"] = [(0, ["docker"]); (9, ["docker"])] /\
  j_status (row_of after_turn "j-1") = QUEUED /\ j_status (row_of after_turn "j-2") = ASSIGNED.
Proof.
  split; [exact urgent_pending_reachable|]. split; [vm_compute; reflexivity|].
  split; vm_compute; reflexivity.
Qed.
