(* ===== verification/Starvation.v ===== *)
(** * Jobs that are never tried again

    An entry that could not be placed stays pending, and each turn of the loop
    reads pending entries again, with id "0" and at most ten per stream.  Redis
    answers such a read from the oldest pending entry on, so ten old entries
    that cannot be placed hide every younger one of their stream. *)
From S2P Require Import Prelude GoStrings Database WorkerStore JobStore Lifecycle Invariant.
From S2P Require Import StoreSound Algorithm Redis Effects Stores CacheProps Loop Reaper RetryPoller.
From S2P Require Import GrpcServer Autoscaler Api System Scenario StoreProps SchedulerProps Ordering.
Local Open Scope Z_scope.
#[local] Arguments run : simpl never.

(** An entry of a QUEUED job no worker can take now. *)
Definition hopeless (d : database) (msg : XMessage) : Prop :=
  entry_job msg <> "" /\
  (exists j, jobs d !! entry_job msg = Some j /\ j_status j = QUEUED) /\ no_candidate msg d.

Section stuck.
Context `{Redis}.

Lemma hopeless_entry_is_left streamKey msg o w :
  wf_db (w_db w) -> pg_reliable o -> hopeless (w_db w) msg ->
  run (processMessage streamKey msg) o w = (tt, w).
Proof.
  intros Hwf Ho (Hid & (j & Hj & Hq) & Hno).
  destruct (processMessage_picks streamKey msg o w j Hwf Ho Hid Hj Hq) as [[-> _]|(wc & Hrc & Ha & _)]; [done|].
  destruct Ha as (Hwc & _). rewrite (Hno _ _ Hwc) in Hrc. done.
Qed.

(** What the consumer's two reads of a turn give. *)
Definition read_new (r : rstate) : list (string * list XMessage) * rstate :=
  xreadgroup ConsumerGroup consumerName (map (fun k => (k, ">")) streamKeys) 10 r.
Definition read_pending (r : rstate) : list (string * list XMessage) * rstate :=
  xreadgroup ConsumerGroup consumerName (map (fun k => (k, "0")) streamKeys) 10 r.

Lemma read_pass_is_idle id streams o w :
  wf_db (w_db w) -> pg_reliable o -> redis_fault (o 0%nat) = NoFault ->
  xreadgroup ConsumerGroup consumerName (map (fun k => (k, id)) streamKeys) 10 (w_redis w) =
    (streams, w_redis w) ->
  (forall k ms m, (k, ms) ∈ streams -> m ∈ ms -> hopeless (w_db w) m) ->
  run (readAndProcess streamKeys id) o w = (tt, w).
Proof.
  intros Hwf Ho Hr Hs Hh. unfold readAndProcess, rdc, trigger. cbn [bind]. rewrite run_rd by done.
  cbn [exec_rd]. rewrite Hs. cbn [fst snd]. destruct w as [d r c ob]. cbn [w_db w_redis w_counters w_observations].
  apply run_for_each_id; [auto with fleet|]. intros [k ms] o1 Hin Ho1. cbn [fst snd].
  apply run_for_each_id; [done|]. intros m o2 Hm Ho2. apply hopeless_entry_is_left; [done..|]. by eapply Hh.
Qed.

(** Nothing new, and nothing placeable among the pending entries that are
    shown: turns go by without any effect. *)
Definition turns_idle (w : world) : Prop :=
  forall os, Forall (fun o => pg_reliable o /\ redis_reliable o) os ->
    play (map (fun o => (run_turn true, o)) os) w = w.

Lemma hopeless_window_is_idle w streams :
  wf_db (w_db w) -> read_new (w_redis w) = ([], w_redis w) ->
  read_pending (w_redis w) = (streams, w_redis w) ->
  (forall k ms m, (k, ms) ∈ streams -> m ∈ ms -> hopeless (w_db w) m) -> turns_idle w.
Proof.
  intros Hwf Hn Hp Hh os. induction os as [|o os IH]; intros Hos; [done|].
  apply list.Forall_cons in Hos as [[Hpg Hrd] Hos]. cbn [map play].
  assert (E : run (run_turn true) o w = (tt, w)); [|rewrite E; by apply IH].
  unfold run_turn, tick.
  match goal with |- context [run (bind ?p ?k) o w] => destruct (events_bind p k o w) as (n & -> & _) end.
  rewrite (read_pass_is_idle ">" [] o w); [|done..|].
  - apply (read_pass_is_idle "0" streams); auto with fleet. apply Hrd.
  - intros k ms m Hin. by apply not_elem_of_nil in Hin.
Qed.
End stuck.

(** ** Ten GPU jobs and one other *)
Definition submit_gpu (n : Z) : prog unit * oracle :=
  (submit_at 3 ["gpu"], calm n ("j-" +:+ strconv.Itoa n)).
Definition starving_script : list (prog unit * oracle) :=
  map submit_gpu (seqZ 1 10) ++
  [(submit_at 3 ["docker"], calm 11 "j-11"); (run_turn true, calm 12 ""); (run_turn true, calm 13 "");
   do_register].
Definition starved_world : world := play starving_script start_world.

Lemma starved_reachable : reachable ([], starved_world).
Proof. scripted start_reachable. Qed.
#[global] Opaque starved_world.

(** The pending entries each turn sees. *)
Definition shown_pending : list (string * list XMessage) := (read_pending (w_redis starved_world)).1.

Lemma gpu_entries_hopeless k ms m :
  (k, ms) ∈ shown_pending -> m ∈ ms -> hopeless (w_db starved_world) m.
Proof.
  assert (Hall : Forall (fun sm => Forall (fun m =>
      entry_job m <> "" /\ (j_status <$> jobs (w_db starved_world) !! entry_job m) = Some QUEUED /\
      map_Forall (fun _ wk => ready_candidate (entry_capabilities m) wk = false)
        (workers (w_db starved_world))) sm.2) shown_pending)
    by (apply (bool_decide_unpack _); vm_compute; exact I).
  intros Hk Hm. rewrite list.Forall_forall in Hall. specialize (Hall _ Hk). cbn [snd] in Hall.
  rewrite list.Forall_forall in Hall. destruct (Hall m Hm) as (Hid & Hj & Hw).
  split; [done|]. split; [|intros k' wk; apply Hw].
  apply fmap_Some in Hj as (j & Hj & E). eauto.
Qed.

(** C40: ten unplaceable jobs starve the rest of their stream.  If nothing new
    arrives and none of the pending entries a turn is shown can be placed, then
    turns of the leader's loop have no effect, however many follow while both
    stores answer.  And a turn is shown only the ten oldest of a stream: in a
    reachable state ten jobs wait for a GPU, an eleventh job of the same
    priority asks for nothing but what a READY worker with free slots has, and
    no number of turns assigns it. *)
Theorem pending_window_starves_jobs :
  (forall (H : Redis) (w : world) streams,
     wf_db (w_db w) -> read_new (w_redis w) = ([], w_redis w) ->
     read_pending (w_redis w) = (streams, w_redis w) ->
     (forall k ms m, (k, ms) ∈ streams -> m ∈ ms -> hopeless (w_db w) m) -> turns_idle w) /\
  reachable ([], starved_world) /\ turns_idle starved_world /\
  exists j wk, jobs (w_db starved_world) !! "j-11" = Some j /\ j_status j = QUEUED /\
    workers (w_db starved_world) !! "w-a" = Some wk /\
    ready_candidate (j_required_capabilities j) wk = true.
Proof.
  split; [apply @hopeless_window_is_idle|]. split; [exact starved_reachable|]. split.
  - apply (hopeless_window_is_idle starved_world shown_pending).
    + apply (reachable_good ([], starved_world) starved_reachable).
    + vm_compute. reflexivity.
    + unfold shown_pending. vm_compute. reflexivity.
    + exact gpu_entries_hopeless.
  - do 2 eexists. split; [vm_compute; reflexivity|]. split; [vm_compute; reflexivity|].
    split; vm_compute; reflexivity.
Qed.
