(* ===== verification/EndToEnd.v ===== *)
(** * From submission to result

    The components composed along the life of one job: SubmitJob inserts the
    row and puts an entry on a stream; the scheduling loop's next turn reads
    it, assigns the job and writes the worker's cache entry; the worker's
    heartbeats hand the job over and mark it RUNNING; the agent's report
    settles it. *)
From S2P Require Import Prelude GoStrings Database WorkerStore JobStore Lifecycle Invariant.
From S2P Require Import StoreSound Redis Streams Effects Stores CacheProps Loop Reaper RetryPoller GrpcServer.
From S2P Require Import Autoscaler Api System Scenario StoreProps SchedulerProps ApiProps GrpcProps.
From S2P Require Import Executor Agent AgentSim Handshake.
Local Open Scope Z_scope.
#[local] Arguments run : simpl never.

(** ** Submission *)

(** A 202 means: the row is in the table, and one entry carries it to the
    scheduler.  With or without an idempotency key. *)
Lemma SubmitJob_accepted `{Redis} fmt req o w b w1 :
  pg_reliable o -> run (SubmitJob fmt (Some req)) o w = (mkResponse StatusAccepted b, w1) ->
  exists p n, let j := inserted_job (submit_params req p) (o n) in
    submit_priority (sj_Priority req) = Some p /\
    b = BJob (toJobResponse fmt (scanJobRow j)) /\
    w_db w1 = set_jobs (<[j_id j := j]> (jobs (w_db w))) (w_db w) /\
    omap enqueue_request (events (SubmitJob fmt (Some req)) o w) =
      [(StreamKey p, message_values (job_message (scanJobRow j)))].
Proof.
  intros Ho E. pose proof E as E'. cbn [SubmitJob] in E.
  case_decide as Hm; [by inversion E|].
  destruct (submit_priority (sj_Priority req)) as [p|] eqn:Hp; [|by inversion E].
  assert (Hv : submit_valid req) by (repeat split; [tauto..|by eauto]).
  destruct (decide (sj_IdempotencyKey req = "")) as [Hk|Hk].
  2: { pose proof (SubmitJob_run fmt req p o w Ho Hv Hp Hk) as H1. rewrite E' in H1.
       destruct H1 as [(? & ? & _ & _ & ? & _)|(_ & [[? _]|(Hr & _ & Hdb & Hadd)])]; [done|done|].
       exists p, 1%nat. split; [done|]. split; [by inversion Hr|]. by split. }
  clear E'. cbn [SubmitJob]. rewrite decide_False by done. rewrite Hp. fold (submit_params req p) in E |- *.
  unfold Create in E |- *. cbn [cp_IdempotencyKey submit_params] in E |- *.
  rewrite decide_True in E |- * by done. unfold pgc, trigger in E |- *. cbn [bind] in E |- *.
  rewrite run_pg in E by apply Ho. cbn [exec_pg events handle] in E |- *. rewrite Ho. cbn [with_fault exec_pg].
  destruct (InsertJob_cases (submit_params req p) (o 0%nat) (w_db w))
    as [[x Ei]|(Hn & _ & Ei)]; rewrite Ei in E |- *; cbn [fst snd bind] in E |- *; [by inversion E|].
  cbn [Enqueue StreamQueue StreamQueue_Enqueue rdc trigger bind] in E |- *.
  match type of E with run ?q ?o2 ?w2 = _ =>
    assert (Hdb : w_db (run q o2 w2).2 = w_db w2) by (by apply run_not_pg_db);
    pose proof (events_trace q o2 w2) as Ht end.
  rewrite E in Hdb, Ht. cbn in Hdb, Ht. destruct Ht as (? & ? & _ & _ & Hr).
  exists p, 0%nat. split; [done|]. split; [by inversion Hr|]. split; [exact Hdb|].
  cbn. by destruct (with_fault _ _ _).
Qed.

(** ** Scheduling *)

Lemma field_job_id m : field (message_values m) "job_id" = jm_JobID m.
Proof. unfold field, message_values. by simplify_map_eq. Qed.

Section assignment.
Context `{RedisHashLaws}.

(** What the scheduler leaves in the cache for the chosen worker's next
    heartbeat. *)
Lemma after_assignment_cached streamKey msg j wc o w :
  redis_reliable o -> - 2 ^ 63 <= w_epoch wc < 2 ^ 63 ->
  let w' := (run (after_assignment streamKey msg j wc) o w).2 in
  w_db w' = w_db w /\
  (exists fs, w_redis w' = xack streamKey ConsumerGroup (xm_ID msg)
                             (hset (stateKey (w_id wc)) fs (w_redis w))) /\
  exists st, cached_as (w_id wc) w' st /\ ws_Epoch st = w_epoch wc /\ ws_Status st = "BUSY" /\
    ws_CurrentJobID st = j_id j.
Proof.
  intros Ho He w'. subst w'. unfold after_assignment, SetState, ack, rdc, trigger. cbn [bind].
  rewrite run_rd by apply Ho. cbn [exec_rd fst snd]. rewrite run_call. cbn [handle fst snd].
  rewrite run_rd by apply Ho. cbn [exec_rd fst snd]. unfold run. cbn [fst snd w_db w_redis].
  split; [done|]. split; [eauto|].
  set (ws := assigned_state (scanJobRow j) (candidate_of wc)).
  destruct (decode_written ws (hgetall (stateKey (w_id wc)) (w_redis w)) He) as (E1 & E2 & E3 & _).
  eexists. split; [|by split_and!]. unfold cached_as, read_state. cbn [w_redis].
  rewrite hgetall_xack, hgetall_hset, decide_False by by apply hash_write_nonempty. done.
Qed.

(** Some worker can take a job that requires [caps]. *)
Definition can_take (caps : list string) (d : database) : Prop :=
  exists k wk, workers d !! k = Some wk /\ ready_candidate caps wk = true.

(** The entry of a QUEUED job with a worker to take it: the job ends ASSIGNED
    to a worker that could take it, at that worker's epoch, and the cache shows
    the worker BUSY with it. *)
Lemma entry_is_assigned streamKey msg o w j :
  let k := field (xm_Values msg) "job_id" in
  wf_db (w_db w) -> pg_reliable o -> redis_reliable o -> k <> "" ->
  jobs (w_db w) !! k = Some j -> j_status j = QUEUED -> can_take (entry_capabilities msg) (w_db w) ->
  let w' := (run (processMessage streamKey msg) o w).2 in
  exists wc st fs, workers (w_db w) !! w_id wc = Some wc /\
    ready_candidate (entry_capabilities msg) wc = true /\
    w_redis w' = xack streamKey ConsumerGroup (xm_ID msg)
                   (hset (stateKey (w_id wc)) fs (w_redis w)) /\
    jobs (w_db w') !! k = Some (assigned_job (w_id wc) (w_epoch wc) j) /\
    cached_as (w_id wc) w' st /\ ws_Epoch st = w_epoch wc /\ ws_Status st = "BUSY" /\
    ws_CurrentJobID st = k.
Proof.
  intros k Hwf Ho Hr Hk Hj Hq (k0 & wk & Hwk & Hc) w'. subst w'.
  destruct (processMessage_picks streamKey msg o w j Hwf Ho Hk Hj Hq)
    as [[_ Hno]|(wc & Hrc & Ha & ->)].
  { rewrite (Hno k0 wk Hwk) in Hc. done. }
  destruct Ha as (Hwc & _). destruct (wf_workers _ Hwf _ _ Hwc) as [_ _ _ _ _ He _ _].
  match goal with |- context [run ?p ?o1 ?w1] =>
    destruct (after_assignment_cached streamKey msg j wc o1 w1) as (E & [fs Er] & st & Hst & E1 & E2 & E3) end.
  { intros n. apply Hr. }
  { unfold max_int64 in He. lia. }
  exists wc, st, fs. rewrite E. cbn [w_db jobs assigned_db]. rewrite lookup_insert_eq.
  split_and!; try done. rewrite E3. by destruct (wf_jobs _ Hwf _ _ Hj).
Qed.
End assignment.

(** ** One turn of the loop on a queue with one entry *)
Section turn.
Context `{Redis} `{!RedisHashLaws} `{!RedisStreams} `{!RedisStreamLaws}.

(** Nothing to deliver and nothing pending on any stream, with room to add. *)
Definition idle_queue (r : rstate) : Prop :=
  stream_ok r /\ forall s, s ∈ streamKeys ->
    held ConsumerGroup consumerName s r = [] /\ xlen s r < 100000.

Definition only_entry (s : string) (m : XMessage) (r : rstate) : Prop :=
  stream_ok r /\ forall s', s' ∈ streamKeys ->
    waiting ConsumerGroup s' r = (if decide (s' = s) then [m] else []) /\
    pending ConsumerGroup consumerName s' r = [].

Lemma streamKeys_nodup : NoDup streamKeys.
Proof. apply (bool_decide_unpack _). by vm_compute. Qed.

Lemma StreamKey_in p : 0 <= p <= 9 -> StreamKey p ∈ streamKeys.
Proof. intros Hp. apply list_elem_of_fmap_2, elem_of_seqZ. unfold numPriorities. lia. Qed.

Lemma idle_queue_xadd s vals r :
  idle_queue r -> s ∈ streamKeys -> exists id, only_entry s (mkXMessage id vals) (xadd s 100000 vals r).
Proof.
  intros [Hok Hq] Hs. destruct (Hq s Hs) as [_ Hx].
  destruct (waiting_xadd ConsumerGroup s 100000 vals r Hok Hx) as [id Hw]. exists id.
  split; [by apply stream_ok_xadd|]. intros s' Hs'. rewrite pending_xadd by done.
  destruct (Hq s' Hs') as [[Hw' Hp']%app_eq_nil _]. split; [|done].
  destruct (decide (s' = s)) as [->|Hne]; [by rewrite Hw, Hw'|]. by rewrite waiting_xadd_ne.
Qed.

(** The first read delivers exactly that entry. *)
Lemma only_entry_read s m r :
  only_entry s m r -> s ∈ streamKeys ->
  let '(reply, r') := xreadgroup ConsumerGroup consumerName (map (fun k => (k, ">")) streamKeys) 10 r in
  reply = [(s, [m])] /\ stream_ok r' /\
  forall s', s' ∈ streamKeys -> pending ConsumerGroup consumerName s' r' = if decide (s' = s) then [m] else [].
Proof.
  intros [Hok Hq] Hs.
  pose proof (xreadgroup_new ConsumerGroup consumerName streamKeys 10 r streamKeys_nodup Hok) as Hr.
  destruct (xreadgroup _ _ _ _ _) as [reply r']. destruct Hr as (-> & _ & Hp & Hok'). split_and!; [|done|].
  - assert (Hg : forall ks, NoDup ks -> (forall k, k ∈ ks -> k ∈ streamKeys) ->
      nonempty_streams (map (fun k => (k, take (Z.to_nat 10) (waiting ConsumerGroup k r))) ks) =
      if decide (s ∈ ks) then [(s, [m])] else []); [|rewrite Hg, decide_True by (done || apply streamKeys_nodup); done].
    induction ks as [|k ks IH]; intros Hnd Hks; [by rewrite decide_False by apply not_elem_of_nil|].
    apply list.NoDup_cons in Hnd as [Hk Hnd]. cbn [map]. unfold nonempty_streams in *. rewrite filter_cons. cbn [snd].
    rewrite IH by (done || (intros; apply Hks; by right)). rewrite (proj1 (Hq k (Hks k ltac:(left)))).
    destruct (decide (k = s)) as [->|Hne].
    + rewrite (decide_False (P := s ∈ ks)) by done. rewrite (decide_True (P := s ∈ s :: ks)) by left. done.
    + rewrite (decide_False (P := take (Z.to_nat 10) [] <> [])) by (intros Hd; by apply Hd).
      apply decide_ext. rewrite elem_of_cons. naive_solver.
  - intros s' Hs'. rewrite Hp, decide_True by done. destruct (Hq s' Hs') as [-> ->]. by case_decide.
Qed.

(** The entry of a QUEUED job that some worker can take is assigned by the
    turn, and the cache shows that worker BUSY with it. *)
Lemma turn_assigns s m o w j :
  let k := field (xm_Values m) "job_id" in
  wf_db (w_db w) -> pg_reliable o -> redis_reliable o -> s ∈ streamKeys -> only_entry s m (w_redis w) ->
  k <> "" -> jobs (w_db w) !! k = Some j -> j_status j = QUEUED -> can_take (entry_capabilities m) (w_db w) ->
  let w' := (run (run_turn true) o w).2 in
  wf_db (w_db w') /\
  exists wc st, workers (w_db w) !! w_id wc = Some wc /\
    ready_candidate (entry_capabilities m) wc = true /\
    jobs (w_db w') !! k = Some (assigned_job (w_id wc) (w_epoch wc) j) /\
    cached_as (w_id wc) w' st /\ ws_Epoch st = w_epoch wc /\ ws_Status st = "BUSY" /\
    ws_CurrentJobID st = k.
Proof.
  intros k Hwf Ho Hr Hs Hq Hk Hj Hst Hc w'. split; [by apply run_wf; [apply tick_ok|]|].
  assert (Hw' : exists n w1, w_db w1 = w_db w /\ stream_ok (w_redis w1) /\
    (forall s', s' ∈ streamKeys -> pending ConsumerGroup consumerName s' (w_redis w1) =
       if decide (s' = s) then [m] else []) /\
    w' = (run (readAndProcess streamKeys "0") (later o n) (run (processMessage s m) (later o 1) w1).2).2).
  { subst w'. unfold run_turn, tick.
    match goal with |- context [run (bind ?p ?f) o w] => destruct (events_bind p f o w) as (n & -> & _) end.
    unfold readAndProcess at 2. unfold rdc, trigger. cbn [bind]. rewrite run_rd by apply Hr. cbn [exec_rd].
    pose proof (only_entry_read s m (w_redis w) Hq Hs) as Hread.
    destruct (xreadgroup _ _ _ _ _) as [reply r']. destruct Hread as (-> & Hok & Hp). cbn [fst snd for_each].
    match goal with |- context [run (bind ?p ?f) (later o 1) ?w1] =>
      exists n, w1; destruct (events_bind p f (later o 1) w1) as (n1 & -> & _);
      cbn [bind]; destruct (events_bind (processMessage s m) (fun _ => Ret tt) (later o 1) w1) as (n2 & E2 & _)
    end. rewrite E2. done. }
  destruct Hw' as (n & w1 & Edb & Hok & Hp & ->).
  destruct (entry_is_assigned s m (later o 1) w1 j) as (wc & st & fs & Hwc & Hrc & Er & Hj' & Hc' & He); rewrite ?Edb; try done.
  { auto with fleet. } { intros i. apply Hr. }
  exists wc, st. rewrite Edb in Hwc.
  assert (Hidle : run (readAndProcess streamKeys "0") (later o n) (run (processMessage s m) (later o 1) w1).2 =
    (tt, (run (processMessage s m) (later o 1) w1).2)).
  { unfold readAndProcess, rdc, trigger. cbn [bind]. rewrite run_rd by (apply Hr). cbn [exec_rd].
    rewrite xreadgroup_pending. cbn [fst snd].
    set (w2 := (run (processMessage s m) (later o 1) w1).2) in *.
    assert (Ew : mkWorld _ (w_db w2) (w_redis w2) (w_counters w2) (w_observations w2) = w2) by by destruct w2.
    rewrite Ew. apply run_for_each_id; [auto with fleet|]. intros [s' ms] o' Hin _. cbn [fst snd].
    apply list_elem_of_fmap in Hin as (k' & E & Hk'). apply pair_eq in E as [-> ->].
    assert (Hnone : pending ConsumerGroup consumerName k' (w_redis w2) = []); [|by rewrite Hnone].
    rewrite Er. destruct (decide (k' = s)) as [->|Hne].
    - rewrite pending_xack, pending_hset, Hp, decide_True by done. rewrite filter_cons.
      case_decide as Hid; [by destruct Hid|]. done.
    - rewrite pending_xack_ne, pending_hset, Hp, decide_False by done. done. }
  rewrite Hidle. cbn [snd]. done.
Qed.
End turn.

(** ** The whole trip *)

(** Capabilities the stream's comma-separated field can carry. *)
Definition plain_capabilities (caps : list string) : Prop :=
  (forall c, c ∈ caps -> gostrings.contains_byte gostrings.comma c = false) /\ caps <> [""].

Lemma submit_priority_range q p : submit_priority q = Some p -> 0 <= p <= 9.
Proof. unfold submit_priority. intros E. destruct q as [n|]; [case_match eqn:Eb; [done|]|]; simplify_eq; lia. Qed.

(** C15: a submitted job is run and settled.  Take an idle queue and a READY
    worker with a free slot and the capabilities the job requires.  After a
    submission answered 202, one turn of the leader's scheduling loop assigns
    the job to such a worker; if that worker's agent is idle, its next heartbeat
    is answered with the job; the agent starts exactly it; its heartbeat after
    that makes the job RUNNING; and the report of the build's outcome is
    accepted: the job is SUCCESS, or RETRYING or FAILED by its retry budget.
    Postgres answers throughout and Redis up to the report, and no capability
    contains a comma. *)
Theorem submitted_job_is_settled `{Redis} `{!RedisHashLaws} `{!RedisStreams} `{!RedisStreamLaws}
    s fmt req o1 o2 o3 o4 o5 w w1 b result :
  let caps := default [] (sj_RequiredCapabilities req) in
  wf_db (w_db w) -> submit_in_range (Some req) -> idle_queue (w_redis w) ->
  (forall o, o ∈ [o1; o2; o3; o4; o5] -> pg_reliable o) ->
  (forall o, o ∈ [o1; o2; o3; o4] -> redis_reliable o) ->
  (forall n, new_uuid (o1 n) <> "") -> plain_capabilities caps -> can_take caps (w_db w) ->
  run (SubmitJob fmt (Some req)) o1 w = (mkResponse StatusAccepted b, w1) ->
  exists j wc,
    b = BJob (toJobResponse fmt (scanJobRow j)) /\
    workers (w_db w) !! w_id wc = Some wc /\ ready_candidate caps wc = true /\
    let w2 := (run (run_turn true) o2 w1).2 in
    jobs (w_db w2) !! j_id j = Some (assigned_job (w_id wc) (w_epoch wc) j) /\
    forall d, d_workerID d = w_id wc -> d_workerID d <> "" -> d_epoch d = w_epoch wc ->
      run_and_settled s d o3 o4 o5 w2 (j_id j) j result.
Proof.
  intros caps Hwf Hin Hidle Hpg Hrd Hu [Hcomma Hcaps] Ht E.
  assert (Hpg' : pg_reliable o1 /\ pg_reliable o2 /\ pg_reliable o3 /\ pg_reliable o4 /\ pg_reliable o5)
    by (split_and!; apply Hpg; repeat (left || right)).
  assert (Hrd' : redis_reliable o1 /\ redis_reliable o2 /\ redis_reliable o3 /\ redis_reliable o4)
    by (split_and!; apply Hrd; repeat (left || right)).
  destruct Hpg' as (Hp1 & Hp2 & Hp3 & Hp4 & Hp5). destruct Hrd' as (Hr1 & Hr2 & Hr3 & Hr4).
  destruct (SubmitJob_accepted fmt req o1 w b w1 Hp1 E) as (p & n & Hprio & Hb & Hdb & Hadd).
  set (j := inserted_job (submit_params req p) (o1 n)) in *.
  pose proof (run_wf (SubmitJob fmt (Some req)) o1 w (SubmitJob_ok fmt _ Hin) Hwf) as Hwf1.
  pose proof (run_enqueues (SubmitJob fmt (Some req)) o1 w (SubmitJob_enqueues _ _) Hr1) as Hred.
  rewrite E in Hwf1, Hred. cbn [snd] in Hwf1, Hred. rewrite Hadd in Hred. cbn [foldl fst snd] in Hred.
  set (m := job_message (scanJobRow j)) in *.
  assert (Hs : StreamKey p ∈ streamKeys) by (by apply StreamKey_in, (submit_priority_range (sj_Priority req))).
  destruct (idle_queue_xadd (StreamKey p) (message_values m) (w_redis w) Hidle Hs) as [xid Hq].
  rewrite <- Hred in Hq.
  assert (Hid : field (message_values m) "job_id" = j_id j) by apply field_job_id.
  assert (Hec : entry_capabilities (mkXMessage xid (message_values m)) = caps)
    by (apply (capabilities_roundtrip m); done).
  destruct (turn_assigns (StreamKey p) (mkXMessage xid (message_values m)) o2 w1 j)
    as (Hwf2 & wc & st & Hwc & Hrc & Hj2 & Hst & E1 & E2 & E3); cbn [xm_Values]; rewrite ?Hid, ?Hec; try done.
  { apply Hu. }
  { rewrite Hdb. apply lookup_insert_eq. }
  { unfold can_take. by rewrite Hdb. }
  cbn [xm_Values] in Hj2, E3. rewrite Hid in Hj2, E3. rewrite Hec in Hrc.
  destruct (wf_workers _ Hwf1 _ _ Hwc) as [_ _ _ _ _ He _ _]. rewrite Hdb in Hwc.
  exists j, wc. do 3 (split; [done|]). cbn zeta.
  set (w2 := (run (run_turn true) o2 w1).2) in *. split; [exact Hj2|]. intros d Hd Hne Hde.
  apply (assigned_job_is_run_and_settled s d o3 o4 o5 w2 st (j_id j)
    (assigned_job (w_id wc) (w_epoch wc) j) result); rewrite ?Hd, ?Hde; try done.
  - by rewrite <- Hd.
  - unfold max_int64 in He. lia.
  - apply Hu.
Qed.

Definition submitted : response * world :=
  run (SubmitJob no_time_format (Some submit_build)) (calm 2 "j-1") idle_world.

Lemma idle_world_queue : idle_queue (w_redis idle_world).
Proof.
  assert (Ht : m_new (w_redis idle_world) = ∅ /\ m_pending (w_redis idle_world) = ∅ /\
    m_len (w_redis idle_world) = ∅) by (vm_compute; done).
  destruct Ht as (E1 & E2 & E3). split.
  - intros s. unfold mem_held. rewrite E1, E2, lookup_empty. split; [constructor|].
    intros m Hm. by apply not_elem_of_nil in Hm.
  - intros s _. cbn. rewrite E1, E2, E3, lookup_empty. split; [done|]. reflexivity.
Qed.

Lemma submitted_job_is_settled_witness :
  exists j wc,
    rsp_body submitted.1 = BJob (toJobResponse no_time_format (scanJobRow j)) /\
    workers (w_db idle_world) !! w_id wc = Some wc /\ ready_candidate ["docker"] wc = true /\
    let w2 := (run (run_turn true) (calm 3 "") submitted.2).2 in
    jobs (w_db w2) !! j_id j = Some (assigned_job (w_id wc) (w_epoch wc) j) /\
    forall d, d_workerID d = w_id wc -> d_workerID d <> "" -> d_epoch d = w_epoch wc ->
      run_and_settled server d (calm 4 "") (calm 9 "") (calm 10 "") w2 (j_id j) j
        (mkResult true 0 "log" "").
Proof.
  assert (Es : rsp_status submitted.1 = StatusAccepted) by (vm_compute; reflexivity).
  unfold submitted in *.
  destruct (run (SubmitJob no_time_format (Some submit_build)) (calm 2 "j-1") idle_world)
    as [[st b] w1] eqn:Er. cbn in Es. subst st. cbn [fst snd rsp_body].
  apply (submitted_job_is_settled server no_time_format submit_build (calm 2 "j-1") (calm 3 "")
    (calm 4 "") (calm 9 "") (calm 10 "") idle_world w1 b (mkResult true 0 "log" "")).
  - apply (reachable_good ([], idle_world) idle_reachable).
  - vm_compute. reflexivity.
  - exact idle_world_queue.
  - intros o Ho. repeat (apply elem_of_cons in Ho as [->|Ho]; [intros n; reflexivity|]).
    by apply not_elem_of_nil in Ho.
  - intros o Ho. repeat (apply elem_of_cons in Ho as [->|Ho]; [intros n; reflexivity|]).
    by apply not_elem_of_nil in Ho.
  - intros n. discriminate.
  - split; [|discriminate]. intros c Hc. apply elem_of_cons in Hc as [->|Hc]; [vm_compute; reflexivity|].
    by apply not_elem_of_nil in Hc.
  - exists "w-a", (worker_of idle_world). split; vm_compute; reflexivity.
  - exact Er.
Defined.
