(* ===== verification/Delivery.v ===== *)
(** * A queued job keeps its queue entry

    Over every interleaving of the control plane in which Redis keeps its
    data, an entry of the job queue is not acknowledged while its job is
    QUEUED: it is still waiting or pending for the leader's consumer, so a
    later turn of the scheduling loop sees it again.  The proof is a property
    of programs, [safe], that holds of every request and is kept by each call
    whose reply the queued job allows. *)
From S2P Require Import Prelude GoStrings Database WorkerStore JobStore Lifecycle Invariant.
From S2P Require Import StoreSound Redis Streams Effects Stores Loop Reaper RetryPoller GrpcServer.
From S2P Require Import Autoscaler Api Metrics System Scenario Handshake Ordering EndToEnd.
Local Open Scope Z_scope.

(** ** Programs under assumptions on the replies

    Every call satisfies [P] as long as every earlier reply satisfied [Q]. *)
Fixpoint guarded (P : forall X, call X -> Prop) (Q : forall X, call X -> X -> Prop) {A} (p : prog A)
    : Prop :=
  match p with
  | Ret _ => True
  | Call c k => P _ c /\ forall x, Q _ c x -> guarded P Q (k x)
  end.

Lemma guarded_bind P Q {A B} (p : prog A) (f : A -> prog B) :
  guarded P Q p -> (forall a, guarded P Q (f a)) -> guarded P Q (bind p f).
Proof. induction p as [a|X c k IH]; simpl; [auto|]. intros [Hc Hx] Hf. auto. Qed.

Lemma guarded_for_each P Q {A} (l : list A) body :
  (forall a, a ∈ l -> guarded P Q (body a)) -> guarded P Q (for_each l body).
Proof.
  induction l as [|a l IH]; intros Hb; [done|]. apply guarded_bind; [apply Hb; left|]. intros _.
  apply IH. intros a' Ha. apply Hb. by right.
Qed.

Lemma guarded_all_calls (P P' : forall X, call X -> Prop) Q {A} (p : prog A) :
  (forall X (c : call X), P' X c -> P X c) -> all_calls P' p -> guarded P Q p.
Proof. intros HP. induction p as [a|X c k IH]; simpl; [done|]. intros [Hc Hx]. auto. Qed.

(** ** Executions in which Redis keeps its data *)
Inductive durable_step `{Redis} : config -> config -> Prop :=
  | durable_start ps w p : request p -> durable_step (ps, w) (ps ++ [p], w)
  | durable_call c c' : pool_step c c' -> durable_step c c'
  | durable_stop ps1 p ps2 w : durable_step (ps1 ++ p :: ps2, w) (ps1 ++ ps2, w).

Lemma durable_sys_step `{Redis} c c' : durable_step c c' -> sys_step c c'.
Proof. destruct 1; by constructor. Qed.

(** An invariant of the world [I] that guarded calls keep, together with the
    guard of every program in flight. *)
Definition guarded_inv `{Redis} P Q (I : world -> Prop) (c : config) : Prop :=
  good c /\ Forall (fun p => guarded P Q p) c.1 /\ I c.2.

Lemma guarded_step `{Redis} P Q (I : world -> Prop) c c' :
  durable_step c c' -> (forall p, request p -> guarded P Q p) ->
  (forall X (cl : call X) e, call_ok cl -> P X cl -> wf_db (w_db c.2) -> I c.2 ->
     (handle cl e c.2).2 = c'.2 -> I c'.2 /\ Q X cl (handle cl e c.2).1) ->
  guarded_inv P Q I c -> guarded_inv P Q I c'.
Proof.
  intros Hd Hreq Hcall (Hg & Hps & HI).
  split; [by apply (sys_step_good c), Hg; apply durable_sys_step|].
  destruct Hd as [ps w p Hp|c c' Hd|ps1 p ps2 w]; cbn [fst snd] in *.
  - split; [|done]. apply Forall_app. split; [done|]. constructor; [auto|constructor].
  - destruct Hd as [ps1 ps2 X cl kont e w]; cbn [fst snd] in *. destruct Hg as [Hok Hwf].
    apply Forall_app in Hps as [Hs1 [[Hc Hk] Hs2]%list.Forall_cons].
    apply Forall_app in Hok as [_ [[Hcl _] _]%list.Forall_cons].
    destruct (Hcall X cl e Hcl Hc Hwf HI eq_refl) as [HI' HQ].
    split; [|done]. apply Forall_app. split; [done|]. constructor; auto.
  - split; [|done]. apply Forall_app in Hps as [Hs1 [_ Hs2]%list.Forall_cons]. by apply Forall_app.
Qed.

(** ** Calls that leave the entries of the queue alone *)
Definition worker_key (k : string) : Prop := exists w, k = stateKey w \/ k = aliveKey w.

Definition routine_rd {A} (c : rd A) : Prop :=
  match c with
  | RHSet _ _ | RHGetAll _ => True
  | RSet k _ _ => worker_key k
  | RDel ks => Forall worker_key ks
  | RXAdd _ n _ => n = 100000
  | RXGroupCreate _ _ | RXReadGroup _ _ _ _ | RXAck _ _ _ => False
  end.
Definition routine {X} (c : call X) : Prop := match c with Rd c => routine_rd c | _ => True end.

Lemma worker_key_not_stream k s : worker_key k -> s ∈ streamKeys -> k <> s.
Proof. intros [w Hk] (p & -> & _)%list_elem_of_fmap. by destruct Hk as [-> | ->]. Qed.

Lemma worker_keys w : worker_key (stateKey w) /\ worker_key (aliveKey w).
Proof. split; exists w; auto. Qed.

Ltac solve_routine :=
  repeat first [ progress simpl | apply all_calls_bind | split | done | progress intros
               | apply worker_keys | apply list.Forall_cons | progress eauto with fleet | case_match ].

(** Every request but a turn of the scheduling loop is routine. *)
Lemma ignore_routine {A} (p : prog A) : all_calls (@routine) p -> all_calls (@routine) (ignore p).
Proof. intros. by apply all_calls_bind. Qed.

Lemma handleHeartbeat_routine s req : all_calls (@routine) (handleHeartbeat s req).
Proof.
  unfold handleHeartbeat, known_epoch, pending_assignment, flush_heartbeat, UpdateHeartbeat, SetState, SetAlive, GetState.
  solve_routine.
Qed.

Lemma request_routine p : request p -> (exists l, p = run_turn l) \/ all_calls (@routine) p.
Proof.
  destruct 1; first [left; eexists; reflexivity | right; try apply ignore_routine].
  - unfold RegisterWorker, SetState, SetAlive. solve_routine.
  - apply handleHeartbeat_routine.
  - apply all_calls_Heartbeat, handleHeartbeat_routine.
  - unfold ReportJobResult, finish_report, record_result, free_worker, SetState. solve_routine.
  - unfold SubmitJob, Create. solve_routine.
  - solve_routine.
  - solve_routine.
  - solve_routine.
  - unfold DrainWorker, drain_reply, syncDrainToCache, SetState, SetDrainRequested. solve_routine.
  - unfold ResumeWorker, drain_reply, syncDrainToCache, SetState, SetDrainRequested. solve_routine.
  - destruct leader; [|done]. simpl. split; [done|]. intros [l|]; [|done]. apply all_calls_for_each. intros w.
    solve_routine.
  - destruct leader; [|done]. simpl. split; [done|]. intros [l|]; [|done]. apply all_calls_for_each. intros w.
    solve_routine.
  - unfold autoscale_tick, doScaleDown. solve_routine.
  - solve_routine.
Qed.

Section delivery.
Context `{Redis} `{!RedisStreams} `{!RedisStreamLaws}.

(** The entry [m] of the stream [s], for the job [k]. *)
Variables (k s : string) (m : XMessage).
Hypothesis Hs : s ∈ streamKeys.
Hypothesis Hk : entry_job m = k.
Hypothesis Hne : k <> "".

Definition job_queued (d : database) : Prop := exists j, jobs d !! k = Some j /\ j_status j = QUEUED.

(** ** Replies the queued job allows *)
Definition possible_pg {A} (c : pg A) : result A -> Prop :=
  match c in pg A return result A -> Prop with
  | PgGetJob k' => fun x => k' = k ->
      match x with Ok j => J_Status j = "QUEUED" /\ J_ID j = k | Err y => y <> ErrJobNotFound end
  | PgAssignJob k' _ _ _ => fun x => k' = k -> x <> Ok true
  | _ => fun _ => True
  end.

Definition possible_rd {A} (c : rd A) : result A -> Prop :=
  match c in rd A return result A -> Prop with
  | RXReadGroup _ _ _ _ => fun x => forall l ms m', x = Ok l -> (s, ms) ∈ l -> m' ∈ ms ->
      xm_ID m' = xm_ID m -> m' = m
  | _ => fun _ => True
  end.

Definition possible {X} (c : call X) : X -> Prop :=
  match c in call X return X -> Prop with
  | Pg c => possible_pg c
  | Rd c => possible_rd c
  | _ => fun _ => True
  end.

(** ** Calls that keep the entry *)
Definition keeps_entry {X} (c : call X) : Prop :=
  match c with
  | Rd (RXAck s' g id) => g = ConsumerGroup /\ ~ (s' = s /\ id = xm_ID m)
  | Rd (RXReadGroup g cn streams _) => g = ConsumerGroup /\ cn = consumerName /\
      (streams = map (fun x => (x, ">")) streamKeys \/ streams = map (fun x => (x, "0")) streamKeys)
  | c => routine c
  end.

(** As long as the replies are possible, every call keeps the entry. *)
Abbreviation safe := (guarded (@keeps_entry) (@possible)).

Lemma routine_safe {A} (p : prog A) : all_calls (@routine) p -> safe p.
Proof.
  apply guarded_all_calls. intros X c Hc. destruct c as [A0 c|A0 c| | |]; try done. by destruct c.
Qed.

(** ** Every request keeps the entry *)
Lemma ack_safe s' id : ~ (s' = s /\ id = xm_ID m) -> safe (ack s' id).
Proof. intros Hn. split; [by split|]. done. Qed.

Lemma processMessage_safe s' m' : (s' = s -> xm_ID m' = xm_ID m -> m' = m) -> safe (processMessage s' m').
Proof.
  intros Hm. unfold processMessage. fold (entry_job m').
  destruct (decide (s' = s /\ xm_ID m' = xm_ID m)) as [[-> E]|Hd].
  - rewrite (Hm eq_refl E), Hk. rewrite decide_False by done. split; [done|].
    intros [j|y] Hp; [|by destruct y; try (by destruct (Hp eq_refl))].
    destruct (Hp eq_refl) as [Hq Hj]. cbn [bind]. rewrite decide_False by (intros Hc; by apply Hc).
    split; [done|]. intros [l|] _; [|done]. cbn [bind]. case_match; [|done]. split; [done|].
    intros [[]|] Ha; [|done..]. by destruct (Ha Hj).
  - case_decide; [by apply ack_safe|]. split; [done|]. intros [j|y] _; [|destruct y; first [by apply ack_safe | done]].
    cbn [bind]. case_decide; [by apply ack_safe|]. split; [done|]. intros [l|] _; [|done]. cbn [bind]. case_match; [|done].
    split; [done|]. intros [[]|] _; [|done..]. split; [done|]. intros ? _. split; [done|].
    intros ? _. by apply ack_safe.
Qed.

Lemma readAndProcess_safe id : id = ">" \/ id = "0" -> safe (readAndProcess streamKeys id).
Proof.
  intros Hid. split; [split; [done|]; split; [done|]; by destruct Hid as [-> | ->]; auto|].
  intros [l|] Hp; [|done]. apply guarded_for_each. intros [s' ms] Hms. apply guarded_for_each. intros m' Hm'.
  apply processMessage_safe. cbn [fst snd] in *. intros ->. by apply (Hp l ms).
Qed.

Lemma request_safe p : request p -> safe p.
Proof.
  intros [[[] ->]|Hr]%request_routine; [|done|by apply routine_safe].
  apply guarded_bind; [|intros _]; apply readAndProcess_safe; auto.
Qed.

(** ** A Redis command keeps the entry and answers possibly *)
Definition has_entry (r : rstate) : Prop := stream_ok r /\ m ∈ held ConsumerGroup consumerName s r.

Lemma held_same r r' :
  waiting ConsumerGroup s r' = waiting ConsumerGroup s r ->
  pending ConsumerGroup consumerName s r' = pending ConsumerGroup consumerName s r ->
  stream_ok r' -> has_entry r -> has_entry r'.
Proof. intros Ew Ep Hok [_ Hm]. split; [done|]. unfold held. by rewrite Ew, Ep. Qed.

Lemma held_id m' r : has_entry r -> m' ∈ held ConsumerGroup consumerName s r -> xm_ID m' = xm_ID m -> m' = m.
Proof.
  intros [Hok Hm] Hm' E. pose proof (held_unique ConsumerGroup consumerName s r Hok) as Hnd.
  apply list_elem_of_lookup in Hm as [i Hi], Hm' as [i' Hi'].
  assert (i' = i) as ->; [|congruence].
  eapply (NoDup_lookup _ i' i (xm_ID m) Hnd).
  - rewrite list_lookup_fmap, Hi'. cbn. by f_equal.
  - by rewrite list_lookup_fmap, Hi.
Qed.

Lemma read_new_keeps n r : has_entry r ->
  let '(l, r') := xreadgroup ConsumerGroup consumerName (map (fun x => (x, ">")) streamKeys) n r in
  has_entry r' /\ forall ms m', (s, ms) ∈ l -> m' ∈ ms -> xm_ID m' = xm_ID m -> m' = m.
Proof.
  intros Hr. pose proof (xreadgroup_new ConsumerGroup consumerName streamKeys n r streamKeys_nodup (proj1 Hr)) as Hx.
  destruct (xreadgroup _ _ _ _ _) as [l r']. destruct Hx as (-> & Hw & Hp & Hok). split.
  - split; [done|]. destruct Hr as [_ Hm]. unfold held in *. rewrite Hw, Hp, !decide_True by done.
    rewrite <- (take_drop (Z.to_nat n) (waiting ConsumerGroup s r)) in Hm.
    rewrite !elem_of_app in *. tauto.
  - intros ms m' Hms Hm'. apply (held_id m' r Hr).
    unfold nonempty_streams in Hms. apply list_elem_of_filter in Hms as [_ Hms].
    apply list_elem_of_fmap in Hms as (s0 & [= <- ->] & _). apply elem_of_app. left.
    by eapply elem_of_take in Hm' as (i & Hi%list_elem_of_lookup_2 & _).
Qed.

Lemma read_pending_keeps n r : has_entry r ->
  let '(l, r') := xreadgroup ConsumerGroup consumerName (map (fun x => (x, "0")) streamKeys) n r in
  has_entry r' /\ forall ms m', (s, ms) ∈ l -> m' ∈ ms -> xm_ID m' = xm_ID m -> m' = m.
Proof.
  intros Hr. rewrite xreadgroup_pending. split; [done|]. intros ms m' Hms Hm'. apply (held_id m' r Hr).
  apply list_elem_of_fmap in Hms as (s0 & [= <- ->] & _). apply elem_of_app. right.
  by eapply elem_of_take in Hm' as (i & Hi%list_elem_of_lookup_2 & _).
Qed.

Lemma xack_keeps s' id r : ~ (s' = s /\ id = xm_ID m) -> has_entry r -> has_entry (xack s' ConsumerGroup id r).
Proof.
  intros Hn [Hok Hm]. split; [by apply stream_ok_xack|]. unfold held in *. rewrite waiting_xack.
  destruct (decide (s' = s)) as [->|Hd]; [|by rewrite pending_xack_ne].
  rewrite pending_xack. apply elem_of_app in Hm as [Hm|Hm]; apply elem_of_app; [by left|right].
  apply list_elem_of_filter. split; [|done]. intros E. by apply Hn.
Qed.

Lemma xadd_keeps s' vals r : xlen s r < 100000 -> has_entry r -> has_entry (xadd s' 100000 vals r).
Proof.
  intros Hx [Hok Hm]. split; [by apply stream_ok_xadd|]. unfold held in *.
  rewrite pending_xadd by (done || by intros ->).
  destruct (decide (s' = s)) as [->|Hd]; [|by rewrite waiting_xadd_ne].
  destruct (waiting_xadd ConsumerGroup s 100000 vals r Hok Hx) as [id ->]. rewrite !elem_of_app in *. tauto.
Qed.

Lemma exec_rd_keeps {A} (c : rd A) r :
  keeps_entry (Rd c) -> xlen s r < 100000 -> has_entry r ->
  has_entry (exec_rd c r).2 /\ possible_rd c (Ok (exec_rd c r).1).
Proof.
  intros Hc Hx Hr. destruct c as [key fs|key|key v t|ks|s' g|s' n vals|g cn ss n|s' g id]; cbn in Hc |- *.
  - split; [|done]. apply (held_same r); [apply waiting_hset|apply pending_hset|apply stream_ok_hset, Hr|done].
  - done.
  - pose proof (worker_key_not_stream key s Hc Hs) as Hd. split; [|done].
    apply (held_same r); [by apply waiting_set_px|by apply pending_set_px|apply stream_ok_set_px, Hr|done].
  - assert (Hd : s ∉ ks).
    { intros Hin. eapply list.Forall_forall in Hin; [|done]. by apply (worker_key_not_stream s s). }
    split; [|done].
    apply (held_same r); [by apply waiting_del|by apply pending_del|apply stream_ok_del, Hr|done].
  - done.
  - subst n. split; [by apply xadd_keeps|done].
  - destruct Hc as (-> & -> & [-> | ->]).
    + pose proof (read_new_keeps n r Hr) as Hl. destruct (xreadgroup _ _ _ _ _) as [l r'].
      destruct Hl as [Hr' Hl]. split; [done|]. intros ? ? ? [= <-]. apply Hl.
    + pose proof (read_pending_keeps n r Hr) as Hl. destruct (xreadgroup _ _ _ _ _) as [l r'].
      destruct Hl as [Hr' Hl]. split; [done|]. intros ? ? ? [= <-]. apply Hl.
  - destruct Hc as [-> Hn]. split; [by apply xack_keeps|done].
Qed.

(** ** A Postgres call that leaves the job QUEUED answers possibly *)
Lemma exec_pg_possible {A} (c : pg A) e d :
  wf_db d -> job_queued d -> job_queued (exec_pg c e d).2 -> possible_pg c (exec_pg c e d).1.
Proof.
  intros Hwf (j & Hj & Hq) (j' & Hj' & Hq'). destruct c; try done; simpl in *.
  - intros ->. destruct (AssignJob_cases k jobCreatedAt workerID epoch e d)
      as [(r & E & Hr)|(wr & jr & _ & _ & _ & _ & _ & _ & _ & E)]; rewrite E in *; [done|].
    simpl in Hj'. rewrite lookup_insert_eq in Hj'. by simplify_eq.
  - intros ->. unfold GetJobRow. rewrite Hj. simpl. rewrite Hq. split; [done|].
    by destruct (wf_jobs d Hwf _ _ Hj).
Qed.

Lemma handle_keeps {X} (c : call X) e w :
  keeps_entry c -> wf_db (w_db w) -> job_queued (w_db w) -> job_queued (w_db (handle c e w).2) ->
  xlen s (w_redis w) < 100000 -> has_entry (w_redis w) ->
  has_entry (w_redis (handle c e w).2) /\ possible c (handle c e w).1.
Proof.
  intros Hc Hwf Hq Hq' Hx Hr. destruct c as [A c|A c| | |]; try done; simpl in *.
  - unfold with_fault in *. destruct (env_fault e).
    + pose proof (exec_pg_possible c e (w_db w) Hwf Hq) as Hp. by destruct (exec_pg c e (w_db w)); auto.
    + split; [done|]. by destruct c.
    + split; [done|]. by destruct c.
  - pose proof (exec_rd_keeps c (w_redis w) Hc Hx Hr) as [Hr' Hp]. unfold with_fault.
    destruct (redis_fault e); destruct (exec_rd c (w_redis w)) as [x r']; split; try done; by destruct c.
Qed.
End delivery.

(** A step at both ends of which the job [k] is QUEUED, from a state in which
    the stream [s] is below its MAXLEN. *)
Definition queued_step `{RedisStreams} (k s : string) (c c' : config) : Prop :=
  durable_step c c' /\ job_queued k (w_db c.2) /\ job_queued k (w_db c'.2) /\
  xlen s (w_redis c.2) < 100000.

Lemma queued_step_inv `{Redis} `{!RedisStreams} `{!RedisStreamLaws} k s m c c' :
  s ∈ streamKeys -> entry_job m = k -> k <> "" -> queued_step k s c c' ->
  guarded_inv (@keeps_entry s m) (@possible k s m) (fun w => has_entry s m (w_redis w)) c ->
  guarded_inv (@keeps_entry s m) (@possible k s m) (fun w => has_entry s m (w_redis w)) c'.
Proof.
  intros Hs Hk Hne (Hd & Hq & Hq' & Hx). apply guarded_step; [done|intros p; by apply request_safe|].
  intros X cl e _ Hc Hwf Hr E. rewrite <- E in Hq' |- *. by apply handle_keeps.
Qed.


(** The world after a submission, and a scheduling turn whose read of the
    queue reaches Redis but whose reply is lost: the entry is now pending. *)
Definition queue_entry : XMessage :=
  default (mkXMessage "" ∅) (head (waiting ConsumerGroup (StreamKey 3) (w_redis submitted.2))).

Definition reply_lost : env :=
  mkEnv (3 * Second) (3 * Second) "" NoFault LostReply (fun l => l) (fun l => reflexivity l).

(** A program alone, after its first call. *)
Definition one_call (p : prog unit) (e : env) (w : world) : config :=
  match p with
  | Ret a => ([Ret a], w)
  | Call c k => ([k (handle c e w).1], (handle c e w).2)
  end.

Lemma one_call_step X (c : call X) k e w : pool_step ([Call c k], w) (one_call (Call c k) e w).
Proof. apply (pool_call [] [] c k e w). Qed.

Definition read_lost : config := one_call (run_turn true) reply_lost submitted.2.

