(* ===== verification/Orphans.v ===== *)
(** * A reaped job is stuck

    The reaper puts the jobs of a dead worker back to QUEUED but adds no entry
    to a stream.  When the job's original entry is gone (it is acknowledged at
    assignment), nothing the system does ever moves the job again: only
    an entry leads to an assignment, and entries are added only for new jobs
    and for jobs that were RETRYING.  Proved over every interleaving in which
    Redis keeps its data. *)
From S2P Require Import Prelude GoStrings Database WorkerStore JobStore Lifecycle Invariant.
From S2P Require Import StoreSound Redis Streams Effects Stores Loop Reaper RetryPoller GrpcServer.
From S2P Require Import Autoscaler Api Metrics System Scenario SchedulerProps Divergences Handshake.
From S2P Require Import Ordering EndToEnd Delivery.
Local Open Scope Z_scope.

(** ** Calls without the queue and without assignments *)
Definition bystander {X} (c : call X) : Prop :=
  match c with
  | Pg c => match c with PgAssignJob _ _ _ _ => False | _ => True end
  | Rd c => match c with RXAdd _ _ _ => False | c => routine_rd c end
  | _ => True
  end.

Lemma handleHeartbeat_bystander s req : all_calls (@bystander) (handleHeartbeat s req).
Proof.
  unfold handleHeartbeat, known_epoch, pending_assignment, flush_heartbeat, UpdateHeartbeat, SetState, SetAlive, GetState.
  solve_routine.
Qed.

Lemma sweep_bystander timeout : all_calls (@bystander) (sweep timeout).
Proof.
  simpl. split; [done|]. intros [l|]; [|done]. apply all_calls_for_each. intros w. solve_routine.
Qed.

Section orphan.
Context `{Redis} `{!RedisStreams} `{!RedisStreamLaws}.
Variable k : string.
Hypothesis Hne : k <> "".

(** No entry for the job waits or is pending in any stream. *)
Definition no_entry (r : rstate) : Prop :=
  stream_ok r /\ forall s m, s ∈ streamKeys -> m ∈ Streams.held ConsumerGroup consumerName s r ->
    entry_job m <> k.

(** ** Calls that neither assign nor enqueue the job *)
Definition spares {X} (c : call X) : Prop :=
  match c with
  | Pg c => match c with PgAssignJob k' _ _ _ => k' <> k | _ => True end
  | Rd c =>
      match c with
      | RXAdd _ _ vals => field vals "job_id" <> k
      | RXAck _ g _ => g = ConsumerGroup
      | RXReadGroup g cn streams _ => g = ConsumerGroup /\ cn = consumerName /\
          (streams = map (fun x => (x, ">")) streamKeys \/ streams = map (fun x => (x, "0")) streamKeys)
      | c => routine_rd c
      end
  | _ => True
  end.

(** What the stores can answer while the job is QUEUED without an entry. *)
Definition answer_pg {A} (c : pg A) : result A -> Prop :=
  match c in pg A return result A -> Prop with
  | PgGetJob k' => fun x => forall j, x = Ok j -> J_ID j = k'
  | PgInsertJob _ => fun x => forall j, x = Ok j -> J_ID j <> k
  | PgMarkQueuedFromRetry k' _ => fun x => k' = k -> x <> Ok true
  | _ => fun _ => True
  end.
Definition answer_rd {A} (c : rd A) : result A -> Prop :=
  match c in rd A return result A -> Prop with
  | RXReadGroup _ _ _ _ => fun x => forall l s ms m, x = Ok l -> (s, ms) ∈ l -> m ∈ ms -> entry_job m <> k
  | _ => fun _ => True
  end.
Definition answer {X} (c : call X) : X -> Prop :=
  match c in call X return X -> Prop with
  | Pg c => answer_pg c
  | Rd c => answer_rd c
  | _ => fun _ => True
  end.

Abbreviation sparing := (guarded (@spares) (@answer)).

Lemma bystander_sparing {A} (p : prog A) : all_calls (@bystander) p -> sparing p.
Proof.
  apply guarded_all_calls. intros X c Hc. destruct c as [B c|B c| | |]; try done; by destruct c.
Qed.

(** ** Every request spares the job *)
Lemma enqueue_sparing m : jm_JobID m <> k -> sparing (Enqueue m).
Proof.
  intros Hm. split; [|done]. change (field (message_values m) "job_id" <> k). by rewrite field_job_id.
Qed.

Lemma SubmitJob_sparing fmt r : sparing (SubmitJob fmt r).
Proof.
  assert (Hins : forall p, sparing (let! r := (let! r := pgc (PgInsertJob p) in
      Ret (match r with Ok j => Ok (j, false) | Err x => Err x end)) in
    match r with
    | Err _ => Ret (writeError StatusInternalServerError "internal_error" "failed to create job")
    | Ok (job, true) => Ret (mkResponse StatusConflict (BJob (toJobResponse fmt job)))
    | Ok (job, false) => Enqueue (job_message job) >>
        Ret (mkResponse StatusAccepted (BJob (toJobResponse fmt job)))
    end)).
  { intros p. split; [done|]. intros [j|x] Ha; [|done]. cbn [bind]. apply guarded_bind; [|done].
    apply enqueue_sparing. by apply Ha. }
  destruct r as [req|]; [|done]. cbn [SubmitJob]. case_decide; [done|]. case_match; [|done].
  unfold Create. case_decide; [apply Hins|]. split; [done|]. intros [j|[]] _; try done. apply Hins.
Qed.

Lemma poll_sparing : sparing poll.
Proof.
  split; [done|]. intros [l|] _; [|done]. apply guarded_for_each. intros j _. split; [done|].
  intros [[]|] Ha; try done. cbn [bind]. apply guarded_bind; [|done]. apply enqueue_sparing.
  intros E. by destruct (Ha E).
Qed.

Lemma processMessage_sparing s m : entry_job m <> k -> sparing (processMessage s m).
Proof.
  intros Hm. unfold processMessage. fold (entry_job m). case_decide; [by repeat split|].
  split; [done|]. intros [j|y] Ha; [|destruct y; by repeat split]. cbn [bind].
  case_decide; [by repeat split|]. split; [done|]. intros [l|] _; [|done]. cbn [bind].
  case_match; [|done]. split; [cbn; by rewrite (Ha j eq_refl)|].
  intros [[]|] _; by repeat split.
Qed.

Lemma readAndProcess_sparing id : id = ">" \/ id = "0" -> sparing (readAndProcess streamKeys id).
Proof.
  intros Hid. split; [split; [done|]; split; [done|]; by destruct Hid as [-> | ->]; auto|].
  intros [l|] Ha; [|done]. apply guarded_for_each. intros [s ms] Hms. apply guarded_for_each. intros m Hm.
  apply processMessage_sparing. by eapply Ha.
Qed.

Lemma request_sparing p : request p -> sparing p.
Proof.
  destruct 1; try (apply guarded_bind; [|done]).
  - apply bystander_sparing. unfold RegisterWorker, SetState, SetAlive. solve_routine.
  - apply bystander_sparing, handleHeartbeat_bystander.
  - apply bystander_sparing, all_calls_Heartbeat, handleHeartbeat_bystander.
  - apply bystander_sparing. unfold ReportJobResult, finish_report, record_result, free_worker, SetState. solve_routine.
  - apply SubmitJob_sparing.
  - apply bystander_sparing. solve_routine.
  - apply bystander_sparing. solve_routine.
  - apply bystander_sparing. solve_routine.
  - apply bystander_sparing. unfold DrainWorker, drain_reply, syncDrainToCache, SetState, SetDrainRequested. solve_routine.
  - apply bystander_sparing. unfold ResumeWorker, drain_reply, syncDrainToCache, SetState, SetDrainRequested. solve_routine.
  - destruct leader; [|done]. apply guarded_bind; [|intros _]; apply readAndProcess_sparing; auto.
  - destruct leader; [|done]. apply bystander_sparing, sweep_bystander.
  - destruct leader; [|done]. apply poll_sparing.
  - apply bystander_sparing. unfold autoscale_tick, doScaleDown. solve_routine.
  - apply bystander_sparing. solve_routine.
Qed.

(** ** A Redis command keeps the job without an entry *)
Lemma no_entry_same r r' :
  (forall s, s ∈ streamKeys -> waiting ConsumerGroup s r' = waiting ConsumerGroup s r /\
     pending ConsumerGroup consumerName s r' = pending ConsumerGroup consumerName s r) ->
  stream_ok r' -> no_entry r -> no_entry r'.
Proof.
  intros Hs Hok [_ Hn]. split; [done|]. intros s m Hin. destruct (Hs s Hin) as [Ew Ep].
  unfold Streams.held. rewrite Ew, Ep. by apply Hn.
Qed.

Lemma no_entry_xadd s n vals r : field vals "job_id" <> k -> no_entry r -> no_entry (xadd s n vals r).
Proof.
  intros Hv [Hok Hn]. split; [by apply stream_ok_xadd|]. intros s' m Hin Hm.
  apply held_xadd in Hm as [Hm|[E|E]]; [by eapply Hn|by unfold entry_job; rewrite E|by unfold entry_job; rewrite E|done].
Qed.

Lemma no_entry_xack s id r : no_entry r -> no_entry (xack s ConsumerGroup id r).
Proof.
  intros [Hok Hn]. split; [by apply stream_ok_xack|]. intros s' m Hin Hm. apply (Hn s' m Hin). revert Hm.
  unfold Streams.held. rewrite waiting_xack, !elem_of_app. destruct (decide (s = s')) as [->|Hd].
  - rewrite pending_xack, list_elem_of_filter. tauto.
  - by rewrite pending_xack_ne.
Qed.

Lemma take_sub {A} (x : A) n l : x ∈ take n l -> x ∈ l.
Proof. intros (i & Hi%list_elem_of_lookup_2 & _)%elem_of_take. done. Qed.

Lemma no_entry_read_new n r : no_entry r ->
  let '(l, r') := xreadgroup ConsumerGroup consumerName (map (fun x => (x, ">")) streamKeys) n r in
  no_entry r' /\ forall s ms m, (s, ms) ∈ l -> m ∈ ms -> entry_job m <> k.
Proof.
  intros [Hok Hn].
  pose proof (xreadgroup_new ConsumerGroup consumerName streamKeys n r streamKeys_nodup Hok) as Hx.
  destruct (xreadgroup _ _ _ _ _) as [l r']. destruct Hx as (-> & Hw & Hp & Hok'). split.
  - split; [done|]. intros s m Hin Hm. apply (Hn s m Hin). revert Hm. unfold Streams.held.
    rewrite Hw, Hp, !decide_True by done.
    rewrite <- (take_drop (Z.to_nat n) (waiting ConsumerGroup s r)) at 3. rewrite !elem_of_app. tauto.
  - intros s ms m Hms Hm. unfold nonempty_streams in Hms. apply list_elem_of_filter in Hms as [_ Hms].
    apply list_elem_of_fmap in Hms as (s0 & [= <- ->] & Hs0). apply (Hn s); [done|]. apply elem_of_app. left.
    by eapply take_sub.
Qed.

Lemma no_entry_read_pending n r : no_entry r ->
  let '(l, r') := xreadgroup ConsumerGroup consumerName (map (fun x => (x, "0")) streamKeys) n r in
  no_entry r' /\ forall s ms m, (s, ms) ∈ l -> m ∈ ms -> entry_job m <> k.
Proof.
  intros [Hok Hn]. rewrite xreadgroup_pending. split; [done|]. intros s ms m Hms Hm.
  apply list_elem_of_fmap in Hms as (s0 & [= <- ->] & Hs0). apply (Hn s); [done|]. apply elem_of_app. right.
  by eapply take_sub.
Qed.

Lemma exec_rd_spares {A} (c : rd A) r :
  spares (Rd c) -> no_entry r -> no_entry (exec_rd c r).2 /\ answer_rd c (Ok (exec_rd c r).1).
Proof.
  intros Hc Hr. destruct c as [key fs|key|key v t|ks|s' g|s' n vals|g cn ss n|s' g id]; cbn in Hc |- *.
  - split; [|done]. apply (no_entry_same r); [|apply stream_ok_hset, Hr|done].
    intros s _. split; [apply waiting_hset|apply pending_hset].
  - done.
  - split; [|done]. apply (no_entry_same r); [|apply stream_ok_set_px, Hr|done].
    intros s Hs. pose proof (worker_key_not_stream key s Hc Hs).
    split; [by apply waiting_set_px|by apply pending_set_px].
  - split; [|done]. apply (no_entry_same r); [|apply stream_ok_del, Hr|done]. intros s Hs.
    assert (Hd : s ∉ ks).
    { intros Hin. eapply list.Forall_forall in Hin; [|done]. by apply (worker_key_not_stream s s). }
    split; [by apply waiting_del|by apply pending_del].
  - done.
  - split; [by apply no_entry_xadd|done].
  - destruct Hc as (-> & -> & [-> | ->]).
    + pose proof (no_entry_read_new n r Hr) as Hl. destruct (xreadgroup _ _ _ _ _) as [l r'].
      destruct Hl as [Hr' Hl]. split; [done|]. intros ? ? ? ? [= <-]. apply Hl.
    + pose proof (no_entry_read_pending n r Hr) as Hl. destruct (xreadgroup _ _ _ _ _) as [l r'].
      destruct Hl as [Hr' Hl]. split; [done|]. intros ? ? ? ? [= <-]. apply Hl.
  - subst g. split; [by apply no_entry_xack|done].
Qed.

(** ** A Postgres statement keeps the queued job *)
Variable j : job_row.
Hypothesis Hq : j_status j = QUEUED.

Lemma other_job_updated d id j' x :
  jobs d !! k = Some j -> jobs d !! id = Some j' -> j_status j' <> QUEUED -> <[id := x]> (jobs d) !! k = Some j.
Proof. intros Hk Hid Hs. rewrite lookup_insert_ne; [done|]. intros ->. by simplify_eq. Qed.

Lemma report_guard_active t ep j' : report_guard t ep j' = true -> j_status j' <> QUEUED.
Proof. unfold report_guard. intros Hg E. rewrite E in Hg. by rewrite !andb_false_r in Hg. Qed.

Lemma exec_pg_spares {A} (c : pg A) e d :
  spares (Pg c) -> wf_db d -> jobs d !! k = Some j ->
  jobs (exec_pg c e d).2 !! k = Some j /\ answer_pg c (exec_pg c e d).1.
Proof.
  intros Hc Hwf Hj. pose proof (reads_only_pg c) as Hr.
  destruct c; try (by rewrite Hr); try done; simpl in *.
  - destruct (Register_cases p e d) as [[x ->]|[(w0 & w & _ & -> & _ & _ & _ & ->)|
      (w & _ & -> & _ & _ & _ & ->)]]; done.
  - destruct (UpdateHeartbeatRow_cases workerID epoch dbStatus currentJob e d)
      as [(r & -> & _)|(s & w & _ & _ & _ & _ & ->)]; done.
  - destruct (MarkDeadAndRequeue_cases workerID epoch e d Hwf)
      as [[-> _]|(w & d' & _ & _ & _ & -> & _ & _ & Hjs & _)]; [done|]. split; [|done].
    simpl. rewrite (Hjs _ _ Hj). destruct (held_by workerID j) eqn:Hb; [|done].
    apply held_by_spec in Hb as [_ Ha]. by rewrite Hq in Ha.
  - destruct (AssignJob_cases jobID jobCreatedAt workerID epoch e d)
      as [(r & -> & _)|(w & j' & _ & _ & _ & _ & _ & _ & _ & ->)]; [done|]. split; [|done].
    simpl. by rewrite lookup_insert_ne.
  - destruct (FreeWorker_cases workerID epoch e d) as [[-> _]|(w & _ & _ & ->)]; done.
  - unfold RequestDrain. match goal with |- context [drain_update ?k ?f ?ev e d] =>
      destruct (drain_update_cases k f ev e d) as [[-> _]|(w & _ & _ & ->)] end; done.
  - unfold ResumeDrain. match goal with |- context [drain_update ?k ?f ?ev e d] =>
      destruct (drain_update_cases k f ev e d) as [[-> _]|(w & _ & _ & ->)] end; done.
  - destruct (InsertJob_cases p e d) as [[x ->]|(Hn & _ & ->)]; [done|].
    assert (new_uuid e <> k) by (intros E; by rewrite E, Hj in Hn).
    split; [by simpl; rewrite lookup_insert_ne|]. by intros j' [= <-].
  - rewrite Hr. split; [done|]. intros j'. unfold GetJobRow. destruct (jobs d !! jobID) as [j0|] eqn:E; [|done].
    intros [= <-]. apply (jwf_id _ _ _ _ (wf_jobs d Hwf _ _ E)).
  - destruct (MarkRunning_cases jobID epoch e d) as [->|(j' & Hj' & _ & Hs & ->)]; [done|].
    split; [|done]. eapply other_job_updated; [done..|]. by rewrite Hs.
  - destruct (Complete_cases jobID jobCreatedAt epoch finalStatus logRef e d)
      as [(r & -> & _)|(s & j' & _ & Hj' & Hg & ->)]; [done|].
    split; [|done]. eapply other_job_updated; [done..|]. by eapply report_guard_active.
  - destruct (RetryOrFail_cases jobID jobCreatedAt epoch workerID errorMessage logRef e d)
      as [(r & -> & _)|(j' & Hj' & Hg & _ & ->)]; [done|].
    split; [|done]. eapply other_job_updated; [done..|]. by eapply report_guard_active.
  - destruct (MarkQueuedFromRetry_cases jobID jobCreatedAt e d) as [->|(j' & Hj' & _ & Hs & ->)]; [done|].
    assert (jobID <> k) by (intros ->; simplify_eq; congruence).
    split; [by simpl; rewrite lookup_insert_ne|done].
Qed.

(** The job is QUEUED and nothing in the queue names it. *)
Definition orphaned (w : world) : Prop := jobs (w_db w) !! k = Some j /\ no_entry (w_redis w).

Lemma handle_spares {X} (c : call X) e w :
  spares c -> wf_db (w_db w) -> orphaned w -> orphaned (handle c e w).2 /\ answer c (handle c e w).1.
Proof.
  intros Hc Hwf [Hj Hn]. destruct c as [A c|A c| | |]; try done; simpl in *.
  - pose proof (exec_pg_spares c e (w_db w) Hc Hwf Hj) as [Hj' Ha]. unfold with_fault.
    destruct (env_fault e); [|by split; [|destruct c]..]; destruct (exec_pg c e (w_db w)); done.
  - pose proof (exec_rd_spares c (w_redis w) Hc Hn) as [Hn' Ha]. unfold with_fault.
    destruct (redis_fault e); destruct (exec_rd c (w_redis w)) as [x r']; split; try done; by destruct c.
Qed.

Lemma orphaned_forever w c : wf_db (w_db w) -> orphaned w -> rtc durable_step ([], w) c -> orphaned c.2.
Proof.
  intros Hwf Hw Hr.
  assert (Hi : guarded_inv (@spares) (@answer) orphaned ([], w)) 
    by (split; [by split; [constructor|]|by split; [constructor|]]).
  clear Hwf Hw. induction Hr as [c|c1 c2 c3 Hst _ IH]; [apply Hi|]. apply IH. clear IH. revert Hi.
  apply guarded_step; [done|apply request_sparing|]. intros X cl e _ Hc Hwf Hw E. rewrite <- E.
  by apply handle_spares.
Qed.
End orphan.

(** A sweep leaves the queue alone. *)
Lemma sweep_no_entry `{Redis} `{!RedisStreams} `{!RedisStreamLaws} k timeout o w : k <> "" ->
  no_entry k (w_redis w) -> no_entry k (w_redis (run (sweep timeout) o w).2).
Proof.
  intros Hne. apply (run_preserves (@bystander) (fun w => no_entry k (w_redis w))); [apply sweep_bystander|].
  intros X c e w' Hc Hn. destruct c as [A c|A c| | |]; try done; simpl.
  - unfold with_fault. by destruct (env_fault e), (exec_pg c e (w_db w')).
  - pose proof (exec_rd_spares k Hne c (w_redis w')) as Hx. unfold with_fault.
    destruct (redis_fault e), (exec_rd c (w_redis w')); try done; apply Hx; try done; by destruct c.
Qed.


(** ** The worker comes back and the scheduler runs *)
Definition do_restart_late : prog unit * oracle :=
  (ignore (RegisterWorker server register_a), calm 101 "unused").
Definition do_tick_late : prog unit * oracle := (run_turn true, calm 102 "unused").
Definition late_script : list (prog unit * oracle) := [do_restart_late; do_tick_late].

Definition swept_world : world := (run (sweep 30) (calm 100 "unused") running_world).2.
Definition stuck_world : world := play late_script swept_world.

Lemma play_durable `{Redis} script w :
  Forall (fun po => request po.1) script -> rtc durable_step ([], w) ([], play script w).
Proof.
  revert w. induction script as [|[p o] rest IH]; intros w Hs; [done|]. inversion Hs; subst.
  etransitivity; [|by apply IH]. eapply rtc_l; [by apply (durable_start [])|].
  etransitivity; [|apply rtc_once, (durable_stop [] (Ret tt) [])].
  eapply rtc_subrel, (run_steps [] p o w). intros. by apply durable_call.
Qed.

(** The job runs and its entry was acknowledged. *)
Lemma running_no_entry : no_entry "j-1" (w_redis running_world).
Proof.
  assert (Ht : m_new (w_redis running_world) = {[StreamKey 3 := []]} /\
    m_pending (w_redis running_world) = {[StreamKey 3 := []]}) by (vm_compute; done).
  destruct Ht as [E1 E2].
  assert (Hnil : forall s, mem_held s (w_redis running_world) = []).
  { intros s. unfold mem_held. rewrite E1, E2. clear. generalize (StreamKey 3). intros s0.
    destruct (decide (s0 = s)) as [<-|Hs]; [by rewrite !lookup_singleton_eq|by rewrite !lookup_singleton_ne]. }
  split.
  - intros s. rewrite Hnil. split; [constructor|]. intros m Hm. destruct (not_elem_of_nil m Hm).
  - intros s m _ Hm. change (m ∈ mem_held s (w_redis running_world)) in Hm. rewrite Hnil in Hm.
    destruct (not_elem_of_nil m Hm).
Qed.

