(* ===== verification/Partitions.v ===== *)
(** * The partitions of the jobs table

    Migration 000003 partitions jobs by range on created_at and creates the
    partitions of the month it runs in and of the three months after it; an
    INSERT with no partition for its created_at is an error.  The statements
    of JobStore.v are those of a table that has the partition it needs.  Here
    the table has exactly the partitions of the migration: programs run as
    before inside the runway, and beyond it every submission fails and leaves
    no trace.  Dates are days since 1970-01-01 in UTC. *)
From S2P Require Import Prelude GoStrings Database WorkerStore JobStore Lifecycle Invariant.
From S2P Require Import StoreSound Redis Effects Stores Loop GrpcServer Api System Scenario.
Local Open Scope Z_scope.

(** Linear arithmetic with division by constants. *)
Local Ltac div_lia := Z.to_euclidean_division_equations; lia.

(** ** Months *)

(** Leap days before March of year [y]. *)
Definition leap_days (y : Z) : Z := y / 4 - y / 100 + y / 400.

(** The day month [i] begins, months counted from March of year 0. *)
Definition month_start (i : Z) : Z :=
  let y := i / 12 in
  365 * y + leap_days y + (153 * (i mod 12) + 2) / 5 - 719468.

(** The month of a day: the mean month, or a neighbour of it. *)
Definition month_of (day : Z) : Z :=
  let i := (day + 719468) * 4800 / 146097 in
  if day <? month_start i then i - 1 else if month_start (i + 1) <=? day then i + 1 else i.

Definition Day : Z := 86400 * Second.
Definition day_of (t : Z) : Z := t / Day.

Example july_2026 : map month_start [month_of 20654; month_of 20654 + 1] = [20635; 20666].
Proof. reflexivity. Qed.

(** A year in its 400-year cycle: centuries, four-year cycles, years. *)
Lemma leap_days_cycle y : exists e c q r, y = 400 * e + 100 * c + 4 * q + r /\
  0 <= c < 4 /\ 0 <= q < 25 /\ 0 <= r < 4 /\ leap_days y = 97 * e + 24 * c + q.
Proof.
  exists (y / 400), (y mod 400 / 100), (y mod 100 / 4), (y mod 4).
  assert (E4 : y / 4 = 25 * (y / 100) + y mod 100 / 4) by div_lia.
  assert (E100 : y / 100 = 4 * (y / 400) + y mod 400 / 100) by div_lia.
  unfold leap_days. div_lia.
Qed.

Lemma leap_days_step y : 0 <= leap_days (y + 1) - leap_days y <= 1.
Proof.
  destruct (leap_days_cycle y) as (e & c & q & r & Ey & Hc & Hq & Hr & ->).
  destruct (leap_days_cycle (y + 1)) as (e' & c' & q' & r' & Ey' & Hc' & Hq' & Hr' & ->). div_lia.
Qed.

Lemma month_length i : 28 <= month_start (i + 1) - month_start i <= 31.
Proof.
  unfold month_start. pose proof (leap_days_step (i / 12)).
  destruct (decide (i mod 12 = 11)).
  - replace ((i + 1) / 12) with (i / 12 + 1) by div_lia. replace ((i + 1) mod 12) with 0 by div_lia. div_lia.
  - replace ((i + 1) / 12) with (i / 12) by div_lia. div_lia.
Qed.

Lemma month_start_mean i : 146097 * i - 24000 <= 4800 * (month_start i + 719468) <= 146097 * i + 24000.
Proof.
  unfold month_start. destruct (leap_days_cycle (i / 12)) as (e & c & q & r & Ey & Hc & Hq & Hr & ->). div_lia.
Qed.

Lemma month_of_spec day : month_start (month_of day) <= day < month_start (month_of day + 1).
Proof.
  unfold month_of. set (i := (day + 719468) * 4800 / 146097).
  assert (Hi : 146097 * i <= (day + 719468) * 4800 < 146097 * (i + 1)) by (subst i; div_lia). clearbody i.
  pose proof (month_start_mean (i - 1)). pose proof (month_start_mean (i + 2)).
  replace (i + 2) with (i + 1 + 1) in * by div_lia.
  destruct (Z.ltb_spec day (month_start i)); [replace (i - 1 + 1) with i by div_lia; div_lia|].
  destruct (Z.leb_spec (month_start (i + 1)) day); div_lia.
Qed.

(** ** The bootstrap partitions *)

(** The DO block: partition [i] holds month start_month + i, for i in 0..3. *)
Definition bootstrap_partitions (now : Z) : list (Z * Z) :=
  let start_month := month_of (day_of now) in
  map (fun i => (month_start (start_month + i), month_start (start_month + (i + 1)))) (seqZ 0 4).

(** FOR VALUES FROM (a) TO (b): a inclusive, b exclusive, at midnight. *)
Definition has_partition (parts : list (Z * Z)) (t : Z) : bool :=
  existsb (fun '(a, b) => (a <=? day_of t) && (day_of t <? b)) parts.

Lemma bootstrap_partitions_cover now t :
  has_partition (bootstrap_partitions now) t = true <->
  month_start (month_of (day_of now)) <= day_of t < month_start (month_of (day_of now) + 4).
Proof.
  unfold has_partition, bootstrap_partitions. set (i := month_of (day_of now)). set (d := day_of t).
  pose proof (month_length i). pose proof (month_length (i + 1)).
  pose proof (month_length (i + 2)). pose proof (month_length (i + 3)).
  replace (i + 1 + 1) with (i + 2) in * by lia. replace (i + 2 + 1) with (i + 3) in * by lia.
  replace (i + 3 + 1) with (i + 4) in * by lia.
  change (seqZ 0 4) with [0; 1; 2; 3]. cbn [map existsb].
  change (0 + 1) with 1. change (1 + 1) with 2. change (2 + 1) with 3. change (3 + 1) with 4.
  rewrite ?Z.add_0_r, orb_false_r, !orb_true_iff, !andb_true_iff, !Z.leb_le, !Z.ltb_lt. lia.
Qed.

(** The months after the current one last at least 89 days, and the four
    months at most 123. *)
Lemma runway_length i :
  89 <= month_start (i + 4) - month_start (i + 1) /\ month_start (i + 4) - month_start i <= 123.
Proof.
  unfold month_start. pose proof (leap_days_step (i / 12)).
  assert (Hm : 0 <= i mod 12 < 12) by (apply Z.mod_pos_bound; lia).
  assert (Hq : forall k, 0 <= k <= 4 ->
    (i + k) / 12 = i / 12 + (if 12 <=? i mod 12 + k then 1 else 0) /\
    (i + k) mod 12 = i mod 12 + k - (if 12 <=? i mod 12 + k then 12 else 0)).
  { intros k Hk. destruct (Z.leb_spec 12 (i mod 12 + k)); div_lia. }
  cbn zeta. destruct (Hq 1) as [E1 E1'], (Hq 4) as [E4 E4']; [lia..|]. rewrite E1, E1', E4, E4'.
  clear - H Hm. generalize dependent (i / 12). intros y Hy. generalize dependent (i mod 12). intros mo Hmo.
  destruct (Z.leb_spec 12 (mo + 1)), (Z.leb_spec 12 (mo + 4)); rewrite ?Z.add_0_r; div_lia.
Qed.

(** ** Programs over the partitioned table *)
Definition InsertJob_partitioned (parts : list (Z * Z)) (p : CreateJobParams) : stmt Job :=
  fun e d => if has_partition parts (pg_now e) then InsertJob p e d else (Err ErrDriver, d).

Section partitioned.
Context `{Redis} (parts : list (Z * Z)).

(** Every other statement finds its rows in whichever partition has them. *)
Definition exec_pg_partitioned {A} (c : pg A) : stmt A :=
  match c with
  | PgInsertJob p => InsertJob_partitioned parts p
  | c => exec_pg c
  end.

Definition handle_partitioned {X} (c : call X) (e : env) (w : world) : X * world :=
  match c in call X return X * world with
  | Pg c =>
      let '(x, d) := with_fault (env_fault e) (exec_pg_partitioned c e) (w_db w) in
      (x, mkWorld _ d (w_redis w) (w_counters w) (w_observations w))
  | c => handle c e w
  end.

Fixpoint run_partitioned {A} (p : prog A) (o : oracle) (w : world) : A * world :=
  match p with
  | Ret a => (a, w)
  | Call c k =>
      let '(x, w') := handle_partitioned c (o 0%nat) w in run_partitioned (k x) (fun n => o (S n)) w'
  end.

(** A missing partition is a Postgres call that fails without effect. *)
Definition lost_request (e : env) : env :=
  mkEnv (pg_now e) (go_now e) (new_uuid e) LostRequest (redis_fault e) (scan e) (scan_perm e).
Definition at_runway (e : env) : env := if has_partition parts (pg_now e) then e else lost_request e.

Lemma handle_partitioned_model {X} (c : call X) e w :
  handle_partitioned c e w = handle c e w \/ handle_partitioned c e w = handle c (at_runway e) w.
Proof.
  destruct c as [B c|B c| | |]; [|by left..]. destruct c; try (by left). right. unfold at_runway.
  cbn [handle_partitioned handle exec_pg_partitioned exec_pg]. unfold InsertJob_partitioned.
  destruct (has_partition parts (pg_now e)); [done|]. unfold with_fault. by destruct (env_fault e).
Qed.

(** So a run over the partitioned table is a run of the model in an
    environment that differs only where a partition is missing. *)
Lemma run_partitioned_model {A} (p : prog A) o w :
  exists o', run_partitioned p o w = run p o' w /\ forall n, o' n = o n \/ o' n = at_runway (o n).
Proof.
  revert o w. induction p as [a|X c k IH]; intros o w; [exists o; auto|]. cbn [run_partitioned run].
  assert (He : exists e, handle_partitioned c (o 0%nat) w = handle c e w /\
    (e = o 0%nat \/ e = at_runway (o 0%nat)))
    by (destruct (handle_partitioned_model c (o 0%nat) w); eauto).
  destruct He as (e & -> & He). destruct (handle c e w) as [x w'] eqn:Eh.
  destruct (IH x (fun n => o (S n)) w') as (o' & -> & Ho).
  exists (fun n => match n with O => e | S n => o' n end). rewrite Eh. split; [done|]. by intros [|n].
Qed.

(** Inside the runway nothing differs. *)
Lemma run_inside {A} (p : prog A) o w :
  (forall n, has_partition parts (pg_now (o n)) = true) -> run_partitioned p o w = run p o w.
Proof.
  revert o w. induction p as [a|X c k IH]; intros o w Ho; [done|]. cbn [run_partitioned run].
  assert (handle_partitioned c (o 0%nat) w = handle c (o 0%nat) w) as ->.
  { destruct (handle_partitioned_model c (o 0%nat) w) as [|E]; [done|]. unfold at_runway in E. by rewrite Ho in E. }
  destruct (handle c (o 0%nat) w) as [x w']. apply IH. intros n. apply Ho.
Qed.

(** Beyond it a submission fails before anything is stored or enqueued,
    unless its idempotency key finds an earlier job. *)
Lemma submit_outside fmt req o w :
  (forall n, has_partition parts (pg_now (o n)) = false) ->
  let '(resp, w') := run_partitioned (SubmitJob fmt (Some req)) o w in
  w' = w /\ rsp_status resp ∈ [StatusBadRequest; StatusConflict; StatusInternalServerError].
Proof.
  intros Ho.
  assert (Hins : forall p n (w' : world), handle_partitioned (Pg (PgInsertJob p)) (o n) w' = (Err ErrDriver, w')).
  { intros p n [d r cs obs]. cbn [handle_partitioned exec_pg_partitioned w_db]. unfold with_fault, InsertJob_partitioned.
    rewrite Ho. by destruct (env_fault (o n)). }
  assert (Hget : forall key n (w' : world), exists x,
    handle_partitioned (Pg (PgGetByIdempotencyKey key)) (o n) w' = (x, w')).
  { intros key n [d r cs obs]. cbn [handle_partitioned exec_pg_partitioned exec_pg w_db].
    pose proof (reads_only_pg (PgGetByIdempotencyKey key) (o n) d) as Hr. cbn [exec_pg] in Hr. unfold with_fault.
    destruct (env_fault (o n)); [|by eexists|]; destruct (getByIdempotencyKey key (o n) d); simpl in Hr; subst; eauto. }
  unfold SubmitJob. case_decide; [split; [done|left]|].
  destruct (submit_priority (sj_Priority req)) as [p|]; [|split; [done|left]].
  unfold Create, pgc, trigger. case_decide; cbn [bind run_partitioned].
  - rewrite Hins. cbn. split; [done|]. right. right. left.
  - destruct (Hget (sj_IdempotencyKey req) 0%nat w) as [x Hx].
    cbn [cp_IdempotencyKey]. rewrite Hx. destruct x as [j|[]]; cbn [bind run_partitioned]; rewrite ?Hins; cbn;
      (split; [done|]); first [left; done | right; left; done | right; right; left].
Qed.
End partitioned.

Lemma runway_inside now t : now <= t < now + 89 * Day -> has_partition (bootstrap_partitions now) t = true.
Proof.
  intros Ht. apply bootstrap_partitions_cover. pose proof (month_of_spec (day_of now)) as Hm.
  destruct (runway_length (month_of (day_of now))) as [Hr _].
  assert (Hd : day_of now <= day_of t <= day_of now + 89) by (unfold day_of, Day, Second in *; div_lia). lia.
Qed.

Lemma runway_outside now t : now + 123 * Day <= t -> has_partition (bootstrap_partitions now) t = false.
Proof.
  intros Ht. apply not_true_iff_false. rewrite bootstrap_partitions_cover.
  pose proof (month_of_spec (day_of now)) as Hm. destruct (runway_length (month_of (day_of now))) as [_ Hr].
  assert (Hd : day_of now + 123 <= day_of t) by (unfold day_of, Day, Second in *; div_lia). lia.
Qed.

(** C37: the runway of the jobs table.  With exactly the partitions of the
    migration, a program run within 89 days of it behaves as the statements of
    the store say; at any time it behaves as it would with Postgres failing
    calls it may fail; and from 123 days on every submission is answered 400,
    409 or 500 with nothing stored and nothing enqueued. *)
Theorem jobs_table_runway `{Redis} migrated fmt req (p : prog response) o w :
  let parts := bootstrap_partitions migrated in
  (exists o', run_partitioned parts p o w = run p o' w /\
     forall n, o' n = o n \/ o' n = at_runway parts (o n)) /\
  ((forall n, migrated <= pg_now (o n) < migrated + 89 * Day) ->
   run_partitioned parts p o w = run p o w) /\
  ((forall n, migrated + 123 * Day <= pg_now (o n)) ->
   let '(resp, w') := run_partitioned parts (SubmitJob fmt (Some req)) o w in
   w' = w /\ rsp_status resp ∈ [StatusBadRequest; StatusConflict; StatusInternalServerError]).
Proof.
  intros parts. split; [apply run_partitioned_model|]. split; intros Ho.
  - apply run_inside. intros n. apply runway_inside, Ho.
  - apply submit_outside. intros n. apply runway_outside, Ho.
Qed.

(** Migrated on 2026-07-20: a submission on 2026-10-15 is accepted, one on
    2026-11-27 is answered 500. *)
Definition migration_day : Z := 20654 * Day.
Definition on_day (d : Z) : oracle := calm (d * 86400) "j-1".
Definition submitted_on (d : Z) : response * world :=
  run_partitioned (bootstrap_partitions migration_day) (SubmitJob no_time_format (Some submit_build))
    (on_day d) start_world.

Lemma jobs_table_runway_witness :
  submitted_on 20741 = run (SubmitJob no_time_format (Some submit_build)) (on_day 20741) start_world /\
  rsp_status (submitted_on 20741).1 = StatusAccepted /\
  (submitted_on 20784).2 = start_world /\
  rsp_status (submitted_on 20784).1 = StatusInternalServerError.
Proof.
  split.
  { apply (proj1 (proj2 (jobs_table_runway migration_day no_time_format submit_build
      (SubmitJob no_time_format (Some submit_build)) (on_day 20741) start_world))).
    intros n. vm_compute. split; congruence. }
  split; [vm_compute; reflexivity|]. split; [|vm_compute; reflexivity].
  pose proof (jobs_table_runway migration_day no_time_format submit_build (SubmitJob no_time_format (Some submit_build))
    (on_day 20784) start_world) as (_ & _ & Hout).
  unfold submitted_on. destruct (run_partitioned _ _ _ _) as [resp w']. apply Hout. intros n. vm_compute. congruence.
Defined.
