(* ===== verification/Replica.v ===== *)
(** * Scheduler processes as cmd/scheduler/main.go assembles them

    A process runs the leader elector, five background loops and two servers.
    Each loop is sequential: it waits for its ticker, runs one tick, waits
    again.  Four of them ask the elector's flag before a tick.  A signal
    cancels the process's context: the loops return, the elector releases the
    lock and returns, main shuts the HTTP server down, then the gRPC server,
    and exits.  [fleet_step] interleaves any number of such processes call by
    call over one Postgres, one Redis and one advisory lock.  A cancelled
    context makes calls fail; the steps here allow any reply to any call, so
    they cover that, and a loop whose select still picks the ticker. *)
From Stdlib Require Import SpecFloat.
From S2P Require Import Prelude GoStrings Database WorkerStore JobStore Lifecycle Invariant.
From S2P Require Import Redis Effects Stores Loop Reaper RetryPoller GrpcServer Autoscaler Api.
From S2P Require Import Metrics System Scenario Leader LeaderProps Config Startup.
Local Open Scope Z_scope.

(** ** One process *)
Inductive component := CLoop | CReaper | CRetryPoller | CAutoscaler | CCollector.
#[global] Instance component_eq_dec : EqDecision component.
Proof. solve_decision. Defined.

(** The loops that ask IsLeader. *)
Definition gated (c : component) : bool := negb (bool_decide (c = CCollector)).

(** Where main is after the signal. *)
Inductive phase := Serving | StoppingHTTP | StoppingGRPC.

Record process := mkProcess {
  p_settings : serving;
  p_cancelled : bool;             (** ctx is done *)
  p_elector : bool;               (** LeaderElector.Run has not returned *)
  p_loops : list component;       (** loops that have not returned *)
  p_phase : phase;
  p_autoscaler : Autoscaler;
  p_gauges : gauges }.

Definition started (sv : serving) : process :=
  mkProcess sv false true [CLoop; CReaper; CRetryPoller; CAutoscaler; CCollector] Serving
    NewAutoscaler ∅.

Definition cancel (p : process) : process :=
  mkProcess (p_settings p) true (p_elector p) (p_loops p) (p_phase p) (p_autoscaler p) (p_gauges p).
Definition elector_returns (p : process) : process :=
  mkProcess (p_settings p) (p_cancelled p) false (p_loops p) (p_phase p) (p_autoscaler p) (p_gauges p).
Definition loop_returns (c : component) (p : process) : process :=
  mkProcess (p_settings p) (p_cancelled p) (p_elector p) (filter (fun c' => c' <> c) (p_loops p))
    (p_phase p) (p_autoscaler p) (p_gauges p).
Definition set_phase (ph : phase) (p : process) : process :=
  mkProcess (p_settings p) (p_cancelled p) (p_elector p) (p_loops p) ph (p_autoscaler p) (p_gauges p).
Definition set_autoscaler (a : Autoscaler) (p : process) : process :=
  mkProcess (p_settings p) (p_cancelled p) (p_elector p) (p_loops p) (p_phase p) a (p_gauges p).
Definition set_gauges (g : gauges) (p : process) : process :=
  mkProcess (p_settings p) (p_cancelled p) (p_elector p) (p_loops p) (p_phase p) (p_autoscaler p) g.

(** httpSrv.Shutdown returns when the requests are answered or after 10 s;
    GracefulStop follows. *)
Definition next_phase (ph : phase) : phase :=
  match ph with Serving => StoppingHTTP | _ => StoppingGRPC end.

(** ** Code in execution *)

(** A program in flight, by what its result is for: nothing, the autoscaler's
    memory, the gauges. *)
Inductive body :=
  | Plain (p : prog unit)
  | Scaling (p : prog Autoscaler)
  | Collecting (p : prog gauges).

Definition erase (b : body) : prog unit :=
  match b with Plain p => p | Scaling p => ignore p | Collecting p => ignore p end.

Inductive kind := Rest | Rpc.
Inductive role := Background (c : component) | Request (k : kind).

Record task := mkTask { t_owner : nat; t_role : role; t_body : body }.

(** The autoscaler's Run: a tick, or nothing, with its memory kept. *)
Definition autoscaler_turn (isLeader : bool) (cfg : AutoscalerConfig) (a : Autoscaler) : prog Autoscaler :=
  if isLeader then autoscale_tick cfg a else Ret a.

(** The settings a process serves with: what a successful main made of its
    environment. *)
Definition boots (sv : serving) : Prop :=
  exists env b tr, trace (scheduler_main env b) tr (inr sv).

(** One turn of each loop's Run.  The scheduling loop reads as [consumerName],
    which is the name main gives it ([boots_consumer]). *)
Definition tick_body (c : component) (isLeader : bool) (p : process) : body :=
  match c with
  | CLoop => Plain (run_turn isLeader)
  | CReaper => Plain (reaper_tick isLeader (sv_reaper_timeout (p_settings p)))
  | CRetryPoller => Plain (poller_tick isLeader)
  | CAutoscaler =>
      Scaling (autoscaler_turn isLeader (sv_autoscaler (p_settings p)) (p_autoscaler p))
  | CCollector => Collecting (collect (p_gauges p))
  end.

Lemma boots_consumer sv : boots sv ->
  sv_consumer sv = consumerName /\ sv_autoscaler sv = DefaultAutoscalerConfig /\
  exists cfg, sv_grpc sv = grpc_server cfg /\ sv_reaper_timeout sv = sc_HeartbeatTimeoutSeconds cfg.
Proof. intros (env & b & tr & (cfg & pool & t & Hall)%scheduler_main_serves). destruct_and! Hall. subst. eauto. Qed.

(** The metrics collector's Run refreshes once before it waits. *)
Definition collector_start (i : nat) (p : process) : task :=
  mkTask i (Background CCollector) (tick_body CCollector false p).

(** The listener that still takes requests. *)
Definition accepts (ph : phase) (k : kind) : bool :=
  match ph, k with
  | Serving, _ => true
  | StoppingHTTP, Rpc => true
  | _, _ => false
  end.

(** What arrives from the network and passes the router. *)
Inductive incoming (sv : serving) : kind -> prog unit -> Prop :=
  | in_register r : incoming sv Rpc (ignore (RegisterWorker (sv_grpc sv) r))
  | in_heartbeats rs : incoming sv Rpc (ignore (Heartbeat (sv_grpc sv) rs))
  | in_report r : incoming sv Rpc (ignore (ReportJobResult r))
  | in_submit fmt r : submit_in_range r -> incoming sv Rest (ignore (SubmitJob fmt r))
  | in_get fmt k : incoming sv Rest (ignore (GetJob fmt k))
  | in_jobs fmt s r w : incoming sv Rest (ignore (ListJobs fmt s r w))
  | in_workers fmt s : incoming sv Rest (ignore (ListWorkers fmt s))
  | in_drain w : incoming sv Rest (ignore (DrainWorker w))
  | in_resume w : incoming sv Rest (ignore (ResumeWorker w)).

Section calls.
Context `{Redis}.

(** The next call, answered under [e]. *)
Definition body_call (b : body) (e : env) (w : world) : option (body * world) :=
  match b with
  | Plain (Call c k) => Some (Plain (k (handle c e w).1), (handle c e w).2)
  | Scaling (Call c k) => Some (Scaling (k (handle c e w).1), (handle c e w).2)
  | Collecting (Call c k) => Some (Collecting (k (handle c e w).1), (handle c e w).2)
  | _ => None
  end.
End calls.

(** The program has returned; the process keeps its result. *)
Definition body_done (b : body) (p : process) : option process :=
  match b with
  | Plain (Ret _) => Some p
  | Scaling (Ret a) => Some (set_autoscaler a p)
  | Collecting (Ret g) => Some (set_gauges g p)
  | _ => None
  end.

(** ** All processes *)
Record fleet `{Redis} := mkFleet {
  f_cluster : cluster;
  f_procs : gmap nat process;
  f_booted : gset nat;            (** a restart is a new process *)
  f_tasks : list task;
  f_world : world }.

(** The loop [c] of process [i] has a turn in flight. *)
Definition background_key (t : task) : option (nat * component) :=
  match t_role t with Background c => Some (t_owner t, c) | Request _ => None end.
Definition background_keys (ts : list task) : list (nat * component) := omap background_key ts.
Definition in_turn (i : nat) (c : component) (ts : list task) : Prop := (i, c) ∈ background_keys ts.

Definition without (i : nat) (ts : list task) : list task := filter (fun t => t_owner t <> i) ts.

Section fleet.
Context `{Redis}.

Inductive fleet_step : fleet -> fleet -> Prop :=
  | fs_boot i sv rs ad ps B ts w : i ∉ B -> boots sv ->
      fleet_step (mkFleet _ (rs, ad) ps B ts w)
        (mkFleet _ (<[i := NewLeaderElector]> rs, ad) (<[i := started sv]> ps) ({[i]} ∪ B)
           (ts ++ [collector_start i (started sv)]) w)
  | fs_check i e le p rs ad ps B ts w :
      rs !! i = Some le -> ps !! i = Some p -> p_elector p = true -> pool_drops_broken e ->
      fleet_step (mkFleet _ (rs, ad) ps B ts w)
        (mkFleet _ (<[i := (tryAcquireOrVerify e le ad).1]> rs, (tryAcquireOrVerify e le ad).2)
           ps B ts w)
  | fs_release i e le p rs ad ps B ts w :
      rs !! i = Some le -> ps !! i = Some p -> p_elector p = true -> p_cancelled p = true ->
      pool_drops_broken e ->
      fleet_step (mkFleet _ (rs, ad) ps B ts w)
        (mkFleet _ (<[i := (release e le ad).1]> rs, (release e le ad).2)
           (<[i := elector_returns p]> ps) B ts w)
  | fs_signal i p cl ps B ts w : ps !! i = Some p ->
      fleet_step (mkFleet _ cl ps B ts w) (mkFleet _ cl (<[i := cancel p]> ps) B ts w)
  | fs_tick i c le p rs ad ps B ts w :
      rs !! i = Some le -> ps !! i = Some p -> c ∈ p_loops p -> ~ in_turn i c ts ->
      fleet_step (mkFleet _ (rs, ad) ps B ts w)
        (mkFleet _ (rs, ad) ps B (ts ++ [mkTask i (Background c) (tick_body c (IsLeader le) p)]) w)
  | fs_return i c p cl ps B ts w :
      ps !! i = Some p -> p_cancelled p = true -> ~ in_turn i c ts ->
      fleet_step (mkFleet _ cl ps B ts w) (mkFleet _ cl (<[i := loop_returns c p]> ps) B ts w)
  | fs_call ts1 t ts2 b e w w' cl ps B :
      body_call (t_body t) e w = Some (b, w') ->
      fleet_step (mkFleet _ cl ps B (ts1 ++ t :: ts2) w)
        (mkFleet _ cl ps B (ts1 ++ mkTask (t_owner t) (t_role t) b :: ts2) w')
  | fs_done ts1 t ts2 p p' cl ps B w :
      ps !! t_owner t = Some p -> body_done (t_body t) p = Some p' ->
      fleet_step (mkFleet _ cl ps B (ts1 ++ t :: ts2) w)
        (mkFleet _ cl (<[t_owner t := p']> ps) B (ts1 ++ ts2) w)
  | fs_request i k q p cl ps B ts w :
      ps !! i = Some p -> accepts (p_phase p) k = true -> incoming (p_settings p) k q ->
      fleet_step (mkFleet _ cl ps B ts w) (mkFleet _ cl ps B (ts ++ [mkTask i (Request k) (Plain q)]) w)
  | fs_shutdown i p cl ps B ts w :
      ps !! i = Some p -> p_cancelled p = true ->
      fleet_step (mkFleet _ cl ps B ts w)
        (mkFleet _ cl (<[i := set_phase (next_phase (p_phase p)) p]> ps) B ts w)
  | fs_exit i p rs ad ps B ts w :                       (* GracefulStop waits for the RPCs *)
      ps !! i = Some p -> p_phase p = StoppingGRPC ->
      (forall t, t ∈ ts -> t_owner t = i -> t_role t <> Request Rpc) ->
      fleet_step (mkFleet _ (rs, ad) ps B ts w)
        (mkFleet _ (delete i rs, ad) (delete i ps) B (without i ts) w)
  | fs_crash i rs ad ps B ts w :
      fleet_step (mkFleet _ (rs, ad) ps B ts w)
        (mkFleet _ (delete i rs, ad) (delete i ps) B (without i ts) w)
  | fs_connect i le rs ad ps B ts w : rs !! i = Some le ->
      fleet_step (mkFleet _ (rs, ad) ps B ts w)
        (mkFleet _ (<[i := mkLeaderElector (le_pool le ++ [ad_next ad]) (le_conn le) (le_isLeader le)]> rs,
            (open_session ad).2) ps B ts w)
  | fs_session s rs ad ps B ts w :
      fleet_step (mkFleet _ (rs, ad) ps B ts w) (mkFleet _ (rs, end_session s ad) ps B ts w)
  | fs_redis r cl ps B ts w :
      fleet_step (mkFleet _ cl ps B ts w)
        (mkFleet _ cl ps B ts (mkWorld _ (w_db w) r (w_counters w) (w_observations w))).

(** No process yet, a freshly migrated database. *)
Definition fleet_initial (f : fleet) : Prop :=
  f_cluster f = (∅, no_sessions) /\ f_procs f = ∅ /\ f_booted f = ∅ /\ f_tasks f = [] /\
  w_db (f_world f) = empty_db.
Definition fleet_reachable (f : fleet) : Prop := exists f0, fleet_initial f0 /\ rtc fleet_step f0 f.
End fleet.
