(* ===== verification/ReplicaProps.v ===== *)
(** * What the assembled processes guarantee

    The processes are executions of the two models the other theorems are
    stated on, the pool of requests over the shared stores ([reachable]) and the
    electors over the advisory lock ([cluster_reachable]), at once
    ([fleet_reachable_inv]).  On top of that: a scheduling turn starts only in a
    process that keeps the connection it locked on, and a replica whose flag is
    down only finishes the turns it had in flight. *)
From Stdlib Require Import SpecFloat.
From S2P Require Import Prelude GoStrings Database WorkerStore JobStore Lifecycle Invariant.
From S2P Require Import Redis Effects Stores Loop Reaper RetryPoller GrpcServer Autoscaler Api.
From S2P Require Import Metrics System Scenario Leader LeaderProps Config Startup Replica.
Local Open Scope Z_scope.

(** ** The programs in flight are requests of the system *)
Lemma tick_body_request c l p : request (erase (tick_body c l p)).
Proof.
  destruct c; try (simpl; constructor);
    destruct l; first [apply ReqAutoscaler | exact (ReqLoop false)].
Qed.

Lemma incoming_request sv k q : incoming sv k q -> request q.
Proof. destruct 1; by constructor. Qed.

Section fleet.
Context `{Redis}.

Lemma body_call_pool b e w b' w' ps1 ps2 :
  body_call b e w = Some (b', w') ->
  pool_step (ps1 ++ erase b :: ps2, w) (ps1 ++ erase b' :: ps2, w').
Proof.
  intros E. destruct b as [[|X c k]|[|X c k]|[|X c k]]; simpl in E; simplify_eq; simpl.
  - apply pool_call.
  - apply (pool_call ps1 ps2 c (fun x => bind (k x) (fun _ => Ret tt))).
  - apply (pool_call ps1 ps2 c (fun x => bind (k x) (fun _ => Ret tt))).
Qed.

(** The fleet as a configuration of the system. *)
Definition in_flight (ts : list task) : list (prog unit) := map (fun t => erase (t_body t)) ts.
Definition abstract (f : fleet) : config := (in_flight (f_tasks f), f_world f).

Lemma in_flight_snoc ts t : in_flight (ts ++ [t]) = in_flight ts ++ [erase (t_body t)].
Proof. apply map_app. Qed.

Lemma without_steps i ts w ps :
  rtc sys_step (ps ++ in_flight ts, w) (ps ++ in_flight (without i ts), w).
Proof.
  revert ps. induction ts as [|t ts IH]; intros ps; [done|]. unfold without. rewrite filter_cons.
  case_decide.
  - specialize (IH (ps ++ [erase (t_body t)])). by rewrite <- !app_assoc in IH.
  - eapply rtc_l; [apply (sys_stop ps _ (in_flight ts))|]. apply IH.
Qed.

(** ** The invariant of the processes *)
Record fleet_ok (f : fleet) : Prop := {
  fo_electors : forall i, is_Some ((f_cluster f).1 !! i) <-> is_Some (f_procs f !! i);
  fo_booted : forall i, is_Some (f_procs f !! i) -> i ∈ f_booted f;
  fo_owners : forall t, t ∈ f_tasks f -> is_Some (f_procs f !! t_owner t);
  fo_turns : NoDup (background_keys (f_tasks f));
  fo_returned : forall i p le, f_procs f !! i = Some p -> (f_cluster f).1 !! i = Some le ->
    p_elector p = false -> IsLeader le = false }.

Lemma is_Some_insert_same {A} (m : gmap nat A) i x y k :
  m !! i = Some x -> is_Some (<[i := y]> m !! k) <-> is_Some (m !! k).
Proof.
  intros Hi. destruct (decide (i = k)) as [->|Hne]; [|by rewrite lookup_insert_ne].
  rewrite lookup_insert_eq, Hi. split; eauto.
Qed.

Lemma is_Some_delete {A} (m : gmap nat A) i k : is_Some (delete i m !! k) <-> k <> i /\ is_Some (m !! k).
Proof.
  destruct (decide (i = k)) as [->|Hne].
  - rewrite lookup_delete_eq. split; [by intros []|by intros []].
  - rewrite lookup_delete_ne by done. naive_solver.
Qed.

Lemma background_keys_without i ts : sublist (background_keys (without i ts)) (background_keys ts).
Proof.
  unfold background_keys, without. induction ts as [|t ts IH]; [done|]. rewrite filter_cons. case_decide.
  - simpl. case_match; [by constructor|done].
  - simpl. case_match; [by constructor|done].
Qed.

(** A step that changes only the memory and progress of one process, never
    putting its elector back to work. *)
Lemma fleet_ok_process cl ps B ts w ts' w' i p p' :
  ps !! i = Some p -> (p_elector p' = false -> p_elector p = false) ->
  (forall t, t ∈ ts' -> exists t0, t0 ∈ ts /\ t_owner t0 = t_owner t) ->
  NoDup (background_keys ts') ->
  fleet_ok (mkFleet _ cl ps B ts w) -> fleet_ok (mkFleet _ cl (<[i := p']> ps) B ts' w').
Proof.
  intros Hi Hp Hts Hnd [H1 H2 H3 H4 H5]. simpl in *. split; simpl.
  - intros k. rewrite (is_Some_insert_same ps i p p' k Hi). apply H1.
  - intros k. rewrite (is_Some_insert_same ps i p p' k Hi). apply H2.
  - intros t Ht. rewrite (is_Some_insert_same ps i p p' _ Hi).
    destruct (Hts t Ht) as (t0 & Ht0 & <-). by apply H3.
  - done.
  - intros k q le Hq Hle He. destruct (decide (i = k)) as [<-|Hne].
    + rewrite lookup_insert_eq in Hq. simplify_eq. by eapply H5; [..|apply Hp].
    + rewrite lookup_insert_ne in Hq by done. by eapply H5.
Qed.

(** A step of one elector. *)
Lemma fleet_ok_elector rs ad ad' ps B ts w i le le' p p' :
  rs !! i = Some le -> ps !! i = Some p -> (p_elector p' = false -> IsLeader le' = false) ->
  fleet_ok (mkFleet _ (rs, ad) ps B ts w) ->
  fleet_ok (mkFleet _ (<[i := le']> rs, ad') (<[i := p']> ps) B ts w).
Proof.
  intros Hle Hp Hr [H1 H2 H3 H4 H5]. simpl in *. split; simpl.
  - intros k. rewrite (is_Some_insert_same rs i le le' k Hle), (is_Some_insert_same ps i p p' k Hp). apply H1.
  - intros k. rewrite (is_Some_insert_same ps i p p' k Hp). apply H2.
  - intros t Ht. rewrite (is_Some_insert_same ps i p p' _ Hp). by apply H3.
  - done.
  - intros k q lk Hq Hk He. destruct (decide (i = k)) as [<-|Hne].
    + rewrite lookup_insert_eq in Hq. rewrite lookup_insert_eq in Hk. simplify_eq. by apply Hr.
    + rewrite lookup_insert_ne in Hq by done. rewrite lookup_insert_ne in Hk by done. by eapply H5.
Qed.

Lemma fleet_ok_spawn cl ps B ts w t :
  is_Some (ps !! t_owner t) -> (forall k, background_key t = Some k -> k ∉ background_keys ts) ->
  fleet_ok (mkFleet _ cl ps B ts w) -> fleet_ok (mkFleet _ cl ps B (ts ++ [t]) w).
Proof.
  intros Ho Hk [H1 H2 H3 H4 H5]. simpl in *. split; simpl; try done.
  - intros t' [Ht'|Ht'%list_elem_of_singleton]%elem_of_app; [by apply H3|by subst].
  - unfold background_keys in *. rewrite omap_app. simpl. destruct (background_key t) as [k|] eqn:E.
    + rewrite (Permutation_app_comm _ [k]). constructor; [by apply Hk|done].
    + by rewrite app_nil_r.
Qed.

Lemma fleet_ok_gone rs ad ps B ts w i :
  fleet_ok (mkFleet _ (rs, ad) ps B ts w) ->
  fleet_ok (mkFleet _ (delete i rs, ad) (delete i ps) B (without i ts) w).
Proof.
  intros [H1 H2 H3 H4 H5]. simpl in *. split; simpl.
  - intros k. rewrite !is_Some_delete, H1. done.
  - intros k [_ Hk]%is_Some_delete. by apply H2.
  - intros t [Hne Ht]%list_elem_of_filter. apply is_Some_delete. split; [done|by apply H3].
  - eapply sublist_NoDup; [done|apply background_keys_without].
  - intros k p le Hp Hle. apply lookup_delete_Some in Hp as [_ Hp].
    apply lookup_delete_Some in Hle as [_ Hle]. by apply (H5 k p).
Qed.

Lemma release_gives_up e le ad :
  (IsLeader le = true -> is_Some (le_conn le)) -> IsLeader (release e le ad).1 = false.
Proof.
  intros Hb. unfold release. destruct (le_conn le) as [s|].
  - by destruct (with_fault _ _ _).
  - simpl. destruct (IsLeader le); [by destruct (Hb eq_refl)|done].
Qed.

Lemma body_done_elector b p p' : body_done b p = Some p' -> p_elector p' = p_elector p.
Proof. intros E. destruct b as [[]|[]|[]]; simpl in E; by simplify_eq. Qed.

Lemma fleet_ok_boot i sv rs ad ps B ts w :
  i ∉ B -> fleet_ok (mkFleet _ (rs, ad) ps B ts w) ->
  rs !! i = None /\
  fleet_ok (mkFleet _ (<[i := NewLeaderElector]> rs, ad) (<[i := started sv]> ps) ({[i]} ∪ B)
    (ts ++ [collector_start i (started sv)]) w).
Proof.
  intros Hb [H1 H2 H3 H4 H5]. simpl in *.
  assert (Hps : ps !! i = None).
  { destruct (ps !! i) eqn:E; [|done]. by destruct (Hb (H2 i ltac:(eauto))). }
  split.
  { destruct (rs !! i) eqn:E; [|done]. destruct (proj1 (H1 i) ltac:(eauto)). congruence. }
  apply fleet_ok_spawn; [simpl; rewrite lookup_insert_eq; eauto| |].
  - intros k [= <-] Hin. unfold background_keys in Hin. apply list_elem_of_omap in Hin as (t & Ht & E).
    unfold background_key in E. case_match; [|done]. simplify_eq. destruct (H3 t Ht). congruence.
  - split; simpl; try done.
    + intros k. destruct (decide (i = k)) as [<-|Hne]; [rewrite !lookup_insert_eq; split; eauto|].
      by rewrite !lookup_insert_ne.
    + intros k. destruct (decide (i = k)) as [<-|Hne]; [set_solver|].
      rewrite lookup_insert_ne by done. intros Hk%H2. set_solver.
    + intros t Ht. destruct (decide (i = t_owner t)) as [<-|Hne]; [rewrite lookup_insert_eq; eauto|].
      rewrite lookup_insert_ne by done. by apply H3.
    + intros k p le Hp Hle He. destruct (decide (i = k)) as [<-|Hne].
      * rewrite lookup_insert_eq in Hle. by simplify_eq.
      * rewrite lookup_insert_ne in Hp by done. rewrite lookup_insert_ne in Hle by done. by eapply H5.
Qed.

(** Every step keeps the invariant, is a step of the electors and an execution
    of the system. *)
Lemma fleet_step_ok f f' :
  fleet_step f f' -> fleet_ok f -> cluster_reachable (f_cluster f) -> fleet_ok f'.
Proof.
  intros Hs Hok Hcl. pose proof Hok as [_ _ H3 H4 H5].
  destruct Hs as [i sv rs ad ps B ts w Hb|i e le p rs ad ps B ts w Hle Hp He|
    i e le p rs ad ps B ts w Hle Hp He Hc|i p cl ps B ts w Hp|i c le p rs ad ps B ts w Hle Hp Hc Ht|
    i c p cl ps B ts w Hp Hc Ht|ts1 t ts2 b e w w' cl ps B Hb|ts1 t ts2 p p' cl ps B w Hp Hb|
    i k q p cl ps B ts w Hp Ha Hq|i p cl ps B ts w Hp Hc| | |i le rs ad ps B ts w Hle|s rs ad ps B ts w|];
    cbn [f_cluster f_procs f_booted f_tasks f_world] in *.
  - by apply fleet_ok_boot.
  - rewrite <- (insert_id ps i p Hp). by eapply fleet_ok_elector; [..|congruence|].
  - eapply fleet_ok_elector; [done..| |done]. intros _. apply release_gives_up.
    pose proof (cluster_reachable_ok _ Hcl) as (_ & Hel & _). apply (ok_belief _ _ (Hel i le Hle)).
  - eapply fleet_ok_process; [done|done| |done|done]. eauto.
  - apply fleet_ok_spawn; [by eauto| |done]. by intros k [= <-].
  - eapply fleet_ok_process; [done|done| |done|done]. eauto.
  - destruct (H3 t ltac:(set_solver)) as [p Hp]. rewrite <- (insert_id ps (t_owner t) p Hp).
    eapply fleet_ok_process; [done|done| | |done].
    + intros t' Ht'. apply elem_of_app in Ht' as [?|[->|?]%elem_of_cons]; [..|exists t; set_solver|];
        exists t'; set_solver.
    + unfold background_keys in *. rewrite omap_app in *. done.
  - eapply fleet_ok_process; [done| | | |done].
    + by rewrite (body_done_elector _ _ _ Hb).
    + intros t' Ht'. exists t'. set_solver.
    + eapply sublist_NoDup; [done|]. unfold background_keys. rewrite !omap_app. apply sublist_app; [done|].
      simpl. case_match; [by constructor|done].
  - apply fleet_ok_spawn; [by eauto|done|done].
  - eapply fleet_ok_process; [done|done| |done|done]. eauto.
  - by apply fleet_ok_gone.
  - by apply fleet_ok_gone.
  - destruct Hok as [H1 H2 _ _ _]. destruct (proj1 (H1 i) ltac:(eauto)) as [p Hp]. simpl in Hp.
    rewrite <- (insert_id ps i p Hp). eapply fleet_ok_elector; [done..| |by split].
    intros Hr. by apply (H5 i p le).
  - by destruct Hok.
  - by destruct Hok.
Qed.

Lemma fleet_step_refines f f' :
  fleet_step f f' -> fleet_ok f ->
  rtc cluster_step (f_cluster f) (f_cluster f') /\ rtc sys_step (abstract f) (abstract f').
Proof.
  intros Hs Hok. unfold abstract.
  destruct Hs; cbn [f_cluster f_procs f_booted f_tasks f_world] in *; rewrite ?in_flight_snoc;
    (split; [try done; try (apply rtc_once; by constructor)|try done]).
  - apply rtc_once. constructor. by apply (fleet_ok_boot i sv rs ad ps B ts w).
  - apply rtc_once, sys_start. apply (tick_body_request CCollector).
  - apply rtc_once, sys_start, tick_body_request.
  - unfold in_flight. rewrite !map_app. apply rtc_once, sys_call. by apply body_call_pool with (e := e).
  - unfold in_flight. rewrite !map_app. apply rtc_once. apply sys_stop.
  - apply rtc_once, sys_start. by eapply incoming_request.
  - apply (without_steps i ts w []).
  - apply (without_steps i ts w []).
  - apply rtc_once. apply sys_redis.
Qed.

Lemma fleet_initial_ok f : fleet_initial f -> fleet_ok f.
Proof.
  intros (Hc & Hp & Hb & Ht & _). split; rewrite ?Hc, ?Hp, ?Hb, ?Ht; simpl.
  - intros i. by rewrite !lookup_empty.
  - intros i. rewrite lookup_empty. by intros [].
  - intros t Hin. by apply not_elem_of_nil in Hin.
  - constructor.
  - intros i p le Hi. by rewrite lookup_empty in Hi.
Qed.

Lemma fleet_reachable_inv f :
  fleet_reachable f -> fleet_ok f /\ reachable (abstract f) /\ cluster_reachable (f_cluster f).
Proof.
  intros (f0 & Hi & Hr). pose proof (fleet_initial_ok f0 Hi) as Hok0.
  assert (Ha : reachable (abstract f0)).
  { destruct Hi as (_ & _ & _ & Ht & Hd). exists (abstract f0). split; [|done]. unfold abstract. by rewrite Ht. }
  assert (Hc : cluster_reachable (f_cluster f0)) by (destruct Hi as (-> & _); apply rtc_refl).
  clear Hi. induction Hr as [|f1 f2 f3 Hs _ IH]; [done|].
  destruct (fleet_step_refines _ _ Hs Hok0) as [Hcs Hss]. apply IH.
  - by eapply fleet_step_ok.
  - destruct Ha as (c0 & Hi & Hr). exists c0. split; [done|]. by etransitivity.
  - unfold cluster_reachable in *. by etransitivity.
Qed.

(** ** Replicas that are not the leader *)

(** What IsLeader answers in process [i]. *)
Definition led (i : nat) (f : fleet) : bool :=
  match (f_cluster f).1 !! i with Some le => IsLeader le | None => false end.

(** Nothing is left to call. *)
Definition finished (b : body) : bool :=
  match b with Plain (Ret _) | Scaling (Ret _) | Collecting (Ret _) => true | _ => false end.

(** A turn of the loop [c] of process [i] with a call left to make. *)
Definition turn_of (i : nat) (c : component) (t : task) : Prop :=
  t_owner t = i /\ t_role t = Background c /\ finished (t_body t) = false.

(** The same turn, some calls later. *)
Definition continues : body -> body -> Prop := rtc (fun b b' => exists e w w', body_call b e w = Some (b', w')).

Lemma standby_tick_finished c p : gated c = true -> finished (tick_body c false p) = true.
Proof. by destruct c. Qed.

Lemma called_unfinished b e w b' w' : body_call b e w = Some (b', w') -> finished b = false.
Proof. by destruct b as [[]|[]|[]]. Qed.

(** Where a turn with a call left comes from: it was in flight before, or it
    was started by a process whose flag was up. *)
Definition starts_led (i : nat) (c : component) (f : fleet) (b : body) : Prop :=
  exists le p, (f_cluster f).1 !! i = Some le /\ f_procs f !! i = Some p /\ IsLeader le = true /\
    c ∈ p_loops p /\ b = tick_body c true p.

Lemma step_turns f f' i c t :
  fleet_step f f' -> gated c = true -> t ∈ f_tasks f' -> turn_of i c t ->
  (exists t0, t0 ∈ f_tasks f /\ turn_of i c t0 /\ continues (t_body t0) (t_body t)) \/
  starts_led i c f (t_body t).
Proof.
  intros Hs Hg Hin Ht.
  assert (Hold : t ∈ f_tasks f ->
    exists t0, t0 ∈ f_tasks f /\ turn_of i c t0 /\ continues (t_body t0) (t_body t)) by (intros; by exists t).
  destruct Hs as [| | | |j c0 le p rs ad ps B ts w Hle Hp Hc Hn| |ts1 t0 ts2 b e w w' cl ps B Hb| |j k q p cl ps B ts w Hp Ha Hi| | | | | |];
    cbn [f_tasks f_cluster f_procs] in *; try (left; by apply Hold).
  - apply elem_of_app in Hin as [Hin|Hin]; [left; by apply Hold|]. apply list_elem_of_singleton in Hin as ->.
    destruct Ht as (_ & [= <-] & _). done.
  - apply elem_of_app in Hin as [Hin|Hin]; [left; by apply Hold|]. apply list_elem_of_singleton in Hin as ->.
    destruct Ht as (<- & [= <-] & Hf). simpl in *. right. exists le, p. destruct (IsLeader le) eqn:El; [done|].
    by rewrite standby_tick_finished in Hf.
  - left. apply elem_of_app in Hin as [Hin|[->|Hin]%elem_of_cons]; [apply Hold; set_solver| |apply Hold; set_solver].
    exists t0. split; [set_solver|]. destruct Ht as (Ho & Hr & _). simpl in *.
    split; [split; [done|]; split; [done|by eapply called_unfinished]|]. apply rtc_once. by eexists _, _, _.
  - left. apply Hold. set_solver.
  - apply elem_of_app in Hin as [Hin|Hin]; [left; by apply Hold|]. apply list_elem_of_singleton in Hin as ->.
    by destruct Ht as (_ & [=] & _).
  - left. apply Hold. by apply list_elem_of_filter in Hin as [_ Hin].
  - left. apply Hold. by apply list_elem_of_filter in Hin as [_ Hin].
Qed.

(** Every turn with a call left was already in flight in [f]. *)
Definition from_before (i : nat) (f f' : fleet) : Prop :=
  forall c t, gated c = true -> t ∈ f_tasks f' -> turn_of i c t ->
    exists t0, t0 ∈ f_tasks f /\ turn_of i c t0 /\ continues (t_body t0) (t_body t).

Lemma standby_step i f f' : fleet_step f f' -> led i f = false -> from_before i f f'.
Proof.
  intros Hs Hl c t Hg Hin Ht. destruct (step_turns f f' i c t Hs Hg Hin Ht) as [|(le & p & Hle & _ & E & _)];
    [done|]. unfold led in Hl. rewrite Hle in Hl. congruence.
Qed.

Lemma from_before_trans i f1 f2 f3 : from_before i f1 f2 -> from_before i f2 f3 -> from_before i f1 f3.
Proof.
  intros H12 H23 c t Hg Hin Ht. destruct (H23 c t Hg Hin Ht) as (t2 & Hin2 & Ht2 & Hc2).
  destruct (H12 c t2 Hg Hin2 Ht2) as (t1 & Hin1 & Ht1 & Hc1). exists t1. split; [done|]. split; [done|].
  by etransitivity.
Qed.

Lemma from_before_refl i f : from_before i f f.
Proof. intros c t _ Hin Ht. by exists t. Qed.

(** The elector of [i] has returned, or the process is gone. *)
Definition retired (i : nat) (f : fleet) : Prop :=
  i ∈ f_booted f /\ forall p, f_procs f !! i = Some p -> p_elector p = false.

Lemma retired_step i f f' : fleet_step f f' -> retired i f -> retired i f'.
Proof.
  intros Hs [Hb Hp].
  assert (Hset : forall (ps : gmap nat process) j p p', ps !! j = Some p -> (p_elector p = false -> p_elector p' = false) ->
    (forall q, ps !! i = Some q -> p_elector q = false) ->
    forall q, <[j := p']> ps !! i = Some q -> p_elector q = false).
  { intros ps j p p' Hj Hpp Hall q Hq. apply lookup_insert_Some in Hq as [[-> <-]|[_ Hq]]; eauto. }
  destruct Hs; cbn [f_booted f_procs] in *; (split; [set_solver|cbn [f_procs]; try done]);
    try (by eapply Hset).
  - intros q Hq. apply lookup_insert_Some in Hq as [[-> _]|[_ Hq]]; [contradiction|by apply Hp].
  - eapply Hset; [done| |done]. by rewrite (body_done_elector _ _ _ H1).
  - intros q Hq. apply lookup_delete_Some in Hq as [_ Hq]. by apply Hp.
  - intros q Hq. apply lookup_delete_Some in Hq as [_ Hq]. by apply Hp.
Qed.

Lemma retired_not_led i f : fleet_ok f -> retired i f -> led i f = false.
Proof.
  intros [H1 _ _ _ H5] [_ Hp]. unfold led. destruct ((f_cluster f).1 !! i) as [le|] eqn:E; [|done].
  destruct (proj1 (H1 i) ltac:(by rewrite E)) as [p Hi]. by apply (H5 i p le); [..|apply Hp].
Qed.

(** C6: scheduling starts under the lock.  In every execution of any number of
    replicas, a turn of the scheduling loop, the reaper, the retry poller or
    the autoscaler that gets to make a call is started only in a process whose
    elector is still running and keeps the connection it locked on; and as long
    as that session is alive it holds the advisory lock, and no other replica
    with a live session believes to be leader. *)
Theorem turns_start_under_lock f f' i c t :
  fleet_reachable f -> fleet_step f f' -> gated c = true ->
  t ∈ f_tasks f' -> turn_of i c t -> (forall t0, t0 ∈ f_tasks f -> ~ turn_of i c t0) ->
  exists le p s, (f_cluster f).1 !! i = Some le /\ f_procs f !! i = Some p /\
    t_body t = tick_body c true p /\ p_elector p = true /\ le_conn le = Some s /\
    (s ∈ ad_alive (f_cluster f).2 -> ad_holder (f_cluster f).2 = Some (s, 1%nat) /\
       forall j, live_leader (f_cluster f) j -> j = i).
Proof.
  intros Hf Hs Hg Hin Ht Hnone. destruct (fleet_reachable_inv f Hf) as (Hok & _ & Hc%cluster_reachable_ok).
  destruct (step_turns f f' i c t Hs Hg Hin Ht) as [(t0 & Hin0 & Ht0 & _)|(le & p & Hle & Hp & El & _ & Eb)];
    [by destruct (Hnone t0 Hin0)|].
  pose proof Hc as (_ & Hel & _). destruct (proj1 (ok_belief _ _ (Hel i le Hle)) El) as [s Es].
  exists le, p, s. split_and!; [done..| |done|].
  - destruct (p_elector p) eqn:Ep; [done|]. by rewrite (fo_returned f Hok i p le Hp Hle Ep) in El.
  - intros Ha. split; [by eapply live_leader_holds|]. intros j Hj. eapply live_leaders_agree; [done|exact Hj|].
    by exists le, s.
Qed.

(** C7: a replica that is not the leader starts no scheduling.  While a
    replica's flag is down, its scheduling loop, reaper, retry poller and
    autoscaler make calls only to finish turns that were in flight when it went
    down.  Once its elector has returned at shutdown the flag stays down, and
    the same holds for good, whatever the other replicas, the network and the
    stores do and although the process may go on serving. *)
Theorem only_leaders_schedule f f' i :
  fleet_reachable f ->
  (rtc (fun a b => fleet_step a b /\ led i a = false) f f' -> from_before i f f') /\
  (retired i f -> rtc fleet_step f f' -> led i f' = false /\ from_before i f f').
Proof.
  intros Hf. split.
  - clear Hf. induction 1 as [|f1 f2 f3 [Hs Hl] _ IH]; [apply from_before_refl|].
    eapply from_before_trans; [by apply standby_step|done].
  - intros Hret Hr. destruct (fleet_reachable_inv f Hf) as (Hok & _ & Hc). clear Hf.
    induction Hr as [|f1 f2 f3 Hs _ IH]; [split; [by apply retired_not_led|apply from_before_refl]|].
    destruct IH as [Hl Hb].
    + by eapply retired_step.
    + by eapply fleet_step_ok.
    + destruct (fleet_step_refines _ _ Hs Hok) as [Hcs _]. unfold cluster_reachable in *. by etransitivity.
    + split; [done|]. eapply from_before_trans; [|done]. by apply standby_step, retired_not_led.
Qed.
End fleet.

(** ** Two processes: 0 leads, starts a turn and is told to stop *)
Definition demo_settings : serving :=
  mkServing (mkPoolConfig "postgres://localhost/fleetforge" 20 (30 * 60 * Second)) "localhost:6379" None
    (mkServer 5 20) (2 * Second) (5 * Second) 20 (2 * Second) (10 * Second) DefaultAutoscalerConfig (15 * Second)
    "scheduler-leader" ":9090" ":8080" "".

Lemma demo_boots : boots demo_settings.
Proof.
  exists local_env, all_up, (events (scheduler_main local_env all_up) start_oracle empty_world).
  assert (E : (run (scheduler_main local_env all_up) start_oracle empty_world).1 = inr demo_settings)
    by (vm_compute; reflexivity).
  rewrite <- E. apply events_trace.
Qed.

Definition first_collect (i : nat) : task := collector_start i (started demo_settings).
Definition first_turn : task := mkTask 0 (Background CLoop) (tick_body CLoop true (started demo_settings)).
Definition demo_procs : gmap nat process :=
  <[1%nat := started demo_settings]> (<[0%nat := started demo_settings]> ∅).
Definition demo_booted : gset nat := {[1%nat]} ∪ ({[0%nat]} ∪ ∅).

Definition led_fleet : fleet :=
  mkFleet MemRedis led_by_0 demo_procs demo_booted [first_collect 0; first_collect 1] start_world.
Definition turning : fleet :=
  mkFleet MemRedis led_by_0 demo_procs demo_booted ([first_collect 0; first_collect 1] ++ [first_turn])
    start_world.

(** The elector releases the lock and returns while the turn is in flight. *)
Definition retiring : fleet :=
  mkFleet MemRedis (<[0%nat := (release le_calm leader0 led_by_0.2).1]> led_by_0.1,
      (release le_calm leader0 led_by_0.2).2)
    (<[0%nat := elector_returns (cancel (started demo_settings))]>
       (<[0%nat := cancel (started demo_settings)]> demo_procs))
    demo_booted ([first_collect 0; first_collect 1] ++ [first_turn]) start_world.

(** The turn makes its next call: it reads the streams. *)
Definition read_task : task :=
  match body_call (t_body first_turn) (env_at 0 "") start_world with
  | Some (b, _) => mkTask 0 (Background CLoop) b
  | None => first_turn
  end.
Definition still_reading : fleet :=
  mkFleet MemRedis (f_cluster retiring) (f_procs retiring) (f_booted retiring)
    ([first_collect 0; first_collect 1] ++ [read_task])
    (match body_call (t_body first_turn) (env_at 0 "") start_world with
     | Some (_, w) => w | None => start_world end).

Lemma led_fleet_reachable : fleet_reachable led_fleet.
Proof.
  exists (mkFleet MemRedis (∅, no_sessions) ∅ ∅ [] start_world). split; [by repeat split|].
  eapply rtc_l; [apply (fs_boot 0%nat demo_settings); [set_solver|exact demo_boots]|].
  eapply rtc_l; [apply (fs_boot 1%nat demo_settings); [set_solver|exact demo_boots]|].
  eapply rtc_l; [apply (fs_check 0%nat le_calm NewLeaderElector (started demo_settings)); reflexivity|].
  apply rtc_refl.
Qed.

Lemma turning_step : fleet_step led_fleet turning.
Proof.
  apply (fs_tick 0%nat CLoop leader0 (started demo_settings)); [reflexivity|reflexivity|left|].
  intros Hin. apply elem_of_cons in Hin as [E|Hin]; [done|].
  apply elem_of_cons in Hin as [E|Hin]; [done|by apply not_elem_of_nil in Hin].
Qed.

Lemma retiring_reachable : fleet_reachable retiring.
Proof.
  destruct led_fleet_reachable as (f0 & Hi & Hr). exists f0. split; [done|].
  etransitivity; [exact Hr|]. eapply rtc_l; [exact turning_step|].
  eapply rtc_l; [apply (fs_signal 0%nat (started demo_settings)); reflexivity|].
  apply rtc_once. apply (fs_release 0%nat le_calm leader0 (cancel (started demo_settings))); reflexivity.
Qed.

Lemma still_reading_step : fleet_step retiring still_reading.
Proof.
  apply (fs_call [first_collect 0; first_collect 1] first_turn [] (t_body read_task) (env_at 0 "")).
  reflexivity.
Qed.

Lemma turns_start_under_lock_witness :
  exists le p s, led_by_0.1 !! 0%nat = Some le /\ demo_procs !! 0%nat = Some p /\
    t_body first_turn = tick_body CLoop true p /\ p_elector p = true /\ le_conn le = Some s /\
    (s ∈ ad_alive led_by_0.2 -> ad_holder led_by_0.2 = Some (s, 1%nat) /\
       forall j, live_leader led_by_0 j -> j = 0%nat).
Proof.
  apply (turns_start_under_lock led_fleet turning 0%nat CLoop first_turn led_fleet_reachable turning_step
    eq_refl).
  - right. right. left.
  - repeat split.
  - intros t Ht (_ & Hr & _). apply elem_of_cons in Ht as [->|Ht]; [discriminate|].
    apply elem_of_cons in Ht as [->|Ht]; [discriminate|by apply not_elem_of_nil in Ht].
Defined.

Lemma only_leaders_schedule_witness :
  turn_of 0%nat CLoop read_task /\ led 0%nat turning = true /\
  led 0%nat still_reading = false /\ from_before 0%nat retiring still_reading.
Proof.
  split; [repeat split|]. split; [reflexivity|].
  apply (only_leaders_schedule retiring still_reading 0%nat retiring_reachable).
  - split; [set_solver|]. intros p Hp. cbn in Hp. rewrite lookup_insert_eq in Hp. by injection Hp as <-.
  - apply rtc_once. exact still_reading_step.
Defined.
